(* ===== verification/_CoqProject ===== *)
-Q . S2P
Prelude.v
RwSpec.v
Types.v
Post.v
Lock.v
LockProofs.v
Agent.v
LockApi.v
LockApiProofs.v
LmRefine.v
ParQueue.v
ParServer.v
ParRefine.v
ParProps.v
NetWire.v
NetServer.v
NetRefine.v
NetProps.v
NetSwitch.v
NetSwitchRefine.v
NetSwitchProps.v
RpcServer.v
Net.v
Switch.v
System.v
Fission.v
Progress.v
ControlPlane.v
Frames.v
ParFrames.v
Messages.v
Readers.v
ReadersSwitch.v
ReadersHost.v
ReadersReturn.v
ReadersAgent.v
ReadersCalls.v
ReadersLive.v
ReadWrite.v
ReadersProgress.v
Bmv2.v
Bmv2Capture.v
Bmv2Sys.v
Recovery.v
RecoveryProofs.v
Tpcc.v
TpccProofs.v
Tatp.v
TatpTables.v
TatpProofs.v
Doubles.v
Timers.v
TimersText.v
TimersProofs.v
TxnBench.v
TxnBenchProofs.v
TxnBenchRuns.v
TxnBenchTpcc.v
