(* ===== verification/Prelude.v ===== *)
(** * FissLock: a verification library

    FissLock is a distributed reader/writer lock.  A lock is split in two: a
    programmable switch decides every request (it knows whether the lock is
    free, its mode and the host that is its agent), and the agent, a host that
    holds the lock, keeps its holders and its wait queue.  The repository holds
    the host library (lib), its failure coordinator (rpc), the switch programs
    (switch), a port to the BMv2 software switch (lib/bmv2, switch/p4_bmv2), and
    two baselines that manage locks on servers, ParLock and NetLock (baseline).
    Paths here and in the other files are relative to src.

    ** The program and its model

    A task calls lib/lock.cc; that file keeps the metadata of the locks and
    sends packets through lib/post.c and lib/net.cc; the switch answers,
    forwards or broadcasts them; the polling thread of the receiving host hands
    each one to [lock_packet_process].  A packet that a handler wants sent on is
    rewritten in place and goes back to the switch.

    - [Types], [Post]: the packets (include/types.h, lib/lock.h, lib/post.h,
      lib/post.c), as structured values and as bytes.
    - [Lock]: the metadata of one lock, record [innet_lock], and its handlers,
      one definition for each function of lib/lock.cc up to line 730
      (process_acquire, process_release, handle_acquire_lm, ...).  [LockProofs]
      has the invariant of the metadata, [Agent] the behaviours of the agent.
    - [LockApi]: the two lock tables with the heap they point into, and the
      functions an application calls, record [host] (lib/lock.cc to line 1126).
      [LockApiProofs]: the invariant of a host, request handles, the local and
      remote release paths.
    - [LmRefine]: locks the switch does not manage, which a host manages for the
      others (the lm mode of lib/lock.cc).
    - [Net]: dispatch, framing and in-place forwarding (lib/net.cc).
    - [RpcServer]: the coordinator (rpc/main.cc).  [Recovery],
      [RecoveryProofs]: failure recovery on the hosts (lib/lock.cc from line
      1128, lib/fault.cc) as programs of remote procedure calls, run
      concurrently against the coordinator.
    - [Switch]: the registers, tables and actions of both switch programs
      (switch/p4, switch/p4_bmv2) and the multicast groups that replicate a
      packet.
    - [ControlPlane]: the program that installs those groups and the forwarding
      table (switch/control/bfrt.c, cluster.h), against interfaces for the
      runtime it calls: the classes [McManager] and [MatTable] with their laws.
    - [Frames]: frames of lib/net.cc as bytes, the parser and deparsers of the
      switch (switch/p4/parser.p4, headers.p4), and the whole switch program on
      a frame.  [ParFrames]: the frames of ParLock, which the same switch
      forwards by address.
    - [System]: hosts, switch, packets in flight and tasks as one transition
      system.  With the Tofino switch: [Fission] for systems of exclusive
      requests, [Progress] for their progress; for readers and writers
      [Messages] (the packets that occur), [Readers] (the invariant),
      [ReadersSwitch], [ReadersHost], [ReadersReturn], [ReadersAgent] and
      [ReadersCalls] (the switch, each kind of packet at a host, and the calls
      preserve it), [ReadersLive] (a second invariant: a lock that is taken is
      held or about to be), [ReadWrite] (the runs they cover) and
      [ReadersProgress] (where requests are, and what a silent lock waits for).
    - [Bmv2], [Bmv2Capture], [Bmv2Sys]: the BMv2 port (lib/bmv2): frames,
      checksums, rereading of capture files, host functions, and the system with
      the BMv2 switch program.
    - [ParQueue], [ParServer], [ParRefine], [ParProps]: ParLock
      (baseline/ParLock/lib).
    - [NetWire], [NetServer], [NetRefine], [NetProps]: the frames, lock server
      and clients of NetLock (baseline/NetLock/lib and server, and the actions
      of its switch that route requests to the primary server).
    - [NetSwitch], [NetSwitchRefine], [NetSwitchProps]: the queues that NetLock
      keeps in its switch (baseline/NetLock/switch), their contract, and the
      switch between its clients and the secondary server.
    - [Tpcc], [TpccProofs] and [Tatp], [TatpTables], [TatpProofs]: the programs
      that write the lock traces of the TPC-C and TATP workloads
      (experiments/trace_gen).
    - [Timers], [TimersText], [TimersProofs]: the latency timers of
      utils/statistics.cc, the log they print, and the program that computes the
      latencies from it (experiments/results/timer_parser); [Doubles] is its
      floating-point arithmetic.
    - [TxnBench]: the transaction benchmark (tests/txnbench.cc), the reader of the
      trace and the coroutines that execute transactions, as a client of any lock
      managers behind the interface of [RwSpec].  [TxnBenchProofs] has its
      two-phase locking, [TxnBenchRuns] its runs, [TxnBenchTpcc] the way from the
      TPC-C generator to ParLock.
    - [RwSpec]: the abstract lock manager and its client interface: the function
      [spec_step], the class [RwLockImpl] with the laws [RwLockLaws], and the
      safety theorems every manager that obeys the laws inherits.

    State is passed explicitly.  Handlers run in the error monad of this file:
    [Ok] or a [Fault] where the program would dereference a null or dangling
    pointer, throw, or index behind a container, so that absence of faults is a
    theorem and not an assumption; loops are [for_each], structural recursion,
    or fuel.  Integers are [Z]; every store into a bit-field or fixed-width
    variable wraps at its width, except the counters listed under Bounds.

    ** What the theorems show

    - Safety of the distributed lock: with the Tofino switch, for up to 63 hosts
      with any number of tasks, every interleaving and every delivery order,
      exclusive requests are never granted to two tasks
      ([Fission.exclusive_safe]), and no request is lost or duplicated
      ([Fission.requests_conserved]).  Readers and writers exclude each other
      ([ReadWrite.readers_writers_safe]) when each link from the switch to a host
      keeps the order, a task waits for the end of its release before it requests
      again, and no host falls 256 notifications behind; without the last two
      they do not ([Fission.shared_reuse_violation],
      [ReadWrite.notification_wrap_violation]).  In the same runs the requests
      of readers and writers are conserved as well
      ([ReadersProgress.rw_requests_conserved]).
    - Progress of the distributed lock: when no packet is in flight, whoever
      waits does so because a task has the lock or gets it by polling, or because
      a host that is no longer the agent has put its request aside
      ([Progress.no_deadlock] for exclusive requests,
      [ReadersProgress.rw_no_deadlock] for readers and writers); the last can
      happen ([Fission.suspended_request_starves]).  With exclusive requests only
      a bounded number of deliveries is possible before no packet is left
      ([Progress.deliveries_end]).
    - The switch between the hosts: what the control plane installs is what the
      data plane relies on ([ControlPlane.control_plane_installs]); a frame that
      a host sends holds its packet for the parser of the switch
      ([Frames.sent_frame]), and the switch program does with the bytes what
      [Switch.tofino] does with the packet ([Frames.lock_frames_switched]); a
      frame of ParLock reaches its destination ([ParFrames.par_message_delivered]).
    - Refinement: the lm mode, the ParLock server and the NetLock server, each
      with its clients and its messages, produce exactly the grants of
      [RwSpec.spec_step] ([LmRefine.lm_refines], [ParRefine.par_refines],
      [NetRefine.net_refines]) and so exclude readers and writers ([lm_safe],
      [par_safe], [net_safe]).  A lock in NetLock's switch whose requests fit
      its slots is granted in the order of arrival
      ([NetSwitchRefine.nlk_switch_refines]).
    - A client of the interface: the transactions of the benchmark are isolated and
      leave no lock behind, on any managers that obey the laws
      ([TxnBenchRuns.bench_isolated], [TxnBenchRuns.bench_ends]), and so are the
      transactions of TPC-C from the generated trace to ParLock's servers
      ([TxnBenchTpcc.tpcc_on_parlock]).  Isolation needs a library whose acquire
      returns null only for a grant; ParLock's returns null for lock 0 and task 0
      too ([TxnBenchRuns.null_handle_goes_on]).
    - The agent: a takeover keeps every waiter in order, a release that the
      switch pushes back is undone, an early release commutes with the
      notification it overtook, a delayed free is retried, requests are sent
      back a bounded number of times, local and remote releases agree ([Agent],
      [LockApiProofs]).
    - Invariants and absence of faults: of the metadata under every packet
      ([LockProofs.lock_packet_process_total]), of a host's tables and heap
      under every call and packet ([LockApiProofs.host_invariant]), of ParLock's
      per-queue mutexes in every policy ([ParProps.par_mutex_discipline]), of
      NetLock's server on arbitrary frames ([NetProps.server_total]).
    - Packets and frames: round trips of the transfer packet, of a NetLock
      request and its grant, and of a frame through libpcap; frame lengths;
      checksums ([Post], [NetWire], [Net], [Bmv2]).
    - Registration, recovery and capture polling: what the coordinator records,
      what a check restores, and that each captured packet is dispatched once
      ([RpcServer], [RecoveryProofs], [Bmv2Capture]).
    - Workloads and measurements: the requests of a TPC-C transaction are for
      distinct locks of the right kind, and the locks the TPC-C shortcut of
      lib/lock.cc keeps local are used by one machine only ([TpccProofs]); every
      subscriber, access-info and facility row of TATP has a lock that none of the
      others has, and a host's trace is, in order, the requests of its transactions
      for the rows they use ([TatpTables], [TatpProofs]); the parser's latency and
      waiting time of every granted request are those that the recorded times give
      ([TimersProofs]).
    - Limits of the code, as runs of the model: two tasks that exclude each other
      hold a lock after a task reuses it or after 256 notifications, a suspended
      request starves, recovery restores two agents or misses a holder, locks of
      the BMv2 build are usable once and a timeout breaks exclusion, withdrawn
      and stray releases in the baselines, NetLock's clients ignore grants of
      queued requests and its server sends back more requests than fit, a TATP
      insertion never inserts, one ungranted request stops the parser, a null
      handle lets a transaction go on without its lock, the control plane aborts
      with more than 62 machines ([ControlPlane.too_many_machines]), and the
      benchmark's last coroutine abandons the others with their locks
      ([TxnBenchRuns.bench_stop_abandons]).

    ** Bounds and fuel

    - [Progress.network_work] bounds the deliveries that a state allows,
      [TxnBenchProofs.work] the calls of a coroutine.
    - [ParQueue.dequeue_shared_loop]: the length of the queue plus one, shown to
      be enough by [ParQueue.dequeue_shared_is_partition].
    - [Tpcc]: the loops that draw until a number is new have the bound [fuel];
      [TpccProofs.settles] says that the program returns from some fuel on, with
      the same result for all larger ones, and is shown for every generator of
      random numbers that eventually draws what a loop waits for.
    - [NetSwitch.switch_packet]: a packet that goes round through the switch has
      the passes that are its argument; the refinement gives each release as many
      as the lock has slots, and one more.
    - [Timers.digits]: 64 digits, enough for numbers of 64 bits.
    - [TimersProofs.latencies_accounted] has times below 2^50 ns, thirteen days, so
      that their sums in doubles are exact.
    - [Bmv2.checksum_fold] folds three times; a sum of at most 65536 words needs
      two.
    - The counters of the baselines' queues and frames are integers without bound
      in the model; the program's wrap, at the earliest after 2^31 steps.  The
      notification count of [innet_lock] wraps at 32 bits, the one in a packet
      at 8, the count of requests sent back at 16.
    - [Fission] and [ReadWrite] have up to 63 hosts: the switch's multicast
      groups are the host numbers and the host numbers plus 128, and its
      broadcast groups begin at 192.  The forwarding table has 32 entries, so
      [ControlPlane] and [Frames] have up to 32 machines.  [ReadWrite] has at most 1,024 requesters,
      the waiters a transfer can carry into one burst of grants.

    ** Not modelled

    - Event counters, throughput records, profilers and log lines, which decide
      nothing; in the lock libraries the timers are left out as well, and ASSERT
      only evaluates its condition in the default build.
    - DPDK, libpcap and the RDMA transport: transmission succeeds.  The checksum
      unit of the switch is an arbitrary function.
    - The parser of the BMv2 program, whose frames [Bmv2] models at the host.
    - Two threads inside one handler: a handler holds the lock's mutex for its
      whole body (lib/lock.cc, ParLock's queue mutexes), so it is one step.  The
      condition-variable variants of the wait functions wait for the same flag
      as the busy loops.
    - The size of a packet buffer in [Post]; the frames of [Bmv2] have theirs.
    - The ports and the start-up of both switches' control planes; the
      statistics traffic of NetLock's switch.
    - The microbenchmark, the Redis application, JNI argument conversion, Java and
      Python scripts: they call the library or start it.

    ** What could follow

    Timeouts and recovery inside [System], the end of deliveries under fairness
    when readers take part, and FissLock itself as an instance of the interface of
    [RwSpec] with delayed grants. *)

From Stdlib Require Export ZArith Lia.
From stdpp Require Export base gmap sets list numbers option.

#[global] Open Scope Z_scope.

(** ** Machine integers

    A w-bit unsigned integer of the source is a [Z]; every assignment to a
    w-bit variable or bit-field wraps with [uw]. *)

Definition uw (w : Z) (z : Z) : Z := z mod 2 ^ w.

Abbreviation u2 := (uw 2).
Abbreviation u8 := (uw 8).
Abbreviation u16 := (uw 16).
Abbreviation u30 := (uw 30).
Abbreviation u32 := (uw 32).
Abbreviation u64 := (uw 64).

(** A signed w-bit value: two's complement reading of the low w bits. *)
Definition sw (w : Z) (z : Z) : Z :=
  (z + 2 ^ (w - 1)) mod 2 ^ w - 2 ^ (w - 1).

Abbreviation i16 := (sw 16).
Abbreviation i32 := (sw 32).

(** [in_uw w z]: [z] is representable as a w-bit unsigned integer. *)
Definition in_uw (w z : Z) : Prop := 0 <= z < 2 ^ w.

#[global] Arguments uw : simpl never.
#[global] Arguments sw : simpl never.

Create HintDb machine discriminated.
#[export] Hint Constants Opaque : machine.

Lemma uw_range w z : 0 <= w -> in_uw w (uw w z).
Proof. intros Hw. unfold in_uw, uw. apply Z.mod_pos_bound. lia. Qed.

Lemma uw_small w z : in_uw w z -> uw w z = z.
Proof. unfold in_uw, uw. apply Z.mod_small. Qed.

Lemma uw_uw w z : uw w (uw w z) = uw w z.
Proof. unfold uw. apply Zmod_mod. Qed.

Lemma uw_add_l w a b : uw w (uw w a + b) = uw w (a + b).
Proof. unfold uw. apply Zplus_mod_idemp_l. Qed.

Lemma uw_add_r w a b : uw w (a + uw w b) = uw w (a + b).
Proof. unfold uw. apply Zplus_mod_idemp_r. Qed.

(** Truncating to fewer bits after truncating to more is truncating to fewer. *)
Lemma uw_narrow w v z : 0 <= w <= v -> uw w (uw v z) = uw w z.
Proof.
  intros [Hw Hv]. unfold uw.
  replace (2 ^ v) with (2 ^ w * 2 ^ (v - w)).
  - rewrite Z.rem_mul_r by lia. rewrite Z.mul_comm, Z.mod_add by lia.
    apply Zmod_mod.
  - rewrite <- Z.pow_add_r by lia. f_equal. lia.
Qed.

Lemma sw_small w z :
  0 < w -> - 2 ^ (w - 1) <= z < 2 ^ (w - 1) -> sw w z = z.
Proof.
  intros Hw Hz. unfold sw. rewrite Z.mod_small; [lia|].
  replace (2 ^ w) with (2 ^ (w - 1) + 2 ^ (w - 1)); [lia|].
  replace w with (Z.succ (w - 1)) at 3 by lia. rewrite Z.pow_succ_r by lia. lia.
Qed.

#[export] Hint Resolve uw_range : machine.

(** The i-th byte of an integer, and a little-endian combination of bytes. *)
Fixpoint le_bytes (n : nat) (z : Z) : list Z :=
  match n with
  | O => []
  | S n' => z mod 256 :: le_bytes n' (z / 256)
  end.

Fixpoint le_value (bs : list Z) : Z :=
  match bs with
  | [] => 0
  | b :: bs' => b + 256 * le_value bs'
  end.

Lemma length_le_bytes n z : length (le_bytes n z) = n.
Proof. revert z. induction n as [|n IH]; intros z; simpl; [done|]. by rewrite IH. Qed.

Lemma le_value_bytes n z : le_value (le_bytes n z) = z mod 256 ^ Z.of_nat n.
Proof.
  revert z. induction n as [|n IH]; intros z.
  - simpl. by rewrite Z.mod_1_r.
  - cbn [le_bytes le_value]. rewrite IH.
    rewrite Nat2Z.inj_succ, Z.pow_succ_r by lia.
    by rewrite Z.rem_mul_r by lia.
Qed.

Lemma le_bytes_value bs :
  Forall (fun b => 0 <= b < 256) bs -> le_bytes (length bs) (le_value bs) = bs.
Proof.
  induction 1 as [|b bs Hb Hbs IH]; [done|].
  cbn [length le_value le_bytes]. rewrite (Z.mul_comm 256), Z.mod_add, Z.div_add by lia.
  rewrite Z.mod_small, Z.div_small by lia. by rewrite Z.add_0_l, IH.
Qed.

Lemma le_bytes_range n z : Forall (fun b => 0 <= b < 256) (le_bytes n z).
Proof.
  revert z. induction n as [|n IH]; intros z; simpl; constructor; auto.
  apply Z.mod_pos_bound. lia.
Qed.

Lemma le_value_bound bs :
  Forall (fun b => 0 <= b < 256) bs ->
  0 <= le_value bs < 256 ^ Z.of_nat (length bs).
Proof.
  induction 1 as [|b bs Hb Hbs IH]; [simpl; lia|].
  cbn [length le_value]. rewrite Nat2Z.inj_succ, Z.pow_succ_r by lia. lia.
Qed.

#[global] Arguments le_bytes : simpl never.
#[global] Arguments le_value : simpl never.

(** ** Faults and the effect monad

    Handlers that may terminate the process or misuse a mutex are written in a
    monad over a state [S] that logs events of type [E]. *)

Inductive fault :=
  | FaultExit        (** the ERROR macro: the process prints and exits *)
  | FaultNull        (** dereference of a null or end pointer *)
  | FaultDeadlock    (** a second lock of a mutex already held by the caller *)
  | FaultUnlock      (** unlock of a mutex that is not held *)
  | FaultBounds      (** an access outside of a fixed-size array *)
  | FaultDivZero     (** an integer division by zero *)
  | FaultDangling    (** use of an iterator to an erased element *)
  | FaultOverflow    (** a signed integer leaves its range *)
  | FaultAssert      (** a failed assertion *)
  | FaultFuel.       (** the bound on a loop of the model; no behaviour of the code *)

#[global] Instance fault_eq_dec : EqDecision fault.
Proof. solve_decision. Defined.

Inductive result (A : Type) :=
  | Ok (a : A)
  | Fault (f : fault).
Arguments Ok {A} a.
Arguments Fault {A} f.

(** Sequencing of computations that may fault, with stdpp's notation
    [x ← m; k]. *)
#[global] Instance result_ret : MRet result := fun A a => Ok a.
#[global] Instance result_bind : MBind result := fun A B k m =>
  match m with Ok a => k a | Fault f => Fault f end.

Definition M (S E A : Type) : Type := S -> result (A * S * list E).

Section monad.
Context {S E : Type}.

Definition ret {A} (a : A) : M S E A := fun s => Ok (a, s, []).

Definition bind {A B} (m : M S E A) (k : A -> M S E B) : M S E B := fun s =>
  match m s with
  | Fault f => Fault f
  | Ok (a, s', out) =>
      match k a s' with
      | Fault f => Fault f
      | Ok (b, s'', out') => Ok (b, s'', out ++ out')
      end
  end.

Definition fail {A} (f : fault) : M S E A := fun _ => Fault f.
Definition emit (e : E) : M S E unit := fun s => Ok (tt, s, [e]).
Definition get : M S E S := fun s => Ok (s, s, []).
Definition put (s : S) : M S E unit := fun _ => Ok (tt, s, []).

(** [for_each]: a range-based [for] loop over a vector. *)
Fixpoint for_each {A} (l : list A) (body : A -> M S E unit) : M S E unit :=
  match l with
  | [] => ret tt
  | x :: l' => bind (body x) (fun _ => for_each l' body)
  end.

Lemma bind_ok {A B} (m : M S E A) (k : A -> M S E B) s a s' out :
  m s = Ok (a, s', out) ->
  bind m k s = match k a s' with
               | Fault f => Fault f
               | Ok (b, s'', out') => Ok (b, s'', out ++ out')
               end.
Proof. intros H. unfold bind. by rewrite H. Qed.

Lemma bind_ok_ok {A B} (m : M S E A) (k : A -> M S E B) s a s' out b s'' out' :
  m s = Ok (a, s', out) -> k a s' = Ok (b, s'', out') ->
  bind m k s = Ok (b, s'', out ++ out').
Proof. intros H1 H2. rewrite (bind_ok _ _ _ _ _ _ H1). by rewrite H2. Qed.

Lemma bind_assoc {A B C} (m : M S E A) (k : A -> M S E B) (h : B -> M S E C) s :
  bind (bind m k) h s = bind m (fun a => bind (k a) h) s.
Proof.
  unfold bind. destruct (m s) as [[[a s'] o]|f]; [|done].
  destruct (k a s') as [[[b s''] o']|f]; [|done].
  destruct (h b s'') as [[[c s'''] o'']|f]; [|done].
  by rewrite app_assoc.
Qed.

(** Continuations that agree on every value and state can be exchanged. *)
Lemma bind_ext {A B} (m : M S E A) (k k' : A -> M S E B) s :
  (forall a s', k a s' = k' a s') -> bind m k s = bind m k' s.
Proof. intros Hk. unfold bind. destruct (m s) as [[[a s'] o]|f]; [|done]. by rewrite Hk. Qed.

Lemma bind_ret_l {A B} (a : A) (k : A -> M S E B) s : bind (ret a) k s = k a s.
Proof. unfold bind, ret. by destruct (k a s) as [[[b s'] o]|f]. Qed.

Lemma for_each_app {A} (l1 l2 : list A) (body : A -> M S E unit) s :
  for_each (l1 ++ l2) body s = bind (for_each l1 body) (fun _ => for_each l2 body) s.
Proof.
  revert s. induction l1 as [|x l1 IH]; intros s; [symmetry; apply (bind_ret_l tt (fun _ => for_each l2 body))|].
  cbn [for_each app]. rewrite bind_assoc. by apply bind_ext.
Qed.

Lemma for_each_map {A B} (f : A -> B) (l : list A) (body : B -> M S E unit) s :
  for_each (map f l) body s = for_each l (fun x => body (f x)) s.
Proof. revert s. induction l as [|x l IH]; intros s; [done|]. cbn [for_each map]. by apply bind_ext. Qed.

(** [wp m Q s]: [m] returns from [s], with a value and a state that satisfy
    [Q]. *)
Definition wp {A} (m : M S E A) (Q : A -> S -> Prop) (s : S) : Prop :=
  match m s with Ok (a, s', _) => Q a s' | Fault _ => False end.

Lemma wp_bind {A B} (m : M S E A) (k : A -> M S E B) (Q : B -> S -> Prop) s :
  wp m (fun a s' => wp (k a) Q s') s -> wp (bind m k) Q s.
Proof.
  unfold wp, bind. destruct (m s) as [[[a s'] o]|f]; [|done].
  by destruct (k a s') as [[[b s''] o']|f].
Qed.

Lemma wp_ok {A} (m : M S E A) (Q : A -> S -> Prop) s :
  wp m Q s -> exists a s' out, m s = Ok (a, s', out) /\ Q a s'.
Proof. unfold wp. destruct (m s) as [[[a s'] o]|f]; [|done]. by exists a, s', o. Qed.

Lemma wp_mono {A} (m : M S E A) (P Q : A -> S -> Prop) s :
  wp m P s -> (forall a s', P a s' -> Q a s') -> wp m Q s.
Proof. unfold wp. destruct (m s) as [[[a s'] o]|f]; auto. Qed.

Lemma wp_ret {A} (a : A) (Q : A -> S -> Prop) s : Q a s -> wp (ret a) Q s.
Proof. done. Qed.

Lemma wp_get (Q : S -> S -> Prop) s : Q s s -> wp get Q s.
Proof. done. Qed.

Lemma wp_put (s' : S) (Q : unit -> S -> Prop) s : Q tt s' -> wp (put s') Q s.
Proof. done. Qed.

Lemma wp_emit e (Q : unit -> S -> Prop) s : Q tt s -> wp (emit e) Q s.
Proof. done. Qed.

Lemma wp_for_each_emit (l : list E) (Q : unit -> S -> Prop) s : Q tt s -> wp (for_each l emit) Q s.
Proof.
  intros HQ. induction l as [|e l IH]; [done|]. simpl. by apply wp_bind, wp_emit.
Qed.
End monad.

Declare Scope prog_scope.
Delimit Scope prog_scope with prog.
Notation "x <- m ;; k" := (bind m (fun x => k))
  (at level 100, m at next level, k at level 200, right associativity) : prog_scope.
Notation "m ;; k" := (bind m (fun _ => k))
  (at level 100, k at level 200, right associativity) : prog_scope.

(** ** Maps read through [operator[]] *)

(** [m[k]] of a C++ map: a missing key is inserted with the value [d]. *)
Definition touch {A} (d : A) (k : Z) (m : gmap Z A) : gmap Z A :=
  match m !! k with Some _ => m | None => <[k := d]> m end.

Definition index {A} (d : A) (k : Z) (m : gmap Z A) : A := default d (m !! k).

Lemma index_touch {A} (d : A) k k' m : index d k (touch d k' m) = index d k m.
Proof.
  unfold index, touch. destruct (m !! k') eqn:E; [done|].
  destruct (decide (k = k')) as [->|Hk].
  - by rewrite lookup_insert_eq, E.
  - by rewrite lookup_insert_ne.
Qed.

Lemma index_insert {A} (d : A) k v m : index d k (<[k := v]> m) = v.
Proof. unfold index. by rewrite lookup_insert_eq. Qed.

Lemma index_insert_ne {A} (d : A) k k' v m :
  k <> k' -> index d k (<[k' := v]> m) = index d k m.
Proof. intros Hk. unfold index. by rewrite lookup_insert_ne. Qed.

Lemma touch_insert {A} (d : A) k v m : touch d k (<[k := v]> m) = <[k := v]> m.
Proof. unfold touch. by rewrite lookup_insert_eq. Qed.

Lemma lookup_touch_Some {A} (d v : A) k k' (m : gmap Z A) :
  touch d k m !! k' = Some v -> m !! k' = Some v \/ k' = k /\ v = d /\ m !! k = None.
Proof.
  unfold touch. destruct (m !! k) eqn:E; [by left|]. intros [[-> ->]|[_ ?]]%lookup_insert_Some; auto.
Qed.

Lemma lookup_touch_is_Some {A} (d : A) k k' (m : gmap Z A) :
  k' = k \/ is_Some (m !! k') -> is_Some (touch d k m !! k').
Proof.
  unfold touch. intros H. destruct (m !! k) eqn:E; [by destruct H as [->|]; [rewrite E|]|].
  destruct (decide (k' = k)) as [->|Hne]; [rewrite lookup_insert_eq; eauto|].
  rewrite lookup_insert_ne by done. by destruct H.
Qed.

(** ** Iterating an unordered_map *)

(** [elements]: the entries of a map in the order of its iterators, which the
    language leaves open. *)
Definition iteration (elements : forall A, gmap Z A -> list (Z * A)) : Prop :=
  forall A (m : gmap Z A), elements A m ≡ₚ map_to_list m.

Lemma elements_spec elements : iteration elements -> forall A (m : gmap Z A),
  NoDup (elements A m).*1 /\ forall k v, (k, v) ∈ elements A m <-> m !! k = Some v.
Proof.
  intros He A m. split.
  - rewrite (He A m). apply NoDup_fst_map_to_list.
  - intros k v. rewrite (He A m). apply elem_of_map_to_list.
Qed.

Definition listing (A : Type) : gmap Z A -> list (Z * A) := map_to_list.

Lemma listing_iteration : iteration listing.
Proof. intros A m. reflexivity. Qed.

(** ** Generic list lemmas *)

(** [erase_first p l]: the list without its first element satisfying [p], and
    that element's index; [None] when there is none. It is the reference
    definition of the erase loops of the source. *)
Fixpoint erase_first {A} (p : A -> bool) (l : list A) : option (nat * list A) :=
  match l with
  | [] => None
  | x :: l' =>
      if p x then Some (O, l')
      else match erase_first p l' with
           | None => None
           | Some (i, l'') => Some (S i, x :: l'')
           end
  end.

Lemma erase_first_None {A} (p : A -> bool) l :
  erase_first p l = None <-> Forall (fun x => p x = false) l.
Proof.
  induction l as [|x l IH]; simpl; [by split|].
  destruct (p x) eqn:Hp.
  - split; [done|]. intros HF. inversion_clear HF. congruence.
  - split.
    + destruct (erase_first p l) as [[i l']|]; [done|]. intros _. constructor; [done|]. by apply IH.
    + intros HF. inversion_clear HF as [|? ? _ HF']. apply IH in HF'. by rewrite HF'.
Qed.

Lemma erase_first_Some {A} (p : A -> bool) l i l' :
  erase_first p l = Some (i, l') ->
  exists l1 x l2, l = l1 ++ x :: l2 /\ l' = l1 ++ l2 /\ p x = true /\
    i = length l1 /\ Forall (fun y => p y = false) l1.
Proof.
  revert i l'. induction l as [|x l IH]; intros i l'; simpl; [done|].
  destruct (p x) eqn:Hp.
  - intros [= <- <-]. exists [], x, l. by repeat split.
  - destruct (erase_first p l) as [[j l'']|] eqn:He; [|done].
    intros [= <- <-]. destruct (IH _ _ eq_refl) as (l1 & y & l2 & -> & -> & Hy & -> & HF).
    exists (x :: l1), y, l2. repeat split; auto.
Qed.

Lemma erase_first_app {A} (p : A -> bool) l1 x l2 :
  Forall (fun y => p y = false) l1 -> p x = true ->
  erase_first p (l1 ++ x :: l2) = Some (length l1, l1 ++ l2).
Proof.
  induction 1 as [|y l1 Hy _ IH]; intros Hx; simpl; [by rewrite Hx|].
  by rewrite Hy, IH.
Qed.

(** Erasing from an encoded list. *)
Lemma erase_first_map {A B} (f : A -> B) (p : B -> bool) (q : A -> bool) l :
  (forall x, x ∈ l -> p (f x) = q x) ->
  erase_first p (map f l) =
    match erase_first q l with Some (i, l') => Some (i, map f l') | None => None end.
Proof.
  induction l as [|x l IH]; simpl; intros H; [done|].
  rewrite H by (by left). destruct (q x); [done|].
  rewrite IH by (intros y Hy; apply H; by right).
  by destruct (erase_first q l) as [[i l']|].
Qed.

(** Boolean [filter]: the elements a C++ loop with an [if] keeps. *)
Abbreviation filterb := List.filter.

Lemma elem_of_filterb {A} (p : A -> bool) l x :
  x ∈ filterb p l <-> p x = true /\ x ∈ l.
Proof. rewrite !list_elem_of_In, filter_In. tauto. Qed.

Lemma filterb_all {A} (p : A -> bool) l :
  Forall (fun x => p x = true) l -> filterb p l = l.
Proof. induction 1 as [|x l Hx Hl IH]; simpl; [done|]. by rewrite Hx, IH. Qed.

Lemma filterb_none {A} (p : A -> bool) l :
  Forall (fun x => p x = false) l -> filterb p l = [].
Proof. induction 1 as [|x l Hx Hl IH]; simpl; [done|]. by rewrite Hx, IH. Qed.

Lemma filterb_map {A B} (f : A -> B) (p : B -> bool) l :
  filterb p (map f l) = map f (filterb (fun x => p (f x)) l).
Proof. induction l as [|x l IH]; [done|]. simpl. rewrite IH. by destruct (p (f x)). Qed.

Lemma list_sum_cons x l : list_sum (x :: l) = (x + list_sum l)%nat.
Proof. done. Qed.

(** A sum when one element is replaced. *)
Lemma list_sum_insert {A} (f : A -> nat) l i x y : l !! i = Some x ->
  (list_sum (map f (<[i := y]> l)) + f x = list_sum (map f l) + f y)%nat.
Proof.
  revert i. induction l as [|z l IH]; intros [|i] Hi; [done|done| |].
  - injection Hi as ->. change (<[0%nat := y]> (x :: l)) with (y :: l). cbn [map]. rewrite !list_sum_cons. lia.
  - specialize (IH i Hi). change (<[Datatypes.S i := y]> (z :: l)) with (z :: <[i := y]> l).
    cbn [map]. rewrite !list_sum_cons. lia.
Qed.

(** ** Tactics *)

(** Turn boolean tests of the code into propositions. *)
Ltac bprop :=
  repeat match goal with
  | H : (_ && _)%bool = true |- _ => apply andb_prop in H; destruct H
  | H : (_ || _)%bool = false |- _ => apply orb_false_elim in H; destruct H
  | H : negb _ = true |- _ => apply negb_true_iff in H
  | H : negb _ = false |- _ => apply negb_false_iff in H
  | H : (_ =? _) = true |- _ => apply Z.eqb_eq in H
  | H : (_ =? _) = false |- _ => apply Z.eqb_neq in H
  | H : (_ <? _) = true |- _ => apply Z.ltb_lt in H
  | H : (_ <? _) = false |- _ => apply Z.ltb_ge in H
  | H : (_ <=? _) = true |- _ => apply Z.leb_le in H
  | H : (_ <=? _) = false |- _ => apply Z.leb_gt in H
  | H : bool_decide _ = true |- _ => apply bool_decide_eq_true in H
  | H : bool_decide _ = false |- _ => apply bool_decide_eq_false in H
  end.

(** Case on the scrutinee of the first [if]/[match] of the goal. *)
Ltac case_if :=
  match goal with
  | |- context [if ?b then _ else _] => destruct b eqn:?
  end.
