(* ===== verification/RwSpec.v ===== *)
(** * RwSpec: the reader-preference reader/writer lock

    The contract that the lock managers of the repository share: a lock is
    free, shared by a set of requesters or held by one; a shared request joins
    a shared lock even when exclusive requests wait; a request that cannot be
    granted waits in arrival order; when the last holder leaves, the head of
    the queue decides, and a shared head takes every shared waiter with it.

    [spec_step] is that contract as a function, [view] what the clients can
    observe of it (which requests were granted and which are pending), and the
    class [RwLockImpl] with its laws [RwLockLaws] the interface a lock manager
    implements.  The theorems of Section [client] are proved once against the
    interface and hold of every instance. *)

From S2P Require Import Prelude.

Inductive rw := Shared | Excl.

#[global] Instance rw_eq_dec : EqDecision rw.
Proof. solve_decision. Defined.

#[global] Instance rw_countable : Countable rw.
Proof.
  refine (inj_countable' (fun o => match o with Shared => true | Excl => false end)
            (fun b : bool => if b then Shared else Excl) _).
  by intros [].
Defined.

(** A requester: a host and a task (a transaction) on it. *)
Abbreviation req := (Z * Z)%type.

Definition is_shared (w : rw * req) : bool :=
  match fst w with Shared => true | Excl => false end.

(** ** The specification *)

Record spec := Spec {
  sp_mode : option rw;            (** [None]: free *)
  sp_holders : gset req;
  sp_waiters : list (rw * req);   (** oldest first *)
}.

Definition spec_init : spec := Spec None ∅ [].

Definition spec_acquire (op : rw) (r : req) (a : spec) : spec * list (rw * req) :=
  match sp_mode a, op with
  | None, _ => (Spec (Some op) {[ r ]} (sp_waiters a), [(op, r)])
  | Some Shared, Shared =>
      (Spec (Some Shared) ({[ r ]} ∪ sp_holders a) (sp_waiters a), [(Shared, r)])
  | _, _ => (Spec (sp_mode a) (sp_holders a) (sp_waiters a ++ [(op, r)]), [])
  end.

(** What happens when the last holder is gone. *)
Definition spec_schedule (ws : list (rw * req)) : spec * list (rw * req) :=
  match ws with
  | [] => (Spec None ∅ [], [])
  | (Excl, r) :: ws' => (Spec (Some Excl) {[ r ]} ws', [(Excl, r)])
  | (Shared, _) :: _ =>
      let gs := filterb is_shared ws in
      (Spec (Some Shared) (list_to_set (map snd gs))
         (filterb (fun w => negb (is_shared w)) ws), gs)
  end.

Definition spec_release (op : rw) (r : req) (a : spec) : spec * list (rw * req) :=
  match erase_first (fun w => bool_decide (w = (op, r))) (sp_waiters a) with
  | Some (_, ws) => (Spec (sp_mode a) (sp_holders a) ws, [])
  | None =>
      let hs := sp_holders a ∖ {[ r ]} in
      if bool_decide (hs = ∅) then spec_schedule (sp_waiters a)
      else (Spec (sp_mode a) hs (sp_waiters a), [])
  end.

Inductive event :=
  | Acq (op : rw) (r : req)
  | Rel (op : rw) (r : req).

Definition spec_step (e : event) (a : spec) : spec * list (rw * req) :=
  match e with
  | Acq op r => spec_acquire op r a
  | Rel op r => spec_release op r a
  end.

(** Well-formed specification states. *)
Record spec_wf (a : spec) : Prop := {
  wf_free : sp_mode a = None -> sp_holders a = ∅ /\ sp_waiters a = [];
  wf_busy : sp_mode a <> None -> sp_holders a <> ∅;
  wf_excl : sp_mode a = Some Excl -> exists r, sp_holders a = {[ r ]};
  wf_shared : sp_mode a = Some Shared ->
    Forall (fun w => is_shared w = false) (sp_waiters a);
  wf_nodup : NoDup (map snd (sp_waiters a));
  wf_disjoint : forall r, r ∈ sp_holders a -> r ∉ map snd (sp_waiters a);
}.

(** ** The clients' view *)

Record view := View {
  v_held : gset (rw * req);     (** granted and not yet released *)
  v_pending : gset (rw * req);  (** requested and neither granted nor withdrawn *)
}.

Definition view_init : view := View ∅ ∅.

Definition view_step (e : event) (gs : list (rw * req)) (v : view) : view :=
  let g := list_to_set gs in
  match e with
  | Acq op r => View (v_held v ∪ g) ((v_pending v ∪ {[ (op, r) ]}) ∖ g)
  | Rel op r => View (v_held v ∖ {[ (op, r) ]} ∪ g) (v_pending v ∖ {[ (op, r) ]} ∖ g)
  end.

(** What a well-behaved client does: it does not request a lock it already
    holds or waits for, and it releases only what it holds (or, where the
    manager supports it, withdraws what it waits for). *)
Definition permitted (withdraw : bool) (e : event) (v : view) : Prop :=
  match e with
  | Acq _ r => forall op', (op', r) ∉ v_held v ∪ v_pending v
  | Rel op r => (op, r) ∈ v_held v \/ (withdraw = true /\ (op, r) ∈ v_pending v)
  end.

#[global] Instance permitted_dec b e v : Decision (permitted b e v).
Proof.
  destruct e as [op r|op r]; simpl.
  - destruct (decide ((Shared, r) ∈ v_held v ∪ v_pending v)) as [H|H1]; [right; intros HP; by apply (HP Shared)|].
    destruct (decide ((Excl, r) ∈ v_held v ∪ v_pending v)) as [H|H2]; [right; intros HP; by apply (HP Excl)|].
    left. by intros [].
  - apply _.
Defined.

(** Mutual exclusion: whoever holds the lock exclusively is alone. *)
Definition exclusive (v : view) : Prop :=
  forall r, (Excl, r) ∈ v_held v -> v_held v = {[ (Excl, r) ]}.

(** No request is left waiting on a lock nobody holds. *)
Definition no_stranded (v : view) : Prop :=
  v_held v = ∅ -> v_pending v = ∅.

Definition view_of (a : spec) : view :=
  View (match sp_mode a with
        | None => ∅
        | Some m => set_map (pair m) (sp_holders a)
        end)
       (list_to_set (sp_waiters a)).

(** ** Facts about the specification *)

Create HintDb rwspec discriminated.

Lemma spec_wf_init : spec_wf spec_init.
Proof. split; simpl; try done; try constructor; set_solver. Qed.

Lemma elem_of_held (m : rw) (hs : gset req) (o : rw) (r : req) :
  (o, r) ∈ (set_map (pair m) hs : gset (rw * req)) <-> o = m /\ r ∈ hs.
Proof.
  rewrite elem_of_map. split; [intros (r' & [= -> ->] & H); done|].
  intros [-> H]. by exists r.
Qed.

Lemma elem_of_waiter_snd (ws : list (rw * req)) (r : req) :
  r ∈ map snd ws <-> exists o, (o, r) ∈ ws.
Proof.
  change (map snd ws) with (snd <$> ws). rewrite list_elem_of_fmap. split.
  - intros ([o r'] & -> & H). by exists o.
  - intros (o & H). by exists (o, r).
Qed.

(** A permitted request is by somebody who neither holds nor waits. *)
Lemma permitted_acq_fresh b op r a :
  spec_wf a -> permitted b (Acq op r) (view_of a) ->
  (r ∉ sp_holders a) /\ (r ∉ map snd (sp_waiters a)).
Proof.
  intros Hwf HP. simpl in HP. split; intros Hr.
  - destruct (sp_mode a) as [m|] eqn:Hm.
    + apply (HP m). apply elem_of_union_l. by apply elem_of_held.
    + destruct (wf_free _ Hwf Hm) as [E _]. rewrite E in Hr. set_solver.
  - apply elem_of_waiter_snd in Hr as [o Ho]. apply (HP o). set_solver.
Qed.

(** A permitted release is by the current holder in the lock's mode, or it
    withdraws a waiter. *)
Lemma permitted_rel_cases b op r a :
  permitted b (Rel op r) (view_of a) ->
  (sp_mode a = Some op /\ r ∈ sp_holders a) \/ (b = true /\ (op, r) ∈ sp_waiters a).
Proof.
  simpl. intros [H|[Hb H]].
  - left. destruct (sp_mode a) as [m|]; [|set_solver].
    apply elem_of_held in H as [-> ?]. done.
  - right. split; [done|]. set_solver.
Qed.

Lemma erase_waiter_None (op : rw) (r : req) (ws : list (rw * req)) :
  r ∉ map snd ws ->
  erase_first (fun w => bool_decide (w = (op, r))) ws = None.
Proof.
  intros Hr. apply erase_first_None, list.Forall_forall. intros w Hw.
  apply bool_decide_eq_false. intros ->. apply Hr. apply elem_of_waiter_snd. by exists op.
Qed.

(** Both branches of a permitted release, as rewriting rules. *)
Lemma spec_release_holder op r a :
  spec_wf a -> r ∈ sp_holders a ->
  spec_release op r a =
    (let hs := sp_holders a ∖ {[ r ]} in
     if bool_decide (hs = ∅) then spec_schedule (sp_waiters a)
     else (Spec (sp_mode a) hs (sp_waiters a), [])).
Proof.
  intros Hwf Hr. unfold spec_release.
  by rewrite erase_waiter_None by (by apply wf_disjoint).
Qed.

Lemma erase_waiter_Some (op : rw) (r : req) (l1 l2 : list (rw * req)) :
  NoDup (map snd (l1 ++ (op, r) :: l2)) ->
  erase_first (fun w => bool_decide (w = (op, r))) (l1 ++ (op, r) :: l2) = Some (length l1, l1 ++ l2).
Proof.
  intros Hnd. rewrite map_app in Hnd. simpl in Hnd. apply list.NoDup_app in Hnd as (_ & Hd & _).
  apply erase_first_app; [|by apply bool_decide_eq_true].
  apply list.Forall_forall. intros w Hin. apply bool_decide_eq_false. intros ->.
  apply (Hd r); [|set_solver]. apply elem_of_waiter_snd. by exists op.
Qed.

Lemma spec_release_waiter op r a l1 l2 :
  NoDup (map snd (sp_waiters a)) -> sp_waiters a = l1 ++ (op, r) :: l2 ->
  spec_release op r a = (Spec (sp_mode a) (sp_holders a) (l1 ++ l2), []).
Proof.
  intros Hnd Hw. unfold spec_release. rewrite Hw in *. by rewrite erase_waiter_Some.
Qed.

Lemma NoDup_snd_filter p (ws : list (rw * req)) :
  NoDup (map snd ws) -> NoDup (map snd (filterb p ws)).
Proof.
  induction ws as [|w ws IH]; simpl; [done|]. rewrite list.NoDup_cons. intros [H1 H2].
  destruct (p w); simpl; [|by auto]. apply list.NoDup_cons. split; [|by auto].
  intros H. apply H1. apply elem_of_waiter_snd in H as [o Ho].
  apply elem_of_filterb in Ho as [_ Ho]. apply elem_of_waiter_snd. by exists o.
Qed.

(** A requester waits with one operation only. *)
Lemma NoDup_snd_fun (ws : list (rw * req)) :
  NoDup (map snd ws) -> forall o1 o2 r, (o1, r) ∈ ws -> (o2, r) ∈ ws -> o1 = o2.
Proof.
  induction ws as [|[o r'] ws IH]; simpl; intros Hnd o1 o2 r H1 H2; [set_solver|].
  apply list.NoDup_cons in Hnd as [Hr Hnd].
  apply elem_of_cons in H1 as [H1|H1], H2 as [H2|H2]; simplify_eq; eauto.
  - exfalso. apply Hr. apply elem_of_waiter_snd. eauto.
  - exfalso. apply Hr. apply elem_of_waiter_snd. eauto.
Qed.

(** ** Every permitted step preserves well-formedness *)

Lemma wf_single m r : spec_wf (Spec (Some m) {[ r ]} []).
Proof. split; simpl; try done; try set_solver; eauto; constructor. Qed.

Lemma wf_join r a :
  spec_wf a -> sp_mode a = Some Shared -> r ∉ map snd (sp_waiters a) ->
  spec_wf (Spec (Some Shared) ({[ r ]} ∪ sp_holders a) (sp_waiters a)).
Proof.
  intros Hwf Hm Hw. split; simpl; try done; try set_solver.
  - intros _. by apply (wf_shared _ Hwf).
  - by apply (wf_nodup _ Hwf).
  - intros r' Hr'. apply elem_of_union in Hr' as [Hr'|Hr'];
      [by apply elem_of_singleton in Hr' as ->|by apply (wf_disjoint _ Hwf)].
Qed.

Lemma wf_enqueue op r a :
  spec_wf a -> sp_mode a <> None -> (sp_mode a = Some Shared -> op = Excl) ->
  r ∉ sp_holders a -> r ∉ map snd (sp_waiters a) ->
  spec_wf (Spec (sp_mode a) (sp_holders a) (sp_waiters a ++ [(op, r)])).
Proof.
  intros Hwf Hm Hop Hh Hw. split; simpl.
  - done.
  - by apply (wf_busy _ Hwf).
  - by apply (wf_excl _ Hwf).
  - intros Hs. apply Forall_app. split; [by apply (wf_shared _ Hwf)|].
    rewrite (Hop Hs). by repeat constructor.
  - rewrite map_app. apply list.NoDup_app. split; [by apply (wf_nodup _ Hwf)|].
    simpl. split; [set_solver|apply NoDup_singleton].
  - intros r' Hr' Hin. rewrite map_app in Hin. apply elem_of_app in Hin as [Hin|Hin].
    + by apply (wf_disjoint _ Hwf r').
    + simpl in Hin. apply list_elem_of_singleton in Hin. congruence.
Qed.

Lemma spec_acquire_wf op r a :
  spec_wf a -> r ∉ sp_holders a -> r ∉ map snd (sp_waiters a) ->
  spec_wf (spec_acquire op r a).1.
Proof.
  intros Hwf Hh Hw. unfold spec_acquire.
  destruct (sp_mode a) as [[]|] eqn:Hm; [destruct op| |]; simpl.
  - by apply wf_join.
  - rewrite <- Hm. by apply wf_enqueue; rewrite ?Hm.
  - rewrite <- Hm. by apply wf_enqueue; rewrite ?Hm.
  - destruct (wf_free _ Hwf Hm) as [_ ->]. apply wf_single.
Qed.

Lemma spec_schedule_wf ws : NoDup (map snd ws) -> spec_wf (spec_schedule ws).1.
Proof.
  intros Hnd. destruct ws as [|[[] r] ws]; unfold spec_schedule.
  - apply spec_wf_init.
  - set (ws' := (Shared, r) :: ws) in *. split; cbn [sp_mode sp_holders sp_waiters fst].
    + done.
    + intros _. simpl. set_solver.
    + done.
    + intros _. apply list.Forall_forall. intros w Hw.
      apply elem_of_filterb in Hw as [Hw _]. by apply negb_true_iff in Hw.
    + by apply NoDup_snd_filter.
    + intros r' Hr' Hw. rewrite elem_of_list_to_set in Hr'.
      apply elem_of_waiter_snd in Hr' as [o1 H1]. apply elem_of_waiter_snd in Hw as [o2 H2].
      apply elem_of_filterb in H1 as [F1 I1]. apply elem_of_filterb in H2 as [F2 I2].
      destruct o1, o2; try done. eapply (NoDup_snd_fun ws' Hnd) in I2; [|exact I1]. done.
  - simpl in *. apply list.NoDup_cons in Hnd as [Hr Hnd]. split; simpl; try done; set_solver.
Qed.

Lemma wf_withdraw a l1 w l2 :
  spec_wf a -> sp_waiters a = l1 ++ w :: l2 ->
  spec_wf (Spec (sp_mode a) (sp_holders a) (l1 ++ l2)).
Proof.
  intros Hwf Hw. pose proof (wf_nodup _ Hwf) as Hnd. pose proof (wf_disjoint _ Hwf) as Hd.
  rewrite Hw, map_app in Hnd, Hd. simpl in Hnd, Hd. split; simpl.
  - intros Hm. destruct (wf_free _ Hwf Hm) as [_ E]. rewrite Hw in E. by destruct l1.
  - by apply (wf_busy _ Hwf).
  - by apply (wf_excl _ Hwf).
  - intros Hm. pose proof (wf_shared _ Hwf Hm) as HF. rewrite Hw in HF.
    apply Forall_app in HF as [HF1 HF2]. apply Forall_app. split; [done|].
    by inversion HF2.
  - rewrite map_app. apply list.NoDup_app in Hnd as (H1 & H2 & H3).
    apply list.NoDup_cons in H3 as [H3 H4]. apply list.NoDup_app.
    split; [done|]. split; [|done]. intros x Hx Hx'. apply (H2 x Hx). set_solver.
  - intros r Hr Hin. apply (Hd r Hr). rewrite map_app in Hin. set_solver.
Qed.

Lemma wf_leave r a :
  spec_wf a -> sp_holders a ∖ {[ r ]} <> ∅ ->
  spec_wf (Spec (sp_mode a) (sp_holders a ∖ {[ r ]}) (sp_waiters a)).
Proof.
  intros Hwf Hne. split; simpl.
  - intros Hm. destruct (wf_free _ Hwf Hm) as [-> ->]. set_solver.
  - done.
  - intros Hm. destruct (wf_excl _ Hwf Hm) as [h Hh]. exists h. rewrite Hh in *. set_solver.
  - by apply (wf_shared _ Hwf).
  - by apply (wf_nodup _ Hwf).
  - intros r' Hr'. apply (wf_disjoint _ Hwf). set_solver.
Qed.

(** The three ways a permitted release can go. *)
Lemma spec_release_cases b op r a :
  spec_wf a -> permitted b (Rel op r) (view_of a) ->
  (exists l1 l2, sp_waiters a = l1 ++ (op, r) :: l2 /\ b = true /\ r ∉ sp_holders a /\
     spec_release op r a = (Spec (sp_mode a) (sp_holders a) (l1 ++ l2), [])) \/
  (sp_mode a = Some op /\ r ∈ sp_holders a /\ sp_holders a = {[ r ]} /\
     spec_release op r a = spec_schedule (sp_waiters a)) \/
  (sp_mode a = Some op /\ op = Shared /\ r ∈ sp_holders a /\ sp_holders a ∖ {[ r ]} <> ∅ /\
     spec_release op r a = (Spec (sp_mode a) (sp_holders a ∖ {[ r ]}) (sp_waiters a), [])).
Proof.
  intros Hwf HP. apply permitted_rel_cases in HP as [[Hm Hr]|[Hb Hw]].
  - right. rewrite (spec_release_holder op r a Hwf Hr). cbn zeta.
    destruct (bool_decide_reflect (sp_holders a ∖ {[r]} = ∅)) as [E|E]; [left|right].
    + split_and!; try done. apply set_eq. intros x. split; [|set_solver].
      intros Hx. destruct (decide (x = r)); set_solver.
    + split_and!; try done. destruct op; [done|].
      destruct (wf_excl _ Hwf Hm) as [h Hh]. rewrite Hh in *. set_solver.
  - left. apply list_elem_of_split in Hw as (l1 & l2 & Hw). exists l1, l2.
    split_and!; try done.
    + intros Hr. apply (wf_disjoint _ Hwf r Hr). rewrite Hw, map_app. set_solver.
    + apply (spec_release_waiter op r a l1 l2); [by apply wf_nodup|done].
Qed.

Lemma spec_step_wf b e a :
  spec_wf a -> permitted b e (view_of a) -> spec_wf (spec_step e a).1.
Proof.
  intros Hwf HP. destruct e as [op r|op r]; simpl.
  - destruct (permitted_acq_fresh _ _ _ _ Hwf HP). by apply spec_acquire_wf.
  - destruct (spec_release_cases _ _ _ _ Hwf HP)
      as [(l1 & l2 & Hw & _ & _ & ->)|[(_ & _ & _ & ->)|(_ & _ & _ & Hne & ->)]].
    + by eapply wf_withdraw.
    + by apply spec_schedule_wf, wf_nodup.
    + by apply wf_leave.
Qed.

(** ** The clients' view follows the specification *)

Lemma view_eq h1 p1 h2 p2 :
  (forall x : rw * req, x ∈ h1 <-> x ∈ h2) -> (forall x : rw * req, x ∈ p1 <-> x ∈ p2) ->
  View h1 p1 = View h2 p2.
Proof. intros H1 H2. f_equal; by apply set_eq. Qed.

Lemma view_of_acquire op r a :
  spec_wf a -> r ∉ sp_holders a -> r ∉ map snd (sp_waiters a) ->
  view_step (Acq op r) (spec_acquire op r a).2 (view_of a) = view_of (spec_acquire op r a).1.
Proof.
  intros Hwf Hh Hw. unfold spec_acquire, view_of.
  assert (Hw' : forall o, (o, r) ∉ sp_waiters a)
    by (intros o Ho; apply Hw, elem_of_waiter_snd; by exists o).
  destruct (sp_mode a) as [[]|] eqn:Hm; [destruct op| |]; simpl; rewrite ?Hm; simpl.
  all: apply view_eq; intros [o r']; rewrite ?elem_of_difference, ?elem_of_union,
    ?elem_of_held, ?elem_of_singleton, ?list_to_set_app, ?elem_of_list_to_set; set_solver.
Qed.

Lemma view_of_schedule op r a :
  spec_wf a -> sp_mode a = Some op -> sp_holders a = {[ r ]} ->
  view_step (Rel op r) (spec_schedule (sp_waiters a)).2 (view_of a) =
  view_of (spec_schedule (sp_waiters a)).1.
Proof.
  intros Hwf Hm Hh. pose proof (wf_disjoint _ Hwf r) as Hd. rewrite Hh in Hd.
  specialize (Hd ltac:(set_solver)). pose proof (wf_nodup _ Hwf) as Hnd.
  unfold view_of. rewrite Hm, Hh.
  assert (Hw : forall o, (o, r) ∉ sp_waiters a)
    by (intros o Ho; apply Hd, elem_of_waiter_snd; by exists o).
  destruct (sp_waiters a) as [|[[] r0] ws] eqn:Ews; unfold spec_schedule.
  - simpl. apply view_eq; intros [o r']; set_solver.
  - rewrite <- Ews in *. cbn [fst snd view_step v_held v_pending sp_mode sp_holders sp_waiters].
    apply view_eq; intros [o r'].
    + rewrite elem_of_union, elem_of_difference, !elem_of_held, elem_of_singleton,
        !elem_of_list_to_set, elem_of_filterb, elem_of_waiter_snd. setoid_rewrite elem_of_filterb.
      split.
      * intros [[H1 H2]|[H1 H2]]; [set_solver|]. destruct o; [|done]. eauto.
      * intros (-> & o' & H1 & H2). right. by destruct o'.
    + rewrite !elem_of_difference, elem_of_singleton, !elem_of_list_to_set, !elem_of_filterb.
      rewrite negb_true_iff. destruct (is_shared (o, r')); set_solver.
  - simpl in *. apply list.NoDup_cons in Hnd as [Hr0 Hnd].
    assert (Hw0 : forall o, (o, r0) ∉ ws)
      by (intros o Ho; apply Hr0, elem_of_waiter_snd; by exists o).
    apply view_eq; intros [o r']; rewrite ?elem_of_held; set_solver.
Qed.

Lemma view_of_step b e a :
  spec_wf a -> permitted b e (view_of a) ->
  view_step e (spec_step e a).2 (view_of a) = view_of (spec_step e a).1.
Proof.
  intros Hwf HP. destruct e as [op r|op r]; simpl spec_step.
  - destruct (permitted_acq_fresh _ _ _ _ Hwf HP). by apply view_of_acquire.
  - destruct (spec_release_cases _ _ _ _ Hwf HP)
      as [(l1 & l2 & Hw & _ & Hr & ->)|[(Hm & _ & Hh & ->)|(Hm & Ho & Hr & Hne & ->)]].
    + pose proof (wf_nodup _ Hwf) as Hnd. rewrite Hw, map_app in Hnd. simpl in Hnd.
      apply list.NoDup_app in Hnd as (_ & Hd1 & Hd2). apply list.NoDup_cons in Hd2 as [Hd2 _].
      assert ((op, r) ∉ l1 ++ l2) as Hn.
      { rewrite elem_of_app. intros [H|H].
        - apply (Hd1 r); [|set_solver]. apply elem_of_waiter_snd. by exists op.
        - apply Hd2. apply elem_of_waiter_snd. by exists op. }
      unfold view_of. simpl. rewrite Hw. apply view_eq; intros [o r'].
      * destruct (sp_mode a); rewrite ?elem_of_union, ?elem_of_difference, ?elem_of_held; set_solver.
      * rewrite !elem_of_difference, !elem_of_list_to_set. set_solver.
    + by apply view_of_schedule.
    + pose proof (wf_disjoint _ Hwf r Hr) as Hd.
      assert (Hw : forall o, (o, r) ∉ sp_waiters a)
        by (intros o Ho'; apply Hd, elem_of_waiter_snd; by exists o).
      unfold view_of. simpl. rewrite Hm. apply view_eq; intros [o r'].
      * rewrite elem_of_union, elem_of_difference, !elem_of_held. set_solver.
      * set_solver.
Qed.

Lemma wf_exclusive a : spec_wf a -> exclusive (view_of a).
Proof.
  intros Hwf r. unfold view_of. simpl. destruct (sp_mode a) as [m|] eqn:Hm; [|set_solver].
  rewrite elem_of_held. intros [<- Hr]. destruct (wf_excl _ Hwf Hm) as [h Hh].
  rewrite Hh in *. apply elem_of_singleton in Hr as ->. apply set_eq. intros [o r'].
  rewrite elem_of_held. set_solver.
Qed.

Lemma wf_no_stranded a : spec_wf a -> no_stranded (view_of a).
Proof.
  intros Hwf. unfold no_stranded, view_of. simpl. intros Hh.
  destruct (sp_mode a) as [m|] eqn:Hm.
  - destruct (wf_busy _ Hwf) as []; [by rewrite Hm|]. apply set_eq. intros r.
    split; [|set_solver]. intros Hr. exfalso.
    assert ((m, r) ∈ (set_map (pair m) (sp_holders a) : gset (rw * req))) as H
      by (by apply elem_of_held). rewrite Hh in H. set_solver.
  - destruct (wf_free _ Hwf Hm) as [_ ->]. done.
Qed.

(** ** The interface *)

(** A lock manager: a state and one operation per client event, which may
    fault and returns the requests it granted, in order. *)
Class RwLockImpl (S : Type) := {
  impl_init : S;
  impl_step : event -> S -> result (S * list (rw * req));
  impl_withdraw : bool;           (** pending requests may be withdrawn *)
  impl_valid : event -> Prop;     (** requests the encodings can represent *)
  #[global] impl_valid_dec e :: Decision (impl_valid e);
}.

(** What it promises: a forward simulation of the specification. *)
Class RwLockLaws (S : Type) `{!RwLockImpl S} := {
  impl_rel : S -> spec -> Prop;
  impl_rel_init : impl_rel impl_init spec_init;
  impl_rel_step : forall e s a,
    impl_rel s a -> spec_wf a -> impl_valid e ->
    permitted impl_withdraw e (view_of a) ->
    exists s', impl_step e s = Ok (s', (spec_step e a).2) /\
               impl_rel s' (spec_step e a).1;
}.

Section client.
Context {S : Type} `{!RwLockImpl S}.

(** Running a sequence of client events, folding the observed grants into
    the clients' view. *)
Fixpoint run (es : list event) (s : S) (v : view) : result (S * view) :=
  match es with
  | [] => Ok (s, v)
  | e :: es' =>
      match impl_step e s with
      | Fault f => Fault f
      | Ok (s', gs) => run es' s' (view_step e gs v)
      end
  end.

(** Every event of the sequence is one a well-behaved client issues, given
    what was granted so far. *)
Fixpoint well_behaved (es : list event) (s : S) (v : view) : Prop :=
  match es with
  | [] => True
  | e :: es' =>
      impl_valid e /\ permitted impl_withdraw e v /\
      match impl_step e s with
      | Fault _ => True
      | Ok (s', gs) => well_behaved es' s' (view_step e gs v)
      end
  end.

#[global] Instance well_behaved_dec es s v :
  Decision (well_behaved es s v).
Proof.
  revert s v. induction es as [|e es IH]; intros s v; simpl; [by left|].
  apply and_dec; [apply _|]. apply and_dec; [apply _|].
  destruct (impl_step e s) as [[s' gs]|f]; [apply IH|by left].
Defined.

(** The specification along the same events. *)
Definition spec_run (es : list event) (a : spec) : spec :=
  fold_left (fun a e => (spec_step e a).1) es a.

Context `{!RwLockLaws S}.

Lemma run_sim es s a :
  impl_rel s a -> spec_wf a -> well_behaved es s (view_of a) ->
  exists s', run es s (view_of a) = Ok (s', view_of (spec_run es a)) /\
    impl_rel s' (spec_run es a) /\ spec_wf (spec_run es a).
Proof.
  revert s a. induction es as [|e es IH]; intros s a HR Hwf HB; simpl.
  - by exists s.
  - destruct HB as (Hv & HP & HB).
    destruct (impl_rel_step e s a HR Hwf Hv HP) as (s' & E & HR'). rewrite E in *.
    rewrite (view_of_step _ _ _ Hwf HP) in *.
    apply IH; [done|by eapply spec_step_wf|done].
Qed.

(** The manager grants exactly what the specification grants. *)
Lemma run_refines es :
  well_behaved es impl_init view_init ->
  exists s, run es impl_init view_init = Ok (s, view_of (spec_run es spec_init)) /\
    impl_rel s (spec_run es spec_init).
Proof.
  intros HB. destruct (run_sim es impl_init spec_init) as (s & E & HR & _); eauto using impl_rel_init, spec_wf_init.
Qed.

(** No behaviour of well-behaved clients faults the manager, grants an
    exclusive request beside another holder or leaves a request waiting on
    a lock nobody holds. *)
Lemma run_safe es :
  well_behaved es impl_init view_init ->
  exists s v, run es impl_init view_init = Ok (s, v) /\ exclusive v /\ no_stranded v.
Proof.
  intros HB. destruct (run_sim es impl_init spec_init) as (s & E & _ & Hwf);
    [apply impl_rel_init|apply spec_wf_init|exact HB|].
  exists s, (view_of (spec_run es spec_init)). split; [exact E|].
  split; [by apply wf_exclusive|by apply wf_no_stranded].
Qed.
End client.
