(* ===== verification/Types.v ===== *)
(** * Types: identifiers, lock states and wait-queue entries

    Models include/types.h, the data definitions of lib/lock.h and the
    constants of utils/conf.h the lock module uses. *)

From S2P Require Import Prelude.

(** ** Configuration constants (utils/conf.h) *)

Definition HOST_NUM : Z := 8.
Definition SWITCH_LOCK_NUM : Z := 524288 * 3.
Definition DPDK_TX_BURST_SIZE : Z := 1024.
Definition TPCC_WAREHOUSE_LOCK_NUM : Z := 121.

(** ** Lock states (lib/lock.h) *)

Inductive lock_state := FREE | RELEASE | LOCK_SHARED | LOCK_EXCL.

#[global] Instance lock_state_eq_dec : EqDecision lock_state.
Proof. solve_decision. Defined.

(** The enumerators' values. *)
Definition ls_val (m : lock_state) : Z :=
  match m with FREE => 0 | RELEASE => 1 | LOCK_SHARED => 2 | LOCK_EXCL => 3 end.

(** The cast [(lock_state)z] of a two-bit value. *)
Definition ls_of (z : Z) : lock_state :=
  match z with 1 => RELEASE | 2 => LOCK_SHARED | 3 => LOCK_EXCL | _ => FREE end.

Definition ls_eqb (m n : lock_state) : bool := bool_decide (m = n).

Lemma ls_of_val m : ls_of (ls_val m) = m.
Proof. by destruct m. Qed.

Lemma ls_val_range m : in_uw 2 (ls_val m).
Proof. unfold in_uw. destruct m; simpl; lia. Qed.

Lemma ls_eqb_spec m n : ls_eqb m n = true <-> m = n.
Proof. apply bool_decide_eq_true. Qed.

(** ** Lock holders (lib/lock.h) *)

(** [((uint64_t)host << 32) ^ (uint64_t)task] *)
Definition LOCK_HOLDER (host task : Z) : Z := Z.lxor (Z.shiftl host 32) task.
Definition LOCK_HOLDER_TASK (lh : Z) : Z := u32 lh.
Definition LOCK_HOLDER_HOST (lh : Z) : Z := u8 (Z.shiftr lh 32).

(** The combined lock-and-task key (include/types.h). *)
Definition LKTSK (lid tid : Z) : Z := Z.lxor (Z.shiftl lid 32) tid.

#[global] Arguments LOCK_HOLDER : simpl never.

Definition TASK_FOR_RESTORE : Z := u32 (-1).

(** A shifted value and a value below the shift do not overlap. *)
Lemma lxor_shiftl_add n a b :
  0 <= n -> 0 <= b < 2 ^ n -> Z.lxor (Z.shiftl a n) b = 2 ^ n * a + b.
Proof.
  intros Hn Hb.
  assert (Hland : Z.land (Z.shiftl a n) b = 0).
  { apply Z.bits_inj'. intros i Hi. rewrite Z.land_spec, Z.bits_0.
    destruct (Z.lt_ge_cases i n).
    - rewrite Z.shiftl_spec_low by lia. done.
    - assert (2 ^ n <= 2 ^ i) by (apply Z.pow_le_mono_r; lia).
      assert (Hbi : Z.testbit b i = false)
        by (apply Z.testbit_false; [lia|]; rewrite Z.div_small by lia; done).
      by rewrite Hbi, andb_false_r. }
  rewrite <- Z.add_nocarry_lxor by done.
  rewrite Z.shiftl_mul_pow2 by lia. lia.
Qed.

Lemma LOCK_HOLDER_add host task :
  in_uw 32 task -> LOCK_HOLDER host task = 2 ^ 32 * host + task.
Proof. intros Ht. apply lxor_shiftl_add; [lia|exact Ht]. Qed.

Lemma LOCK_HOLDER_TASK_mk host task :
  in_uw 32 task -> LOCK_HOLDER_TASK (LOCK_HOLDER host task) = task.
Proof.
  intros Ht. rewrite LOCK_HOLDER_add by done. unfold LOCK_HOLDER_TASK, uw.
  rewrite Z.add_comm, Z.mul_comm, Z.mod_add by lia. by apply Z.mod_small.
Qed.

Lemma LOCK_HOLDER_HOST_mk host task :
  in_uw 8 host -> in_uw 32 task -> LOCK_HOLDER_HOST (LOCK_HOLDER host task) = host.
Proof.
  intros Hh Ht. rewrite LOCK_HOLDER_add by done. unfold LOCK_HOLDER_HOST.
  rewrite Z.shiftr_div_pow2 by lia.
  rewrite Z.add_comm, Z.mul_comm, Z.div_add, Z.div_small by (unfold in_uw in *; lia).
  by apply uw_small.
Qed.

(** Distinct requesters have distinct holder identifiers. *)
Lemma LOCK_HOLDER_inj h1 t1 h2 t2 :
  in_uw 32 t1 -> in_uw 32 t2 -> LOCK_HOLDER h1 t1 = LOCK_HOLDER h2 t2 -> h1 = h2 /\ t1 = t2.
Proof. intros H1 H2. rewrite !LOCK_HOLDER_add by done. unfold in_uw in *. lia. Qed.

(** ** Wait-queue entries (lib/lock.h)

    The packed struct with bit-fields op:2, task:30, host:8. *)

Record wqe := Wqe { wq_op : Z; wq_task : Z; wq_host : Z }.

#[global] Instance wqe_eq_dec : EqDecision wqe.
Proof. solve_decision. Defined.

(** Initialisation [{.op = op, .task = task, .host = host}]: each field keeps
    the low bits its width allows. *)
Definition mk_wqe (op : lock_state) (task host : Z) : wqe :=
  Wqe (u2 (ls_val op)) (u30 task) (u8 host).

Definition sizeof_wqe : Z := 5.

(** The 40 bits of the struct, in memory order (little endian). *)
Definition wqe_bits (w : wqe) : Z := wq_op w + 4 * wq_task w + 2 ^ 32 * wq_host w.
Definition wqe_encode (w : wqe) : list Z := le_bytes 5 (wqe_bits w).
Definition wqe_decode (bs : list Z) : wqe :=
  let v := le_value bs in Wqe (v mod 4) ((v / 4) mod 2 ^ 30) (v / 2 ^ 32).

#[global] Arguments wqe_encode : simpl never.

Definition wqe_wf (w : wqe) : Prop :=
  in_uw 2 (wq_op w) /\ in_uw 30 (wq_task w) /\ in_uw 8 (wq_host w).

Lemma mk_wqe_wf op task host : wqe_wf (mk_wqe op task host).
Proof. unfold wqe_wf, mk_wqe; simpl. split_and!; apply uw_range; lia. Qed.

(** A requester whose task fits the 30-bit field is stored exactly. *)
Lemma mk_wqe_exact op task host :
  in_uw 30 task -> in_uw 8 host -> mk_wqe op task host = Wqe (ls_val op) task host.
Proof.
  intros Ht Hh. unfold mk_wqe. rewrite !uw_small; auto using ls_val_range.
Qed.

Lemma length_wqe_encode w : length (wqe_encode w) = 5%nat.
Proof. apply length_le_bytes. Qed.

Lemma wqe_bits_range w : wqe_wf w -> 0 <= wqe_bits w < 256 ^ 5.
Proof. unfold wqe_wf, wqe_bits, in_uw. lia. Qed.

Lemma wqe_decode_encode w : wqe_wf w -> wqe_decode (wqe_encode w) = w.
Proof.
  intros Hw. unfold wqe_decode, wqe_encode. rewrite le_value_bytes.
  change (256 ^ Z.of_nat 5) with (256 ^ 5). rewrite (Z.mod_small (wqe_bits w)) by (by apply wqe_bits_range).
  destruct w as [o t h]. destruct Hw as (Ho & Ht & Hh).
  unfold wqe_bits, in_uw in *. cbn [wq_op wq_task wq_host] in *.
  f_equal; Z.to_euclidean_division_equations; lia.
Qed.

(** ** Byte order *)

(** Byte order conversion of a 32-bit integer. *)
Definition htonl (z : Z) : Z := le_value (rev (le_bytes 4 z)).
Definition ntohl (z : Z) : Z := htonl z.

Lemma le_value_bytes_small n z :
  0 <= z < 256 ^ Z.of_nat n -> le_value (le_bytes n z) = z.
Proof. intros Hz. rewrite le_value_bytes. by apply Z.mod_small. Qed.

(** [htonl] is its own inverse on 32-bit values. *)
Lemma ntohl_htonl z : in_uw 32 z -> ntohl (htonl z) = z.
Proof.
  intros Hz. unfold ntohl, htonl.
  assert (Hr : Forall (fun b => 0 <= b < 256) (rev (le_bytes 4 z))).
  { apply Forall_rev, le_bytes_range. }
  replace (le_bytes 4 (le_value (rev (le_bytes 4 z)))) with (rev (le_bytes 4 z)).
  - rewrite rev_involutive. apply le_value_bytes_small. exact Hz.
  - symmetry. rewrite <- (le_bytes_value _ Hr) at 2. f_equal.
Qed.

Lemma htonl_range z : in_uw 32 (htonl z).
Proof.
  unfold in_uw, htonl. change (2 ^ 32) with (256 ^ Z.of_nat 4).
  apply (le_value_bound (rev (le_bytes 4 z))). apply Forall_rev, le_bytes_range.
Qed.
