(* ===== verification/Post.v ===== *)
(** * Post: lock packets

    Models lib/post.h (packet types, headers, flag macros) and lib/post.c (the
    functions that fabricate and send lock packets).  A packet is kept as a
    structured value; [encode_post]/[decode_post] relate it to the bytes of the
    buffer.  [decode_post] is total on well-formed buffers and inverts
    [encode_post]. *)

From S2P Require Import Prelude Types.

(** ** Post types (the enum [post_t] of lib/post.h) *)

Definition POST_LOCK_ACQUIRE : Z := 1.
Definition POST_LOCK_GRANT_WITH_AGENT : Z := 2.
Definition POST_LOCK_GRANT_WO_AGENT : Z := 3.
Definition POST_LOCK_RELEASE : Z := 4.
Definition POST_LOCK_TRANSFER : Z := 5.
Definition POST_LOCK_FREE : Z := 6.
Definition POST_MEM_DIFF : Z := 7.
Definition POST_CLEAR_SEQ : Z := 8.
Definition NUM_POST_TYPES : Z := 9.

(** ** The lock packet header *)

Record lock_post_header := Hdr {
  mode_old_mode : Z;
  lock_id : Z;       (** network byte order: the value [htonl] returned *)
  machine_id : Z;
  task_id : Z;
  agent : Z;
  wq_size : Z;
  ncnt : Z;
}.

#[global] Instance lock_post_header_eq_dec : EqDecision lock_post_header.
Proof. solve_decision. Defined.

(** A packet: the post type, the lock header, the wait queue behind it and the
    bytes an application appended. *)
Record packet := Packet {
  pk_type : Z;
  pk_hdr : lock_post_header;
  pk_wq : list wqe;
  pk_extra : list Z;
}.

#[global] Instance packet_eq_dec : EqDecision packet.
Proof. solve_decision. Defined.

Definition sizeof_post_header : Z := 1.
Definition sizeof_lock_post_header : Z := 16.
Definition POST_HDR_SIZE : Z := sizeof_post_header + sizeof_lock_post_header.

(** ** Flag macros *)

Definition MODE_OLD_MODE (mode old_mode : Z) : Z :=
  Z.lor (Z.shiftl (Z.land old_mode 1) 1) (Z.land mode 1).
Definition MODE (m : Z) : lock_state := ls_of (Z.lor (Z.land m 1) 2).
Definition OLD_MODE (m : Z) : lock_state :=
  ls_of (Z.lor (Z.land (Z.shiftr m 1) 1) 2).
Definition GRANTED (h : lock_post_header) : bool :=
  negb (Z.land (Z.shiftr (mode_old_mode h) 6) 1 =? 0).
Definition TRANSFERRED (h : lock_post_header) : bool :=
  negb (Z.land (Z.shiftr (mode_old_mode h) 5) 1 =? 0).

Definition lid_of (h : lock_post_header) : Z := ntohl (lock_id h).

(** ** Bytes *)

Definition encode_hdr (h : lock_post_header) : list Z :=
  le_bytes 1 (mode_old_mode h) ++ le_bytes 4 (lock_id h) ++
  le_bytes 1 (machine_id h) ++ le_bytes 4 (task_id h) ++
  le_bytes 1 (agent h) ++ le_bytes 4 (wq_size h) ++ le_bytes 1 (ncnt h).

Definition slice (from len : nat) (bs : list Z) : list Z := take len (drop from bs).

Definition decode_hdr (bs : list Z) : lock_post_header :=
  Hdr (le_value (slice 0 1 bs)) (le_value (slice 1 4 bs)) (le_value (slice 5 1 bs))
      (le_value (slice 6 4 bs)) (le_value (slice 10 1 bs)) (le_value (slice 11 4 bs))
      (le_value (slice 15 1 bs)).

Definition encode_post (p : packet) : list Z :=
  le_bytes 1 (pk_type p) ++ encode_hdr (pk_hdr p) ++
  concat (map wqe_encode (pk_wq p)) ++ pk_extra p.

(** Read [n] wait-queue entries. *)
Fixpoint decode_wq (n : nat) (bs : list Z) : option (list wqe * list Z) :=
  match n with
  | O => Some ([], bs)
  | S n' =>
      if (length bs <? 5)%nat then None
      else match decode_wq n' (drop 5 bs) with
           | Some (ws, bs') => Some (wqe_decode (take 5 bs) :: ws, bs')
           | None => None
           end
  end.

Definition decode_post (bs : list Z) : option packet :=
  if (length bs <? 17)%nat then None
  else
    let h := decode_hdr (slice 1 16 bs) in
    match decode_wq (Z.to_nat (wq_size h)) (drop 17 bs) with
    | Some (ws, ex) => Some (Packet (le_value (take 1 bs)) h ws ex)
    | None => None
    end.

(** ** Sending (lib/post.c) *)

(** The application's packet modifier hook: it may rewrite the packet it is
    given and returns the number of bytes it added. [None] is the null hook. *)
Definition modifier := option (Z -> packet -> packet * Z).

(** A packet handed to the network, with the size passed to [net_send]. *)
Record sent := Sent { s_pkt : packet; s_size : Z }.

Definition send_post_lock_generic (packet_modify : modifier)
    (t : Z) (op : Z) (lid hid tid : Z) (wq : list wqe)
    (ncnt : Z) (old_state : Z) (dest : Z) : sent :=
  let n := Z.of_nat (length wq) in
  let h := Hdr (MODE_OLD_MODE op old_state) (htonl lid) (u8 hid) (u32 tid)
               (u8 dest) (u32 n) (u8 ncnt) in
  let p := Packet (u8 t) h wq [] in
  let post_size := POST_HDR_SIZE in
  let post_size := if 0 <? n then post_size + n * sizeof_wqe else post_size in
  match packet_modify with
  | None => Sent p post_size
  | Some f => let '(p', added) := f t p in Sent p' (post_size + added)
  end.

Section send.
Context (packet_modify : modifier) (LOCALHOST_ID : Z).

Definition send_post_acquire (op : lock_state) (lid hid tid : Z) : sent :=
  send_post_lock_generic packet_modify POST_LOCK_ACQUIRE
    (ls_val op) lid hid tid [] 0 0 LOCALHOST_ID.

Definition send_post_acquire_lm (op : lock_state) (lid hid tid : Z) : sent :=
  send_post_lock_generic packet_modify POST_LOCK_ACQUIRE
    (ls_val op) lid LOCALHOST_ID tid [] 0 0 hid.

Definition send_post_transfer (next_op : lock_state) (lid hid tid : Z)
    (wq : list wqe) (ncnt : Z) (old_state : lock_state) : sent :=
  send_post_lock_generic packet_modify POST_LOCK_TRANSFER
    (ls_val next_op) lid hid tid wq ncnt (ls_val old_state) LOCALHOST_ID.

Definition send_post_free (lid ncnt : Z) (old_state : lock_state) : sent :=
  send_post_lock_generic packet_modify POST_LOCK_FREE
    0 lid LOCALHOST_ID 0 [] ncnt (ls_val old_state) LOCALHOST_ID.

Definition send_post_release (lid hid tid : Z) : sent :=
  send_post_lock_generic packet_modify POST_LOCK_RELEASE
    0 lid hid tid [] 0 0 LOCALHOST_ID.

Definition send_post_release_lm (lid hid tid lm : Z) : sent :=
  send_post_lock_generic packet_modify POST_LOCK_RELEASE
    0 lid hid tid [] 0 0 lm.

Definition send_post_grant (lid hid tid : Z) : sent :=
  send_post_lock_generic packet_modify POST_LOCK_GRANT_WO_AGENT
    0 lid hid tid [] 0 0 hid.

Definition send_post_clear (lid : Z) : sent :=
  send_post_lock_generic packet_modify POST_CLEAR_SEQ
    0 lid 0 0 [] 0 0 0.
End send.

(** ** Well-formed packets *)

Definition hdr_wf (h : lock_post_header) : Prop :=
  in_uw 8 (mode_old_mode h) /\ in_uw 32 (lock_id h) /\ in_uw 8 (machine_id h) /\
  in_uw 32 (task_id h) /\ in_uw 8 (agent h) /\ in_uw 32 (wq_size h) /\ in_uw 8 (ncnt h).

Record packet_wf (p : packet) : Prop := {
  pwf_type : in_uw 8 (pk_type p);
  pwf_hdr : hdr_wf (pk_hdr p);
  pwf_wq : Forall wqe_wf (pk_wq p);
  pwf_size : wq_size (pk_hdr p) = Z.of_nat (length (pk_wq p));
}.

#[global] Arguments encode_post : simpl never.
#[global] Arguments decode_post : simpl never.
#[global] Arguments htonl : simpl never.
#[global] Arguments MODE_OLD_MODE : simpl never.
#[global] Arguments MODE : simpl never.
#[global] Arguments OLD_MODE : simpl never.

(** ** Lemmas *)

Lemma slice_app_here (n : nat) (l1 l2 : list Z) :
  length l1 = n -> slice 0 n (l1 ++ l2) = l1.
Proof. intros <-. unfold slice. by rewrite drop_0, take_app_length. Qed.

Lemma slice_app_skip (m k n : nat) (l1 l2 : list Z) :
  length l1 = k -> slice (k + m) n (l1 ++ l2) = slice m n l2.
Proof. intros <-. unfold slice. by rewrite drop_app_add. Qed.

Lemma length_encode_hdr h : length (encode_hdr h) = 16%nat.
Proof. unfold encode_hdr. rewrite !length_app, !length_le_bytes. done. Qed.

Lemma decode_encode_hdr h : hdr_wf h -> decode_hdr (encode_hdr h) = h.
Proof.
  intros (H1 & H2 & H3 & H4 & H5 & H6 & H7). unfold in_uw in *.
  destruct h as [a b c d e f g]. unfold decode_hdr, encode_hdr. cbn [mode_old_mode
    lock_id machine_id task_id agent wq_size ncnt] in *.
  assert (forall x, length (le_bytes 1 x) = 1%nat) as L1 by (intros; apply length_le_bytes).
  assert (forall x, length (le_bytes 4 x) = 4%nat) as L4 by (intros; apply length_le_bytes).
  f_equal.
  - rewrite slice_app_here by apply L1. apply le_value_bytes_small; lia.
  - rewrite (slice_app_skip 0 1), slice_app_here by auto. apply le_value_bytes_small; lia.
  - rewrite (slice_app_skip 4 1), (slice_app_skip 0 4), slice_app_here by auto.
    apply le_value_bytes_small; lia.
  - rewrite (slice_app_skip 5 1), (slice_app_skip 1 4), (slice_app_skip 0 1),
      slice_app_here by auto. apply le_value_bytes_small; lia.
  - rewrite (slice_app_skip 9 1), (slice_app_skip 5 4), (slice_app_skip 4 1),
      (slice_app_skip 0 4), slice_app_here by auto. apply le_value_bytes_small; lia.
  - rewrite (slice_app_skip 10 1), (slice_app_skip 6 4), (slice_app_skip 5 1),
      (slice_app_skip 1 4), (slice_app_skip 0 1), slice_app_here by auto.
    apply le_value_bytes_small; lia.
  - rewrite (slice_app_skip 14 1), (slice_app_skip 10 4), (slice_app_skip 9 1),
      (slice_app_skip 5 4), (slice_app_skip 4 1), (slice_app_skip 0 4) by auto.
    rewrite <- (app_nil_r (le_bytes 1 g)), slice_app_here by auto.
    apply le_value_bytes_small; lia.
Qed.

Lemma decode_wq_app (ws : list wqe) (rest : list Z) :
  Forall wqe_wf ws ->
  decode_wq (length ws) (concat (map wqe_encode ws) ++ rest) = Some (ws, rest).
Proof.
  induction 1 as [|w ws Hw _ IH]; [done|].
  cbn [length map concat decode_wq]. rewrite <- app_assoc.
  rewrite length_app, length_wqe_encode. simpl Nat.ltb.
  rewrite drop_app_length' by (by rewrite length_wqe_encode).
  rewrite take_app_length' by (by rewrite length_wqe_encode).
  by rewrite IH, wqe_decode_encode.
Qed.

Lemma land_1 z : Z.land z 1 = 0 \/ Z.land z 1 = 1.
Proof.
  assert (Z.land z 1 = z mod 2) as -> by (exact (Z.land_ones z 1 ltac:(lia))).
  pose proof (Z.mod_pos_bound z 2 ltac:(lia)). lia.
Qed.

Lemma MODE_OLD_MODE_range m o : in_uw 8 (MODE_OLD_MODE m o).
Proof.
  unfold in_uw, MODE_OLD_MODE.
  destruct (land_1 o) as [-> | ->], (land_1 m) as [-> | ->]; done.
Qed.

(** Every packet [send_post_lock_generic] fabricates without a modifier is
    well formed, and its size is the number of its bytes. *)
Lemma send_post_lock_generic_wf t op lid hid tid wq nc os dest :
  Forall wqe_wf wq -> Z.of_nat (length wq) < 2 ^ 32 ->
  packet_wf (s_pkt (send_post_lock_generic None t op lid hid tid wq nc os dest)).
Proof.
  intros Hwq Hlen. split; simpl; auto using uw_range.
  - apply uw_range. lia.
  - unfold hdr_wf; simpl. split_and!; auto using MODE_OLD_MODE_range, htonl_range;
      apply uw_range; lia.
  - apply uw_small. unfold in_uw. lia.
Qed.

Lemma length_concat_wqe ws : length (concat (map wqe_encode ws)) = (5 * length ws)%nat.
Proof.
  induction ws as [|w ws IH]; [done|]. cbn [map concat]. rewrite length_app, IH,
    length_wqe_encode. simpl. lia.
Qed.

(** [MODE] and [OLD_MODE] read back what [MODE_OLD_MODE] packed, for the two
    operations a request can carry. *)
Lemma MODE_pack m o :
  m = LOCK_SHARED \/ m = LOCK_EXCL -> MODE (MODE_OLD_MODE (ls_val m) o) = m.
Proof.
  intros Hm. unfold MODE, MODE_OLD_MODE.
  destruct (land_1 o) as [-> | ->], Hm as [-> | ->]; done.
Qed.

Lemma OLD_MODE_pack m o :
  o = LOCK_SHARED \/ o = LOCK_EXCL -> OLD_MODE (MODE_OLD_MODE m (ls_val o)) = o.
Proof.
  intros Ho. unfold OLD_MODE, MODE_OLD_MODE.
  destruct (land_1 m) as [-> | ->], Ho as [-> | ->]; done.
Qed.

(** A packed mode byte never sets the switch's GRANTED and TRANSFERRED bits. *)
Lemma MODE_OLD_MODE_flags m o h :
  mode_old_mode h = MODE_OLD_MODE m o -> GRANTED h = false /\ TRANSFERRED h = false.
Proof.
  intros E. unfold GRANTED, TRANSFERRED. rewrite E. unfold MODE_OLD_MODE.
  destruct (land_1 m) as [-> | ->], (land_1 o) as [-> | ->]; done.
Qed.

Lemma length_encode_post p :
  length (encode_post p) = (17 + 5 * length (pk_wq p) + length (pk_extra p))%nat.
Proof.
  unfold encode_post. rewrite !length_app, length_le_bytes, length_encode_hdr,
    length_concat_wqe. lia.
Qed.

Lemma decode_encode_post p : packet_wf p -> decode_post (encode_post p) = Some p.
Proof.
  intros [Ht Hh Hw Hs]. unfold decode_post. rewrite length_encode_post. simpl Nat.ltb.
  unfold encode_post.
  rewrite (slice_app_skip 0 1) by apply length_le_bytes.
  rewrite slice_app_here by apply length_encode_hdr.
  rewrite decode_encode_hdr, Hs, Nat2Z.id by done.
  rewrite take_app_length' by (by rewrite length_le_bytes).
  rewrite le_value_bytes_small by (unfold in_uw in Ht; simpl; lia).
  rewrite app_assoc, drop_app_length'
    by (rewrite length_app, length_le_bytes, length_encode_hdr; done).
  rewrite decode_wq_app by done. by destruct p.
Qed.

(** Without a modifier the size given to the network is that of the bytes. *)
Lemma send_post_lock_generic_size t op lid hid tid wq nc os dest :
  let s := send_post_lock_generic None t op lid hid tid wq nc os dest in
  s_size s = Z.of_nat (length (encode_post (s_pkt s))).
Proof.
  cbv zeta. rewrite length_encode_post. simpl.
  unfold POST_HDR_SIZE, sizeof_post_header, sizeof_lock_post_header, sizeof_wqe.
  destruct wq as [|w wq]; simpl; lia.
Qed.

(** A transfer survives the wire. The bytes the agent hands to the network
    have the announced size, and decoding them gives a transfer with the lock,
    the next holder, its operation and the old mode, the whole wait queue in
    order, and the notification count modulo 256; the flags the switch sets are
    clear. *)
Theorem transfer_roundtrip me op lid hid tid wq nc old :
  op = LOCK_SHARED \/ op = LOCK_EXCL -> old = LOCK_SHARED \/ old = LOCK_EXCL ->
  in_uw 32 lid -> in_uw 8 hid -> in_uw 32 tid -> Forall wqe_wf wq -> Z.of_nat (length wq) < 2 ^ 32 ->
  let s := send_post_transfer None me op lid hid tid wq nc old in
  exists p, decode_post (encode_post (s_pkt s)) = Some p /\
    s_size s = Z.of_nat (length (encode_post (s_pkt s))) /\
    pk_type p = POST_LOCK_TRANSFER /\ lid_of (pk_hdr p) = lid /\
    machine_id (pk_hdr p) = hid /\ task_id (pk_hdr p) = tid /\
    MODE (mode_old_mode (pk_hdr p)) = op /\ OLD_MODE (mode_old_mode (pk_hdr p)) = old /\
    GRANTED (pk_hdr p) = false /\ TRANSFERRED (pk_hdr p) = false /\
    pk_wq p = wq /\ pk_extra p = [] /\ ncnt (pk_hdr p) = nc mod 256.
Proof.
  intros Hop Hold Hl Hh Ht Hw Hn s. exists (s_pkt s). unfold s, send_post_transfer. split_and!.
  - apply decode_encode_post. by apply send_post_lock_generic_wf.
  - apply send_post_lock_generic_size.
  - done.
  - unfold lid_of. simpl. by apply ntohl_htonl.
  - simpl. by apply uw_small.
  - simpl. by apply uw_small.
  - simpl. by apply MODE_pack.
  - simpl. by apply OLD_MODE_pack.
  - by eapply MODE_OLD_MODE_flags.
  - by eapply MODE_OLD_MODE_flags.
  - done.
  - done.
  - done.
Qed.

Lemma transfer_roundtrip_witness :
  let s := send_post_transfer None 1 LOCK_EXCL 70000 3 40000 [mk_wqe LOCK_SHARED 9 4] 300 LOCK_SHARED in
  exists p, decode_post (encode_post (s_pkt s)) = Some p /\
    s_size s = Z.of_nat (length (encode_post (s_pkt s))) /\
    pk_type p = POST_LOCK_TRANSFER /\ lid_of (pk_hdr p) = 70000 /\
    machine_id (pk_hdr p) = 3 /\ task_id (pk_hdr p) = 40000 /\
    MODE (mode_old_mode (pk_hdr p)) = LOCK_EXCL /\ OLD_MODE (mode_old_mode (pk_hdr p)) = LOCK_SHARED /\
    GRANTED (pk_hdr p) = false /\ TRANSFERRED (pk_hdr p) = false /\
    pk_wq p = [mk_wqe LOCK_SHARED 9 4] /\ pk_extra p = [] /\ ncnt (pk_hdr p) = 300 mod 256.
Proof.
  apply (transfer_roundtrip 1 LOCK_EXCL 70000 3 40000 [mk_wqe LOCK_SHARED 9 4] 300 LOCK_SHARED); auto;
    try (unfold in_uw; lia); try done.
  constructor; [apply mk_wqe_wf|constructor].
Defined.
