(* ===== verification/Lock.v ===== *)
(** * Lock: lock metadata and the lock packet handlers

    Models lib/lock.cc, lines 42-730: the structure [innet_lock], the helpers
    that read and update it, the handlers of the lock agent and of the lock
    manager for locks the switch does not manage, and [lock_packet_process],
    the processor of every lock packet.

    Each handler runs with the lock's mutex held, so a handler is one function
    from the metadata (and the packet buffer it rewrites in place) to the new
    metadata, the rewritten packet, the packets it sent and its return value.
    Timers, counters and log lines have no effect on these and are left out;
    ASSERT only evaluates its condition in the build that is modelled
    (include/debug.h without FISSLOCK_DEBUG), and LOCK_WAIT_MECHANISM is the
    busy loop utils/conf.h selects. *)

From S2P Require Import Prelude Types Post.

(** ** Build and run-time configuration *)

Record config := Config {
  LOCALHOST_ID : Z;
  packet_modify : modifier;                              (** lib/post.c hook *)
  packet_preprocess : option (Z -> packet -> packet);    (** lib/lock.cc hook *)
  FISSLOCK_BMV2 : bool;
  TPCC_ENB_LOCAL : bool;
}.

(** ** Lock metadata *)

Record innet_lock := Innet {
  l_key : Z;
  l_id : Z;
  l_mode : lock_state;
  l_is_agent : bool;
  l_ncnt : Z;
  l_holders : gset Z;
  l_wqueue : list wqe;
  l_task_granted : gmap Z bool;
  l_delayed_free : bool;
  l_early_release : gmap Z bool;
  l_fwd_back_cnt : gmap Z Z;
  l_local_holders : gset Z;
}.

(** [new innet_lock()] zeroes every member; the creators then set the key and
    the identifier. *)
Definition new_innet_lock (key id : Z) : innet_lock :=
  Innet key id FREE false 0 ∅ [] ∅ false ∅ ∅ ∅.

Definition set_mode (m : lock_state) (l : innet_lock) : innet_lock :=
  Innet (l_key l) (l_id l) m (l_is_agent l) (l_ncnt l) (l_holders l) (l_wqueue l)
    (l_task_granted l) (l_delayed_free l) (l_early_release l) (l_fwd_back_cnt l) (l_local_holders l).
Definition set_is_agent (b : bool) (l : innet_lock) : innet_lock :=
  Innet (l_key l) (l_id l) (l_mode l) b (l_ncnt l) (l_holders l) (l_wqueue l)
    (l_task_granted l) (l_delayed_free l) (l_early_release l) (l_fwd_back_cnt l) (l_local_holders l).
Definition set_ncnt (n : Z) (l : innet_lock) : innet_lock :=
  Innet (l_key l) (l_id l) (l_mode l) (l_is_agent l) (u32 n) (l_holders l) (l_wqueue l)
    (l_task_granted l) (l_delayed_free l) (l_early_release l) (l_fwd_back_cnt l) (l_local_holders l).
Definition set_holders (h : gset Z) (l : innet_lock) : innet_lock :=
  Innet (l_key l) (l_id l) (l_mode l) (l_is_agent l) (l_ncnt l) h (l_wqueue l)
    (l_task_granted l) (l_delayed_free l) (l_early_release l) (l_fwd_back_cnt l) (l_local_holders l).
Definition set_wqueue (q : list wqe) (l : innet_lock) : innet_lock :=
  Innet (l_key l) (l_id l) (l_mode l) (l_is_agent l) (l_ncnt l) (l_holders l) q
    (l_task_granted l) (l_delayed_free l) (l_early_release l) (l_fwd_back_cnt l) (l_local_holders l).
Definition set_task_granted (g : gmap Z bool) (l : innet_lock) : innet_lock :=
  Innet (l_key l) (l_id l) (l_mode l) (l_is_agent l) (l_ncnt l) (l_holders l) (l_wqueue l)
    g (l_delayed_free l) (l_early_release l) (l_fwd_back_cnt l) (l_local_holders l).
Definition set_delayed_free (b : bool) (l : innet_lock) : innet_lock :=
  Innet (l_key l) (l_id l) (l_mode l) (l_is_agent l) (l_ncnt l) (l_holders l) (l_wqueue l)
    (l_task_granted l) b (l_early_release l) (l_fwd_back_cnt l) (l_local_holders l).
Definition set_early_release (e : gmap Z bool) (l : innet_lock) : innet_lock :=
  Innet (l_key l) (l_id l) (l_mode l) (l_is_agent l) (l_ncnt l) (l_holders l) (l_wqueue l)
    (l_task_granted l) (l_delayed_free l) e (l_fwd_back_cnt l) (l_local_holders l).
Definition set_fwd_back_cnt (f : gmap Z Z) (l : innet_lock) : innet_lock :=
  Innet (l_key l) (l_id l) (l_mode l) (l_is_agent l) (l_ncnt l) (l_holders l) (l_wqueue l)
    (l_task_granted l) (l_delayed_free l) (l_early_release l) f (l_local_holders l).
Definition set_local_holders (h : gset Z) (l : innet_lock) : innet_lock :=
  Innet (l_key l) (l_id l) (l_mode l) (l_is_agent l) (l_ncnt l) (l_holders l) (l_wqueue l)
    (l_task_granted l) (l_delayed_free l) (l_early_release l) (l_fwd_back_cnt l) h.

(** ** Helpers *)

Definition lock_to_lm (l : innet_lock) : Z := u8 (l_id l mod HOST_NUM + 1).
Definition lock_out_of_range (l : innet_lock) : bool := SWITCH_LOCK_NUM <=? l_id l.

Definition lock_add_holder (lh : Z) (l : innet_lock) : innet_lock :=
  set_holders ({[ lh ]} ∪ l_holders l) l.
Definition lock_remove_holder (lh : Z) (l : innet_lock) : innet_lock :=
  set_holders (l_holders l ∖ {[ lh ]}) l.
Definition lock_has_holder (l : innet_lock) (lh : Z) : bool := bool_decide (lh ∈ l_holders l).
Definition lock_no_holders (l : innet_lock) : bool := bool_decide (l_holders l = ∅).
Definition lock_append_to_wq (w : wqe) (l : innet_lock) : innet_lock :=
  set_wqueue (l_wqueue l ++ [w]) l.
Definition lock_unmarshal_wq (wq : list wqe) (l : innet_lock) : innet_lock :=
  set_wqueue (l_wqueue l ++ wq) l.
Definition lock_no_waiters (l : innet_lock) : bool := bool_decide (l_wqueue l = []).

(** The grant [lock_digest_wq] fabricates for the shared waiter [w]. *)
Definition digest_grant (lid : Z) (w : wqe) : sent :=
  Sent (Packet POST_LOCK_GRANT_WO_AGENT
          (Hdr 0 (htonl lid) (u8 (wq_host w)) (u32 (wq_task w)) (u8 (wq_host w)) 0 0) [] [])
       POST_HDR_SIZE.

(** The loop of [lock_digest_wq]. *)
Fixpoint digest_loop (wq : list wqe) (l : innet_lock) (out : list sent)
    : innet_lock * list sent :=
  match wq with
  | [] => (l, out)
  | w :: wq' =>
      if wq_op w =? ls_val LOCK_SHARED then
        digest_loop wq' (lock_add_holder (LOCK_HOLDER (wq_host w) (wq_task w)) l)
          (out ++ [digest_grant (l_id l) w])
      else digest_loop wq' (lock_append_to_wq w l) out
  end.

(** The buffer handles go to an array of DPDK_TX_BURST_SIZE entries. *)
Definition lock_digest_wq (wq : list wqe) (l : innet_lock) : result (innet_lock * list sent) :=
  if DPDK_TX_BURST_SIZE <? Z.of_nat (length wq) then Fault FaultBounds
  else Ok (digest_loop wq l []).

(** Creates the flag of a waiting task unless it exists; the request handle is
    the flag's address. *)
Definition lock_prepare_wait (tid : Z) (l : innet_lock) : innet_lock :=
  set_task_granted (touch false tid (l_task_granted l)) l.

(** The busy-loop variant of [lock_local_wait]. *)
Definition lock_local_wait (tid : Z) (l : innet_lock) : bool * innet_lock :=
  (index false tid (l_task_granted l),
   set_task_granted (touch false tid (l_task_granted l)) l).

Definition lock_local_notify (tid : Z) (l : innet_lock) : innet_lock :=
  let l := set_local_holders ({[ tid ]} ∪ l_local_holders l) l in
  set_task_granted (<[tid := true]> (l_task_granted l)) l.

(** ** Agent and lock-manager handlers *)

Definition handle_granted_acquire (hid tid : Z) (l : innet_lock) : innet_lock :=
  lock_add_holder (LOCK_HOLDER hid tid) l.

Definition handle_suspend_acquire (hid tid : Z) (op : lock_state) (l : innet_lock) : innet_lock :=
  lock_append_to_wq (mk_wqe op tid hid) l.

Definition handle_release (hid tid : Z) (l : innet_lock) : innet_lock :=
  lock_remove_holder (LOCK_HOLDER hid tid) l.

Definition handle_acquire_lm (hid tid : Z) (op : lock_state) (l : innet_lock) : bool * innet_lock :=
  if ls_eqb (l_mode l) FREE then
    (true, lock_add_holder (LOCK_HOLDER hid tid) (set_mode op l))
  else if ls_eqb (l_mode l) LOCK_SHARED then
    if ls_eqb op LOCK_SHARED then (true, lock_add_holder (LOCK_HOLDER hid tid) l)
    else (false, lock_append_to_wq (mk_wqe op tid hid) l)
  else (false, lock_append_to_wq (mk_wqe op tid hid) l).

(** Returns true when the head of the queue is an exclusive waiter the caller
    has to grant. *)
Definition handle_release_lm (hid tid : Z) (l : innet_lock)
    : result (bool * innet_lock * list sent) :=
  let l := lock_remove_holder (LOCK_HOLDER hid tid) l in
  if lock_no_holders l then
    match l_wqueue l with
    | [] => Ok (false, set_mode FREE l, [])
    | w :: _ =>
        let l := set_mode (ls_of (wq_op w)) l in
        if ls_eqb (l_mode l) LOCK_SHARED then
          let wq := l_wqueue l in
          '(l, out) ← lock_digest_wq wq (set_wqueue [] l);
          Ok (false, l, out)
        else Ok (true, l, [])
    end
  else Ok (false, l, []).

(** ** Rewriting the packet in place *)

(** The bytes behind the lock header. *)
Definition pk_body (p : packet) : list Z := concat (map wqe_encode (pk_wq p)) ++ pk_extra p.

Definition set_pk_type (t : Z) (p : packet) : packet :=
  Packet t (pk_hdr p) (pk_wq p) (pk_extra p).

(** [hdr->agent = a] *)
Definition set_hdr_agent (a : Z) (p : packet) : packet :=
  let h := pk_hdr p in
  Packet (pk_type p)
    (Hdr (mode_old_mode h) (lock_id h) (machine_id h) (task_id h) (u8 a) (wq_size h) (ncnt h))
    (pk_wq p) (pk_extra p).

(** [hdr->machine_id = m; hdr->task_id = t; hdr->agent = a] *)
Definition set_hdr_dest (m t a : Z) (p : packet) : packet :=
  let h := pk_hdr p in
  Packet (pk_type p)
    (Hdr (mode_old_mode h) (lock_id h) (u8 m) (u32 t) (u8 a) (wq_size h) (ncnt h))
    (pk_wq p) (pk_extra p).

(** [hdr->ncnt = n] *)
Definition set_hdr_ncnt (n : Z) (p : packet) : packet :=
  let h := pk_hdr p in
  Packet (pk_type p)
    (Hdr (mode_old_mode h) (lock_id h) (machine_id h) (task_id h) (agent h) (wq_size h) (u8 n))
    (pk_wq p) (pk_extra p).

(** Change the packet into a free packet. *)
Definition lock_free_helper (cfg : config) (l : innet_lock) (p : packet) : innet_lock * packet :=
  let h := Hdr (MODE_OLD_MODE 0 (ls_val (l_mode l))) (lock_id (pk_hdr p))
               (u8 (LOCALHOST_ID cfg)) 0 (u8 (LOCALHOST_ID cfg)) 0 (u8 (l_ncnt l)) in
  let p := Packet POST_LOCK_FREE h [] (pk_body p) in
  (set_ncnt 0 (set_mode FREE (set_is_agent false l)), p).

(** Change the packet into a transfer packet; copying the queue behind the
    header overwrites the bytes that were there. *)
Definition lock_transfer_helper (cfg : config) (l : innet_lock) (p : packet)
    : result (innet_lock * packet * Z) :=
  match l_wqueue l with
  | [] => Fault FaultNull
  | w :: wq =>
      let n := Z.of_nat (length wq) in
      let h := Hdr (MODE_OLD_MODE (wq_op w) (ls_val (l_mode l))) (lock_id (pk_hdr p))
                   (u8 (wq_host w)) (u32 (wq_task w)) (u8 (LOCALHOST_ID cfg))
                   (u32 n) (u8 (l_ncnt l)) in
      let p := Packet POST_LOCK_TRANSFER h wq (drop (5 * length wq) (pk_body p)) in
      let l := set_is_agent false l in
      let l := set_ncnt 0 l in
      let l := set_mode FREE l in
      let l := set_wqueue [] l in
      Ok (l, p, i32 n)
  end.

(** ** The packet processor *)

(** What a handler leaves behind: the metadata, the packet buffer, the packets
    it sent, and its return value (nonzero: the buffer is forwarded). *)
Record outcome := Outcome {
  o_lock : innet_lock;
  o_pkt : packet;
  o_sends : list sent;
  o_ret : Z;
}.

Section process.
Context (cfg : config).

(** case POST_LOCK_ACQUIRE *)
Definition process_acquire (l : innet_lock) (p : packet) : result outcome :=
  let hdr := pk_hdr p in
  let hid := machine_id hdr in
  let tid := task_id hdr in
  let op := MODE (mode_old_mode hdr) in
  if lock_out_of_range l then
    let '(grant, l) := handle_acquire_lm hid tid op l in
    if grant then
      let p := set_pk_type POST_LOCK_GRANT_WO_AGENT p in
      let p := set_hdr_agent hid p in
      Ok (Outcome l p [] 1)
    else Ok (Outcome l p [] 0)
  else
    let l := if ls_eqb op LOCK_SHARED && GRANTED hdr then set_ncnt (l_ncnt l + 1) l else l in
    let lh := LOCK_HOLDER hid tid in
    let early := index false lh (l_early_release l) in
    let l := set_early_release (touch false lh (l_early_release l)) l in
    if early then
      Ok (Outcome (set_early_release (<[lh := false]> (l_early_release l)) l) p [] 0)
    else if negb (l_is_agent l) then
      if ls_eqb op LOCK_SHARED then
        if GRANTED hdr then Ok (Outcome (handle_granted_acquire hid tid l) p [] 0)
        else Ok (Outcome l p [] 1)
      else
        let c := index 0 lh (l_fwd_back_cnt l) in
        let l := set_fwd_back_cnt (touch 0 lh (l_fwd_back_cnt l)) l in
        if 2 <? c then
          let l := handle_suspend_acquire hid tid op l in
          Ok (Outcome (set_fwd_back_cnt (delete lh (l_fwd_back_cnt l)) l) p [] 0)
        else
          Ok (Outcome (set_fwd_back_cnt (<[lh := i16 (c + 1)]> (l_fwd_back_cnt l)) l) p [] 1)
    else if GRANTED hdr then Ok (Outcome (handle_granted_acquire hid tid l) p [] 0)
    else Ok (Outcome (handle_suspend_acquire hid tid op l) p [] 0).

(** case POST_LOCK_GRANT_WITH_AGENT *)
Definition process_grant_with_agent (l : innet_lock) (p : packet) : result outcome :=
  let hdr := pk_hdr p in
  if task_id hdr =? TASK_FOR_RESTORE then Ok (Outcome l p [] 0)
  else
    let l := set_is_agent true l in
    let l := lock_add_holder (LOCK_HOLDER (LOCALHOST_ID cfg) (task_id hdr)) l in
    '(l, out) ←
      (if TRANSFERRED hdr then
         let l := set_mode (MODE (mode_old_mode hdr)) l in
         let l := set_ncnt (l_ncnt l + 0) l in
         if 0 <? wq_size hdr then
           if ls_eqb (l_mode l) LOCK_SHARED then lock_digest_wq (pk_wq p) l
           else Ok (lock_unmarshal_wq (pk_wq p) l, [])
         else Ok (l, [])
       else
         let l := set_mode (MODE (mode_old_mode hdr)) l in
         if ls_eqb (l_mode l) LOCK_SHARED then Ok (set_ncnt (l_ncnt l + 1) l, [])
         else Ok (set_ncnt 0 l, []));
    Ok (Outcome (lock_local_notify (task_id hdr) l) p out 0).

(** case POST_LOCK_GRANT_WO_AGENT *)
Definition process_grant_wo_agent (l : innet_lock) (p : packet) : result outcome :=
  Ok (Outcome (lock_local_notify (task_id (pk_hdr p)) l) p [] 0).

(** The end of case POST_LOCK_RELEASE: free or transfer without holders. *)
Definition release_tail (l : innet_lock) (p : packet) : result outcome :=
  if lock_no_holders l then
    if lock_no_waiters l then
      let '(l, p) := lock_free_helper cfg l p in
      Ok (Outcome l p [] 1)
    else
      '(l, p, wq_size) ← lock_transfer_helper cfg l p;
      Ok (Outcome l p [] (if wq_size =? 0 then 1 else i32 (wq_size * sizeof_wqe)))
  else Ok (Outcome l p [] 0).

(** case POST_LOCK_RELEASE *)
Definition process_release (l : innet_lock) (p : packet) : result outcome :=
  let hdr := pk_hdr p in
  let hid := machine_id hdr in
  let tid := task_id hdr in
  if lock_out_of_range l then
    '(sched, l, out) ← handle_release_lm hid tid l;
    if sched : bool then
      match l_wqueue l with
      | [] => Fault FaultNull
      | w :: wq =>
          let p := set_pk_type POST_LOCK_GRANT_WO_AGENT p in
          let p := set_hdr_dest (wq_host w) (wq_task w) (wq_host w) p in
          Ok (Outcome (set_wqueue wq l) p out 1)
      end
    else Ok (Outcome l p out 0)
  else
    let lh := LOCK_HOLDER hid tid in
    if negb (lock_has_holder l lh) then
      match erase_first (fun w => (wq_host w =? hid) && (wq_task w =? tid)) (l_wqueue l) with
      | Some (_, wq) => Ok (Outcome (set_wqueue wq l) p [] 0)
      | None =>
          release_tail (set_early_release (<[lh := true]> (l_early_release l)) l) p
      end
    else if negb (l_is_agent l) then
      Ok (Outcome (set_delayed_free true (lock_remove_holder lh l)) p [] 0)
    else release_tail (handle_release hid tid l) p.

(** case POST_LOCK_TRANSFER and case POST_LOCK_FREE: pushed back by the
    switch *)
Definition process_pushback (l : innet_lock) (p : packet) : result outcome :=
  let hdr := pk_hdr p in
  if l_delayed_free l && lock_no_holders l then
    let p := set_hdr_ncnt (ncnt hdr + l_ncnt l) p in
    Ok (Outcome (set_delayed_free false (set_ncnt 0 l)) p [] 1)
  else
    let l := set_mode (OLD_MODE (mode_old_mode hdr)) l in
    let l := set_is_agent true l in
    let l := set_ncnt (l_ncnt l + ncnt hdr) l in
    let l :=
      if pk_type p =? POST_LOCK_TRANSFER then
        let e := mk_wqe (MODE (mode_old_mode hdr)) (task_id hdr) (machine_id hdr) in
        let l := set_wqueue (l_wqueue l ++ [e]) l in
        if 0 <? wq_size hdr then set_wqueue (l_wqueue l ++ pk_wq p) l else l
      else l in
    Ok (Outcome l p [] 0).

Definition lock_packet_process (l : innet_lock) (p : packet) : result outcome :=
  let p := match packet_preprocess cfg with
           | Some f => f (pk_type p) p
           | None => p
           end in
  let t := pk_type p in
  if t =? POST_LOCK_ACQUIRE then process_acquire l p
  else if t =? POST_LOCK_GRANT_WITH_AGENT then process_grant_with_agent l p
  else if t =? POST_LOCK_GRANT_WO_AGENT then process_grant_wo_agent l p
  else if t =? POST_LOCK_RELEASE then process_release l p
  else if (t =? POST_LOCK_TRANSFER) || (t =? POST_LOCK_FREE) then process_pushback l p
  else Ok (Outcome l p [] 0).
End process.
