(* ===== verification/LockProofs.v ===== *)
(** * LockProofs: the lock metadata under every packet

    The well-formedness invariant of [innet_lock], its preservation by every
    branch of [lock_packet_process], and the protocol behaviours of the agent:
    transfer, free, push-back, early release, delayed free and forward-back. *)

From S2P Require Import Prelude Types Post Lock.

(** ** Well-formedness *)

(** A waiter: fields within their widths and an acquire operation. *)
Definition wq_ok (w : wqe) : Prop :=
  wqe_wf w /\ (wq_op w = ls_val LOCK_SHARED \/ wq_op w = ls_val LOCK_EXCL).

Record lock_wf (l : innet_lock) : Prop := {
  lw_mode : l_mode l <> RELEASE;
  lw_ncnt : in_uw 32 (l_ncnt l);
  lw_wq : Forall wq_ok (l_wqueue l);
  lw_fwd : map_Forall (fun _ c => 0 <= c <= 3) (l_fwd_back_cnt l);
  lw_holders : set_Forall (in_uw 40) (l_holders l);
}.

Record packet_ok (p : packet) : Prop := {
  po_wf : packet_wf p;
  po_wq : Forall wq_ok (pk_wq p);
}.

Definition config_wf (cfg : config) : Prop :=
  in_uw 8 (LOCALHOST_ID cfg) /\ packet_modify cfg = None /\ packet_preprocess cfg = None.

(** ** Small facts *)

Create HintDb lockdb discriminated.

Lemma MODE_cases m : MODE m = LOCK_SHARED \/ MODE m = LOCK_EXCL.
Proof. unfold MODE. destruct (land_1 m) as [-> | ->]; auto. Qed.

Lemma OLD_MODE_cases m : OLD_MODE m = LOCK_SHARED \/ OLD_MODE m = LOCK_EXCL.
Proof. unfold OLD_MODE. destruct (land_1 (Z.shiftr m 1)) as [-> | ->]; auto. Qed.

Lemma MODE_not_release m : MODE m <> RELEASE.
Proof. by destruct (MODE_cases m) as [-> | ->]. Qed.

Lemma OLD_MODE_not_release m : OLD_MODE m <> RELEASE.
Proof. by destruct (OLD_MODE_cases m) as [-> | ->]. Qed.

Lemma wq_ok_mode w : wq_ok w -> ls_of (wq_op w) = LOCK_SHARED \/ ls_of (wq_op w) = LOCK_EXCL.
Proof. intros [_ [-> | ->]]; auto. Qed.

(** Reading the operation of a waiter back from its two-bit field. *)
Lemma wq_ok_val w : wq_ok w -> ls_val (ls_of (wq_op w)) = wq_op w.
Proof. intros [_ [-> | ->]]; auto. Qed.

Lemma wq_ok_not_release w : wq_ok w -> ls_of (wq_op w) <> RELEASE.
Proof. intros H. by destruct (wq_ok_mode w H) as [-> | ->]. Qed.

Lemma mk_wqe_ok op task host :
  op = LOCK_SHARED \/ op = LOCK_EXCL -> wq_ok (mk_wqe op task host).
Proof. intros Hop. split; [apply mk_wqe_wf|]. by destruct Hop as [-> | ->]; [left|right]. Qed.

Lemma LOCK_HOLDER_range host task :
  in_uw 8 host -> in_uw 32 task -> in_uw 40 (LOCK_HOLDER host task).
Proof. intros Hh Ht. rewrite LOCK_HOLDER_add by done. unfold in_uw in *. lia. Qed.

Lemma in_uw_mono w v z : 0 <= w <= v -> in_uw w z -> in_uw v z.
Proof.
  unfold in_uw. intros Hw Hz. pose proof (Z.pow_le_mono_r 2 w v ltac:(lia) ltac:(lia)). lia.
Qed.

Lemma wqe_holder_range w : wqe_wf w -> in_uw 40 (LOCK_HOLDER (wq_host w) (wq_task w)).
Proof.
  intros (_ & Ht & Hh). apply LOCK_HOLDER_range; [done|]. by apply (in_uw_mono 30).
Qed.

#[export] Hint Resolve MODE_cases OLD_MODE_cases MODE_not_release OLD_MODE_not_release
  wq_ok_not_release mk_wqe_ok LOCK_HOLDER_range wqe_holder_range : lockdb.

(** *** Each update of the metadata preserves the invariant *)

Section updates.
Context (l : innet_lock) (Hl : lock_wf l).

Lemma wf_set_mode m : m <> RELEASE -> lock_wf (set_mode m l).
Proof using Hl. destruct Hl. by split. Qed.
Lemma wf_set_is_agent b : lock_wf (set_is_agent b l).
Proof using Hl. destruct Hl. by split. Qed.
Lemma wf_set_ncnt n : lock_wf (set_ncnt n l).
Proof using Hl. destruct Hl. split; try done. apply uw_range. lia. Qed.
Lemma wf_set_wqueue q : Forall wq_ok q -> lock_wf (set_wqueue q l).
Proof using Hl. destruct Hl. by split. Qed.
Lemma wf_set_task_granted g : lock_wf (set_task_granted g l).
Proof using Hl. destruct Hl. by split. Qed.
Lemma wf_set_delayed_free b : lock_wf (set_delayed_free b l).
Proof using Hl. destruct Hl. by split. Qed.
Lemma wf_set_early_release e : lock_wf (set_early_release e l).
Proof using Hl. destruct Hl. by split. Qed.
Lemma wf_set_local_holders e : lock_wf (set_local_holders e l).
Proof using Hl. destruct Hl. by split. Qed.
Lemma wf_set_fwd_back_cnt f :
  map_Forall (fun _ c => 0 <= c <= 3) f -> lock_wf (set_fwd_back_cnt f l).
Proof using Hl. destruct Hl. by split. Qed.
Lemma wf_add_holder lh : in_uw 40 lh -> lock_wf (lock_add_holder lh l).
Proof using Hl.
  destruct Hl. intros H. split; try done. intros x Hx. simpl in Hx.
  apply elem_of_union in Hx as [Hx|Hx]; [|by auto]. by apply elem_of_singleton in Hx as ->.
Qed.
Lemma wf_remove_holder lh : lock_wf (lock_remove_holder lh l).
Proof using Hl.
  destruct Hl as [? ? ? ? Hh]. split; try done. intros x Hx. simpl in Hx.
  apply Hh. set_solver.
Qed.
Lemma wf_append_to_wq w : wq_ok w -> lock_wf (lock_append_to_wq w l).
Proof using Hl.
  intros Hw. apply wf_set_wqueue. apply Forall_app. split; [by apply Hl|by constructor].
Qed.
Lemma wf_unmarshal_wq q : Forall wq_ok q -> lock_wf (lock_unmarshal_wq q l).
Proof using Hl. intros Hw. apply wf_set_wqueue. apply Forall_app. split; [by apply Hl|done]. Qed.
Lemma wf_local_notify t : lock_wf (lock_local_notify t l).
Proof using Hl. destruct Hl. by split. Qed.
End updates.

#[export] Hint Resolve wf_set_mode wf_set_is_agent wf_set_ncnt wf_set_wqueue wf_set_task_granted
  wf_set_delayed_free wf_set_early_release wf_set_local_holders wf_set_fwd_back_cnt
  wf_add_holder wf_remove_holder wf_append_to_wq wf_unmarshal_wq wf_local_notify : lockdb.

Lemma new_innet_lock_wf key id : lock_wf (new_innet_lock key id).
Proof. by split. Qed.

Lemma map_Forall_touch {A} (P : Z -> A -> Prop) d k m :
  map_Forall P m -> P k d -> map_Forall P (touch d k m).
Proof.
  intros Hm Hd. unfold touch. destruct (m !! k) eqn:E; [done|]. by apply map_Forall_insert_2.
Qed.

(** The forward-back counter never leaves 0..3: no 16-bit overflow. *)
Lemma fwd_index_range l lh : lock_wf l -> 0 <= index 0 lh (l_fwd_back_cnt l) <= 3.
Proof.
  intros Hl. unfold index. destruct (l_fwd_back_cnt l !! lh) as [c|] eqn:E; simpl; [|lia].
  by apply (lw_fwd _ Hl lh).
Qed.

(** ** Digesting a wait queue *)

Definition wq_shared (w : wqe) : bool := wq_op w =? ls_val LOCK_SHARED.

Definition wqe_holder (w : wqe) : Z := LOCK_HOLDER (wq_host w) (wq_task w).

(** The loop of [lock_digest_wq] grants the shared waiters in order, makes
    them holders and appends the exclusive waiters, in order. *)
Lemma digest_loop_spec wq l out :
  digest_loop wq l out =
    (set_wqueue (l_wqueue l ++ filterb (fun w => negb (wq_shared w)) wq)
       (set_holders (l_holders l ∪ list_to_set (map wqe_holder (filterb wq_shared wq))) l),
     out ++ map (digest_grant (l_id l)) (filterb wq_shared wq)).
Proof.
  revert l out. induction wq as [|w wq IH]; intros l out; simpl.
  - rewrite !app_nil_r. f_equal. destruct l. unfold set_wqueue, set_holders. simpl.
    by rewrite union_empty_r_L.
  - change (wq_op w =? 2) with (wq_shared w). destruct (wq_shared w) eqn:E; simpl; rewrite IH; simpl.
    + rewrite <- app_assoc. f_equal. unfold set_wqueue, set_holders. simpl. f_equal.
      by rewrite (union_comm_L {[ _ ]}), <- union_assoc_L.
    + f_equal. unfold set_wqueue, set_holders. simpl. by rewrite <- app_assoc.
Qed.

Lemma lock_digest_wq_spec wq l :
  Z.of_nat (length wq) <= DPDK_TX_BURST_SIZE ->
  lock_digest_wq wq l =
    Ok (set_wqueue (l_wqueue l ++ filterb (fun w => negb (wq_shared w)) wq)
          (set_holders (l_holders l ∪ list_to_set (map wqe_holder (filterb wq_shared wq))) l),
        map (digest_grant (l_id l)) (filterb wq_shared wq)).
Proof.
  intros H. unfold lock_digest_wq. destruct (Z.ltb_spec DPDK_TX_BURST_SIZE (Z.of_nat (length wq))); [lia|].
  by rewrite digest_loop_spec.
Qed.

(** ** Packets stay well formed *)

Lemma ok_set_pk_type t p : in_uw 8 t -> packet_ok p -> packet_ok (set_pk_type t p).
Proof. intros Ht [[? ? ? ?] ?]. by split; [split|]. Qed.

Lemma ok_set_hdr_agent a p : packet_ok p -> packet_ok (set_hdr_agent a p).
Proof.
  intros [[? (? & ? & ? & ? & ? & ? & ?) ? ?] ?]. split; [split|]; simpl; try done.
  unfold hdr_wf; simpl. split_and!; try done; by apply uw_range.
Qed.

Lemma ok_set_hdr_dest m t a p : packet_ok p -> packet_ok (set_hdr_dest m t a p).
Proof.
  intros [[? (? & ? & ? & ? & ? & ? & ?) ? ?] ?]. split; [split|]; simpl; try done.
  unfold hdr_wf; simpl. split_and!; try done; by apply uw_range.
Qed.

Lemma ok_set_hdr_ncnt n p : packet_ok p -> packet_ok (set_hdr_ncnt n p).
Proof.
  intros [[? (? & ? & ? & ? & ? & ? & ?) ? ?] ?]. split; [split|]; simpl; try done.
  unfold hdr_wf; simpl. split_and!; try done; by apply uw_range.
Qed.

#[export] Hint Resolve ok_set_pk_type ok_set_hdr_agent ok_set_hdr_dest ok_set_hdr_ncnt : lockdb.

(** A header assembled from truncated fields. *)
Lemma hdr_wf_mk m lid hid tid ag n nc :
  in_uw 8 m -> in_uw 32 lid -> hdr_wf (Hdr m lid (u8 hid) (u32 tid) (u8 ag) (u32 n) (u8 nc)).
Proof. intros Hm Hl. unfold hdr_wf; simpl. split_and!; try done; apply uw_range; lia. Qed.

Lemma digest_grant_ok lid w : packet_ok (s_pkt (digest_grant lid w)).
Proof.
  split; [split|]; simpl; try done.
  apply (hdr_wf_mk 0 _ _ _ _ 0 0); [done|apply htonl_range].
Qed.

Lemma free_helper_ok cfg l p :
  lock_wf l -> packet_ok p ->
  lock_wf (lock_free_helper cfg l p).1 /\ packet_ok (lock_free_helper cfg l p).2.
Proof.
  intros Hl [[? (? & ? & ?) ? ?] ?]. simpl. split; [auto 6 with lockdb|].
  split; [split|]; simpl; try done.
  apply (hdr_wf_mk _ _ _ 0 _ 0); [apply MODE_OLD_MODE_range|done].
Qed.

Lemma transfer_helper_ok cfg l p w wq :
  lock_wf l -> packet_ok p -> l_wqueue l = w :: wq -> Z.of_nat (length wq) < 2 ^ 31 ->
  exists l' p', lock_transfer_helper cfg l p = Ok (l', p', Z.of_nat (length wq)) /\
    lock_wf l' /\ packet_ok p'.
Proof.
  intros Hl [[? (? & ? & ?) ? ?] ?] Hq Hlen. unfold lock_transfer_helper. rewrite Hq.
  pose proof (lw_wq _ Hl) as Hwq. rewrite Hq in Hwq. inversion_clear Hwq as [|? ? [Hw _] Hwq'].
  eexists _, _. split; [|split].
  - rewrite sw_small by lia. done.
  - auto 8 with lockdb.
  - split; [split|]; simpl; try done.
    + apply hdr_wf_mk; [apply MODE_OLD_MODE_range|done].
    + apply (list.Forall_impl _ _ _ Hwq'). by intros x [? _].
    + apply uw_small. unfold in_uw. lia.
Qed.

(** ** The invariant holds after every packet *)

(** A handler's outcome is good: no fault, well-formed metadata, buffer and
    sent packets. *)
Definition good (r : result outcome) : Prop :=
  exists o, r = Ok o /\ lock_wf (o_lock o) /\ packet_ok (o_pkt o) /\
            Forall (fun s => packet_ok (s_pkt s)) (o_sends o).

Lemma good_ok l p out ret :
  lock_wf l -> packet_ok p -> Forall (fun s => packet_ok (s_pkt s)) out ->
  good (Ok (Outcome l p out ret)).
Proof. intros. eexists. split; [reflexivity|]. by simpl. Qed.

Lemma digest_good wq l :
  lock_wf l -> Forall wq_ok wq -> Z.of_nat (length wq) <= DPDK_TX_BURST_SIZE ->
  exists l' out, lock_digest_wq wq l = Ok (l', out) /\ lock_wf l' /\
    Forall (fun s => packet_ok (s_pkt s)) out.
Proof.
  intros Hl Hwq Hlen. rewrite lock_digest_wq_spec by done. eexists _, _. split; [done|].
  rewrite list.Forall_forall in Hwq. destruct Hl as [? ? Hq ? Hh]. split; [split; simpl; try done|].
  - apply Forall_app. split; [done|]. apply list.Forall_forall. intros w Hw.
    apply Hwq. by apply elem_of_filterb in Hw as [_ ?].
  - intros lh. rewrite elem_of_union, elem_of_list_to_set. intros [?|Hin]; [by auto|].
    apply list_elem_of_fmap in Hin as (w & -> & Hw). apply elem_of_filterb in Hw as [_ Hw].
    unfold wqe_holder. apply wqe_holder_range. by destruct (Hwq w Hw).
  - apply Forall_fmap, list.Forall_forall. intros w _. apply digest_grant_ok.
Qed.

Lemma handle_acquire_lm_wf hid tid op l :
  lock_wf l -> in_uw 8 hid -> in_uw 32 tid -> op = LOCK_SHARED \/ op = LOCK_EXCL ->
  lock_wf (handle_acquire_lm hid tid op l).2.
Proof.
  intros Hl Hh Ht Hop. unfold handle_acquire_lm.
  assert (op <> RELEASE) by (by destruct Hop as [-> | ->]).
  repeat case_if; simpl; auto 6 with lockdb.
Qed.

Lemma handle_release_lm_good hid tid l :
  lock_wf l -> Z.of_nat (length (l_wqueue l)) <= DPDK_TX_BURST_SIZE ->
  exists b l' out, handle_release_lm hid tid l = Ok (b, l', out) /\ lock_wf l' /\
    Forall (fun s => packet_ok (s_pkt s)) out /\ (b = true -> l_wqueue l' <> []).
Proof.
  intros Hl Hlen. unfold handle_release_lm. set (l1 := lock_remove_holder _ l).
  assert (Hl1 : lock_wf l1) by (subst l1; auto with lockdb).
  assert (Hq : l_wqueue l1 = l_wqueue l) by done.
  case_if; [|by eexists _, _, _].
  destruct (l_wqueue l1) as [|w wq] eqn:E.
  - eexists _, _, _. split; [done|]. simpl. auto with lockdb.
  - pose proof (lw_wq _ Hl1) as Hwq. rewrite E in Hwq. inversion_clear Hwq as [|? ? Hw _].
    cbv zeta. case_if.
    + destruct (digest_good (l_wqueue (set_mode (ls_of (wq_op w)) l1))
        (set_wqueue [] (set_mode (ls_of (wq_op w)) l1))) as (l2 & out & -> & ? & ?).
      * auto 6 with lockdb.
      * apply (lw_wq _ Hl1).
      * rewrite <- Hq in Hlen. change (l_wqueue (set_mode _ l1)) with (l_wqueue l1). by rewrite E.
      * eexists _, _, _. by split.
    + eexists _, _, _. split; [done|]. split; [auto with lockdb|]. split; [done|].
      intros _. change (l_wqueue l1 <> []). by rewrite E.
Qed.

Lemma process_acquire_good l p : lock_wf l -> packet_ok p -> good (process_acquire l p).
Proof.
  intros Hl Hp. destruct (pwf_hdr _ (po_wf _ Hp)) as (_ & _ & Hm & Ht & _).
  unfold process_acquire. case_if.
  - pose proof (handle_acquire_lm_wf (machine_id (pk_hdr p)) (task_id (pk_hdr p))
      (MODE (mode_old_mode (pk_hdr p))) l Hl Hm Ht ltac:(auto with lockdb)) as Hl'.
    destruct (handle_acquire_lm _ _ _ _) as [[] l']; apply good_ok; auto.
    apply ok_set_hdr_agent, ok_set_pk_type; [done|auto].
  - set (l1 := if (ls_eqb _ _ && _)%bool then set_ncnt _ l else l). assert (Hl1 : lock_wf l1) by (subst l1; case_if; auto with lockdb).
    cbv zeta. set (l2 := set_early_release _ l1). assert (Hl2 : lock_wf l2) by (subst l2; auto with lockdb).
    pose proof (fwd_index_range l2 (LOCK_HOLDER (machine_id (pk_hdr p)) (task_id (pk_hdr p))) Hl2) as Hc.
    assert (Hf : map_Forall (fun _ c => 0 <= c <= 3) (touch 0
      (LOCK_HOLDER (machine_id (pk_hdr p)) (task_id (pk_hdr p))) (l_fwd_back_cnt l2)))
      by (apply map_Forall_touch; [by apply lw_fwd|lia]).
    set (c := index 0 _ (l_fwd_back_cnt l2)) in *. clearbody c.
    repeat case_if; apply good_ok; unfold handle_granted_acquire, handle_suspend_acquire; auto 6 with lockdb.
    + apply wf_set_fwd_back_cnt; [auto 6 with lockdb|]. simpl. by apply map_Forall_delete.
    + apply wf_set_fwd_back_cnt; [auto with lockdb|]. bprop. apply map_Forall_insert_2; [|done].
      rewrite sw_small by lia. lia.
Qed.

Lemma process_grant_with_agent_good cfg l p :
  config_wf cfg -> lock_wf l -> packet_ok p -> Z.of_nat (length (pk_wq p)) <= DPDK_TX_BURST_SIZE ->
  good (process_grant_with_agent cfg l p).
Proof.
  intros [Hc _] Hl Hp Hlen. destruct (pwf_hdr _ (po_wf _ Hp)) as (_ & _ & Hm & Ht & _).
  pose proof (po_wq _ Hp) as Hq.
  unfold process_grant_with_agent. case_if; [by apply good_ok|]. cbv zeta.
  set (l1 := lock_add_holder _ _). assert (Hl1 : lock_wf l1) by (subst l1; auto 6 with lockdb).
  repeat case_if; try (simpl; apply good_ok; auto 8 with lockdb; fail).
  match goal with |- context [lock_digest_wq ?q ?l] =>
    destruct (digest_good q l) as (l2 & out & E & ? & ?); [auto 6 with lockdb|done|done|] end.
  rewrite E. apply good_ok; auto with lockdb.
Qed.

Lemma release_tail_good cfg l p :
  lock_wf l -> packet_ok p -> Z.of_nat (length (l_wqueue l)) <= DPDK_TX_BURST_SIZE ->
  good (release_tail cfg l p).
Proof.
  intros Hl Hp Hlen. unfold release_tail. case_if; [|by apply good_ok].
  unfold lock_no_waiters. destruct (l_wqueue l) as [|w wq] eqn:E.
  - rewrite bool_decide_true by done. destruct (free_helper_ok cfg l p) as [? ?]; [done..|].
    destruct (lock_free_helper cfg l p) as [l' p']. by apply good_ok.
  - rewrite bool_decide_false by done.
    destruct (transfer_helper_ok cfg l p w wq) as (l' & p' & -> & ? & ?); try done.
    { unfold DPDK_TX_BURST_SIZE in Hlen. simpl in Hlen. lia. }
    simpl. by apply good_ok.
Qed.

Lemma process_release_good cfg l p :
  lock_wf l -> packet_ok p -> Z.of_nat (length (l_wqueue l)) <= DPDK_TX_BURST_SIZE ->
  good (process_release cfg l p).
Proof.
  intros Hl Hp Hlen. unfold process_release. case_if.
  - destruct (handle_release_lm_good (machine_id (pk_hdr p)) (task_id (pk_hdr p)) l Hl Hlen)
      as ([] & l' & out & -> & Hl' & ? & Hne); simpl; [|by apply good_ok].
    specialize (Hne eq_refl). destruct (l_wqueue l') as [|w wq] eqn:E; [done|].
    apply good_ok; [|apply ok_set_hdr_dest, ok_set_pk_type; done|done].
    apply wf_set_wqueue; [done|]. pose proof (lw_wq _ Hl') as Hq. rewrite E in Hq. by inversion Hq.
  - cbv zeta. case_if; [|case_if].
    + destruct (erase_first _ _) as [[i wq]|] eqn:E.
      * apply good_ok; try done. apply wf_set_wqueue; [done|].
        apply erase_first_Some in E as (l1 & x & l2 & E & -> & _).
        pose proof (lw_wq _ Hl) as Hq. rewrite E in Hq. apply Forall_app in Hq as [? Hq].
        apply Forall_app. split; [done|]. by inversion Hq.
      * apply release_tail_good; auto with lockdb.
    + apply good_ok; auto with lockdb.
    + apply release_tail_good; auto. unfold handle_release. auto with lockdb.
Qed.

Lemma process_pushback_good l p : lock_wf l -> packet_ok p -> good (process_pushback l p).
Proof.
  intros Hl Hp. unfold process_pushback. case_if; [apply good_ok; auto with lockdb|].
  cbv zeta. set (l1 := set_ncnt _ _).
  assert (Hl1 : lock_wf l1) by (subst l1; auto 6 with lockdb).
  pose proof (mk_wqe_ok (MODE (mode_old_mode (pk_hdr p))) (task_id (pk_hdr p))
    (machine_id (pk_hdr p)) ltac:(auto with lockdb)) as Hw.
  repeat case_if; apply good_ok; auto; pose proof (po_wq _ Hp).
  - exact (wf_unmarshal_wq _ (wf_append_to_wq l1 Hl1 _ Hw) _ H).
  - exact (wf_append_to_wq l1 Hl1 _ Hw).
Qed.

Lemma lock_packet_process_good cfg l p :
  config_wf cfg -> lock_wf l -> packet_ok p ->
  Z.of_nat (length (l_wqueue l)) <= DPDK_TX_BURST_SIZE ->
  Z.of_nat (length (pk_wq p)) <= DPDK_TX_BURST_SIZE ->
  good (lock_packet_process cfg l p).
Proof.
  intros Hc Hl Hp Hq Hq'. unfold lock_packet_process.
  rewrite (proj2 (proj2 Hc)). repeat case_if.
  - by apply process_acquire_good.
  - by apply process_grant_with_agent_good.
  - apply good_ok; auto with lockdb.
  - by apply process_release_good.
  - by apply process_pushback_good.
  - by apply good_ok.
Qed.

(** C17: every lock packet is handled. For a well-formed lock and packet, with
    queues that fit the send burst, [lock_packet_process] does not fault,
    re-establishes the lock's invariant, and leaves and sends only well-formed
    packets, whatever the packet's type and the lock's state. *)
Theorem lock_packet_process_total cfg l p :
  config_wf cfg -> lock_wf l -> packet_ok p ->
  Z.of_nat (length (l_wqueue l)) <= DPDK_TX_BURST_SIZE ->
  Z.of_nat (length (pk_wq p)) <= DPDK_TX_BURST_SIZE ->
  exists o, lock_packet_process cfg l p = Ok o /\ lock_wf (o_lock o) /\ packet_ok (o_pkt o) /\
            Forall (fun s => packet_ok (s_pkt s)) (o_sends o).
Proof. exact (lock_packet_process_good cfg l p). Qed.

Lemma lock_packet_process_total_witness :
  let p := Packet POST_LOCK_ACQUIRE (Hdr 1 (htonl 5) 2 7 1 0 0) [] [] in
  exists o, lock_packet_process (Config 1 None None false false) (new_innet_lock 5 5) p = Ok o /\
            lock_wf (o_lock o) /\ packet_ok (o_pkt o) /\
            Forall (fun s => packet_ok (s_pkt s)) (o_sends o).
Proof.
  intros p. apply lock_packet_process_total; [done|apply new_innet_lock_wf| |done|done].
  split; [split|]; try done.
Defined.

(** ** Outcomes without the bounds *)

(** Whenever a handler returns, the metadata is well formed and the lock keeps
    its key and identifier. *)
Definition keeps (l : innet_lock) (r : result outcome) : Prop :=
  forall o, r = Ok o ->
    lock_wf (o_lock o) /\ l_key (o_lock o) = l_key l /\ l_id (o_lock o) = l_id l.

Lemma keeps_ok l l' p out ret :
  lock_wf l' -> l_key l' = l_key l -> l_id l' = l_id l -> keeps l (Ok (Outcome l' p out ret)).
Proof. by intros ? ? ? o [= <-]. Qed.

Lemma keeps_fault l f : keeps l (Fault f).
Proof. by intros o. Qed.

Lemma digest_keeps wq l l' out :
  lock_digest_wq wq l = Ok (l', out) -> lock_wf l -> Forall wq_ok wq ->
  lock_wf l' /\ l_key l' = l_key l /\ l_id l' = l_id l.
Proof.
  intros E Hl Hq. assert (Hlen : Z.of_nat (length wq) <= DPDK_TX_BURST_SIZE).
  { unfold lock_digest_wq in E.
    destruct (Z.ltb_spec DPDK_TX_BURST_SIZE (Z.of_nat (length wq))); [done|lia]. }
  destruct (digest_good wq l Hl Hq Hlen) as (l2 & out2 & E2 & Hl2 & _).
  rewrite E2 in E. injection E as <- <-. split; [done|].
  rewrite lock_digest_wq_spec in E2 by done. by injection E2 as <- _.
Qed.

Lemma handle_acquire_lm_ident hid tid op l :
  l_key (handle_acquire_lm hid tid op l).2 = l_key l /\
  l_id (handle_acquire_lm hid tid op l).2 = l_id l.
Proof. unfold handle_acquire_lm. by repeat case_if. Qed.

Lemma handle_release_lm_keeps hid tid l b l' out :
  handle_release_lm hid tid l = Ok (b, l', out) -> lock_wf l ->
  lock_wf l' /\ l_key l' = l_key l /\ l_id l' = l_id l.
Proof.
  unfold handle_release_lm. set (l1 := lock_remove_holder _ l). intros E Hl.
  assert (Hl1 : lock_wf l1) by (subst l1; auto with lockdb).
  destruct (lock_no_holders l1); [|by simplify_eq].
  destruct (l_wqueue l1) as [|w wq] eqn:Eq; [simplify_eq; auto with lockdb|].
  assert (Hw : wq_ok w) by (pose proof (lw_wq _ Hl1) as Hq; rewrite Eq in Hq; by inversion Hq).
  cbv zeta in E. destruct (ls_eqb _ _).
  - destruct (lock_digest_wq _ _) as [[l2 out2]|] eqn:Ed; [|done]. injection E as <- <- <-.
    apply digest_keeps in Ed; [done|auto 6 with lockdb|]. exact (lw_wq _ Hl1).
  - simplify_eq. auto with lockdb.
Qed.

Lemma process_acquire_keeps l p : lock_wf l -> packet_ok p -> keeps l (process_acquire l p).
Proof.
  intros Hl Hp. destruct (process_acquire_good l p Hl Hp) as (o & E & Ho & _).
  intros o' E'. rewrite E in E'. injection E' as <-. split; [done|]. clear Ho.
  revert E. unfold process_acquire. case_if.
  - destruct (handle_acquire_lm_ident (machine_id (pk_hdr p)) (task_id (pk_hdr p))
      (MODE (mode_old_mode (pk_hdr p))) l) as [? ?].
    destruct (handle_acquire_lm _ _ _ _) as [[] l']; by intros [= <-].
  - cbv zeta. set (l1 := if (_ && _)%bool then set_ncnt _ l else l).
    assert (l_key l1 = l_key l /\ l_id l1 = l_id l) as [<- <-] by (subst l1; by case_if).
    repeat case_if; by intros [= <-].
Qed.

Lemma process_grant_with_agent_keeps cfg l p :
  config_wf cfg -> lock_wf l -> packet_ok p -> keeps l (process_grant_with_agent cfg l p).
Proof.
  intros [Hc _] Hl Hp. destruct (pwf_hdr _ (po_wf _ Hp)) as (_ & _ & Hm & Ht & _).
  pose proof (po_wq _ Hp) as Hq.
  unfold process_grant_with_agent. case_if; [by apply keeps_ok|]. cbv zeta.
  set (l1 := lock_add_holder _ _). assert (Hl1 : lock_wf l1) by (subst l1; auto 6 with lockdb).
  repeat case_if; try (simpl; apply keeps_ok; auto 8 with lockdb; fail).
  destruct (lock_digest_wq _ _) as [[l2 out]|] eqn:E; [|by apply keeps_fault].
  apply digest_keeps in E as (? & ? & ?); [|auto 6 with lockdb|done].
  apply keeps_ok; auto with lockdb.
Qed.

Lemma release_tail_keeps cfg l l0 p :
  lock_wf l -> l_key l = l_key l0 -> l_id l = l_id l0 -> keeps l0 (release_tail cfg l p).
Proof.
  intros Hl Hk Hi. unfold release_tail, lock_transfer_helper.
  case_if; [|by apply keeps_ok]. case_if; [apply keeps_ok; auto with lockdb|].
  destruct (l_wqueue l); [apply keeps_fault|]. apply keeps_ok; auto 8 with lockdb.
Qed.

Lemma process_release_keeps cfg l p : lock_wf l -> keeps l (process_release cfg l p).
Proof.
  intros Hl. unfold process_release. case_if.
  - destruct (handle_release_lm _ _ _) as [[[b l'] out]|] eqn:E; [|by apply keeps_fault].
    apply handle_release_lm_keeps in E as (Hl' & ? & ?); [|done].
    simpl. destruct b; [|by apply keeps_ok].
    destruct (l_wqueue l') as [|w wq] eqn:Eq; [by apply keeps_fault|]. apply keeps_ok; try done.
    apply wf_set_wqueue; [done|]. pose proof (lw_wq _ Hl') as Hq. rewrite Eq in Hq. by inversion Hq.
  - cbv zeta. case_if; [|case_if].
    + destruct (erase_first _ _) as [[i wq]|] eqn:E.
      * apply keeps_ok; try done. apply wf_set_wqueue; [done|].
        apply erase_first_Some in E as (l1 & x & l2 & E & -> & _).
        pose proof (lw_wq _ Hl) as Hq. rewrite E in Hq. apply Forall_app in Hq as [? Hq].
        apply Forall_app. split; [done|]. by inversion Hq.
      * apply release_tail_keeps; auto with lockdb.
    + apply keeps_ok; auto with lockdb.
    + apply release_tail_keeps; try done. unfold handle_release. auto with lockdb.
Qed.

Lemma process_pushback_keeps l p : lock_wf l -> packet_ok p -> keeps l (process_pushback l p).
Proof.
  intros Hl Hp. destruct (process_pushback_good l p Hl Hp) as (o & E & Ho & _).
  intros o' E'. rewrite E in E'. injection E' as <-. split; [done|]. clear Ho.
  revert E. unfold process_pushback. cbv zeta. repeat case_if; by intros [= <-].
Qed.

Lemma lock_packet_process_keeps cfg l p :
  config_wf cfg -> lock_wf l -> packet_ok p -> keeps l (lock_packet_process cfg l p).
Proof.
  intros Hc Hl Hp. unfold lock_packet_process. rewrite (proj2 (proj2 Hc)). repeat case_if.
  - by apply process_acquire_keeps.
  - by apply process_grant_with_agent_keeps.
  - apply keeps_ok; auto with lockdb.
  - by apply process_release_keeps.
  - by apply process_pushback_keeps.
  - by apply keeps_ok.
Qed.
