(* ===== verification/Agent.v ===== *)
(** * Agent: the protocol behaviours of the lock agent

    Theorems about [lock_packet_process] of lib/lock.cc: what the agent does
    with every packet, how a free or a transfer that the switch pushes back is
    undone, how packets that overtake each other are reconciled, and how the
    wait queue moves to the next agent. *)

From S2P Require Import Prelude Types Post Lock LockProofs.

Section agent.
Context (cfg : config) (Hcfg : config_wf cfg).

(** The processor on a packet of a given type. *)
Lemma process_type_acquire l p :
  pk_type p = POST_LOCK_ACQUIRE -> lock_packet_process cfg l p = process_acquire l p.
Proof using Hcfg.
  intros E. unfold lock_packet_process. rewrite (proj2 (proj2 Hcfg)), E. done.
Qed.

Lemma process_type_release l p :
  pk_type p = POST_LOCK_RELEASE -> lock_packet_process cfg l p = process_release cfg l p.
Proof using Hcfg.
  intros E. unfold lock_packet_process. rewrite (proj2 (proj2 Hcfg)), E. done.
Qed.

Lemma process_type_pushback l p :
  pk_type p = POST_LOCK_TRANSFER \/ pk_type p = POST_LOCK_FREE ->
  lock_packet_process cfg l p = process_pushback l p.
Proof using Hcfg.
  intros E. unfold lock_packet_process. rewrite (proj2 (proj2 Hcfg)).
  by destruct E as [-> | ->].
Qed.

Lemma process_type_grant l p :
  pk_type p = POST_LOCK_GRANT_WITH_AGENT ->
  lock_packet_process cfg l p = process_grant_with_agent cfg l p.
Proof using Hcfg.
  intros E. unfold lock_packet_process. rewrite (proj2 (proj2 Hcfg)), E. done.
Qed.
End agent.

(** The last holder releases. *)
Definition last_holder (l : innet_lock) (hid tid : Z) : Prop :=
  l_is_agent l = true /\ l_holders l = {[ LOCK_HOLDER hid tid ]}.

(** A request packet of the given type, for lock [l], from task [tid] on host
    [hid], as the network delivers it. *)
Record request (t : Z) (l : innet_lock) (hid tid : Z) (p : packet) : Prop := {
  rq_type : pk_type p = t;
  rq_host : machine_id (pk_hdr p) = hid;
  rq_task : task_id (pk_hdr p) = tid;
  rq_lock : lid_of (pk_hdr p) = l_id l;
  rq_ok : packet_ok p;
}.

Lemma ls_val_excl_or_shared m :
  m <> FREE -> m <> RELEASE -> m = LOCK_SHARED \/ m = LOCK_EXCL.
Proof. destruct m; auto; done. Qed.

Lemma lock_ext l1 l2 :
  l_key l1 = l_key l2 -> l_id l1 = l_id l2 -> l_mode l1 = l_mode l2 ->
  l_is_agent l1 = l_is_agent l2 -> l_ncnt l1 = l_ncnt l2 -> l_holders l1 = l_holders l2 ->
  l_wqueue l1 = l_wqueue l2 -> l_task_granted l1 = l_task_granted l2 ->
  l_delayed_free l1 = l_delayed_free l2 -> l_early_release l1 = l_early_release l2 ->
  l_fwd_back_cnt l1 = l_fwd_back_cnt l2 -> l_local_holders l1 = l_local_holders l2 -> l1 = l2.
Proof. destruct l1, l2. simpl. congruence. Qed.

(** A waiter restored from the fields of a transfer packet. *)
Lemma mk_wqe_restore w o :
  wq_ok w -> mk_wqe (MODE (MODE_OLD_MODE (wq_op w) o)) (u32 (wq_task w)) (u8 (wq_host w)) = w.
Proof.
  intros Hw. rewrite <- (wq_ok_val w Hw), MODE_pack by (by apply wq_ok_mode).
  unfold mk_wqe. rewrite (wq_ok_val w Hw). destruct Hw as [(Ho & Ht & Hh) _].
  rewrite uw_narrow by lia. rewrite uw_uw, !uw_small by done. by destruct w.
Qed.

Lemma lock_no_holders_last l hid tid :
  l_holders l = {[ LOCK_HOLDER hid tid ]} ->
  lock_no_holders (handle_release hid tid l) = true.
Proof.
  intros E. apply bool_decide_eq_true. simpl. rewrite E. set_solver.
Qed.

Lemma process_release_last cfg l hid tid p :
  request POST_LOCK_RELEASE l hid tid p -> lock_out_of_range l = false -> last_holder l hid tid ->
  process_release cfg l p = release_tail cfg (handle_release hid tid l) p.
Proof.
  intros [_ <- <- _ _] Hr [Ha Hh]. unfold process_release. rewrite Hr.
  unfold lock_has_holder. rewrite Hh, bool_decide_true by set_solver. by rewrite Ha.
Qed.

(** Processing a sequence of packets for one lock: the final metadata, and for
    every packet its return value and the buffer left behind. *)
Fixpoint process_seq (cfg : config) (l : innet_lock) (ps : list packet)
    : result (innet_lock * list (Z * packet)) :=
  match ps with
  | [] => Ok (l, [])
  | p :: ps' =>
      match lock_packet_process cfg l p with
      | Fault f => Fault f
      | Ok o =>
          match process_seq cfg (o_lock o) ps' with
          | Fault f => Fault f
          | Ok (l', rs) => Ok (l', (o_ret o, o_pkt o) :: rs)
          end
      end
  end.


(** ** Packets that overtake each other *)

(** A request the switch granted as shared and forwards to the agent. *)
Definition granted_shared (p : packet) : Prop :=
  MODE (mode_old_mode (pk_hdr p)) = LOCK_SHARED /\ GRANTED (pk_hdr p) = true.

(** The release of ([hid], [tid]) is not waiting for its acquire. *)
Definition no_early (l : innet_lock) (hid tid : Z) : Prop :=
  index false (LOCK_HOLDER hid tid) (l_early_release l) = false.

Lemma touch_false lh (m : gmap Z bool) :
  index false lh m = false -> touch false lh m = <[lh := false]> m.
Proof.
  unfold index, touch. destruct (m !! lh) as [b|] eqn:E; simpl; [|done].
  intros ->. by rewrite insert_id.
Qed.

(** The agent's record after a shared request granted by the switch. *)
Definition count_granted (hid tid : Z) (l : innet_lock) : innet_lock :=
  set_early_release (<[LOCK_HOLDER hid tid := false]> (l_early_release l)) (set_ncnt (l_ncnt l + 1) l).

Lemma process_granted_shared l hid tid p :
  request POST_LOCK_ACQUIRE l hid tid p -> granted_shared p -> lock_out_of_range l = false ->
  process_acquire l p =
    if index false (LOCK_HOLDER hid tid) (l_early_release l)
    then Ok (Outcome (count_granted hid tid l) p [] 0)
    else Ok (Outcome (handle_granted_acquire hid tid (count_granted hid tid l)) p [] 0).
Proof.
  intros [_ Hh Ht _ _] [Hs Hg] Hr. unfold process_acquire.
  rewrite Hr, Hs, Hg, Hh, Ht. rewrite (proj2 (ls_eqb_spec LOCK_SHARED LOCK_SHARED) eq_refl).
  simpl. unfold count_granted. destruct (index _ _ _) eqn:Ei.
  - do 2 f_equal. unfold set_early_release; simpl. f_equal. unfold touch.
    destruct (_ !! _); [done|]. by rewrite insert_insert_eq.
  - rewrite touch_false by done. by destruct (l_is_agent l).
Qed.

Lemma erase_first_absent l hid tid :
  Forall (fun w => wqe_holder w <> LOCK_HOLDER hid tid) (l_wqueue l) ->
  erase_first (fun w => (wq_host w =? hid) && (wq_task w =? tid)) (l_wqueue l) = None.
Proof.
  intros HF. apply erase_first_None. apply (list.Forall_impl _ _ _ HF). intros w Hw.
  apply andb_false_iff. destruct (Z.eqb_spec (wq_host w) hid) as [E1|]; [|by left].
  right. apply Z.eqb_neq. intros E2. apply Hw. unfold wqe_holder. by rewrite E1, E2.
Qed.

(** C16: the agent does not care whether a shared holder's release overtakes
    the switch's notification of its acquire: with another holder present, both
    orders of the two packets leave the same metadata and forward nothing. *)
Theorem early_release_commutes cfg l hid tid pa pr :
  config_wf cfg -> lock_out_of_range l = false -> l_is_agent l = true ->
  request POST_LOCK_ACQUIRE l hid tid pa -> granted_shared pa ->
  request POST_LOCK_RELEASE l hid tid pr -> no_early l hid tid ->
  (LOCK_HOLDER hid tid ∉ l_holders l) -> l_holders l <> ∅ ->
  Forall (fun w => wqe_holder w <> LOCK_HOLDER hid tid) (l_wqueue l) ->
  process_seq cfg l [pa; pr] = Ok (count_granted hid tid l, [(0, pa); (0, pr)]) /\
  process_seq cfg l [pr; pa] = Ok (count_granted hid tid l, [(0, pr); (0, pa)]).
Proof.
  intros Hc Hr Ha Hpa Hg Hpr Hne Hnh Hho Hwq. split; cbn [process_seq].
  - rewrite process_type_acquire, (process_granted_shared l hid tid pa) by (done || apply Hpa).
    rewrite Hne. cbn [o_lock o_ret o_pkt].
    rewrite process_type_release by (done || apply Hpr).
    destruct Hpr as [_ <- <- _ _]. unfold process_release.
    change (lock_out_of_range _) with (lock_out_of_range l). rewrite Hr.
    unfold lock_has_holder. rewrite bool_decide_true by (simpl; set_solver).
    change (l_is_agent (handle_granted_acquire _ _ _)) with (l_is_agent l). rewrite Ha. simpl.
    set (l' := handle_release _ _ _).
    assert (l' = count_granted (machine_id (pk_hdr pr)) (task_id (pk_hdr pr)) l) as ->.
    { apply lock_ext; try reflexivity. simpl. set_solver. }
    unfold release_tail, lock_no_holders. by rewrite bool_decide_false.
  - rewrite process_type_release by (done || apply Hpr).
    assert (E : process_release cfg l pr = Ok (Outcome (set_early_release
      (<[LOCK_HOLDER hid tid := true]> (l_early_release l)) l) pr [] 0)).
    { destruct Hpr as [_ <- <- _ _]. unfold process_release. rewrite Hr. unfold lock_has_holder.
      rewrite bool_decide_false by done. simpl. rewrite erase_first_absent by done.
      unfold release_tail, lock_no_holders. by rewrite bool_decide_false. }
    rewrite E. cbn [o_lock o_ret o_pkt]. rewrite process_type_acquire by (done || apply Hpa).
    rewrite (process_granted_shared _ hid tid pa); [|by destruct Hpa|done|done].
    simpl. rewrite index_insert. simpl. do 2 f_equal.
    unfold count_granted, set_early_release. simpl. by rewrite insert_insert_eq.
Qed.

(** ** Exclusive requests that reach a host before its agent grant *)

(** An exclusive request the host cannot place yet. *)
Definition unplaced_excl (cfg : config) (l : innet_lock) (hid tid : Z) (p : packet) : Prop :=
  request POST_LOCK_ACQUIRE l hid tid p /\ MODE (mode_old_mode (pk_hdr p)) = LOCK_EXCL /\
  lock_out_of_range l = false /\ l_is_agent l = false /\ no_early l hid tid.

Definition fwd_count (l : innet_lock) (hid tid : Z) : Z :=
  index 0 (LOCK_HOLDER hid tid) (l_fwd_back_cnt l).

(** Both branches of the forward-back decision. *)
Lemma process_unplaced cfg l hid tid p :
  unplaced_excl cfg l hid tid p -> 0 <= fwd_count l hid tid <= 3 ->
  exists l', process_acquire l p =
      Ok (Outcome l' p [] (if 2 <? fwd_count l hid tid then 0 else 1)) /\
    l_wqueue l' = l_wqueue l ++
      (if 2 <? fwd_count l hid tid then [mk_wqe LOCK_EXCL tid hid] else []) /\
    l_is_agent l' = false /\ l_id l' = l_id l /\ no_early l' hid tid /\
    l_holders l' = l_holders l /\ l_mode l' = l_mode l /\ l_ncnt l' = l_ncnt l /\
    fwd_count l' hid tid = (if 2 <? fwd_count l hid tid then 0 else fwd_count l hid tid + 1).
Proof.
  intros ([_ Hh Ht _ _] & Hm & Hr & Ha & Hne) Hc. unfold fwd_count, no_early in *.
  unfold process_acquire. rewrite Hr, Hm, Hh, Ht. simpl (ls_eqb _ _ && _). cbv iota zeta.
  rewrite Hne. simpl (l_is_agent (set_early_release _ _)). rewrite Ha. simpl (negb _).
  change (ls_eqb LOCK_EXCL LOCK_SHARED) with false. cbv iota.
  change (l_fwd_back_cnt (set_early_release _ l)) with (l_fwd_back_cnt l).
  destruct (2 <? _) eqn:E; eexists; (split; [reflexivity|]); simpl; rewrite ?index_touch.
  - do 7 (split; [done|]). unfold index. by rewrite lookup_delete_eq.
  - rewrite app_nil_r. do 7 (split; [done|]). rewrite index_insert. bprop. apply sw_small; lia.
Qed.

Lemma fwd_back_steps cfg n l hid tid p :
  config_wf cfg -> unplaced_excl cfg l hid tid p ->
  fwd_count l hid tid = 3 - Z.of_nat n -> 0 <= fwd_count l hid tid ->
  exists l', process_seq cfg l (repeat p (S n)) = Ok (l', repeat (1, p) n ++ [(0, p)]) /\
    l_wqueue l' = l_wqueue l ++ [mk_wqe LOCK_EXCL tid hid] /\
    l_holders l' = l_holders l /\ l_mode l' = l_mode l /\ fwd_count l' hid tid = 0.
Proof.
  intros Hc. revert l. induction n as [|n IH]; intros l Hu Hcnt Hpos;
    pose proof (process_unplaced cfg l hid tid p Hu ltac:(lia)) as
      (l1 & E & Hq & Ha & Hid & Hne & Hh & Hm & _ & Hf);
    pose proof (rq_type _ _ _ _ _ (proj1 Hu)) as Ht; cbn [repeat process_seq];
    rewrite process_type_acquire, E by done; cbn [o_lock o_ret o_pkt].
  - destruct (Z.ltb_spec 2 (fwd_count l hid tid)); [|lia]. by exists l1.
  - destruct (Z.ltb_spec 2 (fwd_count l hid tid)); [lia|].
    rewrite app_nil_r in Hq. destruct (IH l1) as (l' & E' & Hq' & Hh' & Hm' & Hf').
    + destruct Hu as ([? ? ? Hl ?] & ? & Hr & ? & ?). split; [split; try done; by rewrite Hl|].
      unfold lock_out_of_range in *. by rewrite Hid.
    + lia.
    + lia.
    + cbn [repeat process_seq] in E'. rewrite E'. exists l'.
      rewrite Hq', Hq, Hh', Hh, Hm', Hm. done.
Qed.

(** An exclusive request that keeps coming back is forwarded to the switch
    at most three times; then it is queued and its counter is dropped, so a
    request never circulates for ever. *)
Theorem forward_back_bounded cfg l hid tid p :
  config_wf cfg -> lock_wf l -> unplaced_excl cfg l hid tid p ->
  let n := Z.to_nat (3 - fwd_count l hid tid) in
  exists l', process_seq cfg l (repeat p (S n)) = Ok (l', repeat (1, p) n ++ [(0, p)]) /\
    (n <= 3)%nat /\
    l_wqueue l' = l_wqueue l ++ [mk_wqe LOCK_EXCL tid hid] /\
    l_holders l' = l_holders l /\ l_mode l' = l_mode l /\ fwd_count l' hid tid = 0.
Proof.
  intros Hc Hl Hu n. pose proof (fwd_index_range l (LOCK_HOLDER hid tid) Hl) as Hr.
  change (index _ _ _) with (fwd_count l hid tid) in Hr.
  destruct (fwd_back_steps cfg n l hid tid p Hc Hu) as (l' & ? & ? & ? & ? & ?); [subst n; lia..|].
  exists l'. split_and!; try done. subst n. lia.
Qed.

(** ** A free that crosses a granted request *)

(** A free that crosses a shared grant is retried with the right count. The
    agent frees the lock while the switch grants a shared request; the granted
    holder is recorded and releases before the pushed-back free arrives; the
    agent then resends that free with both notifications counted, and stays out
    of the lock. *)
Theorem delayed_free_retries cfg l h1 t1 h2 t2 pr1 pa pr2 :
  config_wf cfg -> lock_wf l -> lock_out_of_range l = false ->
  last_holder l h1 t1 -> l_wqueue l = [] -> l_delayed_free l = false ->
  request POST_LOCK_RELEASE l h1 t1 pr1 ->
  request POST_LOCK_ACQUIRE l h2 t2 pa -> granted_shared pa -> no_early l h2 t2 ->
  request POST_LOCK_RELEASE l h2 t2 pr2 ->
  exists l1 f l2 l3 l4,
    lock_packet_process cfg l pr1 = Ok (Outcome l1 f [] 1) /\
    pk_type f = POST_LOCK_FREE /\ ncnt (pk_hdr f) = u8 (l_ncnt l) /\
    lock_packet_process cfg l1 pa = Ok (Outcome l2 pa [] 0) /\
    lock_packet_process cfg l2 pr2 = Ok (Outcome l3 pr2 [] 0) /\
    lock_packet_process cfg l3 f = Ok (Outcome l4 (set_hdr_ncnt (l_ncnt l + 1) f) [] 1) /\
    l_is_agent l4 = false /\ l_mode l4 = FREE /\ l_holders l4 = ∅ /\ l_ncnt l4 = 0 /\
    l_delayed_free l4 = false.
Proof.
  intros Hc Hl Hr Hlast Hq Hdf Hp1 Hpa Hg Hne Hp2.
  rewrite process_type_release by (done || apply Hp1).
  rewrite (process_release_last cfg l h1 t1 pr1 Hp1 Hr Hlast).
  pose proof (lock_no_holders_last l h1 t1 (proj2 Hlast)) as Hnh.
  unfold release_tail. rewrite Hnh. unfold lock_no_waiters.
  change (l_wqueue (handle_release h1 t1 l)) with (l_wqueue l).
  rewrite Hq, bool_decide_true by done. cbn [lock_free_helper].
  set (l1 := set_ncnt 0 _). set (f := Packet POST_LOCK_FREE _ _ _).
  eexists l1, f, _, _, _. split; [reflexivity|]. do 2 (split; [done|]).
  assert (Hh1 : l_holders l1 = ∅) by (simpl; rewrite (proj2 Hlast); set_solver).
  assert (Hpa1 : request POST_LOCK_ACQUIRE l1 h2 t2 pa) by (by destruct Hpa).
  split; [|split; [|split]].
  - rewrite process_type_acquire, (process_granted_shared l1 h2 t2 pa) by (done || apply Hpa).
    change (l_early_release l1) with (l_early_release l). by rewrite Hne.
  - rewrite process_type_release by (done || apply Hp2).
    destruct Hp2 as [_ Eh Et _ _]. unfold process_release. rewrite Eh, Et.
    change (lock_out_of_range _) with (lock_out_of_range l). rewrite Hr.
    unfold lock_has_holder. rewrite bool_decide_true by (simpl; set_solver).
    reflexivity.
  - rewrite process_type_pushback by auto. unfold process_pushback.
    change (l_delayed_free (set_delayed_free true _)) with true.
    unfold lock_no_holders. rewrite bool_decide_true.
    2:{ simpl. rewrite (proj2 Hlast). set_solver. }
    cbn [andb]. do 2 f_equal.
    change (set_hdr_ncnt (u8 (l_ncnt l) + 1) f = set_hdr_ncnt (l_ncnt l + 1) f).
    unfold set_hdr_ncnt. by rewrite uw_add_l.
  - simpl. rewrite (proj2 Hlast). split_and!; try done. set_solver.
Qed.

(** ** Becoming the agent *)

(** Taking over a transferred lock conserves the waiters. The new agent
    holds the lock for the granted task, whose flag is raised; if it is granted
    shared, every shared waiter that came with the packet is granted by exactly
    one packet, in queue order, and becomes a holder, and the exclusive waiters
    are queued in order; if it is granted exclusively, the whole queue is kept
    and nobody else is granted. *)
Theorem takeover_conserves_waiters cfg l p :
  config_wf cfg -> packet_ok p -> pk_type p = POST_LOCK_GRANT_WITH_AGENT ->
  TRANSFERRED (pk_hdr p) = true -> task_id (pk_hdr p) <> TASK_FOR_RESTORE ->
  Z.of_nat (length (pk_wq p)) <= DPDK_TX_BURST_SIZE ->
  let me := LOCK_HOLDER (LOCALHOST_ID cfg) (task_id (pk_hdr p)) in
  let granted := if ls_eqb (MODE (mode_old_mode (pk_hdr p))) LOCK_SHARED
                 then filterb wq_shared (pk_wq p) else [] in
  let queued := if ls_eqb (MODE (mode_old_mode (pk_hdr p))) LOCK_SHARED
                then filterb (fun w => negb (wq_shared w)) (pk_wq p) else pk_wq p in
  exists l', lock_packet_process cfg l p =
      Ok (Outcome l' p (map (digest_grant (l_id l)) granted) 0) /\
    l_is_agent l' = true /\ l_mode l' = MODE (mode_old_mode (pk_hdr p)) /\
    l_holders l' = {[ me ]} ∪ l_holders l ∪ list_to_set (map wqe_holder granted) /\
    l_wqueue l' = l_wqueue l ++ queued /\
    l_task_granted l' !! task_id (pk_hdr p) = Some true /\
    Permutation (granted ++ queued) (pk_wq p).
Proof.
  intros Hc [Hp _] Ht Htr Hres Hlen. cbv zeta.
  rewrite process_type_grant by done. unfold process_grant_with_agent.
  rewrite (proj2 (Z.eqb_neq _ _) Hres), Htr. rewrite (pwf_size _ Hp). cbv zeta.
  set (l1 := set_ncnt _ _). change (l_mode l1) with (MODE (mode_old_mode (pk_hdr p))).
  destruct (ls_eqb _ _) eqn:Em.
  - assert (E : (if 0 <? Z.of_nat (length (pk_wq p)) then lock_digest_wq (pk_wq p) l1 else Ok (l1, [])) =
      lock_digest_wq (pk_wq p) l1) by (destruct (pk_wq p); done).
    rewrite E, lock_digest_wq_spec by done. eexists. split; [reflexivity|].
    do 4 (split; [done|]); split; [simpl; by rewrite lookup_insert_eq|].
    clear. induction (pk_wq p) as [|w wq IH]; [done|]. simpl. destruct (wq_shared w); simpl.
    + by apply perm_skip.
    + by rewrite <- Permutation_middle, IH.
  - eexists (lock_local_notify (task_id (pk_hdr p)) (lock_unmarshal_wq (pk_wq p) l1)).
    split; [|split_and!; try done].
    + destruct (pk_wq p); [|done]. simpl. do 3 f_equal.
      apply lock_ext; try reflexivity. simpl. by rewrite app_nil_r.
    + simpl. set_solver.
    + simpl. by rewrite lookup_insert_eq.
Qed.

(** ** Concrete instances *)

Definition cfg0 : config := Config 1 None None false false.

Lemma cfg0_wf : config_wf cfg0.
Proof. by split. Qed.

(** A packet as the switch delivers it. *)
Definition wire (t m lid hid tid : Z) (wq : list wqe) : packet :=
  Packet t (Hdr m (htonl lid) hid tid 1 (Z.of_nat (length wq)) 0) wq [].

Lemma wire_ok t m lid hid tid wq :
  in_uw 8 t -> in_uw 8 m -> in_uw 8 hid -> in_uw 32 tid ->
  Z.of_nat (length wq) < 2 ^ 32 -> Forall wq_ok wq -> packet_ok (wire t m lid hid tid wq).
Proof.
  intros Ht Hm Hh Htid Hl Hq. split; [split|]; simpl; try done.
  - unfold hdr_wf; simpl. split_and!; try done; [apply htonl_range|unfold in_uw; lia].
  - apply (list.Forall_impl _ _ _ Hq). by intros w [? _].
Qed.

Lemma wire_request t m l hid tid :
  in_uw 8 t -> in_uw 8 m -> in_uw 8 hid -> in_uw 32 tid -> in_uw 32 (l_id l) ->
  request t l hid tid (wire t m (l_id l) hid tid []).
Proof.
  intros. split; try done; [by apply ntohl_htonl|]. by apply wire_ok.
Qed.

(** A lock of the switch held by [hs] on the agent, with waiters [ws]. *)
Definition held (agent : bool) (m : lock_state) (n : Z) (hs : gset Z) (ws : list wqe) : innet_lock :=
  Innet 5 5 m agent n hs ws ∅ false ∅ ∅ ∅.

Lemma held_wf b m n hs ws :
  m <> RELEASE -> in_uw 32 n -> set_Forall (in_uw 40) hs -> Forall wq_ok ws -> lock_wf (held b m n hs ws).
Proof. intros. by split. Qed.

Definition waiters0 : list wqe := [mk_wqe LOCK_EXCL 9 3; mk_wqe LOCK_SHARED 4 2; mk_wqe LOCK_EXCL 6 1].

Lemma waiters0_ok : Forall wq_ok waiters0.
Proof. do 3 (constructor; [apply mk_wqe_ok; auto|]). constructor. Qed.

Definition lock0 : innet_lock := held true LOCK_SHARED 300 {[ LOCK_HOLDER 2 7 ]} waiters0.

Lemma lock0_wf : lock_wf lock0.
Proof.
  apply held_wf; [done|done| |apply waiters0_ok].
  intros x ->%elem_of_singleton. by apply LOCK_HOLDER_range.
Qed.


Definition lock1 : innet_lock := held true LOCK_SHARED 1 {[ LOCK_HOLDER 1 3 ]} waiters0.

Lemma early_release_commutes_witness :
  let pa := wire POST_LOCK_ACQUIRE 64 5 2 7 [] in
  let pr := wire POST_LOCK_RELEASE 0 5 2 7 [] in
  process_seq cfg0 lock1 [pa; pr] = Ok (count_granted 2 7 lock1, [(0, pa); (0, pr)]) /\
  process_seq cfg0 lock1 [pr; pa] = Ok (count_granted 2 7 lock1, [(0, pr); (0, pa)]).
Proof.
  intros pa pr. apply (early_release_commutes cfg0 lock1 2 7 pa pr); try done.
  do 3 (constructor; [by vm_compute|]). constructor.
Defined.

(** A host that is not the agent, with one exclusive request forwarded back
    once already. *)
Definition lock2 : innet_lock :=
  set_fwd_back_cnt {[ LOCK_HOLDER 3 8 := 1 ]} (held false FREE 0 ∅ []).

Lemma forward_back_bounded_witness :
  let p := wire POST_LOCK_ACQUIRE 1 5 3 8 [] in
  exists l', process_seq cfg0 lock2 (repeat p 3) = Ok (l', repeat (1, p) 2 ++ [(0, p)]) /\
    (2 <= 3)%nat /\
    l_wqueue l' = l_wqueue lock2 ++ [mk_wqe LOCK_EXCL 8 3] /\
    l_holders l' = l_holders lock2 /\ l_mode l' = l_mode lock2 /\ fwd_count l' 3 8 = 0.
Proof.
  intros p. apply (forward_back_bounded cfg0 lock2 3 8 p); [done| |].
  - apply wf_set_fwd_back_cnt; [by apply held_wf|]. intros k c Hk.
    apply lookup_singleton_Some in Hk as [_ <-]. done.
  - by split.
Defined.

Definition lock3 : innet_lock := held true LOCK_SHARED 2 {[ LOCK_HOLDER 1 3 ]} [].

Lemma delayed_free_retries_witness :
  let pr1 := wire POST_LOCK_RELEASE 0 5 1 3 [] in
  let pa := wire POST_LOCK_ACQUIRE 64 5 2 7 [] in
  let pr2 := wire POST_LOCK_RELEASE 0 5 2 7 [] in
  exists l1 f l2 l3 l4,
    lock_packet_process cfg0 lock3 pr1 = Ok (Outcome l1 f [] 1) /\
    pk_type f = POST_LOCK_FREE /\ ncnt (pk_hdr f) = u8 2 /\
    lock_packet_process cfg0 l1 pa = Ok (Outcome l2 pa [] 0) /\
    lock_packet_process cfg0 l2 pr2 = Ok (Outcome l3 pr2 [] 0) /\
    lock_packet_process cfg0 l3 f = Ok (Outcome l4 (set_hdr_ncnt (2 + 1) f) [] 1) /\
    l_is_agent l4 = false /\ l_mode l4 = FREE /\ l_holders l4 = ∅ /\ l_ncnt l4 = 0 /\
    l_delayed_free l4 = false.
Proof.
  intros pr1 pa pr2. apply (delayed_free_retries cfg0 lock3 1 3 2 7 pr1 pa pr2); try done.
  apply held_wf; try done. intros x ->%elem_of_singleton. by apply LOCK_HOLDER_range.
Defined.

Lemma takeover_conserves_waiters_witness :
  let p := wire POST_LOCK_GRANT_WITH_AGENT 32 5 1 4 waiters0 in
  exists l', lock_packet_process cfg0 (held false FREE 0 ∅ []) p =
      Ok (Outcome l' p (map (digest_grant 5) [mk_wqe LOCK_SHARED 4 2]) 0) /\
    l_is_agent l' = true /\ l_mode l' = LOCK_SHARED /\
    l_holders l' = {[ LOCK_HOLDER 1 4 ]} ∪ ∅ ∪ list_to_set (map wqe_holder [mk_wqe LOCK_SHARED 4 2]) /\
    l_wqueue l' = [] ++ [mk_wqe LOCK_EXCL 9 3; mk_wqe LOCK_EXCL 6 1] /\
    l_task_granted l' !! 4 = Some true /\
    Permutation ([mk_wqe LOCK_SHARED 4 2] ++ [mk_wqe LOCK_EXCL 9 3; mk_wqe LOCK_EXCL 6 1]) waiters0.
Proof.
  intros p. apply (takeover_conserves_waiters cfg0 (held false FREE 0 ∅ []) p); try done.
  apply wire_ok; try done. apply waiters0_ok.
Defined.
