(* ===== verification/LockApi.v ===== *)
(** * LockApi: the lock tables and the application interface

    Models lib/lock.cc, lines 80-114 and 726-1126: the two lock tables, the
    dispatcher of lock packets and the functions an application calls
    ([lock_setup], [lock_init], [lock_local_init], [lock_acquire_async],
    [lock_wait_local], [lock_req_granted], [lock_acquire], [lock_release]).

    The tables map keys and identifiers to pointers, so the metadata lives in a
    heap and the tables hold addresses: two entries may or may not alias. *)

From S2P Require Import Prelude Types Post Lock.

(** ** State *)

Record host := Host {
  h_heap : list innet_lock;         (** the allocated [innet_lock] objects *)
  lock_tbl : gmap Z nat;            (** lock key to address *)
  lock_id_map : gmap Z nat;         (** lock identifier to address *)
  enb_local_grants : bool;
}.

Abbreviation H := (M host sent).
#[local] Open Scope prog_scope.

Definition FLAG_ENB_LOCAL_GRANT : Z := 1.
Definition ERR_INVALID_OP : Z := 3.

(** [lock_setup]: fresh tables.  The six dispatcher registrations are the
    dispatch of [Net]. *)
Definition lock_setup (flags : Z) : host :=
  Host [] ∅ ∅ (negb (Z.land flags FLAG_ENB_LOCAL_GRANT =? 0)).

(** Reading and writing through a pointer. *)
Definition lmeta (a : nat) : H innet_lock :=
  h <- get ;;
  match h_heap h !! a with
  | Some l => ret l
  | None => fail FaultNull
  end.

Definition store (a : nat) (l : innet_lock) : H unit :=
  h <- get ;;
  put (Host (<[a := l]> (h_heap h)) (lock_tbl h) (lock_id_map h) (enb_local_grants h)).

Definition update (a : nat) (f : innet_lock -> innet_lock) : H unit :=
  l <- lmeta a ;; store a (f l).

(** [new innet_lock()], initialised with a key and an identifier. *)
Definition alloc (l : innet_lock) : H nat :=
  h <- get ;;
  put (Host (h_heap h ++ [l]) (lock_tbl h) (lock_id_map h) (enb_local_grants h)) ;;
  ret (length (h_heap h)).

(** [unordered_map::insert] keeps an existing entry. *)
Definition map_insert (k : Z) (a : nat) (m : gmap Z nat) : gmap Z nat :=
  match m !! k with Some _ => m | None => <[k := a]> m end.

Definition lock_id_map_insert (k : Z) (a : nat) : H unit :=
  h <- get ;;
  put (Host (h_heap h) (lock_tbl h) (map_insert k a (lock_id_map h)) (enb_local_grants h)).

Definition lock_tbl_insert (k : Z) (a : nat) : H unit :=
  h <- get ;;
  put (Host (h_heap h) (map_insert k a (lock_tbl h)) (lock_id_map h) (enb_local_grants h)).

(** ** Looking up locks *)

(** A lock the host does not know yet is created on the fly. *)
Definition lock_id_to_desc (l : Z) : H nat :=
  h <- get ;;
  match lock_id_map h !! l with
  | Some a => ret a
  | None =>
      a <- alloc (new_innet_lock 0 l) ;;
      lock_id_map_insert l a ;;
      ret a
  end.

(** The assertion is not compiled in: a key without an entry dereferences the
    end iterator. *)
Definition lock_key_to_desc (k : Z) : H nat :=
  h <- get ;;
  match lock_tbl h !! k with
  | Some a => ret a
  | None => fail FaultNull
  end.

(** ** Registering locks *)

(** The reply of the lock server's RPC_LOCK_REGISTER is a parameter. *)
Definition lock_init (rpc : Z -> Z) (lkey : Z) : H Z :=
  h <- get ;;
  match lock_tbl h !! lkey with
  | Some _ => ret 0
  | None =>
      let lid := u32 (rpc lkey) in
      a <- alloc (new_innet_lock lkey lid) ;;
      lock_tbl_insert lkey a ;;
      lock_id_map_insert lid a ;;
      ret lid
  end.

Definition lock_local_init (lock_id : Z) : H Z :=
  h <- get ;;
  match lock_tbl h !! lock_id with
  | Some _ => ret 0
  | None =>
      let lid := u32 lock_id in
      a <- alloc (new_innet_lock lock_id lid) ;;
      lock_tbl_insert lock_id a ;;
      lock_id_map_insert lid a ;;
      ret lid
  end.

(** ** Dispatching packets *)

(** Returns the processor's return value and the packet buffer as the
    processor left it. *)
Definition lock_packet_dispatch (cfg : config) (p : packet) : H (packet * Z) :=
  a <- lock_id_to_desc (lid_of (pk_hdr p)) ;;
  l <- lmeta a ;;
  match lock_packet_process cfg l p with
  | Fault f => fail f
  | Ok o =>
      store a (o_lock o) ;;
      for_each (o_sends o) emit ;;
      ret (o_pkt o, o_ret o)
  end.

(** ** Requests *)

(** The 64-bit request handle: zero, a negated error code, the address of a
    task's flag, or the indeterminate value of the uninitialised local
    variable [req]. *)
Inductive lock_req :=
  | ReqNull
  | ReqErr (e : Z)
  | ReqPtr (a : nat) (task : Z)
  | ReqIndeterminate.

#[global] Instance lock_req_eq_dec : EqDecision lock_req.
Proof. solve_decision. Defined.

(** The table ranges a TPC-C client may access remotely (customer, item). *)
Definition tpcc_local (l : innet_lock) : bool :=
  let lid := l_id l mod TPCC_WAREHOUSE_LOCK_NUM in
  negb (((11 <=? lid) && (lid <? 41)) || ((111 <=? lid) && (lid <? 121))).

(** Acquiring as the lock's manager on this host. *)
Definition acquire_as_lm (cfg : config) (a : nat) (task : Z) (op : lock_state) : H lock_req :=
  l <- lmeta a ;;
  let '(granted, l') := handle_acquire_lm (LOCALHOST_ID cfg) task op l in
  store a l' ;;
  if granted : bool then ret ReqNull
  else update a (lock_prepare_wait task) ;; ret (ReqPtr a task).

Definition lock_acquire_async (cfg : config) (lkey task : Z) (op : lock_state) : H lock_req :=
  if negb (ls_eqb op LOCK_EXCL) && negb (ls_eqb op LOCK_SHARED) then ret (ReqErr ERR_INVALID_OP)
  else
    a <- lock_key_to_desc lkey ;;
    l <- lmeta a ;;
    h <- get ;;
    if TPCC_ENB_LOCAL cfg && tpcc_local l then acquire_as_lm cfg a task op
    else if lock_out_of_range l then
      if lock_to_lm l =? LOCALHOST_ID cfg then acquire_as_lm cfg a task op
      else
        update a (lock_prepare_wait task) ;;
        emit (send_post_acquire_lm (packet_modify cfg) (LOCALHOST_ID cfg)
                op (l_id l) (lock_to_lm l) task) ;;
        ret (ReqPtr a task)
    else
      let send := emit (send_post_acquire (packet_modify cfg) (LOCALHOST_ID cfg)
                          op (l_id l) (LOCALHOST_ID cfg) task) in
      if enb_local_grants h then
        let me := LOCK_HOLDER (LOCALHOST_ID cfg) task in
        if FISSLOCK_BMV2 cfg && ls_eqb op LOCK_EXCL && ls_eqb (l_mode l) LOCK_EXCL
           && negb (lock_no_holders l) && negb (lock_has_holder l me) then
          store a (handle_suspend_acquire (LOCALHOST_ID cfg) task op l) ;;
          update a (lock_prepare_wait task) ;;
          ret (ReqPtr a task)
        else if l_is_agent l then
          if ls_eqb (l_mode l) LOCK_SHARED && ls_eqb op LOCK_SHARED then
            store a (handle_granted_acquire (LOCALHOST_ID cfg) task l) ;;
            ret ReqNull
          else
            store a (handle_suspend_acquire (LOCALHOST_ID cfg) task op l) ;;
            update a (lock_prepare_wait task) ;;
            ret (ReqPtr a task)
        else
          update a (lock_prepare_wait task) ;;
          send ;;
          ret (ReqPtr a task)
      else
        send ;;
        ret ReqIndeterminate.

(** Returns 0 when the task was notified, 1 otherwise. *)
Definition lock_wait_local (lkey task : Z) : H Z :=
  a <- lock_key_to_desc lkey ;;
  l <- lmeta a ;;
  let '(notified, l') := lock_local_wait task l in
  store a l' ;;
  ret (if notified : bool then 0 else 1).

(** A handle that is neither zero nor the address of a flag is dereferenced
    all the same. *)
Definition lock_req_granted (req : lock_req) : H Z :=
  match req with
  | ReqNull => ret 1
  | ReqPtr a task =>
      l <- lmeta a ;;
      match l_task_granted l !! task with
      | Some true =>
          store a (set_task_granted (<[task := false]> (l_task_granted l)) l) ;; ret 1
      | Some false => ret 0
      | None => fail FaultNull
      end
  | ReqErr _ | ReqIndeterminate => fail FaultNull
  end.

(** [int ret = lock_acquire_async(...)] narrows the handle to 32 bits;
    [handle_low] gives the low 32 bits of a flag's address (and of whatever
    the uninitialised variable held). *)
Definition int_of_req (handle_low : lock_req -> Z) (req : lock_req) : Z :=
  match req with
  | ReqNull => 0
  | ReqErr e => - e
  | _ => i32 (handle_low req)
  end.

Definition lock_acquire (handle_low : lock_req -> Z) (cfg : config)
    (lkey task : Z) (op : lock_state) : H Z :=
  req <- lock_acquire_async cfg lkey task op ;;
  let r := int_of_req handle_low req in
  if r =? 0 then ret 0
  else if (r =? 1) || (r =? 2) then lock_wait_local lkey task
  else if r =? 3 then ret 1
  else ret 0.

(** ** Releases *)

(** Grant the exclusive waiter at the head after [handle_release_lm] returned
    true: [notify] is what the caller does with the waiter. *)
Definition release_as_lm (cfg : config) (a : nat) (task : Z) (notify : wqe -> H unit) : H unit :=
  l <- lmeta a ;;
  match handle_release_lm (LOCALHOST_ID cfg) task l with
  | Fault f => fail f
  | Ok (sched, l', out) =>
      store a l' ;;
      for_each out emit ;;
      if sched : bool then
        match l_wqueue l' with
        | [] => fail FaultNull
        | w :: wq =>
            notify w ;;
            update a (set_wqueue wq)
        end
      else ret tt
  end.

(** Free, hand over locally (BMv2) or transfer a lock without holders. *)
Definition release_last (cfg : config) (a : nat) (l : innet_lock) : H Z :=
  let nc := u8 (l_ncnt l) in
  let old_state := l_mode l in
  match l_wqueue l with
  | [] =>
      store a (set_ncnt 0 (set_mode FREE (set_is_agent false l))) ;;
      emit (send_post_free (packet_modify cfg) (LOCALHOST_ID cfg) (l_id l) nc old_state) ;;
      ret 0
  | w :: wq =>
      if FISSLOCK_BMV2 cfg && (wq_host w =? LOCALHOST_ID cfg) then
        let l := set_wqueue wq l in
        let l := set_mode (ls_of (wq_op w)) l in
        let l := lock_add_holder (LOCK_HOLDER (LOCALHOST_ID cfg) (wq_task w)) l in
        store a (lock_local_notify (wq_task w) l) ;;
        ret 0
      else
        let l := set_ncnt 0 (set_mode FREE (set_is_agent false l)) in
        emit (send_post_transfer (packet_modify cfg) (LOCALHOST_ID cfg)
                (ls_of (wq_op w)) (l_id l) (wq_host w) (wq_task w) wq nc old_state) ;;
        store a (set_wqueue [] l) ;;
        ret 0
  end.

Definition lock_release (cfg : config) (lkey task : Z) (op : lock_state) : H Z :=
  a <- lock_key_to_desc lkey ;;
  update a (fun l => set_local_holders (l_local_holders l ∖ {[ task ]}) l) ;;
  l <- lmeta a ;;
  if TPCC_ENB_LOCAL cfg && tpcc_local l then
    release_as_lm cfg a task (fun w => update a (lock_local_notify (wq_task w))) ;; ret 0
  else if lock_out_of_range l then
    if lock_to_lm l =? LOCALHOST_ID cfg then
      release_as_lm cfg a task (fun w =>
        emit (send_post_grant (packet_modify cfg) (l_id l) (wq_host w) (wq_task w))) ;;
      ret 0
    else
      emit (send_post_release_lm (packet_modify cfg)
              (l_id l) (LOCALHOST_ID cfg) task (lock_to_lm l)) ;;
      ret 0
  else if l_is_agent l then
    let lh := LOCK_HOLDER (LOCALHOST_ID cfg) task in
    let l :=
      if negb (lock_has_holder l lh) then
        set_early_release (<[lh := true]> (l_early_release l)) l
      else handle_release (LOCALHOST_ID cfg) task l in
    store a l ;;
    if lock_no_holders l then release_last cfg a l
    else ret 0
  else
    emit (send_post_release (packet_modify cfg) (LOCALHOST_ID cfg)
            (l_id l) (LOCALHOST_ID cfg) task) ;;
    ret 0.
