(* ===== verification/LockApiProofs.v ===== *)
(** * LockApiProofs: the lock tables and the application interface

    The invariant of a host's tables and heap under every call an application
    makes and every packet that arrives; the request handles; the agreement of
    local and remote releases; and the aliasing of the two lock tables. *)

From S2P Require Import Prelude Types Post Lock LockProofs LockApi Agent.

#[local] Open Scope prog_scope.

(** ** The host invariant *)

(** The object at address [a] is the lock with this key and identifier. *)
Definition lock_at (h : host) (a : nat) (key id : Z) : Prop :=
  exists l, h_heap h !! a = Some l /\ l_key l = key /\ l_id l = id.

Record host_wf (h : host) : Prop := {
  hw_heap : Forall lock_wf (h_heap h);
  hw_tbl : map_Forall (fun k a => exists i, lock_at h a k i) (lock_tbl h);
  hw_ids : map_Forall (fun i a => exists k, lock_at h a k i) (lock_id_map h);
}.

(** ** Calls *)

Inductive call :=
  | CInit (rpc : Z -> Z) (lkey : Z)
  | CLocalInit (id : Z)
  | CAcquireAsync (lkey task : Z) (op : lock_state)
  | CWaitLocal (lkey task : Z)
  | CReqGranted (req : lock_req)
  | CAcquire (handle_low : lock_req -> Z) (lkey task : Z) (op : lock_state)
  | CRelease (lkey task : Z) (op : lock_state)
  | CDeliver (p : packet).

Definition ignore {A} (m : H A) : H unit := m ;; ret tt.

Definition exec (cfg : config) (c : call) : H unit :=
  match c with
  | CInit rpc k => ignore (lock_init rpc k)
  | CLocalInit i => ignore (lock_local_init i)
  | CAcquireAsync k t op => ignore (lock_acquire_async cfg k t op)
  | CWaitLocal k t => ignore (lock_wait_local k t)
  | CReqGranted r => ignore (lock_req_granted r)
  | CAcquire low k t op => ignore (lock_acquire low cfg k t op)
  | CRelease k t op => ignore (lock_release cfg k t op)
  | CDeliver p => ignore (lock_packet_dispatch cfg p)
  end.

(** Arguments within the types of the interface. *)
Definition call_ok (c : call) : Prop :=
  match c with
  | CAcquireAsync _ t _ | CAcquire _ _ t _ | CRelease _ t _ => in_uw 32 t
  | CDeliver p => packet_ok p
  | _ => True
  end.

(** The conditions under which a call returns: keys are registered, handles come
    from the interface, and wait queues fit a transmission burst. *)
Definition short_queue (l : innet_lock) : Prop := Z.of_nat (length (l_wqueue l)) <= DPDK_TX_BURST_SIZE.

Definition registered (h : host) (k : Z) : Prop := is_Some (lock_tbl h !! k).

Definition allocated (h : host) (a : nat) : Prop := is_Some (h_heap h !! a).

Definition call_defined (h : host) (c : call) : Prop :=
  match c with
  | CInit _ _ | CLocalInit _ => True
  | CAcquireAsync k _ op | CAcquire _ k _ op => op = FREE \/ registered h k
  | CWaitLocal k _ => registered h k
  | CReqGranted ReqNull => True
  | CReqGranted (ReqPtr a t) => exists l, h_heap h !! a = Some l /\ is_Some (l_task_granted l !! t)
  | CReqGranted _ => False
  | CRelease k _ _ => registered h k /\ Forall short_queue (h_heap h)
  | CDeliver p => Forall short_queue (h_heap h) /\ Z.of_nat (length (pk_wq p)) <= DPDK_TX_BURST_SIZE
  end.

(** Every call of a sequence is defined when it is made. *)
Fixpoint calls_defined (cfg : config) (cs : list call) (h : host) : Prop :=
  match cs with
  | [] => True
  | c :: cs' => call_defined h c /\
      forall h' out, exec cfg c h = Ok (tt, h', out) -> calls_defined cfg cs' h'
  end.

(** ** Rules for the host's primitives *)

Section rules.
Context (h : host) (Hh : host_wf h).

Lemma lock_at_wf a l : h_heap h !! a = Some l -> lock_wf l.
Proof using Hh. intros E. eapply Forall_lookup_1; [apply Hh|done]. Qed.

Lemma wp_lmeta a (Q : innet_lock -> host -> Prop) :
  allocated h a -> (forall l, h_heap h !! a = Some l -> lock_wf l -> Q l h) -> wp (lmeta a) Q h.
Proof using Hh.
  intros [l E] HQ. unfold lmeta. apply wp_bind, wp_get. rewrite E. apply wp_ret. by eauto using lock_at_wf.
Qed.

Lemma wp_store a l l' (Q : unit -> host -> Prop) :
  h_heap h !! a = Some l -> lock_wf l' -> l_key l' = l_key l -> l_id l' = l_id l ->
  (forall h', host_wf h' -> h_heap h' !! a = Some l' -> Q tt h') -> wp (store a l') Q h.
Proof using Hh.
  intros E Hl Hk Hi HQ. unfold store. apply wp_bind, wp_get, wp_put. apply HQ.
  - assert (Hat : forall b k i, lock_at h b k i ->
      lock_at (Host (<[a:=l']> (h_heap h)) (lock_tbl h) (lock_id_map h) (enb_local_grants h)) b k i).
    { intros b k i (lb & Eb & Ek & Ei). destruct (decide (b = a)) as [->|Hb].
      - exists l'. simpl. rewrite list_lookup_insert_eq by (by eapply lookup_lt_Some).
        rewrite E in Eb. injection Eb as <-. by rewrite Hk, Hi.
      - exists lb. simpl. by rewrite list_lookup_insert_ne. }
    split; simpl.
    + apply Forall_insert; [apply Hh|done].
    + intros k b Eb. destruct (hw_tbl _ Hh _ _ Eb) as [i Hi']. eauto.
    + intros i b Eb. destruct (hw_ids _ Hh _ _ Eb) as [k Hk']. eauto.
  - simpl. apply list_lookup_insert_eq. by eapply lookup_lt_Some.
Qed.

Lemma wp_update a f (Q : unit -> host -> Prop) :
  allocated h a ->
  (forall l, lock_wf l -> lock_wf (f l) /\ l_key (f l) = l_key l /\ l_id (f l) = l_id l) ->
  (forall h' l, host_wf h' -> h_heap h !! a = Some l -> h_heap h' !! a = Some (f l) -> Q tt h') ->
  wp (update a f) Q h.
Proof using Hh.
  intros Ha Hf HQ. unfold update. apply wp_bind, wp_lmeta; [done|]. intros l E Hl.
  destruct (Hf l Hl) as (Hl' & Hk & Hi). apply (wp_store a l); auto. intros h' Hh' E'. by apply (HQ h' l).
Qed.

Lemma wp_lock_key_to_desc k (Q : nat -> host -> Prop) :
  registered h k -> (forall a, allocated h a -> Q a h) -> wp (lock_key_to_desc k) Q h.
Proof using Hh.
  intros [a E] HQ. unfold lock_key_to_desc. apply wp_bind, wp_get. rewrite E. apply wp_ret, HQ.
  destruct (hw_tbl _ Hh _ _ E) as (i & l & El & _). by exists l.
Qed.
End rules.

(** A freshly allocated lock enters the heap and either or both tables. *)
Lemma host_wf_alloc h l b1 b2 :
  host_wf h -> lock_wf l ->
  host_wf (Host (h_heap h ++ [l])
    (if b1 : bool then map_insert (l_key l) (length (h_heap h)) (lock_tbl h) else lock_tbl h)
    (if b2 : bool then map_insert (l_id l) (length (h_heap h)) (lock_id_map h) else lock_id_map h)
    (enb_local_grants h)).
Proof.
  intros [Hp Ht Hi] Hl. set (h' := Host _ _ _ _).
  assert (Hold : forall a k i, lock_at h a k i -> lock_at h' a k i).
  { intros a k i (l' & E & ?). exists l'. split; [|done]. by apply lookup_app_l_Some. }
  assert (Hnew : lock_at h' (length (h_heap h)) (l_key l) (l_id l)).
  { exists l. split; [|done]. simpl. by rewrite lookup_app_r, Nat.sub_diag by lia. }
  split.
  - apply Forall_app. split; [done|by constructor].
  - assert (map_Forall (fun k a => exists i, lock_at h' a k i) (lock_tbl h)) as Hm
      by (intros k a E; destruct (Ht k a E); eauto).
    simpl. destruct b1; [|done]. unfold map_insert.
    destruct (lock_tbl h !! l_key l) eqn:E; [done|]. apply map_Forall_insert_2; eauto.
  - assert (map_Forall (fun i a => exists k, lock_at h' a k i) (lock_id_map h)) as Hm
      by (intros i a E; destruct (Hi i a E); eauto).
    simpl. destruct b2; [|done]. unfold map_insert.
    destruct (lock_id_map h !! l_id l) eqn:E; [done|]. apply map_Forall_insert_2; eauto.
Qed.

(** ** Every call preserves the invariant *)

Section calls.
Context (cfg : config) (Hcfg : config_wf cfg).

Abbreviation inv := (fun _ h => host_wf h).

Lemma wp_lock_init rpc k h : host_wf h -> wp (lock_init rpc k) inv h.
Proof using.
  intros Hh. unfold lock_init. apply wp_bind, wp_get. destruct (lock_tbl h !! k); [done|].
  exact (host_wf_alloc h (new_innet_lock k (u32 (rpc k))) true true Hh (new_innet_lock_wf _ _)).
Qed.

Lemma wp_lock_local_init i h : host_wf h -> wp (lock_local_init i) inv h.
Proof using.
  intros Hh. unfold lock_local_init. apply wp_bind, wp_get. destruct (lock_tbl h !! i); [done|].
  exact (host_wf_alloc h (new_innet_lock i (u32 i)) true true Hh (new_innet_lock_wf _ _)).
Qed.

Lemma wp_lock_id_to_desc i (Q : nat -> host -> Prop) h :
  host_wf h -> Forall short_queue (h_heap h) ->
  (forall a h', host_wf h' -> Forall short_queue (h_heap h') -> allocated h' a -> Q a h') ->
  wp (lock_id_to_desc i) Q h.
Proof using.
  intros Hh Hs HQ. unfold lock_id_to_desc. apply wp_bind, wp_get.
  destruct (lock_id_map h !! i) as [a|] eqn:E.
  - apply wp_ret, HQ; [done|done|]. destruct (hw_ids _ Hh _ _ E) as (k & l & El & _). by exists l.
  - apply HQ; cbn [h_heap].
    + exact (host_wf_alloc h (new_innet_lock 0 i) false true Hh (new_innet_lock_wf _ _)).
    + apply Forall_app. split; [done|]. apply Forall_singleton. done.
    + exists (new_innet_lock 0 i). by apply list_lookup_middle.
Qed.

Lemma prepare_wait_keeps t l :
  lock_wf l -> lock_wf (lock_prepare_wait t l) /\ l_key (lock_prepare_wait t l) = l_key l /\
  l_id (lock_prepare_wait t l) = l_id l.
Proof using. intros Hl. split; [|done]. by apply wf_set_task_granted. Qed.

Lemma wp_prepare_wait a t {A} (k : H A) (Q : A -> host -> Prop) h :
  host_wf h -> allocated h a -> (forall h', host_wf h' -> wp k Q h') ->
  wp (update a (lock_prepare_wait t) ;; k) Q h.
Proof using.
  intros Hh Ha HQ. apply wp_bind, wp_update; [done|done|apply prepare_wait_keeps|]. auto.
Qed.

Lemma wp_dispatch p h :
  host_wf h -> packet_ok p -> call_defined h (CDeliver p) -> wp (lock_packet_dispatch cfg p) inv h.
Proof using Hcfg.
  intros Hh Hp [Hs Hwq]. unfold lock_packet_dispatch. apply wp_bind, wp_lock_id_to_desc; [done|done|].
  intros a h' Hh' Hs' Ha. apply wp_bind, wp_lmeta; [done|done|]. intros l E Hl.
  destruct (lock_packet_process_good cfg l p Hcfg Hl Hp (Forall_lookup_1 _ _ _ _ Hs' E) Hwq) as (o & Eo & _).
  rewrite Eo.
  destruct (lock_packet_process_keeps cfg l p Hcfg Hl Hp o Eo) as (? & ? & ?).
  apply wp_bind, (wp_store _ Hh' a l); try done. intros h2 Hh2 _.
  by apply wp_bind, wp_for_each_emit, wp_ret.
Qed.

Lemma wp_acquire_as_lm a t op h :
  host_wf h -> allocated h a -> in_uw 32 t -> op = LOCK_SHARED \/ op = LOCK_EXCL ->
  wp (acquire_as_lm cfg a t op) inv h.
Proof using Hcfg.
  intros Hh Ha Ht Hop. unfold acquire_as_lm. apply wp_bind, wp_lmeta; [done|done|]. intros l E Hl.
  pose proof (handle_acquire_lm_wf (LOCALHOST_ID cfg) t op l Hl (proj1 Hcfg) Ht Hop) as Hl'.
  pose proof (handle_acquire_lm_ident (LOCALHOST_ID cfg) t op l) as [Hk Hi].
  destruct (handle_acquire_lm _ _ _ _) as [g l']. apply wp_bind, (wp_store _ Hh a l); try done.
  intros h' Hh' E'. destruct g; [by apply wp_ret|]. apply wp_prepare_wait; [done|by exists l'|done].
Qed.

Lemma wp_acquire_async k t op h :
  host_wf h -> in_uw 32 t -> op = FREE \/ registered h k -> wp (lock_acquire_async cfg k t op) inv h.
Proof using Hcfg.
  intros Hh Ht Hk. unfold lock_acquire_async. case_if; [by apply wp_ret|].
  assert (Hop : op = LOCK_SHARED \/ op = LOCK_EXCL).
  { destruct op; auto; done. }
  destruct Hk as [->|Hk]; [by destruct Hop|].
  apply wp_bind, wp_lock_key_to_desc; [done|done|]. intros a Ha. apply wp_bind, wp_lmeta; [done|done|]. intros l E Hl.
  apply wp_bind, wp_get. destruct Hcfg as (Hhost & _).
  case_if; [by apply wp_acquire_as_lm|]. case_if; [case_if; [by apply wp_acquire_as_lm|]|].
  { apply wp_prepare_wait; [done|done|]. intros. by apply wp_bind, wp_emit, wp_ret. }
  cbv zeta. case_if; [|by apply wp_bind, wp_emit, wp_ret].
  assert (Hs : lock_wf (handle_suspend_acquire (LOCALHOST_ID cfg) t op l))
    by (apply wf_append_to_wq; auto with lockdb).
  repeat case_if.
  - apply wp_bind, (wp_store _ Hh a l); try done. intros. apply wp_prepare_wait; [done|eexists; eassumption|done].
  - apply wp_bind, (wp_store _ Hh a l); try done. apply wf_add_holder; auto with lockdb.
  - apply wp_bind, (wp_store _ Hh a l); try done. intros. apply wp_prepare_wait; [done|eexists; eassumption|done].
  - apply wp_prepare_wait; [done|done|]. intros. by apply wp_bind, wp_emit, wp_ret.
Qed.

Lemma wp_wait_local k t h : host_wf h -> registered h k -> wp (lock_wait_local k t) inv h.
Proof using.
  intros Hh Hk. unfold lock_wait_local. apply wp_bind, wp_lock_key_to_desc; [done|done|]. intros a Ha.
  apply wp_bind, wp_lmeta; [done|done|]. intros l E Hl. simpl. apply wp_bind, (wp_store _ Hh a l); try done.
  by apply wf_set_task_granted.
Qed.

Lemma wp_req_granted r h : host_wf h -> call_defined h (CReqGranted r) -> wp (lock_req_granted r) inv h.
Proof using.
  intros Hh Hr. unfold lock_req_granted. destruct r as [|e|a t|]; try done. destruct Hr as (l0 & E0 & [b Eb]).
  apply wp_bind, wp_lmeta; [done|by exists l0|]. intros l E Hl. assert (l = l0) as -> by congruence.
  rewrite Eb. destruct b; [|done]. rename l0 into l.
  apply wp_bind, (wp_store _ Hh a l); try done. by apply wf_set_task_granted.
Qed.

(** The table of keys only changes when a lock is registered. *)
Definition keeps_table {A} (m : H A) : Prop :=
  forall h a h' out, m h = Ok (a, h', out) -> lock_tbl h' = lock_tbl h.

Lemma keeps_table_bind {A B} (m : H A) (k : A -> H B) :
  keeps_table m -> (forall a, keeps_table (k a)) -> keeps_table (bind m k).
Proof using.
  intros Hm Hk h b h' out. unfold bind. destruct (m h) as [[[a h1] o1]|] eqn:E1; [|done].
  destruct (k a h1) as [[[b' h2] o2]|] eqn:E2; [|done]. intros [= <- <- _].
  by rewrite (Hk _ _ _ _ _ E2), (Hm _ _ _ _ E1).
Qed.

Lemma keeps_table_ret {A} (a : A) : keeps_table (ret a).
Proof using. by intros h b h' out [= _ <- _]. Qed.

Lemma keeps_table_emit e : keeps_table (emit e).
Proof using. by intros h b h' out [= _ <- _]. Qed.

Lemma keeps_table_get : keeps_table get.
Proof using. by intros h b h' out [= _ <- _]. Qed.

Lemma keeps_table_fail {A} f : keeps_table (fail (A := A) f).
Proof using. by intros h b h' out. Qed.

Lemma keeps_table_store a l : keeps_table (store a l).
Proof using. by intros h b h' out [= _ <- _]. Qed.

Lemma keeps_table_lmeta a : keeps_table (lmeta a).
Proof using.
  apply keeps_table_bind; [apply keeps_table_get|]. intros h. destruct (h_heap h !! a);
    [apply keeps_table_ret|apply keeps_table_fail].
Qed.

Lemma keeps_table_desc k : keeps_table (lock_key_to_desc k).
Proof using.
  apply keeps_table_bind; [apply keeps_table_get|]. intros h. destruct (lock_tbl h !! k);
    [apply keeps_table_ret|apply keeps_table_fail].
Qed.

Lemma keeps_table_update a f : keeps_table (update a f).
Proof using. apply keeps_table_bind; [apply keeps_table_lmeta|]. intros l. apply keeps_table_store. Qed.

Create HintDb keeps.
#[local] Hint Resolve keeps_table_ret keeps_table_emit keeps_table_get keeps_table_store keeps_table_lmeta
  keeps_table_desc keeps_table_update : keeps.

Ltac keeps := repeat first
  [ solve [auto with keeps] | apply keeps_table_bind; [solve [auto with keeps]|intros ?] | case_if | progress cbv zeta ].

Lemma acquire_async_keeps_table k t op : keeps_table (lock_acquire_async cfg k t op).
Proof using.
  unfold lock_acquire_async.
  assert (Hlm : forall a, keeps_table (acquire_as_lm cfg a t op)).
  { intros a. unfold acquire_as_lm. keeps. destruct (handle_acquire_lm _ _ _ _). keeps. }
  keeps.
Qed.

Lemma wp_acquire low k t op h :
  host_wf h -> in_uw 32 t -> op = FREE \/ registered h k -> wp (lock_acquire low cfg k t op) inv h.
Proof using Hcfg.
  intros Hh Ht Hk. unfold lock_acquire. apply wp_bind.
  destruct (wp_ok _ _ _ (wp_acquire_async k t op h Hh Ht Hk)) as (r & h' & out & E & Hh').
  unfold wp. rewrite E. change (wp (let r0 := int_of_req low r in
    if r0 =? 0 then ret 0 else if (r0 =? 1) || (r0 =? 2) then lock_wait_local k t
    else if r0 =? 3 then ret 1 else ret 0) inv h'). cbv zeta.
  destruct Hk as [->|Hk]; [injection E as <- <- _; by apply wp_ret|].
  repeat case_if; try done. apply wp_wait_local; [done|].
  unfold registered. by rewrite (acquire_async_keeps_table _ _ _ _ _ _ _ E).
Qed.

Lemma wp_release_as_lm a t notify h :
  host_wf h -> allocated h a -> Forall short_queue (h_heap h) ->
  (forall w h' (Q : unit -> host -> Prop), host_wf h' -> allocated h' a ->
     (forall h'', host_wf h'' -> allocated h'' a -> Q tt h'') -> wp (notify w) Q h') ->
  wp (release_as_lm cfg a t notify) inv h.
Proof using.
  intros Hh Ha Hs Hn. unfold release_as_lm. apply wp_bind, wp_lmeta; [done|done|]. intros l E Hl.
  destruct (handle_release_lm_good (LOCALHOST_ID cfg) t l Hl (Forall_lookup_1 _ _ _ _ Hs E))
    as (b & l' & out & Er & _ & _ & Hb). rewrite Er.
  apply handle_release_lm_keeps in Er as (Hl' & ? & ?); [|done].
  apply wp_bind, (wp_store _ Hh a l); try done. intros h' Hh' E'.
  apply wp_bind, wp_for_each_emit. destruct b; [|done]. specialize (Hb eq_refl).
  destruct (l_wqueue l') as [|w wq] eqn:Eq; [done|].
  apply wp_bind, Hn; [done|by exists l'|]. intros h2 Hh2 Ha2. apply wp_update; [done|done| |done].
  intros l2 Hl2. split; [|done]. apply wf_set_wqueue; [done|].
  pose proof (lw_wq _ Hl') as Hq. rewrite Eq in Hq. by inversion Hq.
Qed.

Lemma wp_release_last a l h :
  host_wf h -> h_heap h !! a = Some l -> lock_wf l -> wp (release_last cfg a l) inv h.
Proof using Hcfg.
  intros Hh E Hl. unfold release_last. cbv zeta.
  destruct (l_wqueue l) as [|w wq] eqn:Eq; [|case_if].
  - apply wp_bind, (wp_store _ Hh a l); try done. auto 6 with lockdb.
  - pose proof (lw_wq _ Hl) as Hq. rewrite Eq in Hq. inversion_clear Hq as [|? ? Hw Hq'].
    apply wp_bind, (wp_store _ Hh a l); try done. apply wf_local_notify, wf_add_holder.
    + apply wf_set_mode; auto with lockdb.
    + apply LOCK_HOLDER_range; [apply Hcfg|]. apply (in_uw_mono 30); [lia|]. apply Hw.
  - apply wp_bind, wp_emit. apply wp_bind, (wp_store _ Hh a l); try done. auto 8 with lockdb.
Qed.

(** The first statement of [lock_release], with what the rest may assume. *)
Lemma wp_drop_local_holder a t {A} (k : H A) (Q : A -> host -> Prop) h :
  host_wf h -> allocated h a -> Forall short_queue (h_heap h) ->
  (forall h', host_wf h' -> allocated h' a -> Forall short_queue (h_heap h') -> wp k Q h') ->
  wp (update a (fun l => set_local_holders (l_local_holders l ∖ {[ t ]}) l) ;; k) Q h.
Proof using.
  intros Hh [l E] Hs HQ. apply wp_bind. unfold update. apply wp_bind, wp_lmeta; [done|by exists l|]. intros l1 E1 Hl1.
  set (l' := set_local_holders _ l1). unfold store. apply wp_bind, wp_get, wp_put. apply HQ.
  - apply (wp_store _ Hh a l1 l' (fun _ h' => host_wf h')); try done. by apply wf_set_local_holders.
  - exists l'. cbn [h_heap]. apply list_lookup_insert_eq. by eapply lookup_lt_Some.
  - cbn [h_heap]. apply Forall_insert; [done|]. exact (Forall_lookup_1 _ _ _ _ Hs E1).
Qed.

Lemma wp_release k t op h :
  host_wf h -> in_uw 32 t -> call_defined h (CRelease k t op) -> wp (lock_release cfg k t op) inv h.
Proof using Hcfg.
  intros Hh Ht [Hk Hs]. unfold lock_release. apply wp_bind, wp_lock_key_to_desc; [done|done|]. intros a Ha.
  apply wp_drop_local_holder; [done..|]. intros h1 Hh1 Ha1 Hs1. apply wp_bind, wp_lmeta; [done|done|]. intros l E Hl.
  case_if; [|case_if; [case_if|case_if]].
  - apply wp_bind. eapply wp_mono; [apply wp_release_as_lm; [done..|]|done].
    intros w h' Q Hh' Ha' HQ. apply wp_update; [done|done| |intros h2 l2 Hh2 _ E2; apply HQ; [done|eexists; exact E2]].
    intros l2 Hl2. split; [by apply wf_local_notify|done].
  - apply wp_bind. eapply wp_mono; [apply wp_release_as_lm; [done..|]|done].
    intros w h' Q Hh' Ha' HQ. apply wp_emit. auto.
  - by apply wp_bind, wp_emit.
  - cbv zeta. set (l1 := if negb (lock_has_holder _ _) then set_early_release _ l else handle_release _ _ l).
    assert (Hl1 : lock_wf l1) by (subst l1; unfold handle_release; case_if; auto with lockdb).
    assert (l_key l1 = l_key l /\ l_id l1 = l_id l) as [? ?] by (subst l1; by case_if).
    apply wp_bind, (wp_store _ Hh1 a l); try done. intros h2 Hh2 E2.
    case_if; [by apply wp_release_last|by apply wp_ret].
  - by apply wp_bind, wp_emit.
Qed.

Lemma wp_exec c h : host_wf h -> call_ok c -> call_defined h c -> wp (exec cfg c) inv h.
Proof using Hcfg.
  intros Hh Hc Hd. assert (Hig : forall A (m : H A), wp m inv h -> wp (ignore m) inv h).
  { intros A m Hm. unfold ignore. apply wp_bind. eapply wp_mono; [exact Hm|]. done. }
  destruct c; cbn [exec call_ok] in *; apply Hig; auto using wp_lock_init, wp_lock_local_init,
    wp_acquire_async, wp_wait_local, wp_req_granted, wp_acquire, wp_release, wp_dispatch.
Qed.
End calls.

(** C18: the invariant of a host's lock tables, and that its calls return.
    Starting from [lock_setup], every sequence of application calls and packet
    deliveries returns when each call is for a registered key or a handle the
    interface gave out and no wait queue is longer than a transmission burst;
    then every lock is well formed, every table entry points to an allocated
    lock, and that lock carries the key (or the identifier) it is filed
    under. *)
Theorem host_invariant cfg flags cs :
  config_wf cfg -> Forall call_ok cs -> calls_defined cfg cs (lock_setup flags) ->
  exists h out, for_each cs (exec cfg) (lock_setup flags) = Ok (tt, h, out) /\ host_wf h.
Proof.
  intros Hcfg Hcs Hd.
  assert (Hw : forall h0, host_wf h0 -> calls_defined cfg cs h0 -> wp (for_each cs (exec cfg)) (fun _ h => host_wf h) h0).
  { clear Hd. induction Hcs as [|c cs Hc _ IH]; intros h0 Hh0 Hd0; [done|]. destruct Hd0 as [Hd1 Hd2].
    cbn [for_each]. apply wp_bind. destruct (wp_ok _ _ _ (wp_exec cfg Hcfg c h0 Hh0 Hc Hd1)) as ([] & h1 & o1 & E & Hh1).
    unfold wp. rewrite E. apply IH; [done|by eapply Hd2]. }
  destruct (wp_ok _ _ _ (Hw (lock_setup flags) ltac:(split; [constructor|apply map_Forall_empty..]) Hd))
    as ([] & h & out & E & Hh). by exists h, out.
Qed.

Lemma host_invariant_witness :
  let cs := [CLocalInit 5; CAcquireAsync 5 7 LOCK_EXCL;
             CDeliver (wire POST_LOCK_GRANT_WITH_AGENT 1 5 1 7 []);
             CDeliver (wire POST_LOCK_ACQUIRE 1 6 2 9 [])] in
  exists h out, for_each cs (exec cfg0) (lock_setup 1) = Ok (tt, h, out) /\ host_wf h.
Proof.
  intros cs. apply (host_invariant cfg0 1 cs); [apply cfg0_wf| |].
  - do 2 (constructor; [done|]). constructor; [by apply wire_ok|].
    constructor; [by apply wire_ok|constructor].
  - split; [done|]. intros h1 o1 [= <- _]. split; [right; by eexists|].
    intros h2 o2 E2. vm_compute in E2. injection E2 as <- _. split; [split; [|done]|].
    { by apply Forall_singleton. }
    intros h3 o3 E3. vm_compute in E3. injection E3 as <- _. split; [split; [|done]|done].
    by apply Forall_singleton.
Defined.

(** ** Equations for the host's primitives *)

Definition with_lock (h : host) (a : nat) (l : innet_lock) : host :=
  Host (<[a := l]> (h_heap h)) (lock_tbl h) (lock_id_map h) (enb_local_grants h).

Lemma lmeta_eq h a l : h_heap h !! a = Some l -> lmeta a h = Ok (l, h, []).
Proof. intros E. unfold lmeta, bind, get. by rewrite E. Qed.

Lemma store_eq h a l : store a l h = Ok (tt, with_lock h a l, []).
Proof. done. Qed.

Lemma update_eq h a l f : h_heap h !! a = Some l -> update a f h = Ok (tt, with_lock h a (f l), []).
Proof. intros E. unfold update. by rewrite (bind_ok _ _ _ _ _ _ (lmeta_eq h a l E)). Qed.

Lemma lock_key_to_desc_eq h k a : lock_tbl h !! k = Some a -> lock_key_to_desc k h = Ok (a, h, []).
Proof. intros E. unfold lock_key_to_desc, bind, get. by rewrite E. Qed.

Lemma lock_id_to_desc_eq h i a : lock_id_map h !! i = Some a -> lock_id_to_desc i h = Ok (a, h, []).
Proof. intros E. unfold lock_id_to_desc, bind, get. by rewrite E. Qed.

Lemma with_lock_lookup h a l l' : h_heap h !! a = Some l -> h_heap (with_lock h a l') !! a = Some l'.
Proof. intros E. apply list_lookup_insert_eq. by eapply lookup_lt_Some. Qed.

Lemma with_lock_twice h a l l' : with_lock (with_lock h a l) a l' = with_lock h a l'.
Proof. unfold with_lock. simpl. by rewrite list_insert_insert_eq. Qed.

Lemma for_each_emit_eq (l : list sent) (h : host) : for_each l emit h = Ok (tt, h, l).
Proof. induction l as [|x l IH]; [done|]. simpl.
  rewrite (bind_ok (emit x) _ h tt h [x]) by done. by rewrite IH. Qed.

(** Rewriting the first action of a sequence. *)
Ltac mstep :=
  match goal with
  | |- context [bind (lmeta ?a) _ ?h] => erewrite (bind_ok (lmeta a)) by (apply lmeta_eq; first [eassumption | eapply with_lock_lookup; eassumption])
  | |- context [bind (update ?a ?f) _ ?h] => erewrite (bind_ok (update a f)) by (apply update_eq; first [eassumption | eapply with_lock_lookup; eassumption])
  | |- context [bind (store ?a ?l) _ ?h] => erewrite (bind_ok (store a l)) by (apply store_eq)
  | |- context [bind get _ ?h] => rewrite (bind_ok get _ h h h []) by reflexivity
  | |- context [bind (emit ?e) _ ?h] => rewrite (bind_ok (emit e) _ h tt h [e]) by reflexivity
  | |- context [bind (ret ?x) _ ?h] => rewrite (bind_ok (ret x) _ h x h []) by reflexivity
  | |- context [bind (for_each ?l emit) _ ?h] =>
      rewrite (bind_ok (for_each l emit) _ h tt h l) by apply for_each_emit_eq
  | |- context [bind (lock_key_to_desc ?k) _ ?h] =>
      erewrite (bind_ok (lock_key_to_desc k)) by (apply lock_key_to_desc_eq; eauto)
  | |- context [bind (lock_id_to_desc ?k) _ ?h] =>
      erewrite (bind_ok (lock_id_to_desc k)) by (apply lock_id_to_desc_eq; eauto)
  end.

(** ** Request handles *)

Lemma dispatch_grant_wo cfg h a l t m ag hid :
  config_wf cfg -> in_uw 32 (l_id l) -> lock_id_map h !! l_id l = Some a -> h_heap h !! a = Some l ->
  lock_packet_dispatch cfg (Packet POST_LOCK_GRANT_WO_AGENT (Hdr m (htonl (l_id l)) hid t ag 0 0) [] []) h =
    Ok ((Packet POST_LOCK_GRANT_WO_AGENT (Hdr m (htonl (l_id l)) hid t ag 0 0) [] [], 0),
        with_lock h a (lock_local_notify t l), []).
Proof.
  intros Hc Hid Ha El. unfold lock_packet_dispatch. unfold lid_of. cbn [pk_hdr lock_id].
  rewrite ntohl_htonl by done. mstep. mstep. unfold lock_packet_process.
  rewrite (proj2 (proj2 Hc)). reflexivity.
Qed.

(** A request handle reports its grant exactly once. When the lock's agent
    is elsewhere, [lock_acquire_async] sends one acquire packet that carries the
    requested operation and returns the address of the task's flag;
    [lock_req_granted] says no until the grant packet for that task is
    dispatched, then yes once, then no again. *)
Theorem grant_reported_once cfg h a k l t op :
  config_wf cfg -> TPCC_ENB_LOCAL cfg = false -> FISSLOCK_BMV2 cfg = false ->
  enb_local_grants h = true -> op = LOCK_SHARED \/ op = LOCK_EXCL ->
  lock_tbl h !! k = Some a -> lock_id_map h !! l_id l = Some a -> h_heap h !! a = Some l ->
  in_uw 32 (l_id l) -> lock_out_of_range l = false -> l_is_agent l = false ->
  index false t (l_task_granted l) = false ->
  exists h' s,
    (r <- lock_acquire_async cfg k t op ;;
     g0 <- lock_req_granted r ;;
     d <- lock_packet_dispatch cfg (Packet POST_LOCK_GRANT_WO_AGENT
            (Hdr 0 (htonl (l_id l)) (LOCALHOST_ID cfg) t (LOCALHOST_ID cfg) 0 0) [] []) ;;
     g1 <- lock_req_granted r ;;
     g2 <- lock_req_granted r ;;
     ret (r, g0, g1, g2)) h = Ok ((ReqPtr a t, 0, 1, 0), h', [s]) /\
    pk_type (s_pkt s) = POST_LOCK_ACQUIRE /\ MODE (mode_old_mode (pk_hdr (s_pkt s))) = op /\
    lid_of (pk_hdr (s_pkt s)) = l_id l.
Proof.
  intros Hc Ht Hb He Hop Hk Hi El Hid Hr Ha Hfl. pose proof Hc as Hcfg. destruct Hc as (Hc1 & Hc2 & Hc3).
  unfold lock_acquire_async.
  assert (Hnot : (negb (ls_eqb op LOCK_EXCL) && negb (ls_eqb op LOCK_SHARED)) = false)
    by (by destruct Hop as [-> | ->]).
  rewrite Hnot. eexists _, _. split.
  - unfold bind at 1. mstep. mstep. mstep. rewrite Ht, Hr, He, Hb, Ha. cbv zeta. cbn [andb].
    mstep. mstep. unfold ret at 1.
    set (l1 := lock_prepare_wait t l).
    assert (E1 : h_heap (with_lock h a l1) !! a = Some l1) by (by eapply with_lock_lookup).
    assert (F1 : l_task_granted l1 !! t = Some false).
    { simpl. unfold touch, index in *. destruct (l_task_granted l !! t) as [[]|] eqn:E; try done.
      by rewrite lookup_insert_eq. }
    unfold bind at 1. unfold lock_req_granted at 1. mstep. rewrite F1. unfold ret at 1.
    erewrite bind_ok by (apply (dispatch_grant_wo cfg (with_lock h a l1) a l1); done).
    rewrite with_lock_twice. set (l2 := lock_local_notify t l1).
    assert (E2 : h_heap (with_lock h a l2) !! a = Some l2) by (by eapply with_lock_lookup).
    assert (F2 : l_task_granted l2 !! t = Some true) by (simpl; by rewrite lookup_insert_eq).
    unfold bind at 1. unfold lock_req_granted at 1. mstep. rewrite F2. mstep. unfold ret at 1.
    rewrite with_lock_twice. set (l3 := set_task_granted _ l2).
    assert (E3 : h_heap (with_lock h a l3) !! a = Some l3) by (by eapply with_lock_lookup).
    assert (F3 : l_task_granted l3 !! t = Some false) by (simpl; by rewrite lookup_insert_eq).
    unfold bind at 1. unfold lock_req_granted at 1. mstep. rewrite F3. unfold ret. reflexivity.
  - unfold send_post_acquire, send_post_lock_generic. rewrite Hc2. simpl.
    split; [done|]. split; [by apply MODE_pack|]. by apply ntohl_htonl.
Qed.

(** A host with one lock, registered before any packet for it arrived. *)
Definition host_of (l : innet_lock) : host :=
  Host [l] {[ l_key l := 0%nat ]} {[ l_id l := 0%nat ]} true.

Lemma grant_reported_once_witness :
  let l := held false FREE 0 ∅ [] in
  exists h' s,
    (r <- lock_acquire_async cfg0 5 7 LOCK_SHARED ;;
     g0 <- lock_req_granted r ;;
     d <- lock_packet_dispatch cfg0 (Packet POST_LOCK_GRANT_WO_AGENT (Hdr 0 (htonl 5) 1 7 1 0 0) [] []) ;;
     g1 <- lock_req_granted r ;;
     g2 <- lock_req_granted r ;;
     ret (r, g0, g1, g2)) (host_of l) = Ok ((ReqPtr 0 7, 0, 1, 0), h', [s]) /\
    pk_type (s_pkt s) = POST_LOCK_ACQUIRE /\ MODE (mode_old_mode (pk_hdr (s_pkt s))) = LOCK_SHARED /\
    lid_of (pk_hdr (s_pkt s)) = 5.
Proof.
  intros l. apply (grant_reported_once cfg0 (host_of l) 0 5 l 7 LOCK_SHARED); try done. by left.
Defined.

(** ** Local and remote releases *)

Lemma release_tail_matches cfg h a l p :
  config_wf cfg -> FISSLOCK_BMV2 cfg = false -> h_heap h !! a = Some l -> lock_wf l ->
  in_uw 8 (LOCALHOST_ID cfg) -> Z.of_nat (length (l_wqueue l)) <= DPDK_TX_BURST_SIZE ->
  l_holders l = ∅ -> lock_id (pk_hdr p) = htonl (l_id l) -> pk_body p = [] ->
  exists l' s ret, release_tail cfg l p = Ok (Outcome l' (s_pkt s) [] ret) /\ ret <> 0 /\
    release_last cfg a l h = Ok (0, with_lock h a l', [s]) /\
    s_size s = Z.of_nat (length (encode_post (s_pkt s))).
Proof.
  intros (Hh & Hm & _) Hb E Hl _ Hlen Hnh Hid Hbody.
  unfold release_tail, release_last, lock_no_holders, lock_no_waiters.
  rewrite Hnh, bool_decide_true by done. cbv zeta.
  destruct (l_wqueue l) as [|w wq] eqn:Eq.
  - rewrite bool_decide_true by done. simpl. eexists _, _, _.
    split; [|split; [|split; [mstep; mstep; reflexivity|]]].
    + unfold send_post_free, send_post_lock_generic. rewrite Hm, Hid, Hbody. simpl.
      rewrite uw_uw. reflexivity.
    + done.
    + unfold send_post_free. rewrite Hm. apply send_post_lock_generic_size.
  - rewrite bool_decide_false by done. rewrite Hb. cbn [andb].
    pose proof (lw_wq _ Hl) as Hq. rewrite Eq in Hq. inversion_clear Hq as [|? ? Hw Hq'].
    unfold DPDK_TX_BURST_SIZE in Hlen. simpl in Hlen.
    unfold lock_transfer_helper. rewrite Eq, Hbody, drop_nil. cbn [mbind result_bind].
    eexists _, _, _. split; [|split; [|split; [mstep; mstep; reflexivity|]]].
    + unfold send_post_transfer, send_post_lock_generic. rewrite Hm, Hid, (wq_ok_val w Hw), uw_uw.
      simpl. reflexivity.
    + rewrite sw_small by lia. destruct wq as [|w' wq]; [done|].
      rewrite sw_small; simpl in *; unfold sizeof_wqe; lia.
    + unfold send_post_transfer. rewrite Hm. apply send_post_lock_generic_size.
Qed.



(** ** Handing over on the same host (BMv2) *)

(** On BMv2 an exclusive lock passes between two tasks of the agent's host
    without any packet. While one task holds the lock exclusively, another
    task's exclusive request is queued locally; the release makes the second
    task the only holder and raises its flag, so its handle reports the grant.
    The host stays the agent. *)
Theorem bmv2_local_handover cfg h a k l t1 t2 :
  config_wf cfg -> FISSLOCK_BMV2 cfg = true -> TPCC_ENB_LOCAL cfg = false ->
  enb_local_grants h = true -> lock_tbl h !! k = Some a -> h_heap h !! a = Some l ->
  lock_out_of_range l = false -> l_is_agent l = true -> l_mode l = LOCK_EXCL ->
  l_holders l = {[ LOCK_HOLDER (LOCALHOST_ID cfg) t1 ]} -> l_wqueue l = [] ->
  in_uw 30 t1 -> in_uw 30 t2 -> t1 <> t2 -> index false t2 (l_task_granted l) = false ->
  exists l',
    (r <- lock_acquire_async cfg k t2 LOCK_EXCL ;;
     g0 <- lock_req_granted r ;;
     x <- lock_release cfg k t1 LOCK_EXCL ;;
     g1 <- lock_req_granted r ;;
     ret (r, g0, x, g1)) h = Ok ((ReqPtr a t2, 0, 0, 1), with_lock h a l', []) /\
    l_holders l' = {[ LOCK_HOLDER (LOCALHOST_ID cfg) t2 ]} /\ l_mode l' = LOCK_EXCL /\
    l_is_agent l' = true /\ l_wqueue l' = [].
Proof.
  intros (Hc & _ & _) Hb Ht He Hk El Hr Ha Hm Hho Hq H1 H2 Hne Hfl.
  assert (Hn1 : LOCK_HOLDER (LOCALHOST_ID cfg) t2 ∉ l_holders l).
  { rewrite Hho. intros E%elem_of_singleton.
    apply LOCK_HOLDER_inj in E as [_ E]; [congruence|by apply (in_uw_mono 30)..]. }
  unfold lock_acquire_async. simpl (negb _ && _). cbv iota.
  set (l1 := lock_prepare_wait t2 (handle_suspend_acquire (LOCALHOST_ID cfg) t2 LOCK_EXCL l)).
  assert (E1 : h_heap (with_lock h a l1) !! a = Some l1) by (by eapply with_lock_lookup).
  assert (F1 : l_task_granted l1 !! t2 = Some false).
  { simpl. unfold touch, index in *. destruct (l_task_granted l !! t2) as [[]|] eqn:E; try done.
    by rewrite lookup_insert_eq. }
  assert (Hq1 : l_wqueue l1 = [Wqe 3 t2 (LOCALHOST_ID cfg)])
    by (simpl; rewrite Hq, mk_wqe_exact by done; done).
  eexists. split.
  - unfold bind at 1. mstep. mstep. mstep. rewrite Ht, Hr, He, Hb, Hm. cbv zeta.
    unfold lock_has_holder. rewrite (bool_decide_false _ Hn1). unfold lock_no_holders.
    rewrite bool_decide_false by (rewrite Hho; set_solver). cbn [andb negb].
    change (ls_eqb LOCK_EXCL LOCK_EXCL) with true. cbn [andb]. cbv iota.
    mstep. mstep. unfold ret at 1. rewrite with_lock_twice. fold l1.
    unfold bind at 1. unfold lock_req_granted at 1. mstep. rewrite F1. unfold ret at 1.
    unfold bind at 1. unfold lock_release. mstep. mstep. mstep. cbv beta. rewrite with_lock_twice.
    set (l2 := set_local_holders _ l1). rewrite Ht. cbn [andb].
    change (lock_out_of_range l2) with (lock_out_of_range l). rewrite Hr.
    change (l_is_agent l2) with (l_is_agent l). rewrite Ha.
    unfold lock_has_holder. change (l_holders l2) with (l_holders l).
    rewrite bool_decide_true by (rewrite Hho; set_solver). cbn [negb]. cbv zeta. mstep.
    rewrite with_lock_twice. unfold lock_no_holders.
    rewrite bool_decide_true by (simpl; rewrite Hho; set_solver).
    unfold release_last. cbv zeta.
    change (l_wqueue (handle_release _ _ _)) with (l_wqueue l1). rewrite Hq1, Hb. cbn [wq_host].
    rewrite Z.eqb_refl. cbn [andb]. mstep. unfold ret at 1. rewrite with_lock_twice.
    cbn [wq_op wq_task].
    set (l3 := lock_local_notify _ _).
    assert (E3 : h_heap (with_lock h a l3) !! a = Some l3) by (by eapply with_lock_lookup).
    unfold bind at 1. unfold lock_req_granted. mstep.
    assert (l_task_granted l3 !! t2 = Some true) as -> by (simpl; by rewrite lookup_insert_eq).
    mstep. unfold ret. rewrite with_lock_twice. reflexivity.
  - split; [|done]. simpl. rewrite Hho. set_solver.
Qed.

Lemma bmv2_local_handover_witness :
  let cfg := Config 1 None None true false in
  let l := held true LOCK_EXCL 0 {[ LOCK_HOLDER 1 7 ]} [] in
  exists l',
    (r <- lock_acquire_async cfg 5 8 LOCK_EXCL ;;
     g0 <- lock_req_granted r ;;
     x <- lock_release cfg 5 7 LOCK_EXCL ;;
     g1 <- lock_req_granted r ;;
     ret (r, g0, x, g1)) (host_of l) = Ok ((ReqPtr 0 8, 0, 0, 1), with_lock (host_of l) 0 l', []) /\
    l_holders l' = {[ LOCK_HOLDER 1 8 ]} /\ l_mode l' = LOCK_EXCL /\
    l_is_agent l' = true /\ l_wqueue l' = [].
Proof.
  intros cfg l. by apply (bmv2_local_handover cfg (host_of l) 0 5 l 7 8).
Defined.

(** ** What the model shows of the tables and the handles *)

(** The two tables can name different objects for the same lock. A request
    for a server-managed lock reaches its manager (host 1, lock 2^21) before
    the manager's own application has initialised the lock: the dispatcher
    creates an object and grants the remote exclusive request on it, the later
    [lock_init] leaves that entry alone and files a second object under the
    key, and the local exclusive request is granted at once: two exclusive
    holders. *)
Theorem tables_split_after_early_packet :
  let early := wire POST_LOCK_ACQUIRE 1 2097152 2 9 [] in
  exists h,
    (d <- lock_packet_dispatch cfg0 early ;;
     i <- lock_init (fun _ => 2097152) 77 ;;
     r <- lock_acquire_async cfg0 77 7 LOCK_EXCL ;;
     ret (pk_type d.1, d.2, i, r)) (lock_setup 1)
      = Ok ((POST_LOCK_GRANT_WO_AGENT, 1, 2097152, ReqNull), h, []) /\
    lock_id_map h !! 2097152 = Some 0%nat /\ lock_tbl h !! 77 = Some 1%nat.
Proof. cbv zeta. eexists. split; [vm_compute; reflexivity|]. by split. Qed.

(** With local grants disabled, [lock_acquire_async] returns an
    uninitialised handle after it has sent the acquire packet. *)
Theorem uninitialised_handle :
  exists h s,
    (i <- lock_local_init 5 ;; lock_acquire_async cfg0 5 7 LOCK_EXCL) (lock_setup 0)
      = Ok (ReqIndeterminate, h, [s]) /\ pk_type (s_pkt s) = POST_LOCK_ACQUIRE.
Proof. eexists _, _. split; [vm_compute; reflexivity|]. done. Qed.

(** The blocking [lock_acquire] does not block. A request that is only
    queued returns 0, the value for success, because the address of the flag
    (aligned past 3) matches no case of the switch on the result. *)
Theorem lock_acquire_returns_early cfg low h h' a k t op r out :
  lock_acquire_async cfg k t op h = Ok (r, h', out) -> r = ReqPtr a t ->
  ~ (0 <= i32 (low r) <= 3) ->
  lock_acquire low cfg k t op h = Ok (0, h', out).
Proof.
  intros E -> Hlow. unfold lock_acquire. rewrite (bind_ok _ _ _ _ _ _ E).
  unfold int_of_req. cbv zeta. set (x := i32 _) in *.
  destruct (Z.eqb_spec x 0); [lia|]. destruct (Z.eqb_spec x 1); [lia|].
  destruct (Z.eqb_spec x 2); [lia|]. destruct (Z.eqb_spec x 3); [lia|]. cbn [orb].
  unfold ret. by rewrite app_nil_r.
Qed.

Lemma lock_acquire_returns_early_witness :
  exists h out,
    lock_acquire_async cfg0 5 7 LOCK_EXCL (host_of (held false FREE 0 ∅ [])) = Ok (ReqPtr 0 7, h, out) /\
    lock_acquire (fun _ => 4) cfg0 5 7 LOCK_EXCL (host_of (held false FREE 0 ∅ [])) = Ok (0, h, out).
Proof.
  eexists _, _. split; [vm_compute; reflexivity|].
  eapply lock_acquire_returns_early; [vm_compute; reflexivity|reflexivity|].
  vm_compute. intros [_ []]. reflexivity.
Defined.
