(* ===== verification/LmRefine.v ===== *)
(** * LmRefine: server-managed locks implement the reader/writer lock

    A lock whose identifier is at or beyond SWITCH_LOCK_NUM is managed by one
    host, through [handle_acquire_lm] and [handle_release_lm] of lib/lock.cc.
    Here the whole path is a lock manager in the sense of [RwSpec]: requests of
    the manager's own host go through [lock_acquire_async] and [lock_release],
    requests of the other hosts are the packets [send_post_acquire_lm] and
    [send_post_release_lm] build, delivered to [lock_packet_dispatch], and the
    grants are the grant packets sent or forwarded (and the immediate local
    grants).  [lm_laws] is the refinement. *)

From S2P Require Import Prelude RwSpec Types Post Lock LockProofs LockApi Agent LockApiProofs.

#[local] Open Scope prog_scope.

(** ** Encodings *)

Definition ls_of_rw (op : rw) : lock_state :=
  match op with Shared => LOCK_SHARED | Excl => LOCK_EXCL end.

Definition rw_of_ls (m : lock_state) : option rw :=
  match m with LOCK_SHARED => Some Shared | LOCK_EXCL => Some Excl | _ => None end.

Definition enc_req (r : req) : Z := LOCK_HOLDER (fst r) (snd r).
Definition enc_waiter (w : rw * req) : wqe := Wqe (ls_val (ls_of_rw (fst w))) (snd (snd w)) (fst (snd w)).

(** A requester the wait queue can represent: 8 bits of host, 30 of task. *)
Definition req_ok (r : req) : Prop := in_uw 8 (fst r) /\ in_uw 30 (snd r).

Lemma enc_req_inj r1 r2 : req_ok r1 -> req_ok r2 -> enc_req r1 = enc_req r2 -> r1 = r2.
Proof.
  intros [_ H1] [_ H2] E. unfold enc_req in E.
  apply LOCK_HOLDER_inj in E as [E1 E2]; [|apply (in_uw_mono 30); [lia|assumption]..].
  destruct r1 as [h1 t1], r2 as [h2 t2]. simpl in E1, E2. by subst.
Qed.

Lemma mk_wqe_enc op r : req_ok r -> mk_wqe (ls_of_rw op) (snd r) (fst r) = enc_waiter (op, r).
Proof. intros [Hh Ht]. by rewrite mk_wqe_exact. Qed.

Lemma wqe_holder_enc w : wqe_holder (enc_waiter w) = enc_req (snd w).
Proof. done. Qed.

Lemma wq_shared_enc w : wq_shared (enc_waiter w) = is_shared w.
Proof. by destruct w as [[] r]. Qed.

Lemma lm_filter_enc ws :
  filterb wq_shared (map enc_waiter ws) = map enc_waiter (filterb is_shared ws) /\
  filterb (fun w => negb (wq_shared w)) (map enc_waiter ws) =
    map enc_waiter (filterb (fun w => negb (is_shared w)) ws).
Proof.
  induction ws as [|w ws [IH1 IH2]]; [done|]. simpl. rewrite wq_shared_enc, IH1, IH2.
  by destruct (is_shared w).
Qed.

Section lm.
(** The manager's configuration, the lock's key and identifier, and the
    requesters: at most as many as a burst of grants can hold. *)
Context (cfg : config) (key lid : Z) (R : gset req).

Record lm_setting : Prop := {
  ls_cfg : config_wf cfg;
  ls_tpcc : TPCC_ENB_LOCAL cfg = false;
  ls_lid : in_uw 32 lid;
  ls_range : SWITCH_LOCK_NUM <= lid;
  ls_lm : u8 (lid mod HOST_NUM + 1) = LOCALHOST_ID cfg;
  ls_req : set_Forall req_ok R;
  ls_size : Z.of_nat (size R) <= DPDK_TX_BURST_SIZE;
}.

(** ** The implementation *)

Definition lm_init : host :=
  match lock_init (fun _ => lid) key (lock_setup FLAG_ENB_LOCAL_GRANT) with
  | Ok (_, h, _) => h
  | Fault _ => lock_setup FLAG_ENB_LOCAL_GRANT
  end.

(** The requests granted by packets: each grant packet names a host and a
    task, and they were granted in the mode the lock now has. *)
Definition granted_by (h : host) (ps : list packet) : list (rw * req) :=
  match h_heap h !! 0%nat with
  | Some l =>
      match rw_of_ls (l_mode l) with
      | Some m => map (fun p => (m, (machine_id (pk_hdr p), task_id (pk_hdr p))))
                    (filterb (fun p => pk_type p =? POST_LOCK_GRANT_WO_AGENT) ps)
      | None => []
      end
  | None => []
  end.

Definition deliver (p : packet) (h : host) : result (host * list (rw * req)) :=
  match lock_packet_dispatch cfg p h with
  | Fault f => Fault f
  | Ok ((p', r), h', out) =>
      Ok (h', granted_by h' (map s_pkt out ++ (if r =? 0 then [] else [p'])))
  end.

Definition lm_step (e : event) (h : host) : result (host * list (rw * req)) :=
  match e with
  | Acq op (hid, t) =>
      if hid =? LOCALHOST_ID cfg then
        match lock_acquire_async cfg key t (ls_of_rw op) h with
        | Fault f => Fault f
        | Ok (r, h', out) =>
            Ok (h', (if bool_decide (r = ReqNull) then [(op, (hid, t))] else [])
                    ++ granted_by h' (map s_pkt out))
        end
      else deliver (s_pkt (send_post_acquire_lm None hid (ls_of_rw op) lid (LOCALHOST_ID cfg) t)) h
  | Rel op (hid, t) =>
      if hid =? LOCALHOST_ID cfg then
        match lock_release cfg key t (ls_of_rw op) h with
        | Fault f => Fault f
        | Ok (_, h', out) => Ok (h', granted_by h' (map s_pkt out))
        end
      else deliver (s_pkt (send_post_release_lm None lid hid t (LOCALHOST_ID cfg))) h
  end.

#[local] Instance lm_impl : RwLockImpl host := {
  impl_init := lm_init;
  impl_step := lm_step;
  impl_withdraw := false;
  impl_valid := fun e => match e with Acq _ r | Rel _ r => r ∈ R end;
  impl_valid_dec := fun e => match e with Acq _ r | Rel _ r => gset_elem_of_dec r R end;
}.

(** ** The simulation relation *)

Definition enc_set (X : gset req) : gset Z := set_map enc_req X.

(** An exclusive waiter that is scheduled is not recorded as a holder, so in
    exclusive mode the holder set is only bounded from above. *)
Record lm_lock_rel (l : innet_lock) (a : spec) : Prop := {
  lr_id : l_id l = lid;
  lr_mode : rw_of_ls (l_mode l) = sp_mode a;
  lr_not_release : l_mode l <> RELEASE;
  lr_wq : l_wqueue l = map enc_waiter (sp_waiters a);
  lr_sub : l_holders l ⊆ enc_set (sp_holders a);
  lr_holders : sp_mode a <> Some Excl -> l_holders l = enc_set (sp_holders a);
  lr_hR : sp_holders a ⊆ R;
  lr_wR : forall w, w ∈ sp_waiters a -> snd w ∈ R;
}.

Definition lm_rel (h : host) (a : spec) : Prop :=
  lock_tbl h !! key = Some 0%nat /\ lock_id_map h !! lid = Some 0%nat /\
  exists l, h_heap h !! 0%nat = Some l /\ lm_lock_rel l a.

Context (Hs : lm_setting).

Lemma elem_of_enc_set X r : X ⊆ R -> r ∈ R -> enc_req r ∈ enc_set X <-> r ∈ X.
Proof using Hs.
  intros HX Hr. unfold enc_set. rewrite elem_of_map. split.
  - intros (r' & E & Hr'). apply enc_req_inj in E; [by subst| |]; apply (ls_req Hs); set_solver.
  - intros H. by exists r.
Qed.

Lemma enc_set_difference X r :
  X ⊆ R -> r ∈ R -> enc_set (X ∖ {[ r ]}) = enc_set X ∖ {[ enc_req r ]}.
Proof using Hs.
  intros HX Hr. unfold enc_set. apply set_eq. intros x.
  rewrite elem_of_difference, elem_of_singleton, !elem_of_map. split.
  - intros (r' & -> & H). apply elem_of_difference in H as [H Hne]. split; [by exists r'|].
    intros E. apply Hne, elem_of_singleton. apply enc_req_inj; [apply (ls_req Hs); set_solver..|done].
  - intros [(r' & -> & H) Hne]. exists r'. split; [done|]. set_solver.
Qed.

Lemma enc_set_waiters (ws : list (rw * req)) :
  list_to_set (map wqe_holder (map enc_waiter ws)) = enc_set (list_to_set (map snd ws)).
Proof using.
  induction ws as [|w ws IH]; [simpl; unfold enc_set; by rewrite set_map_empty|].
  simpl. rewrite IH, wqe_holder_enc. unfold enc_set. by rewrite set_map_union_L, set_map_singleton_L.
Qed.

(** At most a burst of requesters waits. *)
Lemma waiters_fit l a : lm_lock_rel l a -> spec_wf a -> Z.of_nat (length (l_wqueue l)) <= DPDK_TX_BURST_SIZE.
Proof using Hs.
  intros Hr Hwf. rewrite (lr_wq _ _ Hr), length_map.
  transitivity (Z.of_nat (size R)); [|apply Hs]. apply Nat2Z.inj_le.
  rewrite <- (length_map snd). rewrite <- (size_list_to_set (C := gset req)) by apply Hwf.
  apply subseteq_size. intros r. rewrite elem_of_list_to_set.
  intros Ho. apply elem_of_waiter_snd in Ho as [o Ho]. by apply (lr_wR _ _ Hr (o, r)).
Qed.

(** ** Acquire *)

Lemma lm_acquire l a op r :
  lm_lock_rel l a -> spec_wf a -> r ∈ R ->
  exists b l', handle_acquire_lm (fst r) (snd r) (ls_of_rw op) l = (b, l') /\
    lm_lock_rel l' (spec_acquire op r a).1 /\
    (spec_acquire op r a).2 = (if b then [(op, r)] else []) /\
    (b = true -> rw_of_ls (l_mode l') = Some op).
Proof using Hs.
  intros Hr Hwf Hin. pose proof (ls_req Hs r Hin) as Hok.
  unfold handle_acquire_lm, spec_acquire. rewrite (mk_wqe_enc op r Hok).
  destruct Hr as [Hid Hm Hnr Hq Hsub Hh HhR HwR]. rewrite <- Hm.
  assert (Hwait : lm_lock_rel (lock_append_to_wq (enc_waiter (op, r)) l)
    (Spec (sp_mode a) (sp_holders a) (sp_waiters a ++ [(op, r)]))).
  { split; simpl; try done; [by rewrite Hq, map_app|].
    intros w [Hw|Hw]%elem_of_app; [by auto|]. by apply list_elem_of_singleton in Hw as ->. }
  destruct (l_mode l) eqn:Em; simpl in Hm; [|done| |].
  - destruct (wf_free _ Hwf (eq_sym Hm)) as [Eh Ew]. eexists true, _. split; [done|].
    split; [|split; [done|by destruct op]]. split; simpl; try done.
    + by destruct op.
    + by destruct op.
    + rewrite Hh by (by rewrite <- Hm). rewrite Eh. unfold enc_set.
      rewrite set_map_empty, union_empty_r_L, set_map_singleton_L. done.
    + intros _. rewrite Hh by (by rewrite <- Hm). rewrite Eh. unfold enc_set.
      by rewrite set_map_empty, union_empty_r_L, set_map_singleton_L.
    + set_solver.
  - destruct op; simpl.
    + eexists true, _. split; [done|]. split; [|split; [done|simpl; by rewrite Em]].
      assert (E : l_holders (lock_add_holder (LOCK_HOLDER r.1 r.2) l) = enc_set ({[r]} ∪ sp_holders a)).
      { simpl. rewrite Hh by (by rewrite <- Hm). unfold enc_set.
        by rewrite set_map_union_L, set_map_singleton_L. }
      split; try done; simpl.
      * by rewrite Em.
      * by rewrite Em.
      * simpl in E. by rewrite E.
      * set_solver.
    + eexists false, _. rewrite <- Hm in Hwait. by split.
  - eexists false, _. rewrite <- Hm in Hwait. split; [done|]. by split; [destruct op|destruct op].
Qed.

(** ** Release *)

(** Whatever the caller of [handle_release_lm] does to grant the head, it
    removes it from the queue. *)
Definition released (l : innet_lock) (r : req) (x : spec * list (rw * req)) : Prop :=
  exists b l' out, handle_release_lm (fst r) (snd r) l = Ok (b, l', out) /\
    l_id l' = lid /\
    if b then exists w ws, l_wqueue l' = enc_waiter w :: ws /\ out = [] /\
                lm_lock_rel (set_wqueue ws l') x.1 /\ snd w ∈ R /\
                x.2 = [w] /\ rw_of_ls (l_mode l') = Some (fst w)
    else lm_lock_rel l' x.1 /\
         exists gs, out = map (digest_grant lid) (map enc_waiter gs) /\
           (forall w, w ∈ gs -> snd w ∈ R /\ Some (fst w) = rw_of_ls (l_mode l')) /\
           x.2 = gs.

(** The last holder leaves: the queue is scheduled. *)
Lemma lm_release_last l a r :
  lm_lock_rel l a -> spec_wf a -> r ∈ R -> sp_holders a = {[ r ]} -> released l r (spec_schedule (sp_waiters a)).
Proof using Hs.
  intros Hr Hwf Hin Eh. pose proof (waiters_fit l a Hr Hwf) as Hfit. unfold released.
  assert (E0 : l_holders l ∖ {[ enc_req r ]} = ∅).
  { pose proof (lr_sub _ _ Hr) as Hsub. rewrite Eh in Hsub. unfold enc_set in Hsub.
    rewrite set_map_singleton_L in Hsub. set_solver. }
  pose proof (E0 : l_holders l ∖ {[ LOCK_HOLDER (fst r) (snd r) ]} = ∅) as E0'.
  unfold handle_release_lm, lock_no_holders. cbv zeta.
  change (l_holders (lock_remove_holder _ l)) with (l_holders l ∖ {[ enc_req r ]}).
  rewrite E0, bool_decide_true by done.
  change (l_wqueue (lock_remove_holder _ l)) with (l_wqueue l).
  destruct Hr as [Hid Hmr Hnr Hq Hsub Hh HhR HwR]. rewrite Hq in *.
  destruct (sp_waiters a) as [|[[] r0] ws] eqn:Ew; unfold spec_schedule.
  - simpl. eexists _, _, _. split; [done|]. split; [done|]. split; [|exists []; split; [done|]; split; [intros w Hw; by apply not_elem_of_nil in Hw|done]].
    split; simpl; try done; try set_solver; by rewrite E0.
  - set (ws0 := (Shared, r0) :: ws) in *. simpl (map enc_waiter ws0). cbv iota.
    simpl (ls_eqb _ _). cbv iota. change (enc_waiter (Shared, r0) :: map enc_waiter ws) with (map enc_waiter ws0).
    match goal with |- context [lock_digest_wq ?q ?l1] =>
      change q with (l_wqueue l); rewrite Hq; rewrite (lock_digest_wq_spec (map enc_waiter ws0) l1 Hfit) end.
    destruct (lm_filter_enc ws0) as [F1 F2]. rewrite F1, F2. cbn [mbind result_bind].
    assert (Ehs : l_holders l ∖ {[ enc_req r ]} ∪
      list_to_set (map wqe_holder (map enc_waiter (filterb is_shared ws0))) =
      enc_set (list_to_set (map snd (filterb is_shared ws0))))
      by (by rewrite E0, union_empty_l_L, enc_set_waiters).
    eexists _, _, _. split; [done|]. split; [done|]. split.
    + split; cbn [fst sp_mode sp_holders sp_waiters]; try done.
      * rewrite <- Ehs. by apply reflexivity.
      * intros x. rewrite elem_of_list_to_set. intros Hx. apply list_elem_of_fmap in Hx as (w & -> & Hw).
         apply elem_of_filterb in Hw as [_ Hw]. by apply HwR.
      * intros w Hw. apply elem_of_filterb in Hw as [_ Hw]. by apply HwR.
    + exists (filterb is_shared ws0). split; [by simpl; rewrite Hid|]. split; [|done].
      intros [o w] Hw. apply elem_of_filterb in Hw as [Hsh Hw]. split; [by apply (HwR _ Hw)|]. by destruct o.
  - simpl. eexists true, _, _. split; [done|]. split; [done|].
    exists (Excl, r0), (map enc_waiter ws). split; [done|]. split; [done|]. split; [|split; [|done]].
    + split; simpl; try done; [rewrite E0'; set_solver|set_solver|intros w Hw; apply HwR; by right].
    + by apply (HwR (Excl, r0)); left.
Qed.

(** A reader leaves the others. *)
Lemma lm_release_reader l a r :
  lm_lock_rel l a -> r ∈ R -> sp_mode a = Some Shared -> r ∈ sp_holders a -> sp_holders a ∖ {[ r ]} <> ∅ ->
  released l r (Spec (sp_mode a) (sp_holders a ∖ {[ r ]}) (sp_waiters a), []).
Proof using Hs.
  intros Hr Hin Hm Hrh Hne. unfold released.
  unfold handle_release_lm, lock_no_holders. cbv zeta.
  change (l_holders (lock_remove_holder _ l)) with (l_holders l ∖ {[ enc_req r ]}).
  destruct Hr as [Hid Hmr Hnr Hq Hsub Hh HhR HwR].
  assert (E1 : l_holders l ∖ {[ enc_req r ]} = enc_set (sp_holders a ∖ {[ r ]})).
  { rewrite Hh by (by rewrite Hm). by rewrite enc_set_difference. }
  rewrite bool_decide_false.
  2:{ rewrite E1. intros E. apply set_choose_L in Hne as [x Hx].
      assert (enc_req x ∈ enc_set (sp_holders a ∖ {[ r ]})) by (apply elem_of_map; by exists x). set_solver. }
  eexists _, _, _. split; [done|]. split; [done|]. split; [|exists []; split; [done|]; split; [intros w Hw; by apply not_elem_of_nil in Hw|done]].
  pose proof (E1 : l_holders l ∖ {[ LOCK_HOLDER (fst r) (snd r) ]} = _) as E1'.
  split; simpl; try done; [by rewrite E1'|intros x Hx; set_solver].
Qed.

Lemma lm_release l a op r :
  lm_lock_rel l a -> spec_wf a -> r ∈ R -> permitted false (Rel op r) (view_of a) -> released l r (spec_release op r a).
Proof using Hs.
  intros Hr Hwf Hin HP. destruct (spec_release_cases _ _ _ _ Hwf HP)
    as [(? & ? & _ & ? & _)|[(Hm & Hrh & Eh & ->)|(Hm & -> & Hrh & Hne & ->)]]; [done| |].
  - by apply lm_release_last.
  - by apply lm_release_reader.
Qed.

(** ** The host level *)

Lemma lm_lock_rel_ext l l' a :
  lm_lock_rel l a -> l_id l' = l_id l -> l_mode l' = l_mode l ->
  l_wqueue l' = l_wqueue l -> l_holders l' = l_holders l -> lm_lock_rel l' a.
Proof using. intros [] E1 E2 E3 E4. split; rewrite ?E1, ?E2, ?E3, ?E4; done. Qed.

Lemma lm_rel_with_lock h a a' l l' :
  lm_rel h a -> h_heap h !! 0%nat = Some l -> lm_lock_rel l' a' -> lm_rel (with_lock h 0 l') a'.
Proof using.
  intros (Hk & Hi & _) E Hr. split; [done|]. split; [done|]. exists l'. split; [|done].
  by eapply with_lock_lookup.
Qed.

Lemma granted_by_with_lock h l l' ps m :
  h_heap h !! 0%nat = Some l -> rw_of_ls (l_mode l') = Some m ->
  granted_by (with_lock h 0 l') ps =
    map (fun p => (m, (machine_id (pk_hdr p), task_id (pk_hdr p))))
      (filterb (fun p => pk_type p =? POST_LOCK_GRANT_WO_AGENT) ps).
Proof using. intros E Hm. unfold granted_by. by rewrite (with_lock_lookup _ _ _ _ E), Hm. Qed.

(** Without grant packets nothing is granted. *)
Lemma granted_by_nil h ps :
  Forall (fun p => pk_type p <> POST_LOCK_GRANT_WO_AGENT) ps -> granted_by h ps = [].
Proof using.
  intros HF. unfold granted_by. destruct (h_heap h !! 0%nat) as [l|]; [|done].
  destruct (rw_of_ls (l_mode l)); [|done]. rewrite filterb_none; [done|].
  apply (list.Forall_impl _ _ _ HF). intros p. apply Z.eqb_neq.
Qed.

(** The grants of a digest, decoded. *)
Lemma granted_by_digest h l l' gs :
  h_heap h !! 0%nat = Some l ->
  (forall w, w ∈ gs -> snd w ∈ R /\ Some (fst w) = rw_of_ls (l_mode l')) ->
  granted_by (with_lock h 0 l') (map s_pkt (map (digest_grant lid) (map enc_waiter gs))) = gs.
Proof using Hs.
  intros E Hgs. destruct gs as [|w0 gs0] eqn:Eg; [by apply granted_by_nil|]. rewrite <- Eg in *.
  destruct (Hgs w0) as [_ Hm]; [rewrite Eg; by left|].
  rewrite (granted_by_with_lock _ l l' _ (fst w0)) by done.
  clear Eg. induction gs as [|[o [h1 t1]] gs IH]; [done|]. simpl.
  destruct (Hgs (o, (h1, t1))) as [Hin Ho]; [by left|]. destruct (ls_req Hs _ Hin) as [Hh Ht].
  simpl in *. rewrite IH by (intros; apply Hgs; by right).
  rewrite !uw_small by (done || by apply (in_uw_mono 30)). congruence.
Qed.

Lemma lm_out_of_range l a : lm_lock_rel l a -> lock_out_of_range l = true.
Proof using Hs. intros Hr. unfold lock_out_of_range. rewrite (lr_id _ _ Hr). apply Z.leb_le, Hs. Qed.

Lemma dispatch_eq h l p o :
  lock_id_map h !! lid = Some 0%nat -> h_heap h !! 0%nat = Some l ->
  lid_of (pk_hdr p) = lid -> lock_packet_process cfg l p = Ok o ->
  lock_packet_dispatch cfg p h = Ok ((o_pkt o, o_ret o), with_lock h 0 (o_lock o), o_sends o).
Proof using.
  intros Hi E Hp Eo. unfold lock_packet_dispatch. rewrite Hp. mstep. mstep. rewrite Eo.
  mstep. mstep. unfold ret. by rewrite app_nil_r.
Qed.

Lemma lm_step_acquire_remote h a op hid t :
  lm_rel h a -> spec_wf a -> ((hid, t) ∈ R) -> hid <> LOCALHOST_ID cfg ->
  exists h', lm_step (Acq op (hid, t)) h = Ok (h', (spec_acquire op (hid, t) a).2) /\
    lm_rel h' (spec_acquire op (hid, t) a).1.
Proof using Hs.
  intros HR Hwf Hin Hne. pose proof HR as (Hk & Hi & l & E & Hr).
  destruct (lm_acquire l a op (hid, t) Hr Hwf Hin) as (b & l' & Eq & Hr' & Hg & Hm).
  destruct (ls_req Hs _ Hin) as [Hh Ht]. simpl in Hh, Ht.
  apply (in_uw_mono 30 32) in Ht; [|lia].
  unfold lm_step. rewrite (proj2 (Z.eqb_neq _ _) Hne). unfold deliver.
  set (p := s_pkt _). assert (Hp : lid_of (pk_hdr p) = lid) by (apply ntohl_htonl, Hs).
  assert (Ep : lock_packet_process cfg l p = Ok (if b
    then Outcome l' (set_hdr_agent hid (set_pk_type POST_LOCK_GRANT_WO_AGENT p)) [] 1
    else Outcome l' p [] 0)).
  { rewrite process_type_acquire by (done || apply Hs). unfold process_acquire.
    rewrite (lm_out_of_range l a Hr).
    change (MODE (mode_old_mode (pk_hdr p))) with (MODE (MODE_OLD_MODE (ls_val (ls_of_rw op)) 0)).
    rewrite MODE_pack by (destruct op; auto).
    change (machine_id (pk_hdr p)) with (u8 hid). change (task_id (pk_hdr p)) with (u32 t).
    rewrite !uw_small by done. simpl in Eq. rewrite Eq. by destruct b. }
  rewrite Hg. destruct b; rewrite (dispatch_eq h l p _ Hi E Hp Ep); eexists;
    (split; [|by eapply lm_rel_with_lock]); simpl.
  - rewrite (granted_by_with_lock h l l' _ op E (Hm eq_refl)). simpl. by rewrite !uw_small by done.
  - by rewrite granted_by_nil by constructor.
Qed.

Lemma lm_step_acquire_local h a op hid t :
  lm_rel h a -> spec_wf a -> ((hid, t) ∈ R) -> hid = LOCALHOST_ID cfg ->
  exists h', lm_step (Acq op (hid, t)) h = Ok (h', (spec_acquire op (hid, t) a).2) /\
    lm_rel h' (spec_acquire op (hid, t) a).1.
Proof using Hs.
  intros HR Hwf Hin He. pose proof HR as (Hk & Hi & l & E & Hr).
  destruct (lm_acquire l a op (hid, t) Hr Hwf Hin) as (b & l' & Eq & Hr' & Hg & Hm).
  unfold lm_step. rewrite He, Z.eqb_refl in *.
  set (l2 := if b then l' else lock_prepare_wait t l').
  assert (Ea : lock_acquire_async cfg key t (ls_of_rw op) h =
    Ok (if b then ReqNull else ReqPtr 0 t, with_lock h 0 l2, [])).
  { unfold lock_acquire_async.
    replace (negb (ls_eqb (ls_of_rw op) LOCK_EXCL) && negb (ls_eqb (ls_of_rw op) LOCK_SHARED))
      with false by (by destruct op).
    mstep. mstep. mstep. rewrite (ls_tpcc Hs), (lm_out_of_range l a Hr). cbn [andb].
    unfold lock_to_lm. rewrite (lr_id _ _ Hr), (ls_lm Hs), Z.eqb_refl.
    unfold acquire_as_lm. mstep. simpl in Eq. rewrite Eq. mstep. subst l2. destruct b; [done|].
    mstep. unfold ret. by rewrite with_lock_twice. }
  rewrite Ea. eexists. split.
  - rewrite Hg. do 2 f_equal. rewrite granted_by_nil by constructor. by destruct b.
  - eapply lm_rel_with_lock; [done..|]. subst l2. destruct b; [done|]. by eapply lm_lock_rel_ext.
Qed.

Lemma lm_step_release_remote h a op hid t :
  lm_rel h a -> spec_wf a -> ((hid, t) ∈ R) -> hid <> LOCALHOST_ID cfg ->
  permitted false (Rel op (hid, t)) (view_of a) ->
  exists h', lm_step (Rel op (hid, t)) h = Ok (h', (spec_release op (hid, t) a).2) /\
    lm_rel h' (spec_release op (hid, t) a).1.
Proof using Hs.
  intros HR Hwf Hin Hne HP. pose proof HR as (Hk & Hi & l & E & Hr).
  destruct (lm_release l a op (hid, t) Hr Hwf Hin HP) as (b & l' & out & Eq & Hid & Hb).
  destruct (ls_req Hs _ Hin) as [Hh Ht]. simpl in Hh, Ht.
  apply (in_uw_mono 30 32) in Ht; [|lia].
  unfold lm_step. rewrite (proj2 (Z.eqb_neq _ _) Hne). unfold deliver.
  set (p := s_pkt _). assert (Hp : lid_of (pk_hdr p) = lid) by (apply ntohl_htonl, Hs).
  assert (Ep : process_release cfg l p =
    if b then match l_wqueue l' with
              | [] => Fault FaultNull
              | w :: wq => Ok (Outcome (set_wqueue wq l')
                  (set_hdr_dest (wq_host w) (wq_task w) (wq_host w)
                    (set_pk_type POST_LOCK_GRANT_WO_AGENT p)) out 1)
              end
    else Ok (Outcome l' p out 0)).
  { unfold process_release. rewrite (lm_out_of_range l a Hr).
    change (machine_id (pk_hdr p)) with (u8 hid). change (task_id (pk_hdr p)) with (u32 t).
    rewrite !uw_small by done. simpl in Eq. rewrite Eq. by destruct b. }
  rewrite <- (process_type_release cfg (ls_cfg Hs) l p eq_refl) in Ep. destruct b.
  - destruct Hb as ([o [h1 t1]] & ws & Ew & -> & Hr' & Hw & -> & Hm). rewrite Ew in Ep.
    rewrite (dispatch_eq h l p _ Hi E Hp Ep). eexists. split; [|by eapply lm_rel_with_lock].
    simpl. rewrite (granted_by_with_lock h l (set_wqueue ws l') _ o E Hm). simpl.
    destruct (ls_req Hs _ Hw) as [Hh1 Ht1].
    by rewrite !uw_small by (done || by apply (in_uw_mono 30)).
  - destruct Hb as (Hr' & gs & -> & Hgs & ->). rewrite (dispatch_eq h l p _ Hi E Hp Ep).
    eexists. split; [|by eapply lm_rel_with_lock]. simpl. rewrite app_nil_r.
    by rewrite (granted_by_digest h l l' gs E Hgs).
Qed.

Lemma lm_step_release_local h a op hid t :
  lm_rel h a -> spec_wf a -> ((hid, t) ∈ R) -> hid = LOCALHOST_ID cfg ->
  permitted false (Rel op (hid, t)) (view_of a) ->
  exists h', lm_step (Rel op (hid, t)) h = Ok (h', (spec_release op (hid, t) a).2) /\
    lm_rel h' (spec_release op (hid, t) a).1.
Proof using Hs.
  intros HR Hwf Hin He HP. pose proof HR as (Hk & Hi & l & E & Hr0).
  set (l1 := set_local_holders (l_local_holders l ∖ {[ t ]}) l).
  assert (Hr : lm_lock_rel l1 a) by (by eapply lm_lock_rel_ext).
  destruct (lm_release l1 a op (hid, t) Hr Hwf Hin HP) as (b & l' & out & Eq & Hid & Hb).
  unfold lm_step. rewrite He, Z.eqb_refl in *. unfold lock_release.
  mstep. mstep. mstep. cbv beta. fold l1. rewrite (ls_tpcc Hs), (lm_out_of_range l1 a Hr). cbn [andb].
  unfold lock_to_lm. rewrite (lr_id _ _ Hr), (ls_lm Hs), Z.eqb_refl.
  unfold release_as_lm. unfold bind at 1. mstep.
  simpl in Eq. rewrite Eq. mstep. mstep. rewrite with_lock_twice.
  assert (E2 : h_heap (with_lock h 0 l') !! 0%nat = Some l') by (by eapply with_lock_lookup).
  destruct b.
  - destruct Hb as ([o [h1 t1]] & ws & Ew & -> & Hr' & Hw & -> & Hm). rewrite Ew. mstep.
    rewrite (update_eq _ _ _ _ E2), with_lock_twice. unfold ret. eexists.
    split; [|by eapply lm_rel_with_lock]. simpl. do 2 f_equal.
    rewrite (granted_by_with_lock h l (set_wqueue ws l') _ o E Hm).
    destruct (ls_cfg Hs) as (_ & -> & _). simpl. destruct (ls_req Hs _ Hw) as [Hh1 Ht1].
    by rewrite !uw_small by (done || by apply (in_uw_mono 30)).
  - destruct Hb as (Hr' & gs & -> & Hgs & ->). unfold ret. eexists.
    split; [|by eapply lm_rel_with_lock]. simpl. rewrite !app_nil_r.
    by rewrite (granted_by_digest h l l' gs E Hgs).
Qed.

Lemma lm_rel_init : lm_rel lm_init spec_init.
Proof using Hs.
  assert (E : lock_init (fun _ => lid) key (lock_setup FLAG_ENB_LOCAL_GRANT) =
    Ok (lid, Host [new_innet_lock key lid] (<[key := 0%nat]> ∅) (<[lid := 0%nat]> ∅) true, [])).
  { unfold lock_init. mstep. unfold lock_setup at 1. cbn [lock_tbl]. rewrite lookup_empty.
    rewrite (uw_small 32 lid) by apply Hs. reflexivity. }
  unfold lm_init. rewrite E.
  split; [simpl; by rewrite lookup_insert_eq|]. split; [simpl; by rewrite lookup_insert_eq|].
  eexists. split; [done|]. split; simpl; try done; try set_solver.
Qed.

(** The implementation refines the specification. *)
Definition lm_laws : RwLockLaws host.
Proof using Hs.
  refine {| impl_rel := lm_rel; impl_rel_init := lm_rel_init |}.
  intros e h a HR Hwf Hv HP. simpl in Hv, HP.
  destruct e as [op [hid t]|op [hid t]]; destruct (decide (hid = LOCALHOST_ID cfg)).
  - by apply lm_step_acquire_local.
  - by apply lm_step_acquire_remote.
  - by apply lm_step_release_local.
  - by apply lm_step_release_remote.
Defined.
End lm.

(** ** What the clients get *)

(** C11: a server-managed lock grants exactly what the reader/writer lock of
    [RwSpec] grants to at most DPDK_TX_BURST_SIZE = 1024 requesters. The lock lies
    outside the switch's range and the build has no TPCC_ENB_LOCAL ([lm_setting]).
    For every sequence of requests and releases that these requesters, well behaved
    and on any hosts, issue through the API on the manager's host and through
    packets elsewhere, the run does not fault, and at its end the sets of granted
    and of pending requests are the specification's. With more requesters this does
    not hold: the grants of more than 1024 waiting readers leave the array in which
    lock_digest_wq collects them. *)
Theorem lm_refines cfg key lid R es :
  lm_setting cfg lid R ->
  let impl := lm_impl cfg key lid R in
  well_behaved es (impl_init (S := host)) view_init ->
  exists h, run es (impl_init (S := host)) view_init = Ok (h, view_of (spec_run es spec_init)).
Proof.
  intros Hs impl HB. pose proof (lm_laws cfg key lid R Hs) as laws.
  destruct (run_refines es HB) as (h & E & _). by exists h.
Qed.

(** A server-managed lock is safe and strands nobody. Whoever holds it
    exclusively holds it alone, and when nobody holds it nobody waits for it,
    in every run of well-behaved clients. *)
Theorem lm_safe cfg key lid R es :
  lm_setting cfg lid R ->
  let impl := lm_impl cfg key lid R in
  well_behaved es (impl_init (S := host)) view_init ->
  exists h v, run es (impl_init (S := host)) view_init = Ok (h, v) /\ exclusive v /\ no_stranded v.
Proof.
  intros Hs impl HB. pose proof (lm_laws cfg key lid R Hs) as laws. exact (run_safe es HB).
Qed.

Definition lm_requesters0 : gset req := {[ (1, 5); (2, 6); (2, 7); (3, 8) ]}.

Definition lm_events0 : list event :=
  [Acq Excl (1, 5); Acq Shared (2, 6); Acq Excl (3, 8); Acq Shared (2, 7);
   Rel Excl (1, 5); Rel Shared (2, 7); Rel Shared (2, 6)].

Lemma lm_setting0 : lm_setting cfg0 2097152 lm_requesters0.
Proof.
  split; try done. unfold lm_requesters0, req_ok, in_uw. intros r Hr.
  rewrite !elem_of_union, !elem_of_singleton in Hr.
  destruct Hr as [[[-> | ->] | ->] | ->]; simpl; lia.
Qed.

Lemma lm_behaved0 :
  let impl := lm_impl cfg0 77 2097152 lm_requesters0 in
  well_behaved lm_events0 (impl_init (S := host)) view_init.
Proof.
  intros impl. apply (bool_decide_unpack _). vm_compute. exact I.
Qed.

Lemma lm_refines_witness :
  let impl := lm_impl cfg0 77 2097152 lm_requesters0 in
  exists h, run lm_events0 (impl_init (S := host)) view_init =
    Ok (h, view_of (spec_run lm_events0 spec_init)).
Proof. intros impl. exact (lm_refines cfg0 77 2097152 lm_requesters0 lm_events0 lm_setting0 lm_behaved0). Defined.

Lemma lm_safe_witness :
  let impl := lm_impl cfg0 77 2097152 lm_requesters0 in
  exists h v, run lm_events0 (impl_init (S := host)) view_init = Ok (h, v) /\ exclusive v /\ no_stranded v.
Proof. intros impl. exact (lm_safe cfg0 77 2097152 lm_requesters0 lm_events0 lm_setting0 lm_behaved0). Defined.
