(* ===== verification/ParQueue.v ===== *)
(** * ParQueue: the lock table of the ParLock baseline

    Models baseline/ParLock/lib/lock_queue.cc, coroutine_wait_queue.cc and the
    placement of locks in net.cc.  A queue entry is never modified between its
    allocation and its release, so the deque holds entries rather than
    pointers.  [queue_per_lock[lock_id]] of an unregistered lock yields a null
    pointer that is dereferenced at once. *)

From S2P Require Import Prelude Types.

#[local] Open Scope prog_scope.

(** ** Build configuration (utils/conf.h) *)

Record parcfg := ParCfg {
  LOCALHOST_ID : Z;
  PARLOCK_READER_FIRST : bool;
  PARLOCK_ENQUEUE_HOLDERS : bool;
  PARLOCK_TPCC_SHUFFLE : bool;
  PARLOCK_ZIPF_LOAD_BALANCE : bool;
  MAX_LOCK_NUM : Z;
}.

(** ** State *)

Record lock_queue_entry := Lqe { op : Z; requester : Z; host : Z }.

#[global] Instance lock_queue_entry_eq_dec : EqDecision lock_queue_entry.
Proof. solve_decision. Defined.

Inductive queue_state := STATE_FREE | STATE_SHARED | STATE_EXCLUSIVE.

#[global] Instance queue_state_eq_dec : EqDecision queue_state.
Proof. solve_decision. Defined.

Definition OP_SHARED : Z := ls_val LOCK_SHARED.
Definition OP_EXCL : Z := ls_val LOCK_EXCL.

Record LockQueue := LQ {
  request_queue : list lock_queue_entry;
  queue_mutex : bool;               (** held *)
  shared_counter : Z;
  exclusive_counter : Z;
  q_state : queue_state;
}.

(** The lock table and the wait table of one host. *)
Record parlock := Par {
  queue_per_lock : gmap Z LockQueue;
  lock_wait_table : gmap Z (gmap Z bool);
}.

(** Messages (lib/net.h). *)
Definition POST_LOCK_REQ : Z := 1.
Definition POST_UNLOCK_REQ : Z := 2.
Definition POST_LOCK_REPLY : Z := 3.

Record lock_post_header := Hdr {
  post_type : Z;
  h_op : Z;
  lock_id : Z;
  machine_id : Z;
  lh_id : Z;
}.

(** A message handed to the network: the destination and the lock header. *)
Record psent := PSent { p_dest : Z; p_hdr : lock_post_header }.

(** What an operation does besides changing the queues: messages sent and
    local tasks whose wait flag was raised, in order. *)
Inductive pevent :=
  | Sent (m : psent)
  | Signalled (id requester : Z).

Abbreviation P := (M parlock pevent).

(** The fields are stored at their widths. *)
Definition net_send (dest pt op lock_id machine_id lh_id : Z) : P unit :=
  emit (Sent (PSent (u8 dest) (Hdr (u8 pt) (u8 op) (u32 lock_id) (u8 machine_id) (u32 lh_id)))).

(** ** The lock table *)

Definition with_queue (id : Z) (f : LockQueue -> LockQueue) : P unit :=
  s <- get ;;
  match queue_per_lock s !! id with
  | Some q => put (Par (<[id := f q]> (queue_per_lock s)) (lock_wait_table s))
  | None => fail FaultNull
  end.

Definition read_queue {A} (id : Z) (f : LockQueue -> A) : P A :=
  s <- get ;;
  match queue_per_lock s !! id with
  | Some q => ret (f q)
  | None => fail FaultNull
  end.

Definition init_lock (id : Z) : P unit :=
  s <- get ;;
  match queue_per_lock s !! id with
  | Some _ => ret tt
  | None =>
      put (Par (<[id := LQ [] false 0 0 STATE_FREE]> (queue_per_lock s)) (lock_wait_table s))
  end.

Definition set_mutex (b : bool) (q : LockQueue) : LockQueue :=
  LQ (request_queue q) b (shared_counter q) (exclusive_counter q) (q_state q).
Definition set_queue (l : list lock_queue_entry) (q : LockQueue) : LockQueue :=
  LQ l (queue_mutex q) (shared_counter q) (exclusive_counter q) (q_state q).
Definition set_shared (n : Z) (q : LockQueue) : LockQueue :=
  LQ (request_queue q) (queue_mutex q) n (exclusive_counter q) (q_state q).
Definition set_exclusive (n : Z) (q : LockQueue) : LockQueue :=
  LQ (request_queue q) (queue_mutex q) (shared_counter q) n (q_state q).
Definition set_state (st : queue_state) (q : LockQueue) : LockQueue :=
  LQ (request_queue q) (queue_mutex q) (shared_counter q) (exclusive_counter q) st.

Definition block_lock_queue (id : Z) : P unit :=
  held <- read_queue id queue_mutex ;;
  if held : bool then fail FaultDeadlock else with_queue id (set_mutex true).

Definition unblock_lock_queue (id : Z) : P unit :=
  held <- read_queue id queue_mutex ;;
  if held : bool then with_queue id (set_mutex false) else fail FaultUnlock.

Definition get_shared_counter (id : Z) : P Z := read_queue id shared_counter.
Definition get_exclusive_counter (id : Z) : P Z := read_queue id exclusive_counter.
Definition get_lock_state (id : Z) : P queue_state := read_queue id q_state.
Definition set_lock_state (id : Z) (st : queue_state) : P unit := with_queue id (set_state st).
Definition add_shared_counter (id : Z) : P unit :=
  with_queue id (fun q => set_shared (shared_counter q + 1) q).
Definition sub_shared_counter (id : Z) : P unit :=
  with_queue id (fun q => set_shared (shared_counter q - 1) q).
Definition add_exclusive_counter (id : Z) : P unit :=
  with_queue id (fun q => set_exclusive (exclusive_counter q + 1) q).
Definition sub_exclusive_counter (id : Z) : P unit :=
  with_queue id (fun q => set_exclusive (exclusive_counter q - 1) q).

Definition enqueue_request (op lock_id machine_id lh_id : Z) : P unit :=
  with_queue lock_id (fun q => set_queue (request_queue q ++ [Lqe (u8 op) (u32 lh_id) (u8 machine_id)]) q).

Definition get_head_request (id : Z) : P (option lock_queue_entry) :=
  read_queue id (fun q => head (request_queue q)).

Definition dequeue_request (id : Z) : P (option lock_queue_entry) :=
  h <- get_head_request id ;;
  match h with
  | None => ret None
  | Some e => with_queue id (fun q => set_queue (tail (request_queue q)) q) ;; ret (Some e)
  end.

(** The match of the searches: host, requester and operation. *)
Definition entry_is (op requester host : Z) (e : lock_queue_entry) : bool :=
  (ParQueue.host e =? host) && (ParQueue.requester e =? requester) && (ParQueue.op e =? op).

(** The loop of [is_lock_holder] over a queue with a shared head. *)
Fixpoint holder_in_shared_prefix (op requester host : Z) (l : list lock_queue_entry) : bool :=
  match l with
  | [] => false
  | e :: l' =>
      if ParQueue.op e =? OP_EXCL then false
      else if entry_is op requester host e then true
      else holder_in_shared_prefix op requester host l'
  end.

Definition is_holder (op requester host : Z) (l : list lock_queue_entry) : bool :=
  match l with
  | [] => false
  | e :: _ =>
      if ParQueue.op e =? OP_EXCL then entry_is op requester host e
      else holder_in_shared_prefix op requester host l
  end.

Definition is_lock_holder (id requester host op : Z) : P bool :=
  read_queue id (fun q => is_holder op requester host (request_queue q)).

(** The shared entries before the first exclusive one. *)
Fixpoint shared_prefix (l : list lock_queue_entry) : list lock_queue_entry :=
  match l with
  | [] => []
  | e :: l' => if ParQueue.op e =? OP_SHARED then e :: shared_prefix l' else []
  end.

Definition get_head_shared_requests (id : Z) : P (list lock_queue_entry) :=
  read_queue id (fun q => shared_prefix (request_queue q)).

Definition entry_shared (e : lock_queue_entry) : bool := op e =? OP_SHARED.

Definition get_shared_requests (id : Z) : P (list lock_queue_entry) :=
  read_queue id (fun q => filterb entry_shared (request_queue q)).

(** The loop of [dequeue_shared_requests]: [i] is [prev_idx + 1], the index the
    iterator stands at.  An erasure restarts the iterator at the same index,
    and an empty queue ends the loop. *)
Fixpoint dequeue_shared_loop (fuel : nat) (i : nat) (q res : list lock_queue_entry)
    : option (list lock_queue_entry * list lock_queue_entry) :=
  match fuel with
  | O => None
  | S fuel' =>
      match q !! i with
      | None => Some (res, q)
      | Some e =>
          if entry_shared e then
            let q' := delete i q in
            match q' with
            | [] => Some (res ++ [e], q')
            | _ => dequeue_shared_loop fuel' i q' (res ++ [e])
            end
          else dequeue_shared_loop fuel' (S i) q res
      end
  end.

Definition dequeue_shared_requests (id : Z) : P (list lock_queue_entry) :=
  l <- read_queue id request_queue ;;
  match dequeue_shared_loop (S (length l)) 0 l [] with
  | Some (res, q') => with_queue id (set_queue q') ;; ret res
  | None => fail FaultBounds
  end.

(** With holders in the queue and readers first the result is the position
    (0 for a shared request), -1 when there is none; otherwise it tells
    whether an entry was erased. *)
Definition erase_lock_request (cfg : parcfg) (id requester host op : Z) : P Z :=
  l <- read_queue id request_queue ;;
  let index_result := PARLOCK_READER_FIRST cfg && PARLOCK_ENQUEUE_HOLDERS cfg in
  match erase_first (entry_is op requester host) l with
  | Some (i, l') =>
      with_queue id (set_queue l') ;;
      ret (if index_result then (if op =? OP_SHARED then 0 else Z.of_nat i) else 1)
  | None => ret (if index_result then -1 else 0)
  end.

(** ** Placement of locks *)

Definition lock_map : list Z :=
  [0; 13; 14; 182; 183; 1415; 1416; 7757; 7758; 33169; 33170; 117911; 117912; 363525; 363526; 999999].

Definition map_at (i : Z) : Z := nth (Z.to_nat i) lock_map 0.

(** The search of [get_lock_server] in the zipf map; a lock beyond the map
    falls off the end of the function. *)
Fixpoint zipf_server (n : nat) (host_id : Z) (lock_id : Z) : option Z :=
  match n with
  | O => None
  | S n' =>
      if (map_at (2 * (host_id - 1)) <=? lock_id) && (lock_id <=? map_at (2 * (host_id - 1) + 1))
      then Some host_id
      else zipf_server n' (host_id + 1) lock_id
  end.

Definition get_lock_server (cfg : parcfg) (lock_id : Z) : result Z :=
  if PARLOCK_TPCC_SHUFFLE cfg then Ok (lock_id mod HOST_NUM + 1)
  else if PARLOCK_ZIPF_LOAD_BALANCE cfg then
    match zipf_server 8 1 lock_id with Some h => Ok h | None => Fault FaultBounds end
  else
    let lock_per_host := MAX_LOCK_NUM cfg / HOST_NUM in
    if lock_per_host =? 0 then Fault FaultDivZero
    else
      let i := lock_id / lock_per_host in
      let i := if HOST_NUM <=? i then HOST_NUM - 1 else i in
      Ok (i + 1).

(** The identifiers [lo], ..., [hi] of a loop [for (id = lo; id <= hi; id++)]. *)
Definition upto (lo hi : Z) : list Z := seqZ lo (hi - lo + 1).

(** The locks [init_all_locks] initialises on this host, in order.  The
    arguments are non-negative, as the loop variable is unsigned. *)
Definition initialised_locks (cfg : parcfg) : list Z :=
  if PARLOCK_TPCC_SHUFFLE cfg then
    filterb (fun id => id mod HOST_NUM + 1 =? LOCALHOST_ID cfg) (upto 0 (MAX_LOCK_NUM cfg))
  else if PARLOCK_ZIPF_LOAD_BALANCE cfg then
    upto (map_at ((LOCALHOST_ID cfg - 1) * 2)) (map_at ((LOCALHOST_ID cfg - 1) * 2 + 1))
  else
    let lock_per_host := MAX_LOCK_NUM cfg / HOST_NUM in
    upto (lock_per_host * (LOCALHOST_ID cfg - 1)) (lock_per_host * LOCALHOST_ID cfg - 1).

Definition init_all_locks (cfg : parcfg) : P unit := for_each (initialised_locks cfg) init_lock.

(** ** The wait table (coroutine_wait_queue.cc) *)

(** [insert] keeps an existing entry. *)
Definition init_lock_wait_table (id : Z) : P unit :=
  s <- get ;;
  match lock_wait_table s !! id with
  | Some _ => ret tt
  | None => put (Par (queue_per_lock s) (<[id := ∅]> (lock_wait_table s)))
  end.

Definition with_waits (id : Z) (f : gmap Z bool -> result (gmap Z bool)) : P unit :=
  s <- get ;;
  match lock_wait_table s !! id with
  | None => fail FaultExit
  | Some w =>
      match f w with
      | Fault e => fail e
      | Ok w' => put (Par (queue_per_lock s) (<[id := w']> (lock_wait_table s)))
      end
  end.

Definition add_to_wait_queue (id requester : Z) : P unit :=
  with_waits id (fun w => Ok (match w !! requester with Some _ => w | None => <[requester := false]> w end)).

Definition coroutine_wait_queue_signal (id requester : Z) : P unit :=
  with_waits id (fun w =>
    match w !! requester with
    | Some _ => Ok (<[requester := true]> w)
    | None => Fault FaultExit
    end) ;;
  emit (Signalled id requester).

(** The busy-loop variant. *)
Definition coroutine_wait_queue_wait (id requester : Z) : P bool :=
  s <- get ;;
  match lock_wait_table s !! id with
  | None => fail FaultExit
  | Some w => match w !! requester with Some b => ret b | None => fail FaultExit end
  end.

(** ** Lemmas *)

(** The erase loop with restarting iterator is a partition, and fuel for one
    step per entry and one for the end is enough. *)
Lemma dequeue_shared_loop_spec pre suf res fuel :
  Forall (fun e => entry_shared e = false) pre -> (length suf < fuel)%nat ->
  dequeue_shared_loop fuel (length pre) (pre ++ suf) res =
    Some (res ++ filterb entry_shared suf, pre ++ filterb (fun e => negb (entry_shared e)) suf).
Proof.
  revert pre res fuel. induction suf as [|e suf IH]; intros pre res [|fuel] Hpre Hf; simpl in Hf; try lia;
    cbn [dequeue_shared_loop].
  - rewrite app_nil_r, lookup_ge_None_2 by lia. simpl. by rewrite !app_nil_r.
  - rewrite list_lookup_middle by done. simpl. destruct (entry_shared e) eqn:He; simpl.
    + rewrite delete_middle. destruct (pre ++ suf) eqn:E.
      * apply app_nil in E as [-> ->]. simpl. done.
      * rewrite <- E. rewrite IH by (done || lia). by rewrite <- app_assoc.
    + replace (pre ++ e :: suf) with ((pre ++ [e]) ++ suf) by (by rewrite <- app_assoc).
      replace (S (length pre)) with (length (pre ++ [e])) by (rewrite length_app; simpl; lia).
      rewrite IH; [by rewrite <- app_assoc| |lia].
      apply Forall_app. split; [done|by repeat constructor].
Qed.

(** [dequeue_shared_requests] terminates and is a stable partition. The
    loop that erases from the deque it iterates over returns the shared
    requests in arrival order and leaves the other requests in arrival order. *)
Theorem dequeue_shared_is_partition s id q :
  queue_per_lock s !! id = Some q ->
  dequeue_shared_requests id s =
    Ok (filterb entry_shared (request_queue q),
        Par (<[id := set_queue (filterb (fun e => negb (entry_shared e)) (request_queue q)) q]>
               (queue_per_lock s)) (lock_wait_table s), []).
Proof.
  intros E. unfold dequeue_shared_requests, read_queue, with_queue, bind, get. rewrite E. cbn [ret].
  rewrite (dequeue_shared_loop_spec [] (request_queue q) []) by (constructor || lia).
  simpl. by rewrite E.
Qed.

Definition par0 : parlock :=
  Par {[ 4 := LQ [Lqe 3 1 1; Lqe 2 2 1; Lqe 2 3 2; Lqe 3 4 2; Lqe 2 5 3] true 0 0 STATE_FREE ]} ∅.

Lemma dequeue_shared_is_partition_witness :
  dequeue_shared_requests 4 par0 =
    Ok ([Lqe 2 2 1; Lqe 2 3 2; Lqe 2 5 3],
        Par (<[4 := LQ [Lqe 3 1 1; Lqe 3 4 2] true 0 0 STATE_FREE]> (queue_per_lock par0)) ∅, []).
Proof. apply (dequeue_shared_is_partition par0 4 (LQ [Lqe 3 1 1; Lqe 2 2 1; Lqe 2 3 2; Lqe 3 4 2; Lqe 2 5 3] true 0 0 STATE_FREE)). reflexivity. Defined.
