(* ===== verification/ParServer.v ===== *)
(** * ParServer: request handling of the ParLock baseline

    Models baseline/ParLock/lib/server.cc (requests that arrive as messages),
    client.cc (requests of local tasks) and lock.cc (the API and the message
    dispatchers), in both queueing policies: readers first, with or without the
    holders in the queue, and the arrival-order policy of the #else branches.
    Timers, counters and log lines are left out. *)

From S2P Require Import Prelude Types ParQueue.

#[local] Open Scope prog_scope.

(** The grant of a queued request: a local waiter is signalled, a remote one
    is sent a reply. *)
Definition grant_entry (cfg : parcfg) (id : Z) (e : lock_queue_entry) : P unit :=
  if host e =? LOCALHOST_ID cfg then coroutine_wait_queue_signal id (requester e)
  else net_send (host e) POST_LOCK_REPLY (op e) id (host e) (requester e).

(** Conditional compilation. *)
Definition when (b : bool) (m : P unit) : P unit := if b then m else ret tt.

Definition is_excl (e : option lock_queue_entry) : bool :=
  match e with Some e => op e =? OP_EXCL | None => false end.
Definition is_shared_head (e : option lock_queue_entry) : bool :=
  match e with Some e => op e =? OP_SHARED | None => false end.

Definition state_is (a b : queue_state) : bool := bool_decide (a = b).

Section server.
Context (cfg : parcfg).

(** ** server.cc *)

Definition reply (hd : lock_post_header) : P unit :=
  net_send (machine_id hd) POST_LOCK_REPLY (h_op hd) (lock_id hd) (machine_id hd) (lh_id hd).

Definition enqueue_hdr (hd : lock_post_header) : P unit :=
  enqueue_request (h_op hd) (lock_id hd) (machine_id hd) (lh_id hd).

Definition server_handle_exclusive_lock (hd : lock_post_header) : P unit :=
  let id := lock_id hd in
  block_lock_queue id ;;
  if PARLOCK_READER_FIRST cfg then
    st <- get_lock_state id ;;
    if state_is st STATE_FREE then
      set_lock_state id STATE_EXCLUSIVE ;;
      when (PARLOCK_ENQUEUE_HOLDERS cfg) (enqueue_hdr hd) ;;
      unblock_lock_queue id ;;
      reply hd
    else
      enqueue_hdr hd ;;
      unblock_lock_queue id
  else
    sc <- get_shared_counter id ;;
    ec <- get_exclusive_counter id ;;
    if (sc =? 0) && (ec =? 0) then
      add_exclusive_counter id ;;
      enqueue_hdr hd ;;
      unblock_lock_queue id ;;
      reply hd
    else
      add_exclusive_counter id ;;
      enqueue_hdr hd ;;
      unblock_lock_queue id.

Definition server_handle_shared_lock (hd : lock_post_header) : P unit :=
  let id := lock_id hd in
  block_lock_queue id ;;
  if PARLOCK_READER_FIRST cfg then
    st <- get_lock_state id ;;
    if negb (state_is st STATE_EXCLUSIVE) then
      set_lock_state id STATE_SHARED ;;
      when (PARLOCK_ENQUEUE_HOLDERS cfg) (enqueue_hdr hd) ;;
      add_shared_counter id ;;
      unblock_lock_queue id ;;
      reply hd
    else
      enqueue_hdr hd ;;
      unblock_lock_queue id
  else
    add_shared_counter id ;;
    ec <- get_exclusive_counter id ;;
    if ec =? 0 then
      enqueue_hdr hd ;;
      unblock_lock_queue id ;;
      reply hd
    else
      enqueue_hdr hd ;;
      unblock_lock_queue id.

(** Readers first: give a lock that became free to the exclusive request
    [e] at the head. *)
Definition grant_head_excl (id : Z) (e : lock_queue_entry) : P unit :=
  set_lock_state id STATE_EXCLUSIVE ;;
  (if PARLOCK_ENQUEUE_HOLDERS cfg then ret tt else dequeue_request id ;; ret tt) ;;
  grant_entry cfg id e ;;
  unblock_lock_queue id.

(** Readers first: give it to every shared request in the queue. *)
Definition grant_all_shared (id : Z) : P unit :=
  set_lock_state id STATE_SHARED ;;
  shared_head <- (if PARLOCK_ENQUEUE_HOLDERS cfg then get_shared_requests id
                  else dequeue_shared_requests id) ;;
  for_each shared_head (fun e => add_shared_counter id ;; grant_entry cfg id e) ;;
  unblock_lock_queue id.

Definition server_handle_exclusive_unlock (hd : lock_post_header) : P unit :=
  let id := lock_id hd in
  block_lock_queue id ;;
  if PARLOCK_READER_FIRST cfg then
    r <- erase_lock_request cfg id (lh_id hd) (machine_id hd) (h_op hd) ;;
    st <- get_lock_state id ;;
    if state_is st STATE_EXCLUSIVE && (r =? 0) then
      set_lock_state id STATE_FREE ;;
      cur_head <- get_head_request id ;;
      match cur_head with
      | Some e =>
          if op e =? OP_EXCL then grant_head_excl id e
          else if op e =? OP_SHARED then grant_all_shared id
          else unblock_lock_queue id
      | None => unblock_lock_queue id
      end
    else unblock_lock_queue id
  else
    cur_head <- get_head_request id ;;
    match cur_head with
    | None => fail FaultNull
    | Some c =>
        if negb (requester c =? lh_id hd) then
          r <- erase_lock_request cfg id (lh_id hd) (machine_id hd) (h_op hd) ;;
          when (r =? 1) (sub_exclusive_counter id) ;;
          unblock_lock_queue id
        else
          dequeue_request id ;;
          sub_exclusive_counter id ;;
          head <- get_head_request id ;;
          match head with
          | Some e =>
              if op e =? OP_EXCL then
                unblock_lock_queue id ;;
                grant_entry cfg id e
              else if op e =? OP_SHARED then
                shared_head <- get_head_shared_requests id ;;
                unblock_lock_queue id ;;
                for_each shared_head (grant_entry cfg id)
              else unblock_lock_queue id
          | None => unblock_lock_queue id
          end
    end.

Definition server_handle_shared_unlock (hd : lock_post_header) : P unit :=
  let id := lock_id hd in
  block_lock_queue id ;;
  if PARLOCK_READER_FIRST cfg then
    r <- erase_lock_request cfg id (lh_id hd) (machine_id hd) (h_op hd) ;;
    st <- get_lock_state id ;;
    if state_is st STATE_SHARED && (r =? 0) then
      sub_shared_counter id ;;
      sc <- get_shared_counter id ;;
      if 0 <? sc then unblock_lock_queue id
      else
        set_lock_state id STATE_FREE ;;
        cur_head <- get_head_request id ;;
        match cur_head with
        | Some e =>
            if op e =? OP_EXCL then grant_head_excl id e
            else if op e =? OP_SHARED then fail FaultExit
            else unblock_lock_queue id
        | None => unblock_lock_queue id
        end
    else if state_is st STATE_SHARED then
      unblock_lock_queue id ;;
      fail FaultExit
    else unblock_lock_queue id
  else
    cur_head <- get_head_request id ;;
    match cur_head with
    | None => fail FaultNull
    | Some c =>
        if negb (requester c =? lh_id hd) then
          r <- erase_lock_request cfg id (lh_id hd) (machine_id hd) (h_op hd) ;;
          when (r =? 1) (sub_shared_counter id) ;;
          unblock_lock_queue id
        else
          dequeue_request id ;;
          sub_shared_counter id ;;
          head <- get_head_request id ;;
          match head with
          | Some e =>
              if op e =? OP_EXCL then
                unblock_lock_queue id ;;
                grant_entry cfg id e
              else unblock_lock_queue id
          | None => unblock_lock_queue id
          end
    end.

(** ** client.cc *)

Definition acquire_lock_local (lkey req : Z) (o : Z) : P unit :=
  let enqueue := enqueue_request o lkey (LOCALHOST_ID cfg) req in
  block_lock_queue lkey ;;
  if PARLOCK_READER_FIRST cfg then
    if o =? OP_EXCL then
      st <- get_lock_state lkey ;;
      if state_is st STATE_FREE then
        set_lock_state lkey STATE_EXCLUSIVE ;;
        when (PARLOCK_ENQUEUE_HOLDERS cfg) enqueue ;;
        unblock_lock_queue lkey ;;
        coroutine_wait_queue_signal lkey req
      else
        enqueue ;;
        unblock_lock_queue lkey
    else if o =? OP_SHARED then
      st <- get_lock_state lkey ;;
      if negb (state_is st STATE_EXCLUSIVE) then
        set_lock_state lkey STATE_SHARED ;;
        when (PARLOCK_ENQUEUE_HOLDERS cfg) enqueue ;;
        add_shared_counter lkey ;;
        unblock_lock_queue lkey ;;
        coroutine_wait_queue_signal lkey req
      else
        enqueue ;;
        unblock_lock_queue lkey
    else unblock_lock_queue lkey
  else
    if o =? OP_EXCL then
      sc <- get_shared_counter lkey ;;
      ec <- get_exclusive_counter lkey ;;
      if (sc =? 0) && (ec =? 0) then
        add_exclusive_counter lkey ;;
        enqueue ;;
        unblock_lock_queue lkey ;;
        coroutine_wait_queue_signal lkey req
      else
        add_exclusive_counter lkey ;;
        enqueue ;;
        unblock_lock_queue lkey
    else if o =? OP_SHARED then
      ec <- get_exclusive_counter lkey ;;
      if ec =? 0 then
        add_shared_counter lkey ;;
        enqueue ;;
        unblock_lock_queue lkey ;;
        coroutine_wait_queue_signal lkey req
      else
        add_shared_counter lkey ;;
        enqueue ;;
        unblock_lock_queue lkey
    else unblock_lock_queue lkey.

(** Sends to the lock's server; the server lookup may divide by zero. *)
Definition send_to_server (pt lkey req o : Z) : P unit :=
  match get_lock_server cfg lkey with
  | Fault f => fail f
  | Ok s => net_send s pt o lkey (LOCALHOST_ID cfg) req
  end.

Definition acquire_lock_remote (lkey req : Z) (o : Z) : P unit :=
  send_to_server POST_LOCK_REQ lkey req o.

(** The readers-first branches of [release_lock_local]. *)
Definition release_local_reader_first (lkey req : Z) (o : Z) : P unit :=
  r <- erase_lock_request cfg lkey req (LOCALHOST_ID cfg) o ;;
  if o =? OP_EXCL then
    st <- get_lock_state lkey ;;
    if state_is st STATE_EXCLUSIVE && (r =? 0) then
      set_lock_state lkey STATE_FREE ;;
      head <- get_head_request lkey ;;
      match head with
      | Some e =>
          if op e =? OP_EXCL then
            (if PARLOCK_ENQUEUE_HOLDERS cfg then ret tt else dequeue_request lkey ;; ret tt) ;;
            set_lock_state lkey STATE_EXCLUSIVE ;;
            grant_entry cfg lkey e ;;
            unblock_lock_queue lkey
          else if op e =? OP_SHARED then grant_all_shared lkey
          else unblock_lock_queue lkey
      | None => unblock_lock_queue lkey
      end
    else unblock_lock_queue lkey
  else if o =? OP_SHARED then
    st <- get_lock_state lkey ;;
    if state_is st STATE_SHARED && (r =? 0) then
      sub_shared_counter lkey ;;
      sc <- get_shared_counter lkey ;;
      if 0 <? sc then unblock_lock_queue lkey
      else
        set_lock_state lkey STATE_FREE ;;
        head <- get_head_request lkey ;;
        match head with
        | Some e =>
            if op e =? OP_EXCL then
              (if PARLOCK_ENQUEUE_HOLDERS cfg then ret tt else dequeue_request lkey ;; ret tt) ;;
              set_lock_state lkey STATE_EXCLUSIVE ;;
              grant_entry cfg lkey e ;;
              unblock_lock_queue lkey
            else if op e =? OP_SHARED then
              unblock_lock_queue lkey ;;
              fail FaultExit
            else unblock_lock_queue lkey
        | None => unblock_lock_queue lkey
        end
    else if state_is st STATE_SHARED then
      unblock_lock_queue lkey ;;
      fail FaultExit
    else unblock_lock_queue lkey
  else unblock_lock_queue lkey.

(** The arrival-order branches of [release_lock_local]. *)
Definition release_local_fifo (lkey req : Z) (o : Z) : P unit :=
  cur_head <- get_head_request lkey ;;
  match cur_head with
  | None => fail FaultNull
  | Some c =>
      if negb (requester c =? req) then
        r <- erase_lock_request cfg lkey req (LOCALHOST_ID cfg) o ;;
        when (r =? 1)
          (if o =? OP_EXCL then sub_exclusive_counter lkey
           else when (o =? OP_SHARED) (sub_shared_counter lkey)) ;;
        unblock_lock_queue lkey
      else
        dequeue_request lkey ;;
        if op c =? OP_EXCL then
          sub_exclusive_counter lkey ;;
          head <- get_head_request lkey ;;
          match head with
          | Some e =>
              if op e =? OP_EXCL then
                unblock_lock_queue lkey ;;
                grant_entry cfg lkey e
              else if op e =? OP_SHARED then
                shared_head <- get_head_shared_requests lkey ;;
                unblock_lock_queue lkey ;;
                for_each shared_head (grant_entry cfg lkey)
              else unblock_lock_queue lkey
          | None => unblock_lock_queue lkey
          end
        else if op c =? OP_SHARED then
          sub_shared_counter lkey ;;
          head <- get_head_request lkey ;;
          match head with
          | Some e =>
              if op e =? OP_EXCL then
                unblock_lock_queue lkey ;;
                grant_entry cfg lkey e
              else unblock_lock_queue lkey
          | None => unblock_lock_queue lkey
          end
        else unblock_lock_queue lkey
  end.

Definition release_lock_local (lkey req : Z) (o : Z) : P unit :=
  block_lock_queue lkey ;;
  if PARLOCK_READER_FIRST cfg then release_local_reader_first lkey req o
  else release_local_fifo lkey req o.

Definition release_lock_remote (lkey req : Z) (o : Z) : P unit :=
  send_to_server POST_UNLOCK_REQ lkey req o.

(** ** lock.cc *)

Definition process_lock_req (hd : lock_post_header) : P unit :=
  if h_op hd =? OP_EXCL then server_handle_exclusive_lock hd
  else when (h_op hd =? OP_SHARED) (server_handle_shared_lock hd).

Definition process_unlock_req (hd : lock_post_header) : P unit :=
  if h_op hd =? OP_EXCL then server_handle_exclusive_unlock hd
  else when (h_op hd =? OP_SHARED) (server_handle_shared_unlock hd).

Definition process_lock_reply (hd : lock_post_header) : P unit :=
  coroutine_wait_queue_signal (lock_id hd) (lh_id hd).

(** The dispatch table [lock_setup] registers; other types index outside of
    the three registered entries. *)
Definition packet_dispatch (hd : lock_post_header) : P unit :=
  if post_type hd =? POST_LOCK_REQ then process_lock_req hd
  else if post_type hd =? POST_UNLOCK_REQ then process_unlock_req hd
  else if post_type hd =? POST_LOCK_REPLY then process_lock_reply hd
  else fail FaultNull.

Definition lock_acquire_async (lkey req : Z) (o : Z) : P Z :=
  add_to_wait_queue lkey req ;;
  match get_lock_server cfg lkey with
  | Fault f => fail f
  | Ok host_id =>
      (if host_id =? LOCALHOST_ID cfg then acquire_lock_local lkey req o
       else acquire_lock_remote lkey req o) ;;
      ret (Z.lor (Z.shiftl lkey 32) req)
  end.

Definition lock_release (lkey req : Z) (o : Z) : P Z :=
  match get_lock_server cfg lkey with
  | Fault f => fail f
  | Ok host_id =>
      (if host_id =? LOCALHOST_ID cfg then release_lock_local lkey req o
       else release_lock_remote lkey req o) ;;
      ret 0
  end.

Definition lock_req_granted (r : Z) : P bool :=
  coroutine_wait_queue_wait (u32 (Z.shiftr r 32)) (u32 r).

Definition lock_local_init (id : Z) : P Z :=
  init_lock (u32 id) ;;
  init_lock_wait_table (u32 id) ;;
  ret 0.
End server.
