(* ===== verification/ParRefine.v ===== *)
(** * ParRefine: ParLock implements the reader/writer lock

    In its default configuration (readers first, holders not in the queue) a
    ParLock server, with its local clients and the remote clients that talk to
    it by messages, is a lock manager in the sense of [RwSpec], including the
    withdrawal of queued requests.  [par_laws] is the refinement. *)

From S2P Require Import Prelude RwSpec Types ParQueue ParServer.

#[local] Open Scope prog_scope.

(** ** Encodings *)

Definition op_of (o : rw) : Z := match o with Shared => OP_SHARED | Excl => OP_EXCL end.

Definition mode_of (st : queue_state) : option rw :=
  match st with
  | STATE_FREE => None
  | STATE_SHARED => Some Shared
  | STATE_EXCLUSIVE => Some Excl
  end.

Definition enc (w : rw * req) : lock_queue_entry := Lqe (op_of (fst w)) (snd (snd w)) (fst (snd w)).

(** A requester the message format represents. *)
Definition req_ok (r : req) : Prop := in_uw 8 (fst r) /\ in_uw 32 (snd r).

Lemma entry_is_enc o r w : entry_is (op_of o) (snd r) (fst r) (enc w) = bool_decide (w = (o, r)).
Proof.
  destruct w as [o' [h' t']], r as [h t]. unfold entry_is, enc. simpl.
  destruct (bool_decide_reflect ((o', (h', t')) = (o, (h, t)))) as [[= -> -> ->]|Hne].
  - by rewrite !Z.eqb_refl.
  - destruct (Z.eqb_spec h' h) as [->|], (Z.eqb_spec t' t) as [->|]; try done. simpl.
    apply Z.eqb_neq. intros E. apply Hne. f_equal. by destruct o, o'.
Qed.

Lemma entry_shared_enc w : entry_shared (enc w) = is_shared w.
Proof. by destruct w as [[] r]. Qed.

Lemma filter_enc ws :
  filterb entry_shared (map enc ws) = map enc (filterb is_shared ws) /\
  filterb (fun e => negb (entry_shared e)) (map enc ws) =
    map enc (filterb (fun w => negb (is_shared w)) ws).
Proof.
  rewrite !filterb_map. split; f_equal; apply filter_ext; intros w; by rewrite entry_shared_enc.
Qed.

(** ** Executing the server on one lock *)

Section exec.
Context (cfg : parcfg) (id : Z).

(** A state whose lock [id] has queue [q] and wait flags [w]. *)
Definition st_of (T : gmap Z LockQueue) (W : gmap Z (gmap Z bool)) (q : LockQueue) (w : gmap Z bool) : parlock :=
  Par (<[id := q]> T) (<[id := w]> W).

Context (T : gmap Z LockQueue) (W : gmap Z (gmap Z bool)).
#[local] Abbreviation st := (st_of T W).

Lemma with_queue_eq q w f : with_queue id f (st q w) = Ok (tt, st (f q) w, []).
Proof.
  unfold with_queue, bind, get, st_of. simpl. rewrite lookup_insert_eq. unfold put.
  by rewrite insert_insert_eq.
Qed.

Lemma read_queue_eq {A} q w (f : LockQueue -> A) : read_queue id f (st q w) = Ok (f q, st q w, []).
Proof. unfold read_queue, bind, get, st_of. simpl. by rewrite lookup_insert_eq. Qed.

Lemma block_eq q w :
  queue_mutex q = false -> block_lock_queue id (st q w) = Ok (tt, st (set_mutex true q) w, []).
Proof.
  intros E. unfold block_lock_queue. rewrite (bind_ok _ _ _ _ _ _ (read_queue_eq q w _)), E.
  by rewrite with_queue_eq.
Qed.

Lemma unblock_eq q w :
  queue_mutex q = true -> unblock_lock_queue id (st q w) = Ok (tt, st (set_mutex false q) w, []).
Proof.
  intros E. unfold unblock_lock_queue. rewrite (bind_ok _ _ _ _ _ _ (read_queue_eq q w _)), E.
  by rewrite with_queue_eq.
Qed.

Lemma signal_eq q w r b :
  w !! r = Some b ->
  coroutine_wait_queue_signal id r (st q w) = Ok (tt, st q (<[r := true]> w), [Signalled id r]).
Proof.
  intros E. unfold coroutine_wait_queue_signal, with_waits, bind, get, st_of. simpl.
  rewrite lookup_insert_eq, E. unfold put, emit. simpl. by rewrite insert_insert_eq.
Qed.

Lemma add_to_wait_queue_eq q w r :
  add_to_wait_queue id r (st q w) =
    Ok (tt, st q (match w !! r with Some _ => w | None => <[r := false]> w end), []).
Proof.
  unfold add_to_wait_queue, with_waits, bind, get, st_of. simpl. rewrite lookup_insert_eq.
  unfold put. by rewrite insert_insert_eq.
Qed.

Lemma dequeue_request_eq q w e l :
  request_queue q = e :: l -> dequeue_request id (st q w) = Ok (Some e, st (set_queue l q) w, []).
Proof.
  intros E. unfold dequeue_request, get_head_request.
  rewrite (bind_ok _ _ _ _ _ _ (read_queue_eq q w _)), E. simpl.
  rewrite (bind_ok _ _ _ _ _ _ (with_queue_eq q w _)), E. done.
Qed.

Lemma dequeue_shared_eq q w :
  dequeue_shared_requests id (st q w) =
    Ok (filterb entry_shared (request_queue q),
        st (set_queue (filterb (fun e => negb (entry_shared e)) (request_queue q)) q) w, []).
Proof.
  unfold dequeue_shared_requests. rewrite (bind_ok _ _ _ _ _ _ (read_queue_eq q w _)).
  rewrite (dequeue_shared_loop_spec [] (request_queue q) []) by (constructor || lia).
  by rewrite (bind_ok _ _ _ _ _ _ (with_queue_eq q w _)).
Qed.

Lemma erase_eq q w o r h :
  PARLOCK_ENQUEUE_HOLDERS cfg = false ->
  erase_lock_request cfg id r h o (st q w) =
    match erase_first (entry_is o r h) (request_queue q) with
    | Some (_, l') => Ok (1, st (set_queue l' q) w, [])
    | None => Ok (0, st q w, [])
    end.
Proof.
  intros E. unfold erase_lock_request. rewrite (bind_ok _ _ _ _ _ _ (read_queue_eq q w _)), E.
  rewrite andb_false_r. destruct (erase_first _ _) as [[i l']|]; [|done].
  by rewrite (bind_ok _ _ _ _ _ _ (with_queue_eq q w _)).
Qed.

(** The effect of granting an entry. *)
Definition event_of (e : lock_queue_entry) : pevent :=
  if host e =? LOCALHOST_ID cfg then Signalled id (requester e)
  else Sent (PSent (host e) (Hdr POST_LOCK_REPLY (op e) id (host e) (requester e))).

Definition flag_entry (w : gmap Z bool) (e : lock_queue_entry) : gmap Z bool :=
  if host e =? LOCALHOST_ID cfg then <[requester e := true]> w else w.

Definition entry_ok (e : lock_queue_entry) : Prop :=
  in_uw 8 (op e) /\ in_uw 8 (host e) /\ in_uw 32 (requester e).

(** A local waiter has a flag. *)
Definition flagged (w : gmap Z bool) (e : lock_queue_entry) : Prop :=
  host e = LOCALHOST_ID cfg -> is_Some (w !! requester e).

Lemma grant_entry_eq q w e :
  in_uw 32 id -> entry_ok e -> flagged w e ->
  grant_entry cfg id e (st q w) = Ok (tt, st q (flag_entry w e), [event_of e]).
Proof.
  intros Hid (Ho & Hh & Hr) Hf. unfold grant_entry, flag_entry, event_of.
  destruct (Z.eqb_spec (host e) (LOCALHOST_ID cfg)) as [E|E].
  - destruct (Hf E) as [b Hb]. by rewrite (signal_eq q w _ b Hb).
  - unfold net_send, emit. by rewrite !uw_small.
Qed.

Lemma flagged_flag_entry w e e' : flagged w e -> flagged (flag_entry w e') e.
Proof.
  unfold flagged, flag_entry. intros Hf E. specialize (Hf E).
  destruct (host e' =? LOCALHOST_ID cfg); [|done].
  destruct (decide (requester e = requester e')) as [->|]; [by rewrite lookup_insert_eq|].
  by rewrite lookup_insert_ne.
Qed.

(** The loop that grants the shared waiters. *)
Lemma grant_loop_eq l q w :
  in_uw 32 id -> Forall entry_ok l -> Forall (flagged w) l ->
  for_each l (fun e => add_shared_counter id ;; grant_entry cfg id e) (st q w) =
    Ok (tt, st (set_shared (shared_counter q + Z.of_nat (length l)) q) (fold_left flag_entry l w),
        map event_of l).
Proof.
  intros Hid Hok. revert q w. induction Hok as [|e l He _ IH]; intros q w Hf.
  - simpl. rewrite Z.add_0_r. by destruct q.
  - inversion_clear Hf as [|? ? Hf1 Hf2]. cbn [for_each]. rewrite bind_assoc.
    unfold add_shared_counter at 1. rewrite (bind_ok _ _ _ _ _ _ (with_queue_eq q w _)).
    rewrite (bind_ok _ _ _ _ _ _ (grant_entry_eq _ w e Hid He Hf1)).
    rewrite IH.
    + simpl. do 3 f_equal. f_equal. unfold set_shared. simpl. f_equal. lia.
    + apply (list.Forall_impl _ _ _ Hf2). intros e' He'. by apply flagged_flag_entry.
Qed.
End exec.

(** One step of an execution: the first action of a sequence. *)
Ltac pstep :=
  match goal with
  | |- context [bind (with_queue ?i ?f) _ (st_of _ _ _ ?q ?w)] =>
      rewrite (bind_ok _ _ _ _ _ _ (with_queue_eq _ _ _ q w f))
  | |- context [bind (read_queue ?i ?f) _ (st_of _ _ _ ?q ?w)] =>
      rewrite (bind_ok _ _ _ _ _ _ (read_queue_eq _ _ _ q w f))
  | |- context [bind (block_lock_queue ?i) _ (st_of _ _ _ ?q ?w)] =>
      rewrite (bind_ok _ _ _ _ _ _ (block_eq _ _ _ q w ltac:(assumption || done)))
  | |- context [bind (unblock_lock_queue ?i) _ (st_of _ _ _ ?q ?w)] =>
      rewrite (bind_ok _ _ _ _ _ _ (unblock_eq _ _ _ q w ltac:(assumption || done)))
  | |- context [bind (ret ?x) _ ?s] => rewrite (bind_ok (ret x) _ s x s []) by reflexivity
  end.

Ltac punfold := unfold get_lock_state, set_lock_state, get_head_request, get_shared_counter,
  get_exclusive_counter, add_shared_counter, sub_shared_counter, add_exclusive_counter,
  sub_exclusive_counter, enqueue_hdr, enqueue_request, when.

(** ** Handing a freed lock on *)

Section handlers.
Context (cfg : parcfg) (id : Z).
Context (Hid : in_uw 32 id) (HRF : PARLOCK_READER_FIRST cfg = true)
        (HEH : PARLOCK_ENQUEUE_HOLDERS cfg = false).
#[local] Abbreviation st := (st_of id).

(** The queue, flags and events after a free lock was offered to its queue. *)
Definition sched (q : LockQueue) (w : gmap Z bool) : LockQueue * gmap Z bool * list pevent :=
  match request_queue q with
  | [] => (set_state STATE_FREE q, w, [])
  | e :: l =>
      if op e =? OP_EXCL then
        (set_queue l (set_state STATE_EXCLUSIVE q), flag_entry cfg w e, [event_of cfg id e])
      else
        let gs := filterb entry_shared (request_queue q) in
        let q1 := set_queue (filterb (fun e => negb (entry_shared e)) (request_queue q))
                    (set_state STATE_SHARED q) in
        (set_shared (shared_counter q + Z.of_nat (length gs)) q1,
         fold_left (flag_entry cfg) gs w, map (event_of cfg id) gs)
  end.

Definition entries_ok (q : LockQueue) (w : gmap Z bool) : Prop :=
  Forall (fun e => entry_ok e /\ flagged cfg w e /\ (op e = OP_SHARED \/ op e = OP_EXCL)) (request_queue q).

(** The result of a handler that ends in [sched]. *)
Definition sched_result (T : gmap Z LockQueue) (W : gmap Z (gmap Z bool)) (q : LockQueue) (w : gmap Z bool)
    : result (unit * parlock * list pevent) :=
  Ok (tt, st T W (set_mutex false (sched q w).1.1) (sched q w).1.2, (sched q w).2).

Lemma grant_all_shared_eq T W q w :
  queue_mutex q = true -> entries_ok q w ->
  grant_all_shared cfg id (st T W q w) =
    let gs := filterb entry_shared (request_queue q) in
    Ok (tt, st T W (set_mutex false (set_shared (shared_counter q + Z.of_nat (length gs))
            (set_queue (filterb (fun e => negb (entry_shared e)) (request_queue q))
              (set_state STATE_SHARED q)))) (fold_left (flag_entry cfg) gs w),
        map (event_of cfg id) gs).
Proof using Hid HEH.
  intros Hm Hok. cbv zeta. unfold grant_all_shared, set_lock_state. pstep. rewrite HEH.
  rewrite (bind_ok _ _ _ _ _ _ (dequeue_shared_eq _ _ _ _ _)).
  assert (Hin : forall e, e ∈ filterb entry_shared (request_queue q) -> entry_ok e /\ flagged cfg w e).
  { intros e He. apply elem_of_filterb in He as [_ He].
    unfold entries_ok in Hok. rewrite list.Forall_forall in Hok. destruct (Hok e He) as (? & ? & _). done. }
  rewrite (bind_ok _ _ _ _ _ _ (grant_loop_eq cfg id T W _ _ w Hid
    ltac:(apply list.Forall_forall; intros; by apply Hin)
    ltac:(apply list.Forall_forall; intros; by apply Hin))).
  rewrite unblock_eq by done. simpl. by rewrite app_nil_r.
Qed.

(** server.cc: after an exclusive or the last shared release. *)
Lemma server_tail_eq T W q w (shared_ok : bool) :
  queue_mutex q = true -> entries_ok q w ->
  (shared_ok = false -> Forall (fun e => op e = OP_EXCL) (request_queue q)) ->
  (set_lock_state id STATE_FREE ;;
   cur_head <- get_head_request id ;;
   match cur_head with
   | Some e =>
       if op e =? OP_EXCL then grant_head_excl cfg id e
       else if op e =? OP_SHARED then
         (if shared_ok then grant_all_shared cfg id else fail FaultExit)
       else unblock_lock_queue id
   | None => unblock_lock_queue id
   end) (st T W q w) = sched_result T W q w.
Proof using Hid HEH.
  intros Hm Hok Hex. unfold sched_result, sched. punfold. pstep. pstep.
  change (request_queue (set_state STATE_FREE q)) with (request_queue q).
  destruct (request_queue q) as [|e l] eqn:Eq; cbn [head].
  - rewrite unblock_eq by done. done.
  - unfold entries_ok in Hok. rewrite Eq in Hok. inversion Hok as [|? ? (He & Hf & Hop) Hok' Ee]; subst.
    destruct (op e =? OP_EXCL) eqn:Ex.
    + unfold grant_head_excl, set_lock_state. pstep. rewrite HEH. rewrite bind_assoc.
      rewrite (bind_ok _ _ _ _ _ _ (dequeue_request_eq id T W
        (set_state STATE_EXCLUSIVE (set_state STATE_FREE q)) w e l Eq)). pstep.
      rewrite (bind_ok _ _ _ _ _ _ (grant_entry_eq cfg id T W _ w e Hid He Hf)).
      rewrite unblock_eq by done. done.
    + destruct Hop as [Hop|Hop]; [|by rewrite Hop in Ex].
      destruct shared_ok.
      * rewrite Hop. change (OP_SHARED =? OP_SHARED) with true. cbv iota.
        rewrite grant_all_shared_eq; [|done|].
        -- cbv zeta. change (request_queue (set_state STATE_FREE q)) with (request_queue q).
           rewrite Eq. done.
        -- unfold entries_ok. change (request_queue (set_state STATE_FREE q)) with (request_queue q).
           by rewrite Eq.
      * specialize (Hex eq_refl). inversion Hex as [|? ? Hex1 _]. by rewrite Hex1 in Ex.
Qed.

(** client.cc: the same, with the dequeue before the state change, and an
    unlock before the error exit. *)
Lemma local_tail_eq T W q w (shared_ok : bool) :
  queue_mutex q = true -> entries_ok q w ->
  (shared_ok = false -> Forall (fun e => op e = OP_EXCL) (request_queue q)) ->
  (set_lock_state id STATE_FREE ;;
   head <- get_head_request id ;;
   match head with
   | Some e =>
       if op e =? OP_EXCL then
         (if PARLOCK_ENQUEUE_HOLDERS cfg then ret tt else dequeue_request id ;; ret tt) ;;
         set_lock_state id STATE_EXCLUSIVE ;;
         grant_entry cfg id e ;;
         unblock_lock_queue id
       else if op e =? OP_SHARED then
         (if shared_ok then grant_all_shared cfg id else unblock_lock_queue id ;; fail FaultExit)
       else unblock_lock_queue id
   | None => unblock_lock_queue id
   end) (st T W q w) = sched_result T W q w.
Proof using Hid HEH.
  intros Hm Hok Hex. rewrite <- (server_tail_eq T W q w shared_ok Hm Hok Hex).
  punfold. do 4 pstep.
  change (request_queue (set_state STATE_FREE q)) with (request_queue q).
  destruct (request_queue q) as [|e l] eqn:Eq; cbn [head]; [done|].
  unfold entries_ok in Hok. rewrite Eq in Hok. inversion Hok as [|? ? (He & Hf & Hop) Hok' Ee]; subst.
  destruct (op e =? OP_EXCL) eqn:Ex.
  - unfold grant_head_excl, set_lock_state. rewrite HEH. rewrite bind_assoc.
    rewrite (bind_ok _ _ _ _ _ _ (dequeue_request_eq id T W (set_state STATE_FREE q) w e l Eq)).
    do 3 pstep. rewrite bind_assoc.
    rewrite (bind_ok _ _ _ _ _ _ (dequeue_request_eq id T W
      (set_state STATE_EXCLUSIVE (set_state STATE_FREE q)) w e l Eq)). pstep. done.
  - destruct Hop as [Hop|Hop]; [|by rewrite Hop in Ex].
    destruct shared_ok; [done|]. specialize (Hex eq_refl). inversion Hex as [|? ? Hex1 _].
    by rewrite Hex1 in Ex.
Qed.
End handlers.

(** ** The implementation and the simulation relation *)

Section par.
Context (cfg : parcfg) (id : Z).

Record par_setting : Prop := {
  ps_id : in_uw 32 id;
  ps_host : in_uw 8 (LOCALHOST_ID cfg);
  ps_rf : PARLOCK_READER_FIRST cfg = true;
  ps_eh : PARLOCK_ENQUEUE_HOLDERS cfg = false;
  ps_server : get_lock_server cfg id = Ok (LOCALHOST_ID cfg);
}.

(** The server after [lock_local_init]. *)
Definition par_init : parlock :=
  match lock_local_init id (Par ∅ ∅) with Ok (_, s, _) => s | Fault _ => Par ∅ ∅ end.

(** The same build on another host: a remote client. *)
Definition client (hid : Z) : parcfg :=
  ParCfg hid (PARLOCK_READER_FIRST cfg) (PARLOCK_ENQUEUE_HOLDERS cfg)
    (PARLOCK_TPCC_SHUFFLE cfg) (PARLOCK_ZIPF_LOAD_BALANCE cfg) (MAX_LOCK_NUM cfg).

(** The requests granted by events: replies sent and flags raised, in the
    mode the lock now has. *)
Definition grantee (e : pevent) : list req :=
  match e with
  | Sent m => if post_type (p_hdr m) =? POST_LOCK_REPLY then [(machine_id (p_hdr m), lh_id (p_hdr m))] else []
  | Signalled _ r => [(LOCALHOST_ID cfg, r)]
  end.

Definition granted_by (s : parlock) (evs : list pevent) : list (rw * req) :=
  match queue_per_lock s !! id with
  | Some q => match mode_of (q_state q) with
              | Some m => map (pair m) (concat (map grantee evs))
              | None => []
              end
  | None => []
  end.

Definition observe {A} (r : result (A * parlock * list pevent)) : result (parlock * list (rw * req)) :=
  match r with
  | Fault f => Fault f
  | Ok (_, s, evs) => Ok (s, granted_by s evs)
  end.

(** Deliver what a remote client's operation sent to this host. *)
Definition deliver (m : P unit) (s : parlock) : result (parlock * list (rw * req)) :=
  match m (Par ∅ ∅) with
  | Ok (_, _, [Sent p]) =>
      if p_dest p =? LOCALHOST_ID cfg then observe (packet_dispatch cfg (p_hdr p) s)
      else Ok (s, [])
  | Ok _ => Ok (s, [])
  | Fault f => Fault f
  end.

Definition par_step (e : event) (s : parlock) : result (parlock * list (rw * req)) :=
  match e with
  | Acq o (hid, t) =>
      if hid =? LOCALHOST_ID cfg then observe (lock_acquire_async cfg id t (op_of o) s)
      else deliver (acquire_lock_remote (client hid) id t (op_of o)) s
  | Rel o (hid, t) =>
      if hid =? LOCALHOST_ID cfg then observe (lock_release cfg id t (op_of o) s)
      else deliver (release_lock_remote (client hid) id t (op_of o)) s
  end.

#[local] Instance par_impl : RwLockImpl parlock := {
  impl_init := par_init;
  impl_step := par_step;
  impl_withdraw := true;
  impl_valid := fun e => match e with Acq _ r | Rel _ r => 0 <= fst r < 2 ^ 8 /\ 0 <= snd r < 2 ^ 32 end;
  impl_valid_dec := fun e => match e with Acq _ r | Rel _ r => and_dec (and_dec _ _) (and_dec _ _) end;
}.

Record q_rel (q : LockQueue) (w : gmap Z bool) (a : spec) : Prop := {
  qr_mutex : queue_mutex q = false;
  qr_mode : mode_of (q_state q) = sp_mode a;
  qr_queue : request_queue q = map enc (sp_waiters a);
  qr_shared : shared_counter q =
    match sp_mode a with Some Shared => Z.of_nat (size (sp_holders a)) | _ => 0 end;
  qr_flags : forall o t, (o, (LOCALHOST_ID cfg, t)) ∈ sp_waiters a -> is_Some (w !! t);
  qr_held : forall t, (LOCALHOST_ID cfg, t) ∈ sp_holders a -> w !! t = Some true;
  qr_ok : forall x, x ∈ sp_waiters a -> req_ok (snd x);
}.

Definition par_rel (s : parlock) (a : spec) : Prop :=
  exists T W q w, s = st_of id T W q w /\ q_rel q w a.

Context (Hs : par_setting).

Lemma q_rel_entries q w a : q_rel q w a -> entries_ok cfg q w.
Proof using.
  intros Hr. unfold entries_ok. rewrite (qr_queue _ _ _ Hr). apply list.Forall_forall.
  intros e He. apply list_elem_of_fmap in He as ([o [h t]] & -> & Hx).
  destruct (qr_ok _ _ _ Hr _ Hx) as [Hh Ht]. split; [|split].
  - split; [by destruct o|]. by split.
  - unfold flagged. simpl. intros ->. by apply (qr_flags _ _ _ Hr o t).
  - by destruct o; [left|right].
Qed.

Lemma shared_waiters_excl q w a :
  q_rel q w a -> Forall (fun x => is_shared x = false) (sp_waiters a) ->
  Forall (fun e => op e = OP_EXCL) (request_queue q).
Proof using.
  intros Hr HF. rewrite (qr_queue _ _ _ Hr). apply Forall_fmap.
  apply (list.Forall_impl _ _ _ HF). by intros [[] r].
Qed.

Lemma grantee_event w : req_ok (snd w) -> grantee (event_of cfg id (enc w)) = [snd w].
Proof using.
  intros _. unfold event_of, enc. destruct w as [o [h t]]. simpl.
  by destruct (Z.eqb_spec h (LOCALHOST_ID cfg)) as [->|].
Qed.

Lemma concat_grantees ws :
  Forall (fun w => req_ok (snd w)) ws ->
  concat (map grantee (map (event_of cfg id) (map enc ws))) = map snd ws.
Proof using.
  induction 1 as [|w ws Hw _ IH]; [done|]. cbn [map concat].
  rewrite grantee_event by done. by rewrite IH.
Qed.

Lemma granted_by_st T W q w evs m :
  mode_of (q_state q) = Some m ->
  granted_by (st_of id T W q w) evs = map (pair m) (concat (map grantee evs)).
Proof using. intros E. unfold granted_by, st_of. simpl. by rewrite lookup_insert_eq, E. Qed.

Lemma granted_by_none s evs : concat (map grantee evs) = [] -> granted_by s evs = [].
Proof using.
  intros E. unfold granted_by. destruct (queue_per_lock s !! id) as [q|]; [|done].
  destruct (mode_of (q_state q)); [|done]. by rewrite E.
Qed.

Lemma flag_entry_lookup w e t : w !! t = Some true -> flag_entry cfg w e !! t = Some true.
Proof using.
  intros E. unfold flag_entry. destruct (_ =? _); [|done].
  destruct (decide (t = requester e)) as [->|]; [by rewrite lookup_insert_eq|by rewrite lookup_insert_ne].
Qed.

Lemma flag_fold_lookup l w t : w !! t = Some true -> fold_left (flag_entry cfg) l w !! t = Some true.
Proof using. revert w. induction l as [|e l IH]; intros w E; [done|]. simpl. by apply IH, flag_entry_lookup. Qed.

Lemma flag_fold_some l w t : is_Some (w !! t) -> is_Some (fold_left (flag_entry cfg) l w !! t).
Proof using.
  revert w. induction l as [|e l IH]; intros w E; [done|]. simpl. apply IH. unfold flag_entry.
  destruct (_ =? _); [|done].
  destruct (decide (t = requester e)) as [->|]; [by rewrite lookup_insert_eq|by rewrite lookup_insert_ne].
Qed.

Lemma flag_fold_in l w e :
  e ∈ l -> host e = LOCALHOST_ID cfg -> fold_left (flag_entry cfg) l w !! requester e = Some true.
Proof using.
  intros Hin Hh. revert w. induction l as [|e' l IH]; intros w; [by apply not_elem_of_nil in Hin|].
  simpl. apply elem_of_cons in Hin as [<-|Hin]; [|by apply IH].
  apply flag_fold_lookup. unfold flag_entry. rewrite Hh, Z.eqb_refl. by rewrite lookup_insert_eq.
Qed.

(** ** Offering the freed lock to its queue follows the specification *)

Lemma sched_nil q w : request_queue q = [] -> sched cfg id q w = (set_state STATE_FREE q, w, []).
Proof using. intros E. unfold sched. by rewrite E. Qed.

Lemma sched_excl q w e l :
  request_queue q = e :: l -> op e = OP_EXCL ->
  sched cfg id q w = (set_queue l (set_state STATE_EXCLUSIVE q), flag_entry cfg w e, [event_of cfg id e]).
Proof using. intros E Ho. unfold sched. by rewrite E, Ho. Qed.

Lemma sched_shared q w e l :
  request_queue q = e :: l -> op e = OP_SHARED ->
  sched cfg id q w =
    (set_shared (shared_counter q + Z.of_nat (length (filterb entry_shared (request_queue q))))
       (set_queue (filterb (fun e => negb (entry_shared e)) (request_queue q)) (set_state STATE_SHARED q)),
     fold_left (flag_entry cfg) (filterb entry_shared (request_queue q)) w,
     map (event_of cfg id) (filterb entry_shared (request_queue q))).
Proof using. intros E Ho. unfold sched. by rewrite E, Ho. Qed.

Lemma map_pair_snd (m : rw) (gs : list (rw * req)) :
  Forall (fun x => fst x = m) gs -> map (pair m) (map snd gs) = gs.
Proof using. induction 1 as [|[o r] gs Hx _ IH]; [done|]. simpl in *. by rewrite IH, Hx. Qed.

Lemma sched_rel T W q w ws :
  request_queue q = map enc ws -> shared_counter q = 0 ->
  (forall o t, (o, (LOCALHOST_ID cfg, t)) ∈ ws -> is_Some (w !! t)) ->
  (forall x, x ∈ ws -> req_ok (snd x)) -> NoDup (map snd ws) ->
  exists s', observe (sched_result cfg id T W q w) = Ok (s', (spec_schedule ws).2) /\
    par_rel s' (spec_schedule ws).1.
Proof using Hs.
  intros Hq Hc Hfl Hok Hnd. unfold observe, sched_result.
  destruct ws as [|[[] r0] ws0] eqn:Ews.
  - rewrite (sched_nil q w Hq). simpl. eexists. split; [by rewrite granted_by_none|].
    eexists T, W, _, _. split; [done|]. split; simpl; try done; try set_solver.
  - assert (Esp : spec_schedule ((Shared, r0) :: ws0) = (Spec (Some Shared)
      (list_to_set (map snd (filterb is_shared ws))) (filterb (fun w => negb (is_shared w)) ws),
      filterb is_shared ws)) by (by subst ws).
    rewrite Esp. rewrite (sched_shared q w _ _ Hq eq_refl), Hq, <- Ews.
    rewrite (proj1 (filter_enc ws)), (proj2 (filter_enc ws)), Hc, length_map.
    rewrite <- Ews in *. cbn [fst snd]. set (gs := filterb is_shared ws).
    assert (Hgs : forall x, x ∈ gs -> fst x = Shared /\ x ∈ ws).
    { intros [[] r] Hx; apply elem_of_filterb in Hx as [? ?]; done. }
    eexists. split.
    + do 2 f_equal. erewrite granted_by_st by done. rewrite concat_grantees.
      * apply map_pair_snd. apply list.Forall_forall. intros x Hx. by apply Hgs.
      * apply list.Forall_forall. intros x Hx. by apply Hok, Hgs.
    + eexists T, W, _, _. split; [done|]. split; simpl.
      * done.
      * done.
      * done.
      * rewrite size_list_to_set by (by apply NoDup_snd_filter). by rewrite length_map.
      * intros o t Hx. apply elem_of_filterb in Hx as [_ Hx].
        apply flag_fold_some. by apply (Hfl o).
      * intros t Ht. rewrite elem_of_list_to_set in Ht. apply elem_of_waiter_snd in Ht as [o Ho].
        apply (flag_fold_in _ w (enc (o, (LOCALHOST_ID cfg, t)))); [|done].
        apply list_elem_of_fmap. by eexists.
      * intros x Hx. apply elem_of_filterb in Hx as [_ Hx]. by apply Hok.
  - rewrite (sched_excl q w _ _ Hq eq_refl). cbn [fst snd spec_schedule].
    assert (Hr0 : req_ok r0) by (by apply (Hok (Excl, r0)); left).
    eexists. split.
    + do 2 f_equal. erewrite granted_by_st by done. cbn [map concat]. by rewrite grantee_event.
    + eexists T, W, _, _. split; [done|]. split; simpl; try done.
      * intros o t Hx. unfold flag_entry. destruct (_ =? _); [|apply (Hfl o); by right].
        destruct (decide (t = snd r0)) as [->|]; [by rewrite lookup_insert_eq|].
        rewrite lookup_insert_ne by done. apply (Hfl o). by right.
      * intros t Ht. apply elem_of_singleton in Ht. unfold flag_entry. simpl. rewrite <- Ht. simpl.
        rewrite Z.eqb_refl. by rewrite lookup_insert_eq.
      * intros x Hx. apply Hok. by right.
Qed.

(** ** Requests *)

Lemma rel_enqueue q w a o r :
  q_rel q w a -> req_ok r -> (fst r = LOCALHOST_ID cfg -> is_Some (w !! snd r)) ->
  q_rel (set_mutex false (set_queue (request_queue q ++ [enc (o, r)]) (set_mutex true q))) w
    (Spec (sp_mode a) (sp_holders a) (sp_waiters a ++ [(o, r)])).
Proof using.
  intros [] Hok Hf. split; simpl; try done.
  - rewrite qr_queue0. by rewrite map_app.
  - intros o' t Hx. apply elem_of_app in Hx as [Hx|Hx]; [by apply (qr_flags0 o')|].
    apply list_elem_of_singleton in Hx as [= <- <-]. by apply Hf.
  - intros x Hx. apply elem_of_app in Hx as [Hx|Hx]; [by apply qr_ok0|].
    by apply list_elem_of_singleton in Hx as ->.
Qed.

Lemma rel_grant_excl q w w' a r :
  q_rel q w a -> spec_wf a -> sp_mode a = None ->
  (fst r = LOCALHOST_ID cfg -> w' !! snd r = Some true) ->
  q_rel (set_mutex false (set_state STATE_EXCLUSIVE (set_mutex true q))) w'
    (Spec (Some Excl) {[ r ]} (sp_waiters a)).
Proof using.
  intros [] Hwf Hm Hf. destruct (wf_free _ Hwf Hm) as [_ Hw]. rewrite Hm, Hw in *.
  split; simpl; try done.
  - intros o t Hx. by apply not_elem_of_nil in Hx.
  - intros t Ht. apply elem_of_singleton in Ht. rewrite <- Ht in Hf. by apply Hf.
Qed.

Lemma rel_grant_shared q w w' a r :
  q_rel q w a -> spec_wf a -> sp_mode a <> Some Excl -> (r ∉ sp_holders a) ->
  (forall t b, w !! t = Some b -> w' !! t = Some b \/ w' !! t = Some true) ->
  (fst r = LOCALHOST_ID cfg -> w' !! snd r = Some true) ->
  q_rel (set_mutex false (set_shared (shared_counter q + 1) (set_state STATE_SHARED (set_mutex true q)))) w'
    (Spec (Some Shared) ({[ r ]} ∪ sp_holders a) (sp_waiters a)).
Proof using Hs.
  intros [] Hwf Hm Hn Hw Hf. split; simpl; try done.
  - rewrite size_union, size_singleton by set_solver. rewrite qr_shared0.
    destruct (sp_mode a) as [[]|] eqn:Em; [lia|done|].
    destruct (wf_free _ Hwf Em) as [-> _]. rewrite size_empty. lia.
  - intros o t Hx. destruct (qr_flags0 o t Hx) as [b Hb]. destruct (Hw t b Hb) as [-> | ->]; eauto.
  - intros t Ht. apply elem_of_union in Ht as [Ht|Ht].
    + apply elem_of_singleton in Ht. rewrite <- Ht in Hf. by apply Hf.
    + destruct (Hw t true (qr_held0 t Ht)) as [E|E]; done.
Qed.

Lemma spec_acquire_cases o r a :
  (sp_mode a = None /\ o = Excl /\ spec_acquire o r a = (Spec (Some Excl) {[ r ]} (sp_waiters a), [(o, r)])) \/
  (sp_mode a <> Some Excl /\ o = Shared /\ (spec_wf a ->
     spec_acquire o r a = (Spec (Some Shared) ({[ r ]} ∪ sp_holders a) (sp_waiters a), [(o, r)]))) \/
  (sp_mode a <> None /\ (o = Shared -> sp_mode a = Some Excl) /\
     spec_acquire o r a = (Spec (sp_mode a) (sp_holders a) (sp_waiters a ++ [(o, r)]), [])).
Proof using.
  unfold spec_acquire. destruct (sp_mode a) as [[]|] eqn:Em, o.
  - right; left. done.
  - right; right. done.
  - right; right. done.
  - right; right. done.
  - right; left. split; [done|]. split; [done|]. intros Hwf. destruct (wf_free _ Hwf Em) as [-> _].
    by rewrite union_empty_r_L.
  - left. done.
Qed.

Lemma reply_eq pt o h t s :
  in_uw 8 h -> in_uw 32 t ->
  reply (Hdr pt (op_of o) id h t) s =
    Ok (tt, s, [Sent (PSent h (Hdr POST_LOCK_REPLY (op_of o) id h t))]).
Proof using Hs.
  intros Hh Ht. unfold reply, net_send, emit. simpl.
  rewrite !uw_small; try done; [apply Hs|by destruct o].
Qed.

Lemma server_acquire T W q w a pt o h t :
  q_rel q w a -> spec_wf a -> req_ok (h, t) -> h <> LOCALHOST_ID cfg -> ((h, t) ∉ sp_holders a) ->
  exists s', observe (process_lock_req cfg (Hdr pt (op_of o) id h t) (st_of id T W q w)) =
      Ok (s', (spec_acquire o (h, t) a).2) /\
    par_rel s' (spec_acquire o (h, t) a).1.
Proof using Hs.
  intros Hr Hwf [Hh Ht] Hne Hn. simpl in Hh, Ht.
  pose proof (qr_mutex _ _ _ Hr) as Hmx. pose proof (qr_mode _ _ _ Hr) as Hmode.
  assert (Eenq : forall o', Lqe (u8 (op_of o')) (u32 t) (u8 h) = enc (o', (h, t))).
  { intros o'. rewrite !uw_small; try done. by destruct o'. }
  destruct (spec_acquire_cases o (h, t) a) as [(Hm & -> & ->)|[(Hm & -> & E)|(Hm & Ho & ->)]];
    [|rewrite (E Hwf)|].
  - unfold process_lock_req. simpl (h_op _ =? _). cbv iota.
    unfold server_handle_exclusive_lock. punfold. cbn [lock_id]. pstep. rewrite (ps_rf Hs). pstep.
    assert (q_state q = STATE_FREE) as Eq by (rewrite Hm in Hmode; by destruct (q_state q)).
    change (q_state (set_mutex true q)) with (q_state q). rewrite Eq. unfold state_is.
    rewrite bool_decide_true by done. pstep. rewrite (ps_eh Hs). pstep. pstep.
    rewrite reply_eq by done. eexists. split.
    + simpl. erewrite granted_by_st by done. done.
    + eexists T, W, _, _. split; [done|]. by eapply rel_grant_excl.
  - unfold process_lock_req. simpl (h_op _ =? _). cbv iota. unfold when.
    unfold server_handle_shared_lock. punfold. cbn [lock_id]. pstep. rewrite (ps_rf Hs). pstep.
    assert (state_is (q_state q) STATE_EXCLUSIVE = false) as Eq.
    { apply bool_decide_eq_false. intros Eq. rewrite Eq in Hmode. by rewrite <- Hmode in Hm. }
    change (q_state (set_mutex true q)) with (q_state q). rewrite Eq. cbn [negb].
    pstep. rewrite (ps_eh Hs). pstep. pstep. pstep.
    rewrite reply_eq by done. eexists. split.
    + simpl. erewrite granted_by_st by done. done.
    + eexists T, W, _, _. split; [done|]. eapply rel_grant_shared; eauto. done.
  - assert (Hstate : if decide (o = Excl) then q_state q <> STATE_FREE else q_state q = STATE_EXCLUSIVE).
    { destruct o; simpl.
      - specialize (Ho eq_refl). rewrite Ho in Hmode. by destruct (q_state q).
      - intros Eq. rewrite Eq in Hmode. done. }
    destruct o; simpl in Hstate.
    + unfold process_lock_req. simpl (h_op _ =? _). cbv iota. unfold when.
      unfold server_handle_shared_lock. punfold. cbn [lock_id]. pstep. rewrite (ps_rf Hs). pstep.
      change (q_state (set_mutex true q)) with (q_state q). rewrite Hstate. unfold state_is.
      rewrite bool_decide_true by done. cbn [negb h_op machine_id lh_id]. pstep.
      rewrite unblock_eq by done. rewrite Eenq. eexists. split.
      * simpl. by rewrite granted_by_none.
      * eexists T, W, _, _. split; [done|]. by eapply rel_enqueue.
    + unfold process_lock_req. simpl (h_op _ =? _). cbv iota.
      unfold server_handle_exclusive_lock. punfold. cbn [lock_id]. pstep. rewrite (ps_rf Hs). pstep.
      change (q_state (set_mutex true q)) with (q_state q). unfold state_is.
      rewrite bool_decide_false by done. cbn [h_op machine_id lh_id]. pstep.
      rewrite unblock_eq by done. rewrite Eenq. eexists. split.
      * simpl. by rewrite granted_by_none.
      * eexists T, W, _, _. split; [done|]. by eapply rel_enqueue.
Qed.

(** ** Releases *)

Lemma erase_enc ws o r :
  erase_first (entry_is (op_of o) (snd r) (fst r)) (map enc ws) =
    match erase_first (fun w => bool_decide (w = (o, r))) ws with
    | Some (i, l') => Some (i, map enc l')
    | None => None
    end.
Proof using. apply erase_first_map. intros x _. apply entry_is_enc. Qed.

Lemma rel_withdraw q w a l1 x l2 :
  q_rel q w a -> sp_waiters a = l1 ++ x :: l2 ->
  q_rel (set_mutex false (set_queue (map enc (l1 ++ l2)) (set_mutex true q))) w
    (Spec (sp_mode a) (sp_holders a) (l1 ++ l2)).
Proof using Hs.
  intros [] E. rewrite E in *. split; simpl; try done.
  - intros o t Hx. apply (qr_flags0 o). set_solver.
  - intros y Hy. apply qr_ok0. set_solver.
Qed.

Lemma rel_leave q w a r :
  q_rel q w a -> sp_mode a = Some Shared -> r ∈ sp_holders a ->
  q_rel (set_mutex false (set_shared (shared_counter q - 1) (set_mutex true q))) w
    (Spec (Some Shared) (sp_holders a ∖ {[ r ]}) (sp_waiters a)).
Proof using Hs.
  intros [] Hm Hr. rewrite Hm in *. split; simpl; try done.
  - rewrite qr_shared0, size_difference by set_solver. rewrite size_singleton.
    assert (size ({[r]} : gset req) <= size (sp_holders a))%nat by (apply subseteq_size; set_solver).
    rewrite size_singleton in *. lia.
  - intros t Ht. apply qr_held0. set_solver.
Qed.

(** What the erase of a releasing request finds. *)
Lemma erase_case q w a o r T W :
  q_rel q w a -> spec_wf a -> permitted true (Rel o r) (view_of a) ->
  let q1 := set_mutex true q in
  (exists l1 l2, sp_waiters a = l1 ++ (o, r) :: l2 /\ r ∉ sp_holders a /\
     (o = Shared -> q_state q <> STATE_SHARED) /\
     erase_lock_request cfg id (snd r) (fst r) (op_of o) (st_of id T W q1 w) =
       Ok (1, st_of id T W (set_queue (map enc (l1 ++ l2)) q1) w, []) /\
     spec_release o r a = (Spec (sp_mode a) (sp_holders a) (l1 ++ l2), [])) \/
  (sp_mode a = Some o /\ r ∈ sp_holders a /\
     erase_lock_request cfg id (snd r) (fst r) (op_of o) (st_of id T W q1 w) =
       Ok (0, st_of id T W q1 w, []) /\
     (sp_holders a = {[ r ]} /\ spec_release o r a = spec_schedule (sp_waiters a) \/
      o = Shared /\ (1 < shared_counter q) /\
      spec_release o r a = (Spec (Some Shared) (sp_holders a ∖ {[ r ]}) (sp_waiters a), []))).
Proof using Hs.
  intros Hr Hwf HP q1. rewrite erase_eq by apply Hs.
  change (request_queue q1) with (request_queue q). rewrite (qr_queue _ _ _ Hr), erase_enc.
  assert (Hin : r ∈ sp_holders a -> erase_first (fun w => bool_decide (w = (o, r))) (sp_waiters a) = None)
    by (intros; by apply erase_waiter_None, wf_disjoint).
  destruct (spec_release_cases _ _ _ _ Hwf HP)
    as [(l1 & l2 & Hw & _ & Hn & E)|[(Hm & Hh & E1 & E)|(Hm & Ho & Hh & Hne & E)]].
  - left. exists l1, l2. rewrite Hw. rewrite erase_waiter_Some by (rewrite <- Hw; by apply Hwf).
    split_and!; try done. intros -> Hst.
    pose proof (qr_mode _ _ _ Hr) as Hmode. rewrite Hst in Hmode.
    pose proof (wf_shared _ Hwf (eq_sym Hmode)) as HF. rewrite Hw in HF.
    apply Forall_app in HF as [_ HF]. inversion HF. done.
  - right. rewrite (Hin Hh). split_and!; try done. left. done.
  - right. rewrite (Hin Hh). split_and!; try done. right. subst o. split; [done|]. rewrite <- Hm. split; [|done].
    rewrite (qr_shared _ _ _ Hr), Hm.
    assert (1 <= size (sp_holders a ∖ {[ r ]}))%nat.
    { destruct (decide (size (sp_holders a ∖ {[ r ]}) = 0%nat)) as [E0|]; [|lia].
      apply size_empty_inv in E0. by apply leibniz_equiv in E0. }
    rewrite size_difference, size_singleton in H by set_solver. lia.
Qed.

Lemma release_tail_rel T W q w a q2 :
  q_rel q w a -> spec_wf a ->
  request_queue q2 = request_queue q -> shared_counter q2 = 0 ->
  exists s', observe (sched_result cfg id T W q2 w) = Ok (s', (spec_schedule (sp_waiters a)).2) /\
    par_rel s' (spec_schedule (sp_waiters a)).1.
Proof using Hs.
  intros Hr Hwf E Hc. apply sched_rel; [by rewrite E; apply Hr|done|apply Hr|apply Hr|apply Hwf].
Qed.

Lemma observe_pre {A} (r : result (A * parlock * list pevent)) :
  observe match r with Ok (b, s'', out') => Ok (b, s'', [] ++ out') | Fault f => Fault f end = observe r.
Proof using. by destruct r as [[[? ?] ?]|]. Qed.

Lemma entries_ok_q2 q w a q2 :
  q_rel q w a -> request_queue q2 = request_queue q -> entries_ok cfg q2 w.
Proof using. intros Hr E. unfold entries_ok. rewrite E. by eapply q_rel_entries. Qed.

Lemma server_release T W q w a pt o h t :
  q_rel q w a -> spec_wf a -> req_ok (h, t) -> permitted true (Rel o (h, t)) (view_of a) ->
  exists s', observe (process_unlock_req cfg (Hdr pt (op_of o) id h t) (st_of id T W q w)) =
      Ok (s', (spec_release o (h, t) a).2) /\
    par_rel s' (spec_release o (h, t) a).1.
Proof using Hs.
  intros Hr Hwf _ HP. pose proof (qr_mutex _ _ _ Hr) as Hmx. pose proof (qr_mode _ _ _ Hr) as Hmode.
  pose proof (erase_case q w a o (h, t) T W Hr Hwf HP) as Hcase. simpl in Hcase.
  unfold process_unlock_req. simpl (h_op _). destruct o; simpl (_ =? _); cbv iota; unfold when.
  - unfold server_handle_shared_unlock. punfold. cbn [lock_id lh_id machine_id h_op]. pstep.
    rewrite (ps_rf Hs), observe_pre.
    destruct Hcase as [(l1 & l2 & Hw & Hn & Hst & E & ->)|(Hm & Hh & E & Hrest)];
      rewrite (bind_ok _ _ _ _ _ _ E), observe_pre; pstep; rewrite observe_pre.
    + rewrite andb_false_r. cbv iota. unfold state_is.
      rewrite bool_decide_false by (by apply Hst). rewrite unblock_eq by done.
      eexists. split; [simpl; by rewrite granted_by_none|].
      eexists T, W, _, _. split; [done|]. by eapply rel_withdraw.
    + change (q_state (set_mutex true q)) with (q_state q).
      assert (q_state q = STATE_SHARED) as -> by (rewrite Hm in Hmode; by destruct (q_state q)).
      cbn [andb]. change (state_is STATE_SHARED STATE_SHARED && (0 =? 0)) with true. cbv iota.
      pstep. rewrite observe_pre. pstep. rewrite observe_pre.
      set (q2 := set_shared _ (set_mutex true q)).
      destruct Hrest as [[E1 ->]|(_ & Hgt & ->)].
      * assert (Hc2 : shared_counter q2 = 0).
        { simpl. rewrite (qr_shared _ _ _ Hr), Hm, E1, size_singleton. done. }
        rewrite Hc2. change (0 <? 0) with false. cbv iota.
        pose proof (server_tail_eq cfg id (ps_id Hs) (ps_eh Hs) T W q2 w false eq_refl
          (entries_ok_q2 q w a q2 Hr eq_refl)
          (fun _ => shared_waiters_excl q w a Hr (wf_shared _ Hwf Hm))) as Et.
        cbv iota in Et. unfold set_lock_state, get_head_request in Et. rewrite Et.
        by apply (release_tail_rel T W q w a).
      * destruct (Z.ltb_spec 0 (shared_counter q2)) as [_|Hle]; [|simpl in Hle; lia].
        rewrite unblock_eq by done. eexists. split; [simpl; by rewrite granted_by_none|].
        eexists T, W, _, _. split; [done|]. exact (rel_leave q w a _ Hr Hm Hh).
  - unfold server_handle_exclusive_unlock. punfold. cbn [lock_id lh_id machine_id h_op]. pstep.
    rewrite (ps_rf Hs), observe_pre.
    destruct Hcase as [(l1 & l2 & Hw & Hn & Hst & E & ->)|(Hm & Hh & E & Hrest)];
      rewrite (bind_ok _ _ _ _ _ _ E), observe_pre; pstep; rewrite observe_pre.
    + rewrite andb_false_r. cbv iota. rewrite unblock_eq by done.
      eexists. split; [simpl; by rewrite granted_by_none|].
      eexists T, W, _, _. split; [done|]. by eapply rel_withdraw.
    + change (q_state (set_mutex true q)) with (q_state q).
      assert (q_state q = STATE_EXCLUSIVE) as -> by (rewrite Hm in Hmode; by destruct (q_state q)).
      change (state_is STATE_EXCLUSIVE STATE_EXCLUSIVE && (0 =? 0)) with true. cbv iota.
      destruct Hrest as [[E1 ->]|(? & _)]; [|done].
      pose proof (server_tail_eq cfg id (ps_id Hs) (ps_eh Hs) T W (set_mutex true q) w true eq_refl
        (entries_ok_q2 q w a (set_mutex true q) Hr eq_refl) ltac:(done)) as Et.
      cbv iota in Et. unfold set_lock_state, get_head_request in Et. rewrite Et.
      apply (release_tail_rel T W q w a); try done. simpl. by rewrite (qr_shared _ _ _ Hr), Hm.
Qed.

Lemma local_release T W q w a o t :
  q_rel q w a -> spec_wf a -> permitted true (Rel o (LOCALHOST_ID cfg, t)) (view_of a) ->
  exists s', observe (release_lock_local cfg id t (op_of o) (st_of id T W q w)) =
      Ok (s', (spec_release o (LOCALHOST_ID cfg, t) a).2) /\
    par_rel s' (spec_release o (LOCALHOST_ID cfg, t) a).1.
Proof using Hs.
  intros Hr Hwf HP. pose proof (qr_mutex _ _ _ Hr) as Hmx. pose proof (qr_mode _ _ _ Hr) as Hmode.
  pose proof (erase_case q w a o (LOCALHOST_ID cfg, t) T W Hr Hwf HP) as Hcase. simpl in Hcase.
  unfold release_lock_local. pstep. rewrite (ps_rf Hs), observe_pre.
  unfold release_local_reader_first. punfold.
  destruct Hcase as [(l1 & l2 & Hw & Hn & Hst & E & ->)|(Hm & Hh & E & Hrest)];
    rewrite (bind_ok _ _ _ _ _ _ E), observe_pre;
    (destruct o; simpl (_ =? OP_EXCL); simpl (_ =? OP_SHARED); cbv iota; pstep; rewrite observe_pre).
  - rewrite andb_false_r. cbv iota. unfold state_is.
    rewrite bool_decide_false by (by apply Hst). rewrite unblock_eq by done.
    eexists. split; [simpl; by rewrite granted_by_none|].
    eexists T, W, _, _. split; [done|]. by eapply rel_withdraw.
  - rewrite andb_false_r. cbv iota. rewrite unblock_eq by done.
    eexists. split; [simpl; by rewrite granted_by_none|].
    eexists T, W, _, _. split; [done|]. by eapply rel_withdraw.
  - change (q_state (set_mutex true q)) with (q_state q).
    assert (q_state q = STATE_SHARED) as -> by (rewrite Hm in Hmode; by destruct (q_state q)).
    change (state_is STATE_SHARED STATE_SHARED && (0 =? 0)) with true. cbv iota.
    pstep. rewrite observe_pre. pstep. rewrite observe_pre.
    set (q2 := set_shared _ (set_mutex true q)).
    destruct Hrest as [[E1 ->]|(_ & Hgt & ->)].
    + assert (Hc2 : shared_counter q2 = 0).
      { simpl. rewrite (qr_shared _ _ _ Hr), Hm, E1, size_singleton. done. }
      rewrite Hc2. change (0 <? 0) with false. cbv iota.
      pose proof (local_tail_eq cfg id (ps_id Hs) (ps_eh Hs) T W q2 w false eq_refl
        (entries_ok_q2 q w a q2 Hr eq_refl)
        (fun _ => shared_waiters_excl q w a Hr (wf_shared _ Hwf Hm))) as Et.
      cbv iota in Et. unfold set_lock_state, get_head_request in Et. rewrite Et.
      by apply (release_tail_rel T W q w a).
    + destruct (Z.ltb_spec 0 (shared_counter q2)) as [_|Hle]; [|simpl in Hle; lia].
      rewrite unblock_eq by done. eexists. split; [simpl; by rewrite granted_by_none|].
      eexists T, W, _, _. split; [done|]. exact (rel_leave q w a _ Hr Hm Hh).
  - change (q_state (set_mutex true q)) with (q_state q).
    assert (q_state q = STATE_EXCLUSIVE) as -> by (rewrite Hm in Hmode; by destruct (q_state q)).
    change (state_is STATE_EXCLUSIVE STATE_EXCLUSIVE && (0 =? 0)) with true. cbv iota.
    destruct Hrest as [[E1 ->]|(? & _)]; [|done].
    pose proof (local_tail_eq cfg id (ps_id Hs) (ps_eh Hs) T W (set_mutex true q) w true eq_refl
      (entries_ok_q2 q w a (set_mutex true q) Hr eq_refl) ltac:(done)) as Et.
    cbv iota in Et. unfold set_lock_state, get_head_request in Et. rewrite Et.
    apply (release_tail_rel T W q w a); try done. simpl. by rewrite (qr_shared _ _ _ Hr), Hm.
Qed.

(** ** Local requests *)

Lemma q_rel_add_wait q w a t :
  q_rel q w a -> q_rel q (match w !! t with Some _ => w | None => <[t := false]> w end) a.
Proof using.
  intros Hr. destruct (w !! t) eqn:E; [done|]. destruct Hr. split; try done.
  - intros o t' Hx. destruct (qr_flags0 o t' Hx) as [b Hb].
    destruct (decide (t' = t)) as [->|]; [congruence|]. rewrite lookup_insert_ne by done. eauto.
  - intros t' Ht. pose proof (qr_held0 t' Ht) as Hb.
    destruct (decide (t' = t)) as [->|]; [congruence|]. by rewrite lookup_insert_ne.
Qed.

Lemma local_acquire T W q w a o t :
  q_rel q w a -> spec_wf a -> in_uw 32 t -> ((LOCALHOST_ID cfg, t) ∉ sp_holders a) -> is_Some (w !! t) ->
  exists s', observe (acquire_lock_local cfg id t (op_of o) (st_of id T W q w)) =
      Ok (s', (spec_acquire o (LOCALHOST_ID cfg, t) a).2) /\
    par_rel s' (spec_acquire o (LOCALHOST_ID cfg, t) a).1.
Proof using Hs.
  intros Hr Hwf Ht Hn [b Hb].
  pose proof (qr_mutex _ _ _ Hr) as Hmx. pose proof (qr_mode _ _ _ Hr) as Hmode.
  assert (Hok : req_ok (LOCALHOST_ID cfg, t)) by (split; [apply Hs|done]).
  assert (Eenq : forall o', Lqe (u8 (op_of o')) (u32 t) (u8 (LOCALHOST_ID cfg)) = enc (o', (LOCALHOST_ID cfg, t))).
  { intros o'. rewrite !uw_small; try done; [apply Hs|by destruct o']. }
  assert (Hw' : forall t' b', w !! t' = Some b' ->
    <[t := true]> w !! t' = Some b' \/ <[t := true]> w !! t' = Some true).
  { intros t' b' Hb'. destruct (decide (t' = t)) as [->|]; [right; by rewrite lookup_insert_eq|].
    left. by rewrite lookup_insert_ne. }
  unfold acquire_lock_local. punfold. pstep. rewrite (ps_rf Hs), observe_pre.
  destruct (spec_acquire_cases o (LOCALHOST_ID cfg, t) a) as [(Hm & -> & ->)|[(Hm & -> & E)|(Hm & Ho & ->)]];
    [|rewrite (E Hwf)|].
  - simpl (_ =? _). cbv iota. pstep. rewrite observe_pre.
    change (q_state (set_mutex true q)) with (q_state q).
    assert (q_state q = STATE_FREE) as -> by (rewrite Hm in Hmode; by destruct (q_state q)).
    change (state_is STATE_FREE STATE_FREE) with true. cbv iota.
    pstep. rewrite (ps_eh Hs), observe_pre. pstep. rewrite observe_pre. pstep. rewrite observe_pre.
    rewrite (signal_eq id T W _ w t b Hb). eexists. split.
    + simpl. erewrite granted_by_st by done. done.
    + eexists T, W, _, _. split; [done|]. eapply rel_grant_excl; eauto. simpl. by rewrite lookup_insert_eq.
  - simpl (_ =? OP_EXCL). simpl (_ =? OP_SHARED). cbv iota. pstep. rewrite observe_pre.
    change (q_state (set_mutex true q)) with (q_state q).
    assert (state_is (q_state q) STATE_EXCLUSIVE = false) as Eq.
    { apply bool_decide_eq_false. intros Eq. rewrite Eq in Hmode. by rewrite <- Hmode in Hm. }
    rewrite Eq. cbn [negb].
    pstep. rewrite (ps_eh Hs), observe_pre. pstep. rewrite observe_pre. pstep. rewrite observe_pre.
    pstep. rewrite observe_pre. rewrite (signal_eq id T W _ w t b Hb). eexists. split.
    + simpl. erewrite granted_by_st by done. done.
    + eexists T, W, _, _. split; [done|]. apply (rel_grant_shared q w); try done. simpl. by rewrite lookup_insert_eq.
  - assert (Hen : q_rel (set_mutex false (set_queue (request_queue q ++ [enc (o, (LOCALHOST_ID cfg, t))])
        (set_mutex true q))) w (Spec (sp_mode a) (sp_holders a) (sp_waiters a ++ [(o, (LOCALHOST_ID cfg, t))])))
      by (apply rel_enqueue; eauto).
    destruct o; simpl (_ =? OP_EXCL); simpl (_ =? OP_SHARED); cbv iota; pstep; rewrite observe_pre;
      change (q_state (set_mutex true q)) with (q_state q); unfold state_is.
    + assert (q_state q = STATE_EXCLUSIVE) as ->
        by (specialize (Ho eq_refl); rewrite Ho in Hmode; by destruct (q_state q)).
      rewrite bool_decide_true by done. cbn [negb]. pstep. rewrite observe_pre.
      rewrite unblock_eq by done. rewrite Eenq. eexists. split; [simpl; by rewrite granted_by_none|].
      by eexists T, W, _, _.
    + rewrite bool_decide_false by (intros Eq; rewrite Eq in Hmode; by rewrite <- Hmode in Hm).
      pstep. rewrite observe_pre. rewrite unblock_eq by done. rewrite Eenq.
      eexists. split; [simpl; by rewrite granted_by_none|]. by eexists T, W, _, _.
Qed.

Lemma observe_ret {A B} (m : P A) (x : B) s :
  observe (bind m (fun _ => ret x) s) = observe (m s).
Proof using.
  unfold bind. destruct (m s) as [[[a s'] evs]|]; [|done]. simpl. by rewrite app_nil_r.
Qed.

(** ** Remote requests *)

Lemma client_server hid : get_lock_server (client hid) id = get_lock_server cfg id.
Proof using. done. Qed.

Lemma deliver_eq pt hid t o s (m : P unit) :
  in_uw 8 pt -> in_uw 8 hid -> in_uw 32 t -> m = send_to_server (client hid) pt id t (op_of o) ->
  deliver m s = observe (packet_dispatch cfg (Hdr pt (op_of o) id hid t) s).
Proof using Hs.
  intros Hpt Hh Ht ->. unfold deliver, send_to_server. rewrite client_server, (ps_server Hs).
  unfold net_send, emit. cbn [p_dest p_hdr].
  rewrite (uw_small 8 (LOCALHOST_ID cfg)) by apply Hs. rewrite Z.eqb_refl. simpl.
  rewrite !uw_small; try done; [apply Hs|by destruct o].
Qed.

Lemma par_rel_init : par_rel par_init spec_init.
Proof using Hs.
  assert (E : lock_local_init id (Par ∅ ∅) =
    Ok (0, st_of id ∅ ∅ (LQ [] false 0 0 STATE_FREE) ∅, [])).
  { unfold lock_local_init. rewrite (uw_small 32 id) by apply Hs.
    unfold init_lock, init_lock_wait_table, bind, get. cbn [queue_per_lock lock_wait_table].
    rewrite lookup_empty. unfold put. cbn [queue_per_lock lock_wait_table]. by rewrite lookup_empty. }
  unfold par_init. rewrite E. eexists ∅, ∅, _, _. split; [done|].
  split; simpl; try done; intros; set_solver.
Qed.

Definition par_laws : RwLockLaws parlock.
Proof using Hs.
  refine {| impl_rel := par_rel; impl_rel_init := par_rel_init |}.
  intros e s a HR Hwf Hv HP. simpl in Hv, HP. destruct HR as (T & W & q & w & -> & Hr).
  change (impl_step e (st_of id T W q w)) with (par_step e (st_of id T W q w)).
  change (impl_withdraw) with true in HP.
  destruct e as [o [hid t]|o [hid t]]; destruct Hv as [Hh Ht]; simpl in Hh, Ht; unfold par_step;
    destruct (Z.eqb_spec hid (LOCALHOST_ID cfg)) as [->|Hne].
  - destruct (permitted_acq_fresh true o _ a Hwf HP) as [Hn _].
    unfold lock_acquire_async. rewrite (bind_ok _ _ _ _ _ _ (add_to_wait_queue_eq id T W q w t)), observe_pre.
    rewrite (ps_server Hs), Z.eqb_refl, observe_ret. cbn [spec_step].
    destruct (local_acquire T W q (match w !! t with Some _ => w | None => <[t := false]> w end) a o t)
      as (s' & E & HR'); eauto using q_rel_add_wait.
    destruct (w !! t) eqn:Ew; [by rewrite Ew|by rewrite lookup_insert_eq].
  - destruct (permitted_acq_fresh true o _ a Hwf HP) as [Hn _].
    rewrite (deliver_eq POST_LOCK_REQ hid t o) by done. unfold packet_dispatch. simpl (_ =? _). cbv iota.
    destruct (server_acquire T W q w a POST_LOCK_REQ o hid t) as (s' & E & HR'); eauto. by split.
  - unfold lock_release. rewrite (ps_server Hs), Z.eqb_refl, observe_ret. cbn [spec_step].
    destruct (local_release T W q w a o t) as (s' & E & HR'); eauto.
  - rewrite (deliver_eq POST_UNLOCK_REQ hid t o) by done. unfold packet_dispatch.
    simpl (post_type _ =? POST_LOCK_REQ). simpl (post_type _ =? POST_UNLOCK_REQ). cbv iota.
    destruct (server_release T W q w a POST_UNLOCK_REQ o hid t) as (s' & E & HR'); eauto. by split.
Defined.
End par.

(** ** What the clients get *)

(** C12: a ParLock server grants exactly what the reader/writer lock of [RwSpec]
    grants, to local and remote clients, with queued requests withdrawn or not;
    no well-behaved run faults, exits or leaves the queue's mutex held. *)
Theorem par_refines cfg id es :
  par_setting cfg id ->
  let impl := par_impl cfg id in
  well_behaved es (impl_init (S := parlock)) view_init ->
  exists s, run es (impl_init (S := parlock)) view_init = Ok (s, view_of (spec_run es spec_init)) /\
    exists q, queue_per_lock s !! id = Some q /\ queue_mutex q = false.
Proof.
  intros Hs impl HB. pose (laws := par_laws cfg id Hs).
  destruct (run_refines es HB) as (s & E & (T & W & q & w & -> & Hr)). eexists. split; [exact E|].
  exists q. split; [simpl; by rewrite lookup_insert_eq|apply Hr].
Qed.

(** ParLock is safe and strands nobody, in every run of well-behaved
    clients that may also withdraw queued requests. *)
Theorem par_safe cfg id es :
  par_setting cfg id ->
  let impl := par_impl cfg id in
  well_behaved es (impl_init (S := parlock)) view_init ->
  exists s v, run es (impl_init (S := parlock)) view_init = Ok (s, v) /\ exclusive v /\ no_stranded v.
Proof. intros Hs impl HB. pose proof (par_laws cfg id Hs) as laws. exact (run_safe es HB). Qed.

Definition parcfg0 : parcfg := ParCfg 2 true false false false 800.

Definition par_events0 : list event :=
  [Acq Shared (2, 5); Acq Excl (1, 6); Acq Shared (3, 7); Acq Excl (2, 8); Rel Excl (1, 6);
   Rel Shared (2, 5); Rel Shared (3, 7); Acq Shared (4, 9); Rel Excl (2, 8)].

Lemma par_setting0 : par_setting parcfg0 150.
Proof. by split. Qed.

Lemma par_behaved0 :
  let impl := par_impl parcfg0 150 in
  well_behaved par_events0 (impl_init (S := parlock)) view_init.
Proof. intros impl. apply (bool_decide_unpack _). vm_compute. exact I. Qed.

Lemma par_refines_witness :
  let impl := par_impl parcfg0 150 in
  exists s, run par_events0 (impl_init (S := parlock)) view_init =
      Ok (s, view_of (spec_run par_events0 spec_init)) /\
    exists q, queue_per_lock s !! 150 = Some q /\ queue_mutex q = false.
Proof. intros impl. exact (par_refines parcfg0 150 par_events0 par_setting0 par_behaved0). Defined.

Lemma par_safe_witness :
  let impl := par_impl parcfg0 150 in
  exists s v, run par_events0 (impl_init (S := parlock)) view_init = Ok (s, v) /\ exclusive v /\ no_stranded v.
Proof. intros impl. exact (par_safe parcfg0 150 par_events0 par_setting0 par_behaved0). Defined.
