(* ===== verification/ParProps.v ===== *)
(** * ParProps: ParLock in every build configuration

    The mutex discipline of all request paths, the agreement between the
    routing of requests and the initialisation of locks, and behaviours of the
    arrival-order policy and of the wait table that a client has to know. *)

From S2P Require Import Prelude Types ParQueue ParServer.

#[local] Open Scope prog_scope.

(** ** Mutex discipline *)

(** [safe m Q s]: [m] does not misuse a mutex, and if it returns, [Q] holds. *)
Definition safe {A} (m : P A) (Q : parlock -> Prop) (s : parlock) : Prop :=
  match m s with
  | Ok (_, s', _) => Q s'
  | Fault f => f <> FaultDeadlock /\ f <> FaultUnlock
  end.

(** As [safe], with a postcondition on the result too. *)
Definition safe_with {A} (m : P A) (Q : A -> parlock -> Prop) (s : parlock) : Prop :=
  match m s with
  | Ok (a, s', _) => Q a s'
  | Fault f => f <> FaultDeadlock /\ f <> FaultUnlock
  end.

Definition all_free (s : parlock) : Prop := map_Forall (fun _ q => queue_mutex q = false) (queue_per_lock s).

(** Only the mutex of [id] is held. *)
Definition held (id : Z) (s : parlock) : Prop :=
  exists q, queue_per_lock s !! id = Some q /\ queue_mutex q = true /\
    forall i q', i <> id -> queue_per_lock s !! i = Some q' -> queue_mutex q' = false.

Lemma safe_bind {A B} (m : P A) (k : A -> P B) Q s :
  safe_with m (fun a s' => safe (k a) Q s') s -> safe (bind m k) Q s.
Proof.
  unfold safe, safe_with, bind. destruct (m s) as [[[a s'] o]|f]; [|done].
  by destruct (k a s') as [[[b s''] o']|f].
Qed.

Lemma safe_mono {A} (m : P A) (Q Q' : parlock -> Prop) s :
  safe m Q s -> (forall s', Q s' -> Q' s') -> safe m Q' s.
Proof. unfold safe. destruct (m s) as [[[a s'] o]|f]; auto. Qed.

(** When only the resulting state matters. *)
Lemma safe_with_state {A} (m : P A) (R : parlock -> Prop) (Q : A -> parlock -> Prop) s :
  safe m R s -> (forall a s', R s' -> Q a s') -> safe_with m Q s.
Proof. unfold safe, safe_with. destruct (m s) as [[[a s'] o]|f]; auto. Qed.

Lemma safe_seq {A B} (m : P A) (k : A -> P B) R Q s :
  safe m R s -> (forall a s', R s' -> safe (k a) Q s') -> safe (bind m k) Q s.
Proof. intros Hm Hk. apply safe_bind. by eapply safe_with_state. Qed.

Create HintDb mutexdb discriminated.

Section rules.
Context (id : Z).

Lemma safe_ret {A} (a : A) (Q : parlock -> Prop) s : Q s -> safe (ret a) Q s.
Proof. done. Qed.

Lemma safe_fail {A} f (Q : parlock -> Prop) s : f <> FaultDeadlock -> f <> FaultUnlock -> safe (A := A) (fail f) Q s.
Proof. done. Qed.

Lemma safe_emit e (Q : parlock -> Prop) s : Q s -> safe (emit e) Q s.
Proof. done. Qed.

Lemma safe_read {A} (f : LockQueue -> A) (Q : parlock -> Prop) s : Q s -> safe (read_queue id f) Q s.
Proof.
  intros HQ. unfold safe, read_queue, bind, get. by destruct (queue_per_lock s !! id).
Qed.

Lemma safe_with_queue f s :
  held id s -> (forall q, queue_mutex (f q) = queue_mutex q) -> safe (with_queue id f) (held id) s.
Proof.
  intros (q & E & Hm & Ho) Hf. unfold safe, with_queue, bind, get. rewrite E. simpl.
  exists (f q). simpl. rewrite lookup_insert_eq. split; [done|]. rewrite Hf. split; [done|].
  intros i q' Hi. rewrite lookup_insert_ne by done. by apply Ho.
Qed.

Lemma safe_block s : all_free s -> safe (block_lock_queue id) (held id) s.
Proof.
  intros Hs. unfold safe, block_lock_queue, with_queue, read_queue, bind, get.
  destruct (queue_per_lock s !! id) as [q|] eqn:E; [|done]. simpl.
  rewrite (Hs id q E), E. simpl. exists (set_mutex true q). simpl. rewrite lookup_insert_eq.
  split; [done|]. split; [done|]. intros i q' Hi. rewrite lookup_insert_ne by done. apply Hs.
Qed.

Lemma safe_unblock s : held id s -> safe (unblock_lock_queue id) all_free s.
Proof.
  intros (q & E & Hm & Ho). unfold safe, unblock_lock_queue, with_queue, read_queue, bind, get.
  rewrite E. simpl. rewrite Hm, E. simpl. intros i q'. simpl.
  destruct (decide (i = id)) as [->|Hi].
  - rewrite lookup_insert_eq. by intros [= <-].
  - rewrite lookup_insert_ne by done. by apply Ho.
Qed.

(** Signals and messages leave the queues alone. *)
Lemma safe_with_waits i f (Q : parlock -> Prop) s :
  (forall W, Q (Par (queue_per_lock s) W)) ->
  (forall w e, f w = Fault e -> e <> FaultDeadlock /\ e <> FaultUnlock) ->
  safe (with_waits i f) Q s.
Proof.
  intros HQ Hf. unfold safe, with_waits, bind, get. destruct (lock_wait_table s !! i) as [w|]; [|done].
  destruct (f w) as [w'|e] eqn:E; [apply HQ|by apply (Hf w)].
Qed.
End rules.

(** A predicate on the queues only. *)
Definition queues_only (Q : parlock -> Prop) : Prop := forall T W W', Q (Par T W) -> Q (Par T W').

Lemma queues_only_held id : queues_only (held id).
Proof. by intros T W W'. Qed.
Lemma queues_only_free : queues_only all_free.
Proof. by intros T W W'. Qed.

Lemma safe_signal i r Q s : queues_only Q -> Q s -> safe (coroutine_wait_queue_signal i r) Q s.
Proof.
  intros HQ Hs. apply (safe_seq _ _ Q).
  - apply safe_with_waits; [intros W; destruct s; by eapply HQ|].
    intros w e. destruct (w !! r); [done|]. by intros [= <-].
  - intros _ s' Hs'. by apply safe_emit.
Qed.

Lemma safe_grant_entry cfg i e Q s : queues_only Q -> Q s -> safe (grant_entry cfg i e) Q s.
Proof. intros HQ Hs. unfold grant_entry. case_if; [by apply safe_signal|by apply safe_emit]. Qed.

Lemma safe_for_each {A} (l : list A) body Q s :
  Q s -> (forall a s', Q s' -> safe (body a) Q s') -> safe (for_each l body) Q s.
Proof.
  revert s. induction l as [|a l IH]; intros s Hs Hb; [done|]. simpl.
  eapply safe_seq; [by apply Hb|]. auto.
Qed.

Section compound.
Context (cfg : parcfg) (id : Z).

Lemma safe_enqueue o m t s : held id s -> safe (enqueue_request o id m t) (held id) s.
Proof. intros Hs. by apply safe_with_queue. Qed.

Lemma safe_get_head (s : parlock) : held id s -> safe (get_head_request id) (held id) s.
Proof. apply safe_read. Qed.

Lemma safe_dequeue s : held id s -> safe (dequeue_request id) (held id) s.
Proof.
  intros Hs. eapply safe_seq; [by apply safe_get_head|]. intros [e|] s' Hs'; [|done].
  eapply safe_seq; [by apply safe_with_queue|]. by intros.
Qed.

Lemma safe_dequeue_shared s : held id s -> safe (dequeue_shared_requests id) (held id) s.
Proof.
  intros Hs. eapply safe_seq; [by apply (safe_read id)|]. intros l s' Hs'.
  destruct (dequeue_shared_loop _ _ _ _) as [[r q']|]; [|done].
  eapply safe_seq; [by apply safe_with_queue|]. by intros.
Qed.

Lemma safe_erase r h o s : held id s -> safe (erase_lock_request cfg id r h o) (held id) s.
Proof.
  intros Hs. eapply safe_seq; [by apply (safe_read id)|]. intros l s' Hs'. cbv zeta.
  destruct (erase_first _ _) as [[i l']|]; [|done].
  eapply safe_seq; [by apply safe_with_queue|]. by intros.
Qed.

Lemma safe_net_send d p o i m t Q s : Q s -> safe (net_send d p o i m t) Q s.
Proof. apply safe_emit. Qed.

Lemma safe_when b m Q s : Q s -> safe m Q s -> safe (when b m) Q s.
Proof. by destruct b. Qed.

Lemma safe_set f s :
  held id s -> (forall q, queue_mutex (f q) = queue_mutex q) -> safe (with_queue id f) (held id) s.
Proof. apply safe_with_queue. Qed.
End compound.

(** One step: the first action of a sequence, by the rule for it. *)
Ltac msafe :=
  match goal with
  | |- safe (bind (block_lock_queue _) _) _ _ => eapply safe_seq; [by apply safe_block|intros ? ? ?]
  | |- safe (bind (unblock_lock_queue _) _) _ _ => eapply safe_seq; [by apply safe_unblock|intros ? ? ?]
  | |- safe (unblock_lock_queue _) _ _ => by apply safe_unblock
  | |- safe (bind (erase_lock_request _ _ _ _ _) _) _ _ => eapply safe_seq; [by apply safe_erase|intros ? ? ?]
  | |- safe (bind (dequeue_request _) _) _ _ => eapply safe_seq; [by apply safe_dequeue|intros ? ? ?]
  | |- safe (bind (dequeue_shared_requests _) _) _ _ => eapply safe_seq; [by apply safe_dequeue_shared|intros ? ? ?]
  | |- safe (bind (grant_entry _ _ _) _) _ _ =>
      eapply safe_seq; [apply safe_grant_entry; [apply queues_only_held|eassumption]|intros ? ? ?]
  | |- safe (grant_entry _ _ _) _ _ =>
      apply safe_grant_entry; [first [apply queues_only_free|apply queues_only_held]|assumption]
  | |- safe (coroutine_wait_queue_signal _ _) _ _ => apply safe_signal; [apply queues_only_free|assumption]
  | |- safe (reply _) _ _ => by apply safe_net_send
  | |- safe (fail _) _ _ => by apply safe_fail
  | |- safe (ret _) _ _ => by apply safe_ret
  | |- safe (bind (when ?b _) _) _ _ => destruct b; unfold when at 1
  | |- safe (bind (ret _) _) _ _ => eapply safe_seq; [apply safe_ret; eassumption|intros ? ? ?]
  | |- safe (bind (if ?b then _ else _) _) _ _ => destruct b
  | |- safe (if ?b then _ else _) _ _ => destruct b
  | |- safe (match ?o with Some _ => _ | None => _ end) _ _ => destruct o
  | |- safe (bind (bind _ _) _) _ _ => eapply safe_seq; [|intros ? ? ?]
  | |- safe (for_each _ _) _ _ => apply safe_for_each; [eassumption|intros ? ? ?]
  | |- safe (bind (for_each _ _) _) _ _ =>
      eapply safe_seq; [apply safe_for_each; [eassumption|intros ? ? ?]|intros ? ? ?]
  | |- safe (bind (read_queue _ _) _) _ _ => eapply safe_seq; [by apply safe_read|intros ? ? ?]
  | |- safe (bind (with_queue _ _) _) _ _ => eapply safe_seq; [by apply safe_with_queue|intros ? ? ?]
  | |- safe (with_queue _ _) _ _ => by apply safe_with_queue
  end.

Ltac mopen := unfold get_lock_state, set_lock_state, get_head_request, get_shared_counter,
  get_exclusive_counter, add_shared_counter, sub_shared_counter, add_exclusive_counter,
  sub_exclusive_counter, enqueue_hdr, enqueue_request, get_head_shared_requests, get_shared_requests.

Section handlers.
Context (cfg : parcfg).

Lemma safe_grant_head_excl id e s : held id s -> safe (grant_head_excl cfg id e) all_free s.
Proof. intros Hs. unfold grant_head_excl. mopen. repeat msafe. Qed.

Lemma safe_grant_all_shared id s : held id s -> safe (grant_all_shared cfg id) all_free s.
Proof. intros Hs. unfold grant_all_shared. mopen. repeat msafe. Qed.

Lemma safe_exclusive_lock hd s : all_free s -> safe (server_handle_exclusive_lock cfg hd) all_free s.
Proof. intros Hs. unfold server_handle_exclusive_lock. mopen. repeat msafe. Qed.

Lemma safe_shared_lock hd s : all_free s -> safe (server_handle_shared_lock cfg hd) all_free s.
Proof. intros Hs. unfold server_handle_shared_lock. mopen. repeat msafe. Qed.

Lemma safe_exclusive_unlock hd s : all_free s -> safe (server_handle_exclusive_unlock cfg hd) all_free s.
Proof.
  intros Hs. unfold server_handle_exclusive_unlock. mopen.
  repeat first [msafe | by apply safe_grant_head_excl | by apply safe_grant_all_shared].
Qed.

Lemma safe_shared_unlock hd s : all_free s -> safe (server_handle_shared_unlock cfg hd) all_free s.
Proof.
  intros Hs. unfold server_handle_shared_unlock. mopen.
  repeat first [msafe | by apply safe_grant_head_excl | by apply safe_grant_all_shared].
Qed.

Lemma safe_acquire_local id r o s : all_free s -> safe (acquire_lock_local cfg id r o) all_free s.
Proof. intros Hs. unfold acquire_lock_local. mopen. repeat msafe. Qed.

Lemma safe_release_local id r o s : all_free s -> safe (release_lock_local cfg id r o) all_free s.
Proof.
  intros Hs. unfold release_lock_local, release_local_reader_first, release_local_fifo. mopen.
  repeat first [msafe | by apply safe_grant_all_shared].
Qed.

Lemma safe_get_lock_server id f :
  get_lock_server cfg id = Fault f -> f <> FaultDeadlock /\ f <> FaultUnlock.
Proof.
  unfold get_lock_server. repeat case_if; try done; try (by intros [= <-]).
  destruct (zipf_server _ _ _); [done|]. by intros [= <-].
Qed.

Lemma safe_send_to_server pt k r o s : all_free s -> safe (send_to_server cfg pt k r o) all_free s.
Proof.
  intros Hs. unfold send_to_server. destruct (get_lock_server cfg k) eqn:E; [by apply safe_net_send|].
  apply safe_get_lock_server in E as [? ?]. by apply safe_fail.
Qed.

Lemma safe_packet_dispatch hd s : all_free s -> safe (packet_dispatch cfg hd) all_free s.
Proof.
  intros Hs. unfold packet_dispatch, process_lock_req, process_unlock_req, process_lock_reply, when.
  repeat case_if; auto using safe_exclusive_lock, safe_shared_lock, safe_exclusive_unlock,
    safe_shared_unlock, safe_ret; first [by apply safe_fail|apply safe_signal; [apply queues_only_free|done]].
Qed.

Lemma safe_acquire_async k r o s : all_free s -> safe (lock_acquire_async cfg k r o) all_free s.
Proof.
  intros Hs. unfold lock_acquire_async.
  eapply (safe_seq _ _ all_free); [apply safe_with_waits; [intros; by destruct s|done]|].
  intros _ s' Hs'. destruct (get_lock_server cfg k) as [h|f] eqn:E.
  - eapply (safe_seq _ _ all_free); [|by intros]. case_if; [by apply safe_acquire_local|by apply safe_send_to_server].
  - apply safe_get_lock_server in E as [? ?]. by apply safe_fail.
Qed.

Lemma safe_release k r o s : all_free s -> safe (lock_release cfg k r o) all_free s.
Proof.
  intros Hs. unfold lock_release. destruct (get_lock_server cfg k) as [h|f] eqn:E.
  - eapply (safe_seq _ _ all_free); [|by intros]. case_if; [by apply safe_release_local|by apply safe_send_to_server].
  - apply safe_get_lock_server in E as [? ?]. by apply safe_fail.
Qed.
End handlers.

(** C29: the queue mutexes of ParLock are used correctly on every path, in every
    build configuration. From a state in which no queue mutex is held, handling
    any message, any local acquire and any local release never locks a mutex
    it holds and never unlocks one it does not hold, and when it returns no
    mutex is held. *)
Theorem par_mutex_discipline cfg s :
  all_free s ->
  (forall hd, safe (packet_dispatch cfg hd) all_free s) /\
  (forall k r o, safe (lock_acquire_async cfg k r o) all_free s) /\
  (forall k r o, safe (lock_release cfg k r o) all_free s).
Proof. auto using safe_packet_dispatch, safe_acquire_async, safe_release. Qed.

Lemma par_mutex_discipline_witness :
  let cfg := ParCfg 1 false true false false 80 in
  let s := Par {[ 3 := LQ [Lqe 3 7 1; Lqe 2 8 2] false 1 1 STATE_FREE ]} {[ 3 := {[ 7 := true ]} ]} in
  (forall hd, safe (packet_dispatch cfg hd) all_free s) /\
  (forall k r o, safe (lock_acquire_async cfg k r o) all_free s) /\
  (forall k r o, safe (lock_release cfg k r o) all_free s).
Proof.
  intros cfg s. apply (par_mutex_discipline cfg s). intros i q E.
  unfold s in E. cbn [queue_per_lock] in E. apply lookup_singleton_Some in E as [_ <-]. reflexivity.
Defined.

(** ** Routing and initialisation *)

(** The locks the deployment uses. *)
Definition placed (cfg : parcfg) (id : Z) : Prop :=
  if PARLOCK_TPCC_SHUFFLE cfg then 0 <= id <= MAX_LOCK_NUM cfg
  else if PARLOCK_ZIPF_LOAD_BALANCE cfg then 0 <= id <= 999999
  else 8 <= MAX_LOCK_NUM cfg /\ 0 <= id < HOST_NUM * (MAX_LOCK_NUM cfg / HOST_NUM).

Lemma elem_of_upto lo hi id : id ∈ upto lo hi <-> lo <= id <= hi.
Proof. unfold upto. rewrite elem_of_seqZ. lia. Qed.

(** The range of the map that belongs to a host. *)
Definition in_range (h id : Z) : Prop := map_at (2 * (h - 1)) <= id <= map_at (2 * (h - 1) + 1).

Lemma zipf_server_sound n h0 id h :
  zipf_server n h0 id = Some h -> in_range h id /\ h0 <= h < h0 + Z.of_nat n.
Proof.
  revert h0. induction n as [|n IH]; intros h0; [done|]. cbn [zipf_server].
  destruct (_ && _) eqn:E.
  - intros [= <-]. bprop. unfold in_range. lia.
  - intros Hz. apply IH in Hz as [? ?]. split; [done|lia].
Qed.

Lemma zipf_server_None n h0 id h :
  zipf_server n h0 id = None -> h0 <= h < h0 + Z.of_nat n -> ~ in_range h id.
Proof.
  revert h0. induction n as [|n IH]; intros h0; [lia|]. cbn [zipf_server].
  destruct (_ && _) eqn:E; [done|]. intros Hz Hh.
  destruct (decide (h = h0)) as [->|]; [|by apply (IH (h0 + 1)); [done|lia]].
  unfold in_range. intros Hr. apply andb_false_iff in E as [E|E]; bprop; lia.
Qed.

Lemma hosts_cases h : 1 <= h <= 8 -> h ∈ [1; 2; 3; 4; 5; 6; 7; 8].
Proof. intros Hh. rewrite !elem_of_cons. lia. Qed.

(** The ranges are pairwise disjoint. *)
Lemma in_range_unique h h' id :
  1 <= h <= 8 -> 1 <= h' <= 8 -> in_range h id -> in_range h' id -> h = h'.
Proof.
  intros Hh Hh'. unfold in_range. intros R1 R2.
  assert (Hall : forallb (fun a => forallb (fun b => (a =? b)
      || (map_at (2 * (a - 1) + 1) <? map_at (2 * (b - 1)))
      || (map_at (2 * (b - 1) + 1) <? map_at (2 * (a - 1)))) [1; 2; 3; 4; 5; 6; 7; 8])
    [1; 2; 3; 4; 5; 6; 7; 8] = true) by (vm_compute; reflexivity).
  rewrite forallb_forall in Hall.
  pose proof (Hall h ltac:(by apply list_elem_of_In, hosts_cases)) as Ha. rewrite forallb_forall in Ha.
  pose proof (Ha h' ltac:(by apply list_elem_of_In, hosts_cases)) as Hb.
  apply orb_true_iff in Hb as [Hb|Hb]; [apply orb_true_iff in Hb as [Hb|Hb]|];
    [by apply Z.eqb_eq in Hb|apply Z.ltb_lt in Hb; lia..].
Qed.

(** Together they cover the million locks. *)
Lemma in_range_cover id : 0 <= id <= 999999 -> exists h, 1 <= h <= 8 /\ in_range h id.
Proof.
  intros Hid. destruct (zipf_server 8 1 id) as [h|] eqn:E.
  - apply zipf_server_sound in E as [? ?]. exists h. split; [lia|done].
  - exfalso. pose proof (zipf_server_None 8 1 id) as Hn. specialize (fun h => Hn h E).
    pose proof (Hn 1 ltac:(lia)). pose proof (Hn 2 ltac:(lia)). pose proof (Hn 3 ltac:(lia)).
    pose proof (Hn 4 ltac:(lia)). pose proof (Hn 5 ltac:(lia)). pose proof (Hn 6 ltac:(lia)).
    pose proof (Hn 7 ltac:(lia)). pose proof (Hn 8 ltac:(lia)).
    unfold in_range, map_at in *. simpl in *. lia.
Qed.

(** Every lock is initialised exactly where its requests are sent. For each
    placement scheme and each lock of the deployment, [get_lock_server] names a
    host h between 1 and 8, and a host initialises the lock in
    [init_all_locks] if and only if it is h. *)
Theorem placement_agrees cfg id :
  placed cfg id ->
  exists h, get_lock_server cfg id = Ok h /\ 1 <= h <= 8 /\
    forall h', 1 <= h' <= 8 ->
      id ∈ initialised_locks (ParCfg h' (PARLOCK_READER_FIRST cfg) (PARLOCK_ENQUEUE_HOLDERS cfg)
             (PARLOCK_TPCC_SHUFFLE cfg) (PARLOCK_ZIPF_LOAD_BALANCE cfg) (MAX_LOCK_NUM cfg)) <-> h' = h.
Proof.
  unfold placed, get_lock_server, initialised_locks. cbn [ParQueue.LOCALHOST_ID ParQueue.PARLOCK_TPCC_SHUFFLE
    ParQueue.PARLOCK_ZIPF_LOAD_BALANCE ParQueue.MAX_LOCK_NUM].
  destruct (PARLOCK_TPCC_SHUFFLE cfg); [|destruct (PARLOCK_ZIPF_LOAD_BALANCE cfg)].
  - intros Hid. exists (id mod HOST_NUM + 1). split; [done|].
    pose proof (Z.mod_pos_bound id HOST_NUM ltac:(done)) as Hm. change HOST_NUM with 8 in Hm.
    split; [change HOST_NUM with 8; lia|]. intros h' _. rewrite elem_of_filterb, elem_of_upto, Z.eqb_eq. lia.
  - intros Hid. destruct (in_range_cover id Hid) as (h & Hh & Hr).
    assert (E : zipf_server 8 1 id = Some h).
    { destruct (zipf_server 8 1 id) as [h2|] eqn:E.
      - apply zipf_server_sound in E as [? ?]. f_equal. by apply (in_range_unique h2 h id); [lia..| |].
      - by apply (zipf_server_None _ _ _ h) in E; [|lia]. }
    rewrite E. exists h. split; [done|]. split; [done|]. intros h' Hh'.
    rewrite elem_of_upto, !(Z.mul_comm (h' - 1) 2). change (in_range h' id <-> h' = h).
    split; [|by intros ->]. intros Hr'. by apply (in_range_unique h' h id).
  - intros [HM Hid]. change HOST_NUM with 8 in *. set (k := MAX_LOCK_NUM cfg / 8) in *.
    assert (Hk : 1 <= k) by (apply Z.div_le_lower_bound; lia).
    destruct (Z.eqb_spec k 0); [lia|].
    assert (Hi : 0 <= id / k < 8) by (split; [apply Z.div_pos; lia|apply Z.div_lt_upper_bound; lia]).
    destruct (Z.leb_spec 8 (id / k)); [lia|]. eexists. split; [done|]. split; [lia|].
    intros h' Hh'. rewrite elem_of_upto.
    pose proof (Z.div_mod id k ltac:(lia)) as Hdm. pose proof (Z.mod_pos_bound id k ltac:(lia)) as Hmod.
    split; [|intros ->; nia]. intros Hr. assert (id / k = h' - 1); [|lia].
    symmetry. apply (Z.div_unique id k (h' - 1) (id - k * (h' - 1))); lia.
Qed.

Lemma placement_agrees_witness :
  exists h, get_lock_server (ParCfg 3 true false false false 803) 250 = Ok h /\ 1 <= h <= 8 /\
    forall h', 1 <= h' <= 8 ->
      250 ∈ initialised_locks (ParCfg h' true false false false 803) <-> h' = h.
Proof. apply (placement_agrees (ParCfg 3 true false false false 803) 250). vm_compute. split; [done|by split]. Defined.

(** ** What the model shows *)

(** The locks of the remainder are routed but never initialised. With a lock
    count that is not a multiple of the number of hosts, the locks at the end
    are routed to host 8, which does not initialise them, so the first request
    for one dereferences a null pointer at the server. *)
Theorem remainder_locks_uninitialised :
  let cfg := ParCfg 8 true false false false 803 in
  get_lock_server cfg 801 = Ok 8 /\ ~ (801 ∈ initialised_locks cfg) /\
  match init_all_locks cfg (Par ∅ ∅) with
  | Ok (_, s, _) => packet_dispatch cfg (Hdr POST_LOCK_REQ OP_EXCL 801 1 5) s = Fault FaultNull
  | Fault _ => False
  end.
Proof.
  intros cfg. split; [reflexivity|]. split.
  - intros H. apply elem_of_upto in H. vm_compute in H. by destruct H as [_ []].
  - vm_compute. reflexivity.
Qed.

(** In the arrival-order policy, withdrawing an exclusive request strands
    the shared requests behind it. A shared holder, a queued exclusive request
    and a shared request behind it: when the exclusive requester withdraws, the
    shared request could be granted, but nothing is sent and the queue keeps it. *)
Theorem fifo_withdraw_strands_readers :
  let cfg := ParCfg 1 false false false false 800 in
  let msg t o h r := packet_dispatch cfg (Hdr t o 5 h r) in
  exists s, (init_lock 5 ;; msg POST_LOCK_REQ OP_SHARED 2 10 ;; msg POST_LOCK_REQ OP_EXCL 3 11 ;;
             msg POST_LOCK_REQ OP_SHARED 4 12 ;; msg POST_UNLOCK_REQ OP_EXCL 3 11) (Par ∅ ∅)
      = Ok (tt, s, [Sent (PSent 2 (Hdr POST_LOCK_REPLY OP_SHARED 5 2 10))]) /\
    queue_per_lock s !! 5 = Some (LQ [Lqe OP_SHARED 10 2; Lqe OP_SHARED 12 4] false 2 0 STATE_FREE).
Proof. cbv zeta. eexists. split; [vm_compute; reflexivity|]. reflexivity. Qed.

(** In the arrival-order policy, a release is matched by task number alone.
    A withdrawal by task 10 of host 3 pops the entry of the holder, task 10 of
    host 2, and grants the lock to the next waiter while the holder still has
    it. *)
Theorem fifo_release_ignores_host :
  let cfg := ParCfg 1 false false false false 800 in
  let msg t o h r := packet_dispatch cfg (Hdr t o 5 h r) in
  exists s, (init_lock 5 ;; msg POST_LOCK_REQ OP_EXCL 2 10 ;; msg POST_LOCK_REQ OP_EXCL 3 10 ;;
             msg POST_UNLOCK_REQ OP_EXCL 3 10) (Par ∅ ∅)
      = Ok (tt, s, [Sent (PSent 2 (Hdr POST_LOCK_REPLY OP_EXCL 5 2 10));
                    Sent (PSent 3 (Hdr POST_LOCK_REPLY OP_EXCL 5 3 10))]).
Proof. cbv zeta. eexists. vm_compute. reflexivity. Qed.

(** A wait flag outlives its request. A task that acquired and released a
    lock and requests it again while another task holds it sees its old grant:
    [lock_req_granted] answers yes although the request is queued. *)
Theorem stale_wait_flag :
  let cfg := ParCfg 1 true false false false 800 in
  exists s, (lock_local_init 5 ;; r <- lock_acquire_async cfg 5 7 OP_EXCL ;; lock_release cfg 5 7 OP_EXCL ;;
             lock_acquire_async cfg 5 8 OP_EXCL ;; r' <- lock_acquire_async cfg 5 7 OP_EXCL ;;
             g <- lock_req_granted r' ;; ret (r, r', g)) (Par ∅ ∅)
      = Ok ((21474836487, 21474836487, true), s, [Signalled 5 7; Signalled 5 8]) /\
    queue_per_lock s !! 5 = Some (LQ [Lqe OP_EXCL 7 1] false 0 0 STATE_EXCLUSIVE).
Proof. cbv zeta. eexists. split; [vm_compute; reflexivity|]. reflexivity. Qed.
