(* ===== verification/NetWire.v ===== *)
(** * NetWire: frames and headers of the NetLock baseline

    Models the packet side of baseline/NetLock: the message header of
    lib/post.h, the request node of lib/lock.h, the header template and the two
    header generators of lib/net.cc, the parser [mbuf_to_node] of
    lib/request.cc and the three actions of switch/p4/ingress.p4 that direct a
    request to the primary lock server.

    A frame is kept as its fields.  The Ethernet, IP and UDP fields are in host
    order; the 32-bit fields of the message header are as stored, that is, in
    network order.  IP addresses are the 32-bit words in memory. *)

From S2P Require Import Prelude Types.
(** ** Constants (lib/lock.h, lib/post.h) *)

Definition LK_PORT : Z := 8888.
Definition MEM_DIFF_PORT : Z := 18888.
Definition ACQUIRE_LOCK : Z := 0.
Definition RELEASE_LOCK : Z := 1.
Definition PUSH_BACK_LOCK : Z := 2.
Definition GRANT_LOCK_FROM_SERVER : Z := 3.
Definition DIRECT_GRANT_FROM_SWITCH : Z := 4.
Definition MEM_DIFF : Z := 5.
Definition PRIMARY_BACKUP : Z := 1.
Definition SECONDARY_BACKUP : Z := 2.
Definition SHARED : Z := 0.
Definition EXCLUSIVE : Z := 1.

Definition POST_LOCK_ACQUIRE : Z := 1.
Definition POST_LOCK_GRANT_WITH_AGENT : Z := 2.
Definition POST_LOCK_FREE : Z := 6.

(** ** Data *)

Record lock_post_header := Hdr {
  recirc_flag : Z;
  h_op_type : Z;
  h_mode : Z;
  h_client_id : Z;
  h_txn_id : Z;
  h_lock_id : Z;
  timestamp : Z;
  empty_slots : Z;
  hd_head : Z;
  hd_tail : Z;
  h_ncnt : Z;
  h_transferred : Z;
}.

(** [sizeof] of the headers. *)
Definition sizeof_ether_hdr : Z := 14.
Definition sizeof_ipv4_hdr : Z := 20.
Definition sizeof_udp_hdr : Z := 8.
Definition sizeof_lock_post_header : Z := 34.
Definition sizeof_header_template : Z :=
  sizeof_ether_hdr + sizeof_ipv4_hdr + sizeof_udp_hdr + sizeof_lock_post_header.

(** A request in a lock queue.  The payload's size is its length. *)
Record lock_queue_node := Node {
  op_type : Z;
  mode : Z;
  client_id : Z;
  txn_id : Z;
  lock_id : Z;
  ip_src : Z;
  role : Z;
  payload : list Z;
}.

Record frame := Frame {
  eth_dst : list Z;
  eth_src : list Z;
  ip_total_length : Z;
  ip_src_addr : Z;
  ip_dst_addr : Z;
  udp_src_port : Z;
  udp_dst_port : Z;
  udp_dgram_len : Z;
  f_msg : lock_post_header;
  f_body : list Z;         (** the bytes behind the message header *)
  data_len : Z;
}.

(** ** The header template (lib/net.cc) *)

Definition mac_src_addr : list Z := [0xaa; 0xbb; 0xcc; 0xdd; 0xee; 0xff].
Definition mac_dst_addr : list Z := [0x01; 0x11; 0x22; 0x33; 0x44; 0x01].

Definition host_list : list Z := [1; 2; 3; 4; 5; 6; 7; 8].

(** The octets of the addresses of [ip_list], host 1 first. *)
Definition ip_list : list (list Z) :=
  [[10; 0; 2; 4]; [10; 0; 2; 1]; [10; 0; 2; 2]; [10; 0; 2; 3];
   [10; 0; 2; 5]; [10; 0; 2; 6]; [10; 0; 2; 7]; [10; 0; 2; 8]].

(** [inet_pton(AF_INET, ip_list[i], &addr)]. *)
Definition ip_addr (i : Z) : Z := le_value (nth (Z.to_nat i) ip_list []).

Definition ip_hdr_total_length : Z := sizeof_header_template - sizeof_ether_hdr.
Definition udp_hdr_dgram_len : Z := sizeof_header_template - sizeof_ether_hdr - sizeof_ipv4_hdr.

Definition header_template (LOCALHOST_ID : Z) : frame :=
  Frame mac_dst_addr mac_src_addr ip_hdr_total_length
    (ip_addr (LOCALHOST_ID - 1)) (ip_addr 0) LK_PORT LK_PORT udp_hdr_dgram_len
    (Hdr 0 0 0 (u8 LOCALHOST_ID) 0 0 0 0 0 0 0 0) [] sizeof_header_template.

(** ** Header generators (lib/net.cc) *)

(** The application's packet modifier: what it makes of the message header,
    and the bytes it adds behind it. *)
Definition modifier := option (Z -> lock_post_header -> lock_post_header * list Z).

Definition set_request (h : lock_post_header) (lock_id op mode txn : Z) : lock_post_header :=
  Hdr (recirc_flag h) op mode (h_client_id h) (htonl txn) (htonl lock_id) (timestamp h)
      (empty_slots h) (hd_head h) (hd_tail h) (h_ncnt h) (h_transferred h).

(** [tx] is the number of packets the core has sent.  The packet modifier is
    not applied to an action other than acquire and release. *)
Definition generate_header (LOCALHOST_ID tx : Z) (packet_modify : modifier)
    (txn_id action_type lock_id lock_type : Z) : frame :=
  let t := header_template LOCALHOST_ID in
  let f := Frame (eth_dst t) (eth_src t) (ip_total_length t) (ip_src_addr t) (ip_dst_addr t)
    (u16 (LK_PORT + tx mod 128)) (udp_dst_port t) (udp_dgram_len t)
    (set_request (f_msg t) lock_id action_type lock_type txn_id) (f_body t) (data_len t) in
  match packet_modify with
  | None => f
  | Some m =>
      let post_type :=
        if action_type =? ACQUIRE_LOCK then Some POST_LOCK_ACQUIRE
        else if action_type =? RELEASE_LOCK then Some POST_LOCK_FREE
        else None in
      match post_type with
      | None => f
      | Some pt =>
          let '(h, extra) := m pt (f_msg f) in
          let append_size := Z.of_nat (length extra) in
          Frame (eth_dst f) (eth_src f) (u16 (ip_hdr_total_length + append_size))
            (ip_src_addr f) (ip_dst_addr f) (udp_src_port f) (udp_dst_port f)
            (u16 (udp_hdr_dgram_len + append_size)) h extra (u16 (data_len f + append_size))
      end
  end.

Definition payload_size (n : lock_queue_node) : Z := Z.of_nat (length (payload n)).

Definition generate_header_lock_server (LOCALHOST_ID tx : Z) (node : lock_queue_node)
    (action_type transferred ncnt port : Z) : frame :=
  let t := header_template LOCALHOST_ID in
  let h := f_msg t in
  Frame (eth_dst t) (eth_src t) (u16 (ip_hdr_total_length + payload_size node))
    (ip_src node) (ip_src node) (u16 (LK_PORT + tx mod 128)) port
    (u16 (udp_hdr_dgram_len + payload_size node))
    (Hdr (recirc_flag h) action_type (mode node) (client_id node) (htonl (txn_id node))
       (htonl (lock_id node)) (timestamp h) (empty_slots h) (hd_head h) (hd_tail h) ncnt transferred)
    (payload node) (u16 (sizeof_header_template + payload_size node)).

(** ** The parser (lib/request.cc) *)

Definition byte_at (i : nat) (l : list Z) : Z := nth i l 0.

(** The client's address, which the switch put into the source MAC. *)
Definition ip_from_eth (src : list Z) : Z :=
  u32 (Z.lor (Z.lor (Z.lor (byte_at 2 src) (Z.shiftl (byte_at 3 src) 8))
                    (Z.shiftl (byte_at 4 src) 16))
             (Z.shiftl (byte_at 5 src) 24)).

Definition mbuf_to_node (f : frame) : lock_queue_node :=
  let h := f_msg f in
  let header_size := sizeof_header_template in
  Node (h_op_type h) (h_mode h) (h_client_id h) (ntohl (h_txn_id h)) (ntohl (h_lock_id h))
    (ip_from_eth (eth_src f)) (byte_at 5 (eth_dst f))
    (if header_size <? data_len f then take (Z.to_nat (data_len f - header_size)) (f_body f) else []).

(** ** The switch on a request for the primary server (switch/p4/ingress.p4)

    [fix_src_port_action], [set_as_primary_action] and
    [forward_to_server_action]: the client's address moves into the source
    MAC, the destination MAC becomes the server's role, and the frame is
    addressed to the server.  The remaining arguments are the ports and
    metadata the tables supply. *)

(** A 48-bit number as a MAC address. *)
Definition mac_of (z : Z) : list Z := rev (le_bytes 6 z).

(** The switch reads the IP field in network order. *)
Definition fix_src_port_action (fix_port : Z) (f : frame) : frame :=
  Frame (eth_dst f) (mac_of (ntohl (ip_src_addr f))) (ip_total_length f) (ip_src_addr f) (ip_dst_addr f)
    fix_port (udp_dst_port f) (udp_dgram_len f) (f_msg f) (f_body f) (data_len f).

Definition set_as_primary_action (f : frame) : frame :=
  Frame (mac_of PRIMARY_BACKUP) (eth_src f) (ip_total_length f) (ip_src_addr f) (ip_dst_addr f)
    (udp_src_port f) (udp_dst_port f) (udp_dgram_len f) (f_msg f) (f_body f) (data_len f).

Definition forward_to_server_action (server_ip slots head tail : Z) (f : frame) : frame :=
  let h := f_msg f in
  Frame (eth_dst f) (eth_src f) (ip_total_length f) (htonl server_ip) (htonl server_ip)
    (udp_src_port f) (udp_dst_port f) (udp_dgram_len f)
    (Hdr (recirc_flag h) (h_op_type h) (h_mode h) (h_client_id h) (h_txn_id h) (h_lock_id h)
       (timestamp h) slots head tail (h_ncnt h) (h_transferred h))
    (f_body f) (data_len f).

Definition to_primary (fix_port server_ip slots head tail : Z) (f : frame) : frame :=
  forward_to_server_action server_ip slots head tail (set_as_primary_action (fix_src_port_action fix_port f)).

(** ** Lemmas *)

Lemma lor_bytes b0 b1 b2 b3 :
  in_uw 8 b0 -> in_uw 8 b1 -> in_uw 8 b2 -> in_uw 8 b3 ->
  Z.lor (Z.lor (Z.lor b0 (Z.shiftl b1 8)) (Z.shiftl b2 16)) (Z.shiftl b3 24) = le_value [b0; b1; b2; b3].
Proof.
  unfold in_uw. intros H0 H1 H2 H3.
  assert (L : forall n a b, 0 <= n -> 0 <= b < 2 ^ n -> Z.lor b (Z.shiftl a n) = 2 ^ n * a + b).
  { intros n a b Hn Hb. rewrite <- lxor_shiftl_add by done.
    assert (E : Z.land (Z.shiftl a n) b = 0).
    { apply Z.bits_inj'. intros i Hi. rewrite Z.land_spec, Z.bits_0.
      destruct (Z.lt_ge_cases i n); [by rewrite Z.shiftl_spec_low|].
      rewrite (proj2 (Z.testbit_false b i Hi)); [apply andb_false_r|].
      rewrite Z.div_small; [done|]. split; [lia|]. apply Z.lt_le_trans with (2 ^ n); [lia|].
      apply Z.pow_le_mono_r; lia. }
    rewrite Z.lor_comm, <- Z.lxor_lor by done. done. }
  change (2 ^ 8) with 256 in *. rewrite (L 8) by (change (2 ^ 8) with 256; lia).
  rewrite (L 16) by (change (2 ^ 8) with 256; change (2 ^ 16) with 65536; lia).
  rewrite (L 24) by (change (2 ^ 8) with 256; change (2 ^ 16) with 65536; change (2 ^ 24) with 16777216; lia).
  change (2 ^ 8) with 256. change (2 ^ 16) with 65536. change (2 ^ 24) with 16777216.
  unfold le_value. lia.
Qed.

(** The source MAC the switch builds gives the server the client's address. *)
Lemma ip_from_eth_mac ip : in_uw 32 ip -> ip_from_eth (mac_of (ntohl ip)) = ip.
Proof.
  intros Hip. unfold ip_from_eth, mac_of, byte_at.
  pose proof (le_bytes_range 4 ip) as Hr. pose proof (le_value_bytes_small 4 ip Hip) as Hv.
  assert (E : rev (le_bytes 6 (ntohl ip)) = [0; 0] ++ le_bytes 4 ip).
  { assert (E4 : le_bytes 4 (ntohl ip) = rev (le_bytes 4 ip)).
    { unfold ntohl, htonl. rewrite <- (le_bytes_value (rev (le_bytes 4 ip))) at 2; [|by apply Forall_rev].
      by rewrite length_rev, length_le_bytes. }
    assert (E6 : le_bytes 6 (ntohl ip) = le_bytes 4 (ntohl ip) ++ [0; 0]).
    { pose proof (htonl_range ip) as Hh. change (htonl ip) with (ntohl ip) in Hh. unfold in_uw in Hh.
      change (2 ^ 32) with 4294967296 in Hh. unfold le_bytes. cbn [app]. do 4 f_equal. f_equal.
      - rewrite !Z.div_div by lia. rewrite Z.div_small by lia. done.
      - f_equal. rewrite !Z.div_div by lia. rewrite Z.div_small by lia. done. }
    rewrite E6, E4, rev_app_distr, rev_involutive. done. }
  rewrite E. destruct (le_bytes 4 ip) as [|b0 [|b1 [|b2 [|b3 [|b4 r]]]]] eqn:Eb;
    try (pose proof (length_le_bytes 4 ip) as L; rewrite Eb in L; simpl in L; lia).
  cbn [app nth]. rewrite !list.Forall_cons in Hr. destruct Hr as (H0 & H1 & H2 & H3 & _).
  rewrite lor_bytes by done. rewrite Hv. by apply uw_small.
Qed.

Lemma ip_addr_range i : in_uw 32 (ip_addr i).
Proof.
  unfold ip_addr. assert (HF : Forall (fun l => 0 <= le_value l < 2 ^ 32) ip_list)
    by (apply (bool_decide_unpack _); vm_compute; exact I).
  destruct (nth_in_or_default (Z.to_nat i) ip_list []) as [H| ->].
  - rewrite list.Forall_forall in HF. apply HF. by apply list_elem_of_In.
  - apply (bool_decide_unpack (0 <= le_value [] < 2 ^ 32)). vm_compute. exact I.
Qed.

(** A modifier that leaves the message header alone and adds a bounded number
    of bytes. *)
Definition modifier_ok (md : modifier) : Prop :=
  match md with
  | None => True
  | Some m => forall pt h, (m pt h).1 = h /\ Z.of_nat (length (m pt h).2) <= 1400
  end.

Definition post_of_action (action : Z) : Z :=
  if action =? ACQUIRE_LOCK then POST_LOCK_ACQUIRE else POST_LOCK_FREE.

(** The bytes the modifier adds to a request. *)
Definition appended (md : modifier) (hid txn action id m : Z) : list Z :=
  match md with
  | None => []
  | Some f => (f (post_of_action action) (set_request (f_msg (header_template hid)) id action m txn)).2
  end.

Lemma parse_request hid tx md txn action id m port sip slots hd tl :
  1 <= hid <= 8 -> in_uw 32 txn -> in_uw 32 id ->
  action = ACQUIRE_LOCK \/ action = RELEASE_LOCK -> modifier_ok md ->
  mbuf_to_node (to_primary port sip slots hd tl (generate_header hid tx md txn action id m)) =
    Node action m hid txn id (ip_addr (hid - 1)) PRIMARY_BACKUP (appended md hid txn action id m).
Proof.
  intros Hh Ht Hi Ha Hmd. unfold generate_header, mbuf_to_node, to_primary, appended.
  pose proof (ip_from_eth_mac _ (ip_addr_range (hid - 1))) as Hip.
  assert (Hu : u8 hid = hid) by (apply uw_small; unfold in_uw; lia).
  destruct md as [md|].
  - set (h0 := set_request _ _ _ _ _).
    assert ((if action =? ACQUIRE_LOCK then Some POST_LOCK_ACQUIRE
      else if action =? RELEASE_LOCK then Some POST_LOCK_FREE else None) = Some (post_of_action action)) as ->
      by (destruct Ha as [-> | ->]; reflexivity).
    cbn [f_msg]. destruct (Hmd (post_of_action action) h0) as [E1 E2].
    destruct (md (post_of_action action) h0) as [h extra] eqn:Em. cbn [fst snd] in *. subst h.
    cbn [forward_to_server_action set_as_primary_action fix_src_port_action f_msg eth_src eth_dst ip_src_addr
      data_len f_body h_op_type h_mode h_client_id h_txn_id h_lock_id].
    cbn [h0 set_request f_msg header_template h_op_type h_mode h_client_id h_txn_id h_lock_id ip_src_addr data_len].
    rewrite !ntohl_htonl by done. rewrite Hip, Hu. f_equal.
    change sizeof_header_template with 76.
    rewrite (uw_small 16) by (unfold in_uw; change (2 ^ 16) with 65536; lia).
    destruct (Z.ltb_spec 76 (76 + Z.of_nat (length extra))) as [_|Hle].
    + rewrite take_ge; [done|lia].
    + by destruct extra; [|simpl in Hle; lia].
  - cbn [forward_to_server_action set_as_primary_action fix_src_port_action f_msg eth_src eth_dst ip_src_addr
      data_len f_body h_op_type h_mode h_client_id h_txn_id h_lock_id set_request header_template].
    rewrite !ntohl_htonl by done. rewrite Hip, Hu. done.
Qed.

(** C28: a request and its grant survive the wire. What the lock server reads
    from the frame of a client's acquire or release, after the switch turned it
    towards the primary server, is the client's request: its host, its network
    address, the transaction, the lock, the mode and the bytes the modifier
    appended. The grant the server makes of that node is addressed to that
    client and carries the same transaction, lock and mode, with the lengths of
    the IP and UDP headers and of the buffer in agreement. *)
Theorem request_grant_roundtrip hid tx md txn action id m port sip slots hd tl stx transferred ncnt :
  1 <= hid <= 8 -> in_uw 32 txn -> in_uw 32 id ->
  action = ACQUIRE_LOCK \/ action = RELEASE_LOCK -> modifier_ok md ->
  let extra := appended md hid txn action id m in
  let node := mbuf_to_node (to_primary port sip slots hd tl (generate_header hid tx md txn action id m)) in
  let g := generate_header_lock_server 1 stx node GRANT_LOCK_FROM_SERVER transferred ncnt LK_PORT in
  node = Node action m hid txn id (ip_addr (hid - 1)) PRIMARY_BACKUP extra /\
  ip_dst_addr g = ip_addr (hid - 1) /\
  ntohl (h_lock_id (f_msg g)) = id /\ ntohl (h_txn_id (f_msg g)) = txn /\
  h_client_id (f_msg g) = hid /\ h_mode (f_msg g) = m /\ f_body g = extra /\
  data_len g = sizeof_header_template + Z.of_nat (length extra) /\
  ip_total_length g = data_len g - sizeof_ether_hdr /\
  udp_dgram_len g = ip_total_length g - sizeof_ipv4_hdr.
Proof.
  intros Hh Ht Hi Ha Hmd extra. cbv zeta. rewrite parse_request by done. fold extra.
  assert (Hl : Z.of_nat (length extra) <= 1400).
  { unfold extra, appended. destruct md as [md|]; [apply Hmd|simpl; lia]. }
  split; [done|]. cbn [generate_header_lock_server ip_dst_addr ip_src f_msg h_lock_id h_txn_id lock_id txn_id
    h_client_id client_id h_mode mode f_body payload data_len ip_total_length udp_dgram_len].
  rewrite !ntohl_htonl by done. unfold payload_size. cbn [payload].
  change sizeof_header_template with 76. change ip_hdr_total_length with 62. change udp_hdr_dgram_len with 42.
  rewrite !(uw_small 16) by (unfold in_uw; change (2 ^ 16) with 65536; lia).
  change sizeof_ether_hdr with 14. change sizeof_ipv4_hdr with 20. split_and!; try done; lia.
Qed.

Lemma request_grant_roundtrip_witness :
  let md := Some (fun (_ : Z) (h : lock_post_header) => (h, [7; 8; 9])) in
  let extra := appended md 3 40000 RELEASE_LOCK 1234 EXCLUSIVE in
  let node := mbuf_to_node (to_primary 5001 167772682 10 0 0
    (generate_header 3 200 md 40000 RELEASE_LOCK 1234 EXCLUSIVE)) in
  let g := generate_header_lock_server 1 5 node GRANT_LOCK_FROM_SERVER 1 0 LK_PORT in
  node = Node RELEASE_LOCK EXCLUSIVE 3 40000 1234 (ip_addr (3 - 1)) PRIMARY_BACKUP extra /\
  ip_dst_addr g = ip_addr (3 - 1) /\
  ntohl (h_lock_id (f_msg g)) = 1234 /\ ntohl (h_txn_id (f_msg g)) = 40000 /\
  h_client_id (f_msg g) = 3 /\ h_mode (f_msg g) = EXCLUSIVE /\ f_body g = extra /\
  data_len g = sizeof_header_template + Z.of_nat (length extra) /\
  ip_total_length g = data_len g - sizeof_ether_hdr /\
  udp_dgram_len g = ip_total_length g - sizeof_ipv4_hdr.
Proof.
  apply (request_grant_roundtrip 3 200 (Some (fun _ h => (h, [7; 8; 9]))) 40000 RELEASE_LOCK 1234 EXCLUSIVE 5001
    167772682 10 0 0 5 1 0); try (unfold in_uw; lia); try (by right).
  intros pt h. split; [done|]. simpl. lia.
Defined.
