(* ===== verification/NetServer.v ===== *)
(** * NetServer: the NetLock lock server and its clients

    Models baseline/NetLock/lib/request.cc (the queues of the lock server),
    lock_server.cc (the primary and secondary roles), the dispatch of
    server/main.cc, and on the client side lib/lock.cc, the dispatcher of
    lib/net.cc and coroutine_wait_queue.cc.  The nodes of a queue are modified
    in place (a grant takes over the payload of the release), so pointers to
    them are positions in the queue; positions are used only while the queue
    keeps its shape.  Timers, counters and log lines are left out. *)

From S2P Require Import Prelude Types NetWire.

#[local] Open Scope prog_scope.

(** ** State of a lock server *)

Inductive queue_state := STATE_FREE | STATE_SHARED | STATE_EXCLUSIVE.

#[global] Instance queue_state_eq_dec : EqDecision queue_state.
Proof. solve_decision. Defined.

Record NodeQueuePerLock := NQ {
  node_queue : list lock_queue_node;
  queue_mutex : bool;               (** held *)
  shared_counter : Z;
  exclusive_counter : Z;
  lock_state : queue_state;
  seqnum : Z;
  ticket_id : Z;
}.

(** The queues and the number of packets the core sent. *)
Record server := Server { lock_queue : gmap Z NodeQueuePerLock; n_tx : Z }.

(** What the server does besides changing its state: frames, in order. *)
Abbreviation N := (M server frame).

Record netcfg := NetCfg {
  LOCALHOST_ID : Z;
  MAX_LOCK_NUM : Z;
  len_in_switch : gmap Z Z;         (** initialised entries of the array *)
  packet_modify : modifier;
}.

(** ** request.cc *)

Definition with_queue (id : Z) (f : NodeQueuePerLock -> NodeQueuePerLock) : N unit :=
  s <- get ;;
  match lock_queue s !! id with
  | Some q => put (Server (<[id := f q]> (lock_queue s)) (n_tx s))
  | None => fail FaultNull
  end.

Definition read_queue {A} (id : Z) (f : NodeQueuePerLock -> A) : N A :=
  s <- get ;;
  match lock_queue s !! id with
  | Some q => ret (f q)
  | None => fail FaultNull
  end.

Definition set_nodes (l : list lock_queue_node) (q : NodeQueuePerLock) : NodeQueuePerLock :=
  NQ l (queue_mutex q) (shared_counter q) (exclusive_counter q) (lock_state q) (seqnum q) (ticket_id q).
Definition set_lock (b : bool) (ticket : Z) (q : NodeQueuePerLock) : NodeQueuePerLock :=
  NQ (node_queue q) b (shared_counter q) (exclusive_counter q) (lock_state q) (seqnum q) ticket.
Definition set_shared (n : Z) (q : NodeQueuePerLock) : NodeQueuePerLock :=
  NQ (node_queue q) (queue_mutex q) n (exclusive_counter q) (lock_state q) (seqnum q) (ticket_id q).
Definition set_exclusive (n : Z) (q : NodeQueuePerLock) : NodeQueuePerLock :=
  NQ (node_queue q) (queue_mutex q) (shared_counter q) n (lock_state q) (seqnum q) (ticket_id q).
Definition set_state (st : queue_state) (q : NodeQueuePerLock) : NodeQueuePerLock :=
  NQ (node_queue q) (queue_mutex q) (shared_counter q) (exclusive_counter q) st (seqnum q) (ticket_id q).
Definition set_seqnum (n : Z) (q : NodeQueuePerLock) : NodeQueuePerLock :=
  NQ (node_queue q) (queue_mutex q) (shared_counter q) (exclusive_counter q) (lock_state q) n (ticket_id q).

Definition new_queue : NodeQueuePerLock := NQ [] false 0 0 STATE_FREE 0 0.

Definition init_lock_queue (id : Z) : N unit :=
  s <- get ;;
  match lock_queue s !! id with
  | Some _ => ret tt
  | None => put (Server (<[id := new_queue]> (lock_queue s)) (n_tx s))
  end.

(** The test at the start of [enqueue_request], [block_queue] and
    [unblock_queue]. *)
Definition known_lock (id : Z) : N unit :=
  s <- get ;;
  match lock_queue s !! id with Some _ => ret tt | None => fail FaultExit end.

Definition enqueue_request (node : lock_queue_node) : N unit :=
  known_lock (lock_id node) ;;
  with_queue (lock_id node) (fun q => set_nodes (node_queue q ++ [node]) q).

Definition dequeue_request (id : Z) : N (option lock_queue_node) :=
  l <- read_queue id node_queue ;;
  match l with
  | [] => ret None
  | n :: l' => with_queue id (set_nodes l') ;; ret (Some n)
  end.

Definition get_head_request (id : Z) : N (option lock_queue_node) :=
  read_queue id (fun q => head (node_queue q)).

(** The positions of the shared requests, from position [i]. *)
Fixpoint shared_positions (i : nat) (l : list lock_queue_node) : list nat :=
  match l with
  | [] => []
  | n :: l' => if mode n =? SHARED then i :: shared_positions (S i) l' else shared_positions (S i) l'
  end.

Definition get_shared_requests (id : Z) : N (list nat) :=
  read_queue id (fun q => shared_positions 0 (node_queue q)).

Definition get_request (id : Z) (i : nat) : N lock_queue_node :=
  l <- read_queue id node_queue ;;
  match l !! i with Some n => ret n | None => fail FaultBounds end.

Definition get_shared_counter (id : Z) : N Z := read_queue id shared_counter.
Definition get_exclusive_counter (id : Z) : N Z := read_queue id exclusive_counter.
Definition get_lock_state (id : Z) : N queue_state := read_queue id lock_state.
Definition set_lock_state (id : Z) (st : queue_state) : N unit := with_queue id (set_state st).
Definition add_shared_counter (id : Z) : N unit :=
  with_queue id (fun q => set_shared (shared_counter q + 1) q).
Definition sub_shared_counter (id : Z) : N unit :=
  with_queue id (fun q => set_shared (shared_counter q - 1) q).
Definition add_exclusive_counter (id : Z) : N unit :=
  with_queue id (fun q => set_exclusive (exclusive_counter q + 1) q).
Definition sub_exclusive_counter (id : Z) : N unit :=
  with_queue id (fun q => set_exclusive (exclusive_counter q - 1) q).

Definition block_queue (id : Z) : N unit :=
  known_lock id ;;
  held <- read_queue id queue_mutex ;;
  if held : bool then fail FaultDeadlock
  else with_queue id (fun q => set_lock true (ticket_id q + 1) q).

Definition unblock_queue (id : Z) : N unit :=
  known_lock id ;;
  held <- read_queue id queue_mutex ;;
  if held : bool then with_queue id (fun q => set_lock false (ticket_id q) q)
  else fail FaultUnlock.

Definition get_ticket_id (id : Z) : N Z := read_queue id ticket_id.
Definition get_lock_queue_size (id : Z) : N Z :=
  read_queue id (fun q => Z.of_nat (length (node_queue q))).

Definition node_is (id requester host op : Z) (n : lock_queue_node) : bool :=
  (client_id n =? host) && (lock_id n =? id) && (txn_id n =? requester) && (mode n =? op).

(** The position of the erased request, and 0 when there is none. *)
Definition erase_lock_request (id requester host op : Z) : N Z :=
  l <- read_queue id node_queue ;;
  match erase_first (node_is id requester host op) l with
  | Some (i, l') => with_queue id (set_nodes l') ;; ret (Z.of_nat i)
  | None => ret 0
  end.

Definition add_seqnum (id : Z) : N unit := with_queue id (fun q => set_seqnum (seqnum q + 1) q).
Definition get_seqnum (id : Z) : N Z := read_queue id seqnum.

Definition init_all_locks (cfg : netcfg) : N unit :=
  for_each (seqZ 0 (MAX_LOCK_NUM cfg)) init_lock_queue.

(** Assignments to [payload] and [payload_size] of a queued node. *)
Definition set_payload (p : list Z) (n : lock_queue_node) : lock_queue_node :=
  Node (op_type n) (mode n) (client_id n) (txn_id n) (lock_id n) (ip_src n) (role n) p.

Definition write_payload (id : Z) (i : nat) (p : list Z) : N unit :=
  with_queue id (fun q => set_nodes (alter (set_payload p) i (node_queue q)) q).

(** ** lock_server.cc *)

Section server.
Context (cfg : netcfg).

Definition net_send_lock_server (node : lock_queue_node) (action transferred ncnt : Z) : N unit :=
  s <- get ;;
  emit (generate_header_lock_server (LOCALHOST_ID cfg) (n_tx s) node action transferred (u8 ncnt) LK_PORT) ;;
  put (Server (lock_queue s) (u32 (n_tx s + 1))).

Definition state_is (a b : queue_state) : bool := bool_decide (a = b).

Definition process_primary_acquire (node : lock_queue_node) : N unit :=
  let id := lock_id node in
  block_queue id ;;
  enqueue_request node ;;
  if mode node =? SHARED then
    st <- get_lock_state id ;;
    if state_is st STATE_FREE || state_is st STATE_SHARED then
      set_lock_state id STATE_SHARED ;;
      add_shared_counter id ;;
      sn <- get_seqnum id ;;
      net_send_lock_server node GRANT_LOCK_FROM_SERVER 0 sn ;;
      unblock_queue id
    else unblock_queue id
  else if mode node =? EXCLUSIVE then
    st <- get_lock_state id ;;
    if state_is st STATE_FREE then
      set_lock_state id STATE_EXCLUSIVE ;;
      sn <- get_seqnum id ;;
      net_send_lock_server node GRANT_LOCK_FROM_SERVER 0 sn ;;
      unblock_queue id
    else unblock_queue id
  else unblock_queue id.

(** Grant the queued request at position [i], which takes over the payload
    of the release. *)
Definition grant_at (id : Z) (p : list Z) (i : nat) : N unit :=
  write_payload id i p ;;
  n <- get_request id i ;;
  sn <- get_seqnum id ;;
  net_send_lock_server n GRANT_LOCK_FROM_SERVER 1 sn.

Definition process_primary_release (node : lock_queue_node) : N unit :=
  let id := lock_id node in
  block_queue id ;;
  r <- erase_lock_request id (txn_id node) (client_id node) (mode node) ;;
  if mode node =? SHARED then
    st <- get_lock_state id ;;
    if state_is st STATE_SHARED then
      sub_shared_counter id ;;
      sc <- get_shared_counter id ;;
      if 0 <? sc then unblock_queue id
      else
        set_lock_state id STATE_FREE ;;
        cur_head <- get_head_request id ;;
        match cur_head with
        | Some h =>
            if mode h =? EXCLUSIVE then
              set_lock_state id STATE_EXCLUSIVE ;;
              grant_at id (payload node) 0 ;;
              unblock_queue id
            else if mode h =? SHARED then unblock_queue id
            else add_seqnum id ;; unblock_queue id
        | None => add_seqnum id ;; unblock_queue id
        end
    else unblock_queue id
  else if mode node =? EXCLUSIVE then
    st <- get_lock_state id ;;
    if state_is st STATE_EXCLUSIVE && (r =? 0) then
      set_lock_state id STATE_FREE ;;
      cur_head <- get_head_request id ;;
      match cur_head with
      | Some h =>
          if mode h =? EXCLUSIVE then
            set_lock_state id STATE_EXCLUSIVE ;;
            grant_at id (payload node) 0 ;;
            unblock_queue id
          else if mode h =? SHARED then
            set_lock_state id STATE_SHARED ;;
            shared_head <- get_shared_requests id ;;
            for_each shared_head (fun i => add_shared_counter id ;; grant_at id (payload node) i) ;;
            unblock_queue id
          else add_seqnum id ;; unblock_queue id
      | None => add_seqnum id ;; unblock_queue id
      end
    else unblock_queue id
  else unblock_queue id.

Definition process_secondary_acquire (node : lock_queue_node) : N unit :=
  block_queue (lock_id node) ;;
  enqueue_request node ;;
  unblock_queue (lock_id node).

(** Return the oldest requests to the switch, as many as fit there. *)
Definition process_secondary_release (node : lock_queue_node) : N unit :=
  let id := lock_id node in
  block_queue id ;;
  len_in_server <- get_lock_queue_size id ;;
  match len_in_switch cfg !! id with
  | None => fail FaultBounds
  | Some len_on_switch =>
      let dequeue_length := if len_in_server <? len_on_switch then len_in_server else len_on_switch in
      for_each (seq 0 (Z.to_nat dequeue_length)) (fun i =>
        n <- get_request id i ;;
        sn <- get_seqnum id ;;
        net_send_lock_server n PUSH_BACK_LOCK 0 sn) ;;
      for_each (seq 0 (Z.to_nat dequeue_length)) (fun _ =>
        n <- dequeue_request id ;;
        match n with Some _ => ret tt | None => fail FaultNull end) ;;
      unblock_queue id
  end.

Definition process_primary_backup (node : lock_queue_node) : N unit :=
  if op_type node =? ACQUIRE_LOCK then process_primary_acquire node
  else if op_type node =? RELEASE_LOCK then process_primary_release node
  else ret tt.

Definition process_secondary_backup (node : lock_queue_node) : N unit :=
  if (op_type node =? ACQUIRE_LOCK) || (op_type node =? PUSH_BACK_LOCK) then
    process_secondary_acquire node
  else if op_type node =? RELEASE_LOCK then process_secondary_release node
  else ret tt.

(** ** server/main.cc: one frame of [rx_loop] *)

Definition rx_frame (f : frame) : N unit :=
  let node := mbuf_to_node f in
  if role node =? PRIMARY_BACKUP then process_primary_backup node
  else if role node =? SECONDARY_BACKUP then process_secondary_backup node
  else ret tt.

Definition rx_burst (fs : list frame) : N unit := for_each fs rx_frame.
End server.

(** [init_len_in_switch]: 10 slots per lock, or what the lines of the file
    say; the array is not initialised otherwise. *)
Definition init_len_in_switch (map_obj : bool) (max : Z) (lines : list (Z * Z)) : gmap Z Z :=
  if map_obj then fold_left (fun m '(id, n) => <[id := n]> m) lines ∅
  else list_to_map (map (fun i => (i, 10)) (seqZ 0 max)).

(** ** The client *)

Record client := Client { lock_wait_table : gmap Z (gmap Z bool); c_tx : Z }.

Inductive cevent := CSent (f : frame) | Signalled (id requester : Z).

Abbreviation C := (M client cevent).

Definition init_lock_wait_table (id : Z) : C unit :=
  s <- get ;;
  match lock_wait_table s !! id with
  | Some _ => ret tt
  | None => put (Client (<[id := ∅]> (lock_wait_table s)) (c_tx s))
  end.

(** The flags of a lock and of a requester; the process exits without them. *)
Definition wait_flags (id : Z) : C (gmap Z bool) :=
  s <- get ;;
  match lock_wait_table s !! id with Some w => ret w | None => fail FaultExit end.

Definition set_flags (id : Z) (w : gmap Z bool) : C unit :=
  s <- get ;;
  put (Client (<[id := w]> (lock_wait_table s)) (c_tx s)).

Definition wait_flag (id requester : Z) : C bool :=
  w <- wait_flags id ;;
  match w !! requester with Some b => ret b | None => fail FaultExit end.

(** [insert] keeps an existing flag. *)
Definition add_to_wait_queue (id requester : Z) : C unit :=
  w <- wait_flags id ;;
  set_flags id (match w !! requester with Some _ => w | None => <[requester := false]> w end).

Definition coroutine_wait_queue_signal (id requester : Z) : C unit :=
  w <- wait_flags id ;;
  wait_flag id requester ;;
  set_flags id (<[requester := true]> w) ;;
  emit (Signalled id requester).

(** A request handle and its two halves. *)
Definition lock_req_of (id requester : Z) : Z := u64 (Z.lor (Z.shiftl id 32) requester).

(** The busy-loop variant: a grant is reported once. *)
Definition lock_req_granted (req : Z) : C bool :=
  let id := u32 (Z.shiftr req 32) in
  let requester := u32 req in
  w <- wait_flags id ;;
  result <- wait_flag id requester ;;
  (if result : bool then set_flags id (<[requester := false]> w) else ret tt) ;;
  ret result.

Section client.
Context (hid : Z) (md : modifier).
(** The application's packet preprocessor (lock.cc). *)
Context (packet_preprocess : option (Z -> lock_post_header -> lock_post_header)).

Definition net_send (txn action id lock_type : Z) : C unit :=
  s <- get ;;
  emit (CSent (generate_header hid (c_tx s) md txn action id lock_type)) ;;
  put (Client (lock_wait_table s) (u32 (c_tx s + 1))).

(** lock.cc; the operation is an enumerator of [lock_state]. *)
Definition lock_acquire_async (lkey requester : Z) (op : Types.lock_state) : C Z :=
  add_to_wait_queue lkey requester ;;
  match op with
  | LOCK_EXCL => net_send requester ACQUIRE_LOCK lkey EXCLUSIVE
  | LOCK_SHARED => net_send requester ACQUIRE_LOCK lkey SHARED
  | _ => ret tt
  end ;;
  ret (lock_req_of lkey requester).

Definition lock_release (lkey requester : Z) (op : Types.lock_state) : C Z :=
  match op with
  | LOCK_EXCL => net_send requester RELEASE_LOCK lkey EXCLUSIVE
  | LOCK_SHARED => net_send requester RELEASE_LOCK lkey SHARED
  | _ => ret tt
  end ;;
  ret 0.

Definition lock_local_init (id : Z) : C Z := init_lock_wait_table id ;; ret 0.

Definition is_grant (h : lock_post_header) : bool :=
  (h_op_type h =? DIRECT_GRANT_FROM_SWITCH) || (h_op_type h =? GRANT_LOCK_FROM_SERVER).

(** The dispatcher registered for grants.  The identifiers are read before
    the preprocessor runs, the operation after. *)
Definition lock_packet_dispatch (h : lock_post_header) : C Z :=
  let id := ntohl (h_lock_id h) in
  let txn := ntohl (h_txn_id h) in
  let h' := match packet_preprocess with
            | Some pre => if is_grant h then pre POST_LOCK_GRANT_WITH_AGENT h else h
            | None => h
            end in
  if is_grant h' then coroutine_wait_queue_signal id txn ;; ret 0
  else ret 0.

(** net.cc: [registered] says whether [lock_setup] registered the grant
    dispatcher; [mem_diff] is the application's dispatcher of memory
    differences. *)
Definition packet_dispatch (registered : bool) (mem_diff : option (lock_post_header -> C unit))
    (h : lock_post_header) : C Z :=
  (if (h_op_type h =? GRANT_LOCK_FROM_SERVER) || (h_op_type h =? DIRECT_GRANT_FROM_SWITCH) then
     (if registered then lock_packet_dispatch h ;; ret tt else ret tt)
   else if h_op_type h =? MEM_DIFF then
     match mem_diff with None => ret tt | Some d => d h end
   else ret tt) ;;
  ret 0.

Definition net_poll_packets (registered : bool) (mem_diff : option (lock_post_header -> C unit))
    (fs : list frame) : C Z :=
  for_each fs (fun f => packet_dispatch registered mem_diff (f_msg f) ;; ret tt) ;;
  ret (Z.of_nat (length fs)).
End client.
