(* ===== verification/NetRefine.v ===== *)
(** * NetRefine: the NetLock primary server implements the reader/writer lock

    The system here is the primary lock server together with its eight client
    hosts: a client's request travels as a frame through the switch to the
    server, and every frame the server sends is delivered to the host it is
    addressed to, where a grant raises a wait flag.  Seen through the flags that
    were raised, the system is a lock manager in the sense of [RwSpec], with
    queued requests withdrawn or not.  Unlike ParLock and the FissLock agent,
    the holders stay in the queue. *)

From S2P Require Import Prelude RwSpec Types NetWire NetServer.

#[local] Open Scope prog_scope.

(** ** Encodings *)

Definition lock_op (o : rw) : Types.lock_state := match o with Shared => LOCK_SHARED | Excl => LOCK_EXCL end.
Definition mode_val (o : rw) : Z := match o with Shared => SHARED | Excl => EXCLUSIVE end.
Definition rw_of (m : Z) : rw := if m =? SHARED then Shared else Excl.

(** The request a queued node stands for. *)
Definition key (n : lock_queue_node) : rw * req := (rw_of (mode n), (client_id n, txn_id n)).

Definition node_shared (n : lock_queue_node) : bool := mode n =? SHARED.

Definition node_ok (id : Z) (n : lock_queue_node) : Prop :=
  lock_id n = id /\ (mode n = SHARED \/ mode n = EXCLUSIVE) /\ 1 <= client_id n <= 8 /\
  in_uw 32 (txn_id n) /\ ip_src n = ip_addr (client_id n - 1).

Lemma node_shared_key n : node_shared n = is_shared (key n).
Proof. unfold node_shared, key, rw_of. simpl. by destruct (mode n =? SHARED). Qed.

Lemma filter_key ns :
  filterb is_shared (map key ns) = map key (filterb node_shared ns) /\
  filterb (fun w => negb (is_shared w)) (map key ns) = map key (filterb (fun n => negb (node_shared n)) ns).
Proof.
  rewrite !filterb_map. split; f_equal; apply filter_ext; intros n; by rewrite node_shared_key.
Qed.

Lemma key_payload p n : key (set_payload p n) = key n.
Proof. done. Qed.

Lemma node_ok_payload id p n : node_ok id n -> node_ok id (set_payload p n).
Proof. done. Qed.

Lemma node_is_key id o r n :
  node_ok id n -> node_is id (snd r) (fst r) (mode_val o) n = bool_decide (key n = (o, r)).
Proof.
  intros (E & Hm & _). destruct r as [h t]. unfold node_is, key. simpl. rewrite E, Z.eqb_refl, andb_true_r.
  destruct (bool_decide_reflect ((rw_of (mode n), (client_id n, txn_id n)) = (o, (h, t)))) as [[= Eo Eh Et]|Hne].
  - rewrite Eh, Et, !Z.eqb_refl. simpl. apply Z.eqb_eq. by destruct Hm as [Hm|Hm]; rewrite Hm in *; subst o.
  - destruct (Z.eqb_spec (client_id n) h) as [<-|], (Z.eqb_spec (txn_id n) t) as [<-|]; try done. simpl.
    apply Z.eqb_neq. intros E'. apply Hne. unfold rw_of. rewrite E'. by destruct o.
Qed.

(** Erasing a request from the queue is erasing its key. *)
Lemma erase_key id o r ns :
  Forall (node_ok id) ns ->
  match erase_first (node_is id (snd r) (fst r) (mode_val o)) ns with
  | Some (i, ns') => erase_first (fun w => bool_decide (w = (o, r))) (map key ns) = Some (i, map key ns')
  | None => erase_first (fun w => bool_decide (w = (o, r))) (map key ns) = None
  end.
Proof.
  intros HF. rewrite (erase_first_map key _ (node_is id (snd r) (fst r) (mode_val o))).
  - by destruct (erase_first _ ns) as [[i ns']|].
  - intros n Hn. rewrite list.Forall_forall in HF. by rewrite (node_is_key id) by auto.
Qed.

(** ** Executing the server on one lock *)

Section exec.
Context (cfg : netcfg) (id : Z) (T : gmap Z NodeQueuePerLock).

(** The server whose lock [id] has queue [q]. *)
Definition st_of (x : Z) (q : NodeQueuePerLock) : server := Server (<[id := q]> T) x.
#[local] Abbreviation st := st_of.

Lemma net_with_queue_eq x q f : with_queue id f (st x q) = Ok (tt, st x (f q), []).
Proof.
  unfold with_queue, bind, get, st_of. simpl. rewrite lookup_insert_eq. unfold put.
  by rewrite insert_insert_eq.
Qed.

Lemma net_read_queue_eq {A} x q (f : NodeQueuePerLock -> A) : read_queue id f (st x q) = Ok (f q, st x q, []).
Proof. unfold read_queue, bind, get, st_of. simpl. by rewrite lookup_insert_eq. Qed.

Lemma known_eq x q : known_lock id (st x q) = Ok (tt, st x q, []).
Proof. unfold known_lock, bind, get, st_of. simpl. by rewrite lookup_insert_eq. Qed.

Lemma net_block_eq x q :
  queue_mutex q = false -> block_queue id (st x q) = Ok (tt, st x (set_lock true (ticket_id q + 1) q), []).
Proof.
  intros E. unfold block_queue. rewrite (bind_ok _ _ _ _ _ _ (known_eq x q)).
  rewrite (bind_ok _ _ _ _ _ _ (net_read_queue_eq x q _)), E. by rewrite net_with_queue_eq.
Qed.

Lemma net_unblock_eq x q :
  queue_mutex q = true -> unblock_queue id (st x q) = Ok (tt, st x (set_lock false (ticket_id q) q), []).
Proof.
  intros E. unfold unblock_queue. rewrite (bind_ok _ _ _ _ _ _ (known_eq x q)).
  rewrite (bind_ok _ _ _ _ _ _ (net_read_queue_eq x q _)), E. by rewrite net_with_queue_eq.
Qed.

Lemma enqueue_eq x q n :
  lock_id n = id -> enqueue_request n (st x q) = Ok (tt, st x (set_nodes (node_queue q ++ [n]) q), []).
Proof.
  unfold enqueue_request. intros ->. rewrite (bind_ok _ _ _ _ _ _ (known_eq x q)). by rewrite net_with_queue_eq.
Qed.

Lemma net_erase_eq x q r o h :
  erase_lock_request id r h o (st x q) =
    match erase_first (node_is id r h o) (node_queue q) with
    | Some (i, l') => Ok (Z.of_nat i, st x (set_nodes l' q), [])
    | None => Ok (0, st x q, [])
    end.
Proof.
  unfold erase_lock_request. rewrite (bind_ok _ _ _ _ _ _ (net_read_queue_eq x q _)).
  destruct (erase_first _ _) as [[i l']|]; [|done].
  by rewrite (bind_ok _ _ _ _ _ _ (net_with_queue_eq x q _)).
Qed.

(** The frame of a grant. *)
Definition gframe (tr x sn : Z) (n : lock_queue_node) : frame :=
  generate_header_lock_server (LOCALHOST_ID cfg) x n GRANT_LOCK_FROM_SERVER tr (u8 sn) LK_PORT.

Lemma grant_eq x q n tr sn :
  net_send_lock_server cfg n GRANT_LOCK_FROM_SERVER tr sn (st x q) =
    Ok (tt, st (u32 (x + 1)) q, [gframe tr x sn n]).
Proof. done. Qed.

Lemma grant_at_eq x q p i n :
  node_queue q !! i = Some n ->
  grant_at cfg id p i (st x q) =
    Ok (tt, st (u32 (x + 1)) (set_nodes (alter (set_payload p) i (node_queue q)) q),
        [gframe 1 x (seqnum q) (set_payload p n)]).
Proof.
  intros E. unfold grant_at, write_payload, get_request, get_seqnum.
  rewrite (bind_ok _ _ _ _ _ _ (net_with_queue_eq x q _)), bind_assoc.
  rewrite (bind_ok _ _ _ _ _ _ (net_read_queue_eq x _ _)).
  change (node_queue (set_nodes ?l q)) with l. rewrite list_lookup_alter_eq, E.
  cbn [fmap option_fmap option_map]. rewrite (bind_ok (ret _) _ _ _ _ _ eq_refl).
  by rewrite (bind_ok _ _ _ _ _ _ (net_read_queue_eq x _ _)), grant_eq.
Qed.

(** The frames of consecutive grants. *)
Fixpoint gframes (tr x sn : Z) (ns : list lock_queue_node) : list frame :=
  match ns with
  | [] => []
  | n :: ns' => gframe tr x sn n :: gframes tr (u32 (x + 1)) sn ns'
  end.

Definition take_over (p : list Z) (n : lock_queue_node) : lock_queue_node :=
  if node_shared n then set_payload p n else n.

(** The loop that grants every shared request of the queue. *)
Lemma net_grant_loop_eq p suf pre x q :
  node_queue q = pre ++ suf ->
  exists x', for_each (shared_positions (length pre) suf)
      (fun i => add_shared_counter id ;; grant_at cfg id p i) (st x q) =
    Ok (tt, st x' (set_shared (shared_counter q + Z.of_nat (length (filterb node_shared suf)))
                    (set_nodes (pre ++ map (take_over p) suf) q)),
        gframes 1 x (seqnum q) (map (set_payload p) (filterb node_shared suf))).
Proof.
  revert pre x q. induction suf as [|n suf IH]; intros pre x q Hq.
  - exists x. simpl. rewrite Z.add_0_r, <- Hq. by destruct q.
  - cbn [shared_positions filterb map]. unfold take_over at 1. change (mode n =? SHARED) with (node_shared n).
    destruct (node_shared n) eqn:En; cbn [for_each map gframes length].
    + rewrite bind_assoc. unfold add_shared_counter at 1. rewrite (bind_ok _ _ _ _ _ _ (net_with_queue_eq x q _)).
      assert (El : node_queue (set_shared (shared_counter q + 1) q) !! length pre = Some n)
        by (simpl; rewrite Hq; by apply list_lookup_middle).
      rewrite (bind_ok _ _ _ _ _ _ (grant_at_eq x (set_shared (shared_counter q + 1) q) p (length pre) n El)).
      set (q1 := set_nodes _ _).
      assert (Hq1 : node_queue q1 = (pre ++ [set_payload p n]) ++ suf).
      { unfold q1. simpl. rewrite Hq. rewrite <- app_assoc. simpl.
        rewrite <- (Nat.add_0_r (length pre)), list.alter_app_r. done. }
      specialize (IH (pre ++ [set_payload p n]) (u32 (x + 1)) q1 Hq1) as (x' & E).
      rewrite length_app, Nat.add_1_r in E. rewrite E. exists x'. simpl. rewrite <- app_assoc. do 4 f_equal.
      unfold set_shared, set_nodes. simpl. f_equal. lia.
    + specialize (IH (pre ++ [n]) x q) as (x' & E); [by rewrite <- app_assoc|].
      rewrite length_app, Nat.add_1_r in E. rewrite E. exists x'. by rewrite <- app_assoc.
Qed.
End exec.

(** One step of an execution: the first action of a sequence. *)
Ltac nstep :=
  match goal with
  | |- context [bind (with_queue ?i ?f) _ (st_of _ _ ?x ?q)] =>
      rewrite (bind_ok _ _ _ _ _ _ (net_with_queue_eq _ _ x q f))
  | |- context [bind (read_queue ?i ?f) _ (st_of _ _ ?x ?q)] =>
      rewrite (bind_ok _ _ _ _ _ _ (net_read_queue_eq _ _ x q f))
  | |- context [bind (block_queue ?i) _ (st_of _ _ ?x ?q)] =>
      rewrite (bind_ok _ _ _ _ _ _ (net_block_eq _ _ x q ltac:(assumption || done)))
  | |- context [bind (enqueue_request ?n) _ (st_of _ _ ?x ?q)] =>
      rewrite (bind_ok _ _ _ _ _ _ (enqueue_eq _ _ x q n ltac:(assumption || done)))
  | |- context [bind (net_send_lock_server ?c ?n GRANT_LOCK_FROM_SERVER ?tr ?sn) _ (st_of _ _ ?x ?q)] =>
      rewrite (bind_ok _ _ _ _ _ _ (grant_eq c _ _ x q n tr sn))
  end.

Ltac nunfold := unfold get_lock_state, set_lock_state, get_head_request, get_shared_counter,
  add_shared_counter, sub_shared_counter, get_seqnum, add_seqnum.

(** ** The queue and the specification *)

Section queue.
Context (cfg : netcfg) (id : Z) (T : gmap Z NodeQueuePerLock).
#[local] Abbreviation st := (st_of id T).

(** The part of the relation that depends on the mode of the lock: where the
    holders and the waiters are in the queue. *)
Definition mode_rel (q : NodeQueuePerLock) (a : spec) : Prop :=
  let keys := map key (node_queue q) in
  match sp_mode a with
  | None => lock_state q = STATE_FREE /\ shared_counter q = 0 /\ keys = []
  | Some Excl => lock_state q = STATE_EXCLUSIVE /\ shared_counter q = 0 /\
      exists r, sp_holders a = {[ r ]} /\ keys = (Excl, r) :: sp_waiters a
  | Some Shared => lock_state q = STATE_SHARED /\
      sp_holders a = list_to_set (map snd (filterb is_shared keys)) /\
      filterb (fun w => negb (is_shared w)) keys = sp_waiters a /\
      shared_counter q = Z.of_nat (length (filterb is_shared keys))
  end.

Record q_rel (q : NodeQueuePerLock) (a : spec) : Prop := {
  qr_mutex : queue_mutex q = false;
  qr_nodes : Forall (node_ok id) (node_queue q);
  qr_nodup : NoDup (map snd (map key (node_queue q)));
  qr_mode : mode_rel q a;
}.

(** The frames [out] carry the grants [ws]. *)
Definition grants (out : list frame) (ws : list (rw * req)) : Prop :=
  exists tr x sn ns, out = gframes cfg tr x sn ns /\ Forall (node_ok id) ns /\ map key ns = ws.

Lemma grants_nil : grants [] [].
Proof. by exists 0, 0, 0, []. Qed.

Lemma grants_one tr x sn n : node_ok id n -> grants [gframe cfg tr x sn n] [key n].
Proof. intros H. exists tr, x, sn, [n]. split_and!; try done. by constructor. Qed.

Definition keyset (q : NodeQueuePerLock) : list (rw * req) := map key (node_queue q).

(** Who is in the queue holds or waits. *)
Lemma keys_known q a x :
  spec_wf a -> mode_rel q a -> x ∈ map snd (keyset q) ->
  x ∈ sp_holders a \/ x ∈ map snd (sp_waiters a).
Proof.
  unfold mode_rel. fold (keyset q). intros Hwf Hm Hx. destruct (sp_mode a) as [[]|].
  - destruct Hm as (_ & Hh & Hw & _). apply elem_of_waiter_snd in Hx as [[] Hx].
    + left. rewrite Hh. apply elem_of_list_to_set, elem_of_waiter_snd. exists Shared. by apply elem_of_filterb.
    + right. rewrite <- Hw. apply elem_of_waiter_snd. exists Excl. by apply elem_of_filterb.
  - destruct Hm as (_ & _ & r & Hh & Hk). rewrite Hk in Hx. simpl in Hx.
    apply elem_of_cons in Hx as [->|Hx]; [left; set_solver|by right].
  - destruct Hm as (_ & _ & Hk). rewrite Hk in Hx. set_solver.
Qed.

(** ** Acquire *)

Lemma q_rel_enqueue q q' n o r a a' :
  q_rel q a -> spec_wf a -> node_ok id n -> key n = (o, r) ->
  r ∉ sp_holders a -> r ∉ map snd (sp_waiters a) ->
  node_queue q' = node_queue q ++ [n] -> queue_mutex q' = false -> mode_rel q' a' -> q_rel q' a'.
Proof.
  intros Hr Hwf Hn Hk Hh Hw Eq Emx Hm. split; [done| | |done]; rewrite Eq.
  - apply Forall_app. split; [apply Hr|by apply Forall_singleton].
  - rewrite !map_app. apply list.NoDup_app. split; [apply Hr|]. cbn [map]. rewrite Hk.
    split; [|apply NoDup_singleton]. intros x Hx Hin. apply list_elem_of_singleton in Hin as ->. simpl in Hx.
    by destruct (keys_known q a r Hwf (qr_mode _ _ Hr) Hx).
Qed.

Lemma primary_acquire x q a n o r :
  q_rel q a -> spec_wf a -> node_ok id n -> key n = (o, r) ->
  r ∉ sp_holders a -> r ∉ map snd (sp_waiters a) ->
  exists x' q' out, process_primary_acquire cfg n (st x q) = Ok (tt, st x' q', out) /\
    grants out (spec_acquire o r a).2 /\ q_rel q' (spec_acquire o r a).1.
Proof.
  intros Hr Hwf Hn Hk Hh Hw. pose proof (qr_mutex _ _ Hr) as Hmx. pose proof (qr_mode _ _ Hr) as Hm.
  destruct Hn as (Hid & Hmd & Hn). pose proof (conj Hid (conj Hmd Hn)) as Hnok.
  unfold process_primary_acquire. rewrite Hid. nunfold. nstep. nstep.
  unfold mode_rel in Hm. unfold spec_acquire.
  assert (Hop : (mode n = SHARED /\ o = Shared) \/ (mode n = EXCLUSIVE /\ o = Excl)).
  { unfold key, rw_of in Hk. destruct Hmd as [E|E]; rewrite E in Hk; simpl in Hk; injection Hk as <- _; auto. }
  assert (Happ : map key (node_queue q ++ [n]) = map key (node_queue q) ++ [(o, r)])
    by (rewrite map_app; cbn [map]; by rewrite Hk).
  destruct Hop as [[Em ->]|[Em ->]]; rewrite Em;
    [change (SHARED =? SHARED) with true|change (EXCLUSIVE =? SHARED) with false;
      change (EXCLUSIVE =? EXCLUSIVE) with true]; cbv iota; nstep;
    cbn [lock_state set_nodes set_lock]; destruct (sp_mode a) as [[]|] eqn:Esm.
  - destruct Hm as (Es & Eh & Ew & Ec). rewrite Es. change (_ || _) with true. cbv iota. nstep. nstep. nstep. nstep.
    rewrite net_unblock_eq by done. do 3 eexists. split; [reflexivity|]. simpl snd. split.
    + rewrite <- Hk. by apply grants_one.
    + eapply (q_rel_enqueue q); eauto. unfold mode_rel. cbn [sp_mode sp_holders sp_waiters]. simpl node_queue.
      rewrite Happ, !List.filter_app. simpl. split; [done|]. rewrite map_app, length_app, app_nil_r.
      split_and!; [|done|simpl; lia]. rewrite Eh, list_to_set_app_L. set_solver.
  - destruct Hm as (Es & Ec & h & Eh & Ek). rewrite Es. change (_ || _) with false. cbv iota.
    rewrite net_unblock_eq by done. do 3 eexists. split; [reflexivity|]. split; [apply grants_nil|].
    eapply (q_rel_enqueue q); eauto. unfold mode_rel. simpl. rewrite Happ, Ek. eauto.
  - destruct Hm as (Es & Ec & Ek). rewrite Es. change (_ || _) with true. cbv iota. nstep. nstep. nstep. nstep.
    rewrite net_unblock_eq by done. do 3 eexists. split; [reflexivity|]. split.
    + rewrite <- Hk. by apply grants_one.
    + eapply (q_rel_enqueue q); eauto. unfold mode_rel. simpl. rewrite Happ, Ek. simpl.
      destruct (wf_free _ Hwf Esm) as [_ ->]. split_and!; try done; [set_solver|lia].
  - destruct Hm as (Es & Eh & Ew & Ec). rewrite Es. change (state_is _ _) with false. cbv iota.
    rewrite net_unblock_eq by done. do 3 eexists. split; [reflexivity|]. split; [apply grants_nil|].
    eapply (q_rel_enqueue q); eauto. unfold mode_rel. simpl. rewrite Happ, !List.filter_app. simpl.
    by rewrite app_nil_r, Ew.
  - destruct Hm as (Es & Ec & h & Eh & Ek). rewrite Es. change (state_is _ _) with false. cbv iota.
    rewrite net_unblock_eq by done. do 3 eexists. split; [reflexivity|]. split; [apply grants_nil|].
    eapply (q_rel_enqueue q); eauto. unfold mode_rel. simpl. rewrite Happ, Ek. eauto.
  - destruct Hm as (Es & Ec & Ek). rewrite Es. change (state_is _ _) with true. cbv iota. nstep. nstep. nstep.
    rewrite net_unblock_eq by done. do 3 eexists. split; [reflexivity|]. split.
    + rewrite <- Hk. by apply grants_one.
    + eapply (q_rel_enqueue q); eauto. unfold mode_rel. simpl. rewrite Happ, Ek.
      destruct (wf_free _ Hwf Esm) as [_ ->]. split_and!; try done. by exists r.
Qed.

(** ** Release *)

Lemma erase_split o r ns l1 l2 :
  Forall (node_ok id) ns -> NoDup (map snd (map key ns)) -> map key ns = l1 ++ (o, r) :: l2 ->
  exists ns', erase_first (node_is id (snd r) (fst r) (mode_val o)) ns = Some (length l1, ns') /\
    map key ns' = l1 ++ l2 /\ Forall (node_ok id) ns' /\ NoDup (map snd (map key ns')).
Proof.
  intros HF Hnd Hk. pose proof (erase_key id o r ns HF) as E. rewrite Hk in E, Hnd.
  rewrite (erase_waiter_Some o r l1 l2 Hnd) in E.
  destruct (erase_first (node_is _ _ _ _) ns) as [[i ns']|] eqn:Ee; [|done]. injection E as <- Ek.
  exists ns'. split_and!; try done.
  - apply erase_first_Some in Ee as (m1 & y & m2 & -> & -> & _). apply Forall_app in HF as [HF1 HF2].
    inversion_clear HF2. by apply Forall_app.
  - rewrite <- Ek. rewrite map_app in *. simpl in Hnd. apply list.NoDup_app in Hnd as (H1 & H2 & H3).
    apply list.NoDup_cons in H3 as [H3 H4]. apply list.NoDup_app. split_and!; try done. set_solver.
Qed.

Lemma nodes_take_over p ns : map key (map (take_over p) ns) = map key ns.
Proof. rewrite map_map. apply map_ext. intros n. unfold take_over. by destruct (node_shared n). Qed.

Lemma nodes_ok_take_over p ns : Forall (node_ok id) ns -> Forall (node_ok id) (map (take_over p) ns).
Proof.
  intros HF. apply Forall_fmap. apply (list.Forall_impl _ _ _ HF). intros n Hn. unfold take_over. simpl.
  by destruct (node_shared n).
Qed.

(** An exclusive head takes the freed lock. *)
Lemma grant_head x q n ns p :
  queue_mutex q = true -> node_queue q = n :: ns -> mode n = EXCLUSIVE ->
  Forall (node_ok id) (n :: ns) -> NoDup (map snd (map key (n :: ns))) -> shared_counter q = 0 ->
  exists x' q' out, (set_lock_state id STATE_EXCLUSIVE ;; grant_at cfg id p 0 ;; unblock_queue id) (st x q) =
      Ok (tt, st x' q', out) /\
    grants out (spec_schedule (map key (n :: ns))).2 /\ q_rel q' (spec_schedule (map key (n :: ns))).1.
Proof.
  intros Hmx Hq Hn HF Hnd Hc. nunfold. nstep.
  rewrite (bind_ok _ _ _ _ _ _ (grant_at_eq cfg id T x (set_state STATE_EXCLUSIVE q) p 0 n
    ltac:(simpl; by rewrite Hq))).
  rewrite net_unblock_eq by done. do 3 eexists. split; [reflexivity|].
  assert (Ek : key n = (Excl, (client_id n, txn_id n))) by (unfold key; by rewrite Hn).
  assert (Es : spec_schedule (map key (n :: ns)) =
    (Spec (Some Excl) {[ (client_id n, txn_id n) ]} (map key ns), [key n])) by (cbn [map]; unfold spec_schedule; by rewrite Ek).
  rewrite Es. inversion_clear HF as [|? ? Hn1 Hns].
  split.
  - simpl. change (key n) with (key (set_payload p n)). by apply grants_one.
  - split; cbn [node_queue set_lock set_nodes set_state queue_mutex]; rewrite ?Hq; try done.
    + by constructor.
    + unfold mode_rel. cbn [sp_mode fst node_queue set_lock set_nodes set_state lock_state shared_counter
        sp_holders sp_waiters]. cbn [alter list_alter map]. rewrite key_payload, Ek. eauto.
Qed.

(** A shared head takes every shared request with it. *)
Lemma grant_shared x q n ns p :
  queue_mutex q = true -> node_queue q = n :: ns -> mode n = SHARED ->
  Forall (node_ok id) (n :: ns) -> NoDup (map snd (map key (n :: ns))) -> shared_counter q = 0 ->
  exists x' q' out, (set_lock_state id STATE_SHARED ;;
      shared_head <- get_shared_requests id ;;
      for_each shared_head (fun i => add_shared_counter id ;; grant_at cfg id p i) ;;
      unblock_queue id) (st x q) = Ok (tt, st x' q', out) /\
    grants out (spec_schedule (map key (n :: ns))).2 /\ q_rel q' (spec_schedule (map key (n :: ns))).1.
Proof.
  intros Hmx Hq Hn HF Hnd Hc. unfold set_lock_state, get_shared_requests. nstep. nstep.
  destruct (net_grant_loop_eq cfg id T p (n :: ns) [] x (set_state STATE_SHARED q) ltac:(simpl; by rewrite Hq))
    as (x' & E).
  change (node_queue (set_state STATE_SHARED q)) with (node_queue q). rewrite Hq. cbn [length] in E.
  rewrite (bind_ok _ _ _ _ _ _ E). rewrite net_unblock_eq by done. do 3 eexists. split; [reflexivity|].
  set (gs := filterb node_shared (n :: ns)). set (ks := map key (n :: ns)).
  assert (Es : spec_schedule ks = (Spec (Some Shared) (list_to_set (map snd (filterb is_shared ks)))
    (filterb (fun w => negb (is_shared w)) ks), filterb is_shared ks))
    by (unfold ks; cbn [map]; assert (key n = (Shared, (client_id n, txn_id n))) as ->
          by (unfold key; by rewrite Hn); done).
  rewrite Es. pose proof (filter_key (n :: ns)) as [Ef _]. fold ks gs in Ef.
  split.
  - exists 1, x, (seqnum q), (map (set_payload p) gs). cbn [seqnum set_state]. split_and!.
    + by rewrite app_nil_r.
    + apply Forall_fmap. apply (list.Forall_impl (node_ok id)); [|intros m Hm; exact Hm].
      unfold gs. apply list.Forall_forall. intros m Hm. apply elem_of_filterb in Hm as [_ Hm].
      by apply (proj1 (list.Forall_forall _ _) HF).
    + rewrite map_map. by rewrite Ef.
  - split; cbn [node_queue set_lock set_shared set_nodes queue_mutex app].
    + done.
    + by apply nodes_ok_take_over.
    + by rewrite nodes_take_over.
    + unfold mode_rel. cbn [sp_mode fst sp_holders sp_waiters node_queue set_lock set_shared set_nodes lock_state
        set_state shared_counter]. rewrite nodes_take_over. fold ks. split_and!; try done.
      rewrite Hc, Ef, length_map. unfold gs. done.
Qed.

(** The lock became free and the queue holds [ws]. *)
Lemma grant_none x q :
  queue_mutex q = true -> node_queue q = [] -> shared_counter q = 0 -> lock_state q = STATE_FREE ->
  exists x' q' out, (add_seqnum id ;; unblock_queue id) (st x q) = Ok (tt, st x' q', out) /\
    grants out (spec_schedule []).2 /\ q_rel q' (spec_schedule []).1.
Proof.
  intros Hmx Hq Hc Hs. nunfold. nstep. rewrite net_unblock_eq by done. do 3 eexists. split; [reflexivity|].
  split; [apply grants_nil|]. split; simpl; rewrite ?Hq; try done; [constructor|].
  unfold mode_rel. simpl. by rewrite Hq.
Qed.

(** Offering the freed lock to the queue; an exclusive release also serves
    shared requests, which a shared one never finds at the head. *)
Lemma release_tail x q ws p (shared_ok : bool) :
  queue_mutex q = true -> map key (node_queue q) = ws ->
  Forall (node_ok id) (node_queue q) -> NoDup (map snd ws) -> shared_counter q = 0 ->
  (shared_ok = false -> Forall (fun w => is_shared w = false) ws) ->
  exists x' q' out, (set_lock_state id STATE_FREE ;;
      cur_head <- get_head_request id ;;
      match cur_head with
      | Some h =>
          if mode h =? EXCLUSIVE then
            set_lock_state id STATE_EXCLUSIVE ;; grant_at cfg id p 0 ;; unblock_queue id
          else if mode h =? SHARED then
            (if shared_ok then
               set_lock_state id STATE_SHARED ;;
               shared_head <- get_shared_requests id ;;
               for_each shared_head (fun i => add_shared_counter id ;; grant_at cfg id p i) ;;
               unblock_queue id
             else unblock_queue id)
          else add_seqnum id ;; unblock_queue id
      | None => add_seqnum id ;; unblock_queue id
      end) (st x q) = Ok (tt, st x' q', out) /\
    grants out (spec_schedule ws).2 /\ q_rel q' (spec_schedule ws).1.
Proof.
  intros Hmx <- HF Hnd Hc Hsh. unfold set_lock_state at 1, get_head_request. nstep. nstep.
  set (q1 := set_state STATE_FREE q). change (node_queue q1) with (node_queue q).
  destruct (node_queue q) as [|n ns] eqn:Hq; cbn [head].
  - destruct (grant_none x q1 Hmx Hq Hc eq_refl) as (x' & q' & out & E & Hg & Hr). rewrite E. by exists x', q', out.
  - pose proof HF as Hok. inversion_clear HF as [|? ? (Hi & Hm & Hn) Hns].
    destruct Hm as [Hm|Hm]; rewrite Hm.
    + change (SHARED =? EXCLUSIVE) with false. change (SHARED =? SHARED) with true. cbv iota.
      destruct shared_ok.
      * destruct (grant_shared x q1 n ns p Hmx Hq Hm Hok Hnd Hc) as (x' & q' & out & E & Hg & Hr).
        rewrite E. by exists x', q', out.
      * specialize (Hsh eq_refl). inversion_clear Hsh as [|? ? Hsh1 _].
        rewrite <- node_shared_key in Hsh1. unfold node_shared in Hsh1. by rewrite Hm in Hsh1.
    + change (EXCLUSIVE =? EXCLUSIVE) with true. cbv iota.
      destruct (grant_head x q1 n ns p Hmx Hq Hm Hok Hnd Hc) as (x' & q' & out & E & Hg & Hr).
      rewrite E. by exists x', q', out.
Qed.

Lemma filter_middle (p : rw * req -> bool) l1 w l2 :
  filterb p (l1 ++ w :: l2) = filterb p l1 ++ (if p w then [w] else []) ++ filterb p l2.
Proof. rewrite List.filter_app. simpl. by destruct (p w). Qed.

(** Where the released request is, and what the rest of the queue is to the
    specification. *)
Lemma withdraw_keys q a op r w1 w2 :
  q_rel q a -> spec_wf a -> sp_waiters a = w1 ++ (op, r) :: w2 -> r ∉ sp_holders a ->
  exists l1 l2, keyset q = l1 ++ (op, r) :: l2 /\
    (lock_state q = STATE_EXCLUSIVE -> l1 <> []) /\ (lock_state q = STATE_SHARED -> op = Excl) /\
    forall q', map key (node_queue q') = l1 ++ l2 -> lock_state q' = lock_state q ->
      shared_counter q' = shared_counter q -> mode_rel q' (Spec (sp_mode a) (sp_holders a) (w1 ++ w2)).
Proof.
  intros Hr Hwf Hw Hn. pose proof (qr_mode _ _ Hr) as Hm. pose proof (wf_nodup _ Hwf) as Hnd.
  pose proof (qr_nodup _ _ Hr) as Hndk. fold (keyset q) in Hndk.
  unfold mode_rel in *. fold (keyset q) in Hm. cbn [sp_mode sp_holders sp_waiters].
  destruct (sp_mode a) as [[]|] eqn:Em.
  - destruct Hm as (Es & Eh & Ew & Ec).
    assert (op = Excl) as ->.
    { pose proof (wf_shared _ Hwf Em) as HF. rewrite Hw in HF. apply Forall_app in HF as [_ HF].
      inversion_clear HF as [|? ? H1 _]. by destruct op. }
    assert (Hin : (Excl, r) ∈ keyset q).
    { assert ((Excl, r) ∈ filterb (fun w => negb (is_shared w)) (keyset q)) as H
        by (rewrite Ew, Hw; set_solver). by apply elem_of_filterb in H as [_ H]. }
    apply list_elem_of_split in Hin as (l1 & l2 & Hk). exists l1, l2. rewrite Es. split_and!; try done.
    intros q' Hq' Es' Ec'. rewrite Hq', Ec'. split; [done|].
    rewrite Hk, filter_middle in Eh, Ew, Ec. cbn [is_shared fst negb app] in Eh, Ew, Ec.
    rewrite !List.filter_app. split_and!; try done.
    rewrite Hw in Ew, Hnd. pose proof (erase_waiter_Some Excl r w1 w2 Hnd) as E1. rewrite <- Ew in E1, Hnd.
    rewrite (erase_waiter_Some Excl r _ _ Hnd) in E1. by injection E1 as _ E1.
  - destruct Hm as (Es & Ec & h & Eh & Ek). exists ((Excl, h) :: w1), w2. rewrite Es. split_and!; try done.
    + by rewrite Ek, Hw.
    + intros q' Hq' Es' Ec'. rewrite Hq', Ec'. split_and!; try done. by exists h.
  - destruct (wf_free _ Hwf Em) as [_ E]. rewrite E in Hw. by destruct w1.
Qed.

(** The keys of the shared holders. *)
Lemma shared_holder_split q a r :
  q_rel q a -> sp_mode a = Some Shared -> r ∈ sp_holders a ->
  exists l1 l2, keyset q = l1 ++ (Shared, r) :: l2 /\
    (filterb (fun w => negb (is_shared w)) (l1 ++ l2) = sp_waiters a) /\
    sp_holders a ∖ {[ r ]} = list_to_set (map snd (filterb is_shared (l1 ++ l2))) /\
    shared_counter q = Z.of_nat (length (filterb is_shared (l1 ++ l2))) + 1.
Proof.
  intros Hr Em Hh. pose proof (qr_mode _ _ Hr) as Hm. pose proof (qr_nodup _ _ Hr) as Hnd.
  unfold mode_rel in Hm. rewrite Em in Hm. fold (keyset q) in Hm, Hnd. destruct Hm as (Es & Eh & Ew & Ec).
  assert (Hin : (Shared, r) ∈ keyset q).
  { rewrite Eh in Hh. apply elem_of_list_to_set, elem_of_waiter_snd in Hh as [o Ho].
    apply elem_of_filterb in Ho as [H1 H2]. by destruct o. }
  apply list_elem_of_split in Hin as (l1 & l2 & Hk). exists l1, l2. split; [done|].
  rewrite Hk, filter_middle in Eh, Ew, Ec. cbn [is_shared fst negb app] in Eh, Ew, Ec.
  rewrite !List.filter_app. split; [done|].
  assert (Hnr : r ∉ map snd (filterb is_shared l1 ++ filterb is_shared l2)).
  { rewrite Hk, map_app in Hnd. cbn [map snd] in Hnd. apply list.NoDup_app in Hnd as (_ & H1 & H2).
    apply list.NoDup_cons in H2 as [H2 _]. rewrite map_app, elem_of_app.
    intros [H|H]; apply elem_of_waiter_snd in H as [o Ho]; apply elem_of_filterb in Ho as [_ Ho];
      assert (Hs : forall l, (o, r) ∈ l -> r ∈ map snd l) by (intros; apply elem_of_waiter_snd; eauto).
    - apply (H1 r); [by apply Hs|by left].
    - by apply H2, Hs. }
  split; [|rewrite length_app in *; simpl in Ec; lia].
  rewrite Eh, !map_app, !list_to_set_app_L in *. cbn [map snd list_to_set].
  rewrite elem_of_app in Hnr. apply set_eq. intros y. rewrite elem_of_difference, !elem_of_union, !elem_of_list_to_set.
  set_solver.
Qed.

(** A request releases [(op, r)]. *)
Definition releases (n : lock_queue_node) (op : rw) (r : req) : Prop :=
  lock_id n = id /\ mode n = mode_val op /\ (client_id n, txn_id n) = r.

(** The request leaves the queue: what the two branches start from. *)
Lemma release_erase x q a m op r l1 l2 :
  q_rel q a -> releases m op r -> keyset q = l1 ++ (op, r) :: l2 ->
  exists ns', erase_lock_request id (txn_id m) (client_id m) (mode m) (st x (set_lock true (ticket_id q + 1) q)) =
      Ok (Z.of_nat (length l1), st x (set_nodes ns' (set_lock true (ticket_id q + 1) q)), []) /\
    map key ns' = l1 ++ l2 /\ Forall (node_ok id) ns' /\ NoDup (map snd (map key ns')).
Proof.
  intros Hr (Hi & Hmd & Hre) Hk.
  destruct (erase_split op r (node_queue q) l1 l2 (qr_nodes _ _ Hr) (qr_nodup _ _ Hr) Hk)
    as (ns' & Ee & Hns). rewrite <- Hre in Ee. cbn [fst snd] in Ee. exists ns'. split; [|done].
  rewrite net_erase_eq. cbn [node_queue set_lock]. by rewrite Hmd, Ee.
Qed.

Lemma release_withdraw x q a m op r w1 w2 :
  q_rel q a -> spec_wf a -> releases m op r -> sp_waiters a = w1 ++ (op, r) :: w2 -> r ∉ sp_holders a ->
  exists x' q' out, process_primary_release cfg m (st x q) = Ok (tt, st x' q', out) /\
    grants out [] /\ q_rel q' (Spec (sp_mode a) (sp_holders a) (w1 ++ w2)).
Proof.
  intros Hr Hwf Hm Hw Hn. pose proof (qr_mutex _ _ Hr) as Hmx.
  destruct (withdraw_keys q a op r w1 w2 Hr Hwf Hw Hn) as (l1 & l2 & Hk & Hx & Hs & Hrel).
  destruct (release_erase x q a m op r l1 l2 Hr Hm Hk) as (ns' & Ee & Ek & HF & Hnd).
  destruct Hm as (Hi & Hmd & Hre). unfold process_primary_release. rewrite Hi. nstep.
  rewrite (bind_ok _ _ _ _ _ _ Ee). rewrite Hmd. set (q1 := set_nodes ns' _).
  assert (Hend : exists x' q' out, unblock_queue id (st x q1) = Ok (tt, st x' q', out) /\
    grants out [] /\ q_rel q' (Spec (sp_mode a) (sp_holders a) (w1 ++ w2))).
  { rewrite net_unblock_eq by done. do 3 eexists. split; [reflexivity|]. split; [apply grants_nil|].
    split; try done. by apply Hrel. }
  destruct Hend as (x' & q' & out & Eu & Hg & Hr').
  exists x', q', out. split; [|done]. unfold get_lock_state.
  destruct op; cbn [mode_val].
  - change (SHARED =? SHARED) with true. cbv iota. nstep.
    change (lock_state q1) with (lock_state q). unfold state_is. rewrite bool_decide_false; [cbv iota; by rewrite Eu|].
    intros E. by specialize (Hs E).
  - change (EXCLUSIVE =? SHARED) with false. change (EXCLUSIVE =? EXCLUSIVE) with true. cbv iota. nstep.
    change (lock_state q1) with (lock_state q).
    destruct (state_is (lock_state q) STATE_EXCLUSIVE) eqn:Es; [|cbn [andb]; cbv iota; by rewrite Eu].
    unfold state_is in Es. apply bool_decide_eq_true in Es. specialize (Hx Es).
    destruct l1 as [|w l1]; [done|]. cbn [length].
    destruct (Z.eqb_spec (Z.of_nat (S (length l1))) 0) as [?|_]; [lia|]. cbn [andb]. cbv iota. by rewrite Eu.
Qed.

Lemma release_last x q a m op r :
  q_rel q a -> spec_wf a -> releases m op r -> sp_mode a = Some op -> sp_holders a = {[ r ]} ->
  exists x' q' out, process_primary_release cfg m (st x q) = Ok (tt, st x' q', out) /\
    grants out (spec_schedule (sp_waiters a)).2 /\ q_rel q' (spec_schedule (sp_waiters a)).1.
Proof.
  intros Hr Hwf Hm Em Hh. pose proof (qr_mutex _ _ Hr) as Hmx. pose proof (qr_mode _ _ Hr) as Hmode.
  unfold mode_rel in Hmode. rewrite Em in Hmode. fold (keyset q) in Hmode.
  unfold process_primary_release. destruct op.
  - destruct (shared_holder_split q a r Hr Em ltac:(set_solver)) as (l1 & l2 & Hk & Hw & Hh' & Hc).
    destruct (release_erase x q a m Shared r l1 l2 Hr Hm Hk) as (ns' & Ee & Ek & HF & Hnd).
    assert (Hnil : filterb is_shared (l1 ++ l2) = []).
    { destruct (filterb is_shared (l1 ++ l2)) as [|w ws] eqn:E; [done|]. exfalso. rewrite Hh in Hh'.
      assert (snd w ∈ ({[r]} ∖ {[r]} : gset req)) by (rewrite Hh'; set_solver). set_solver. }
    rewrite Hnil in Hc.
    assert (Hall : Forall (fun w => is_shared w = false) (l1 ++ l2)).
    { apply list.Forall_forall. intros w Hin. destruct (is_shared w) eqn:E; [|done].
      assert (w ∈ filterb is_shared (l1 ++ l2)) as H by (by apply elem_of_filterb). rewrite Hnil in H. set_solver. }
    assert (Hws : l1 ++ l2 = sp_waiters a).
    { rewrite <- Hw. symmetry. apply filterb_all. apply (list.Forall_impl _ _ _ Hall). by intros w ->. }
    rewrite Hws in Ek, Hall. destruct Hm as (Hi & Hmd & Hre). rewrite Hi. nstep.
    rewrite (bind_ok _ _ _ _ _ _ Ee). rewrite Hmd. cbn [mode_val]. change (SHARED =? SHARED) with true. cbv iota.
    set (q1 := set_nodes ns' _). unfold get_lock_state, sub_shared_counter, get_shared_counter. nstep.
    change (lock_state q1) with (lock_state q). destruct Hmode as (-> & _).
    change (state_is STATE_SHARED STATE_SHARED) with true. cbv iota. nstep. nstep.
    cbn [shared_counter set_shared]. change (shared_counter q1) with (shared_counter q). rewrite Hc.
    cbn [length]. change (0 <? Z.of_nat 0 + 1 - 1) with false. cbv iota.
    destruct (release_tail x (set_shared (Z.of_nat 0 + 1 - 1) q1) (sp_waiters a) (payload m) false
      eq_refl Ek HF (wf_nodup _ Hwf) ltac:(done) ltac:(done)) as (x' & q' & out & E & Hg & Hr').
    cbv iota in E. rewrite E. by exists x', q', out.
  - destruct Hmode as (Es & Hc & h & Eh & Hk). rewrite Hh in Eh. apply (inj _) in Eh. subst h.
    destruct (release_erase x q a m Excl r [] (sp_waiters a) Hr Hm Hk) as (ns' & Ee & Ek & HF & Hnd).
    destruct Hm as (Hi & Hmd & Hre). rewrite Hi. nstep.
    rewrite (bind_ok _ _ _ _ _ _ Ee). rewrite Hmd. cbn [mode_val]. change (EXCLUSIVE =? SHARED) with false.
    change (EXCLUSIVE =? EXCLUSIVE) with true. cbv iota.
    set (q1 := set_nodes ns' _). unfold get_lock_state. nstep.
    change (lock_state q1) with (lock_state q). rewrite Es.
    change (state_is STATE_EXCLUSIVE STATE_EXCLUSIVE && (Z.of_nat (length (@nil (rw * req))) =? 0)) with true. cbv iota.
    destruct (release_tail x q1 (sp_waiters a) (payload m) true
      eq_refl Ek HF (wf_nodup _ Hwf) ltac:(done) ltac:(done)) as (x' & q' & out & E & Hg & Hr').
    cbv iota in E. rewrite E. by exists x', q', out.
Qed.

Lemma release_leave x q a m r :
  q_rel q a -> releases m Shared r -> sp_mode a = Some Shared -> r ∈ sp_holders a ->
  sp_holders a ∖ {[ r ]} <> ∅ ->
  exists x' q' out, process_primary_release cfg m (st x q) = Ok (tt, st x' q', out) /\
    grants out [] /\ q_rel q' (Spec (sp_mode a) (sp_holders a ∖ {[ r ]}) (sp_waiters a)).
Proof.
  intros Hr Hm Em Hh Hne. pose proof (qr_mutex _ _ Hr) as Hmx. pose proof (qr_mode _ _ Hr) as Hmode.
  unfold mode_rel in Hmode. rewrite Em in Hmode. destruct Hmode as (Es & _).
  destruct (shared_holder_split q a r Hr Em Hh) as (l1 & l2 & Hk & Hw & Hh' & Hc).
  destruct (release_erase x q a m Shared r l1 l2 Hr Hm Hk) as (ns' & Ee & Ek & HF & Hnd).
  destruct Hm as (Hi & Hmd & Hre). unfold process_primary_release. rewrite Hi. nstep.
  rewrite (bind_ok _ _ _ _ _ _ Ee). rewrite Hmd. cbn [mode_val]. change (SHARED =? SHARED) with true. cbv iota.
  set (q1 := set_nodes ns' _). unfold get_lock_state, sub_shared_counter, get_shared_counter. nstep.
  change (lock_state q1) with (lock_state q). rewrite Es.
  change (state_is STATE_SHARED STATE_SHARED) with true. cbv iota. nstep. nstep.
  cbn [shared_counter set_shared]. change (shared_counter q1) with (shared_counter q). rewrite Hc.
  assert (0 < Z.of_nat (length (filterb is_shared (l1 ++ l2)))).
  { destruct (filterb is_shared (l1 ++ l2)) as [|w ws] eqn:E; [|simpl; lia]. rewrite Hh' in Hne; done. }
  destruct (Z.ltb_spec 0 (Z.of_nat (length (filterb is_shared (l1 ++ l2))) + 1 - 1)) as [_|]; [|lia].
  rewrite net_unblock_eq by done. do 3 eexists. split; [reflexivity|]. split; [apply grants_nil|].
  split; try done. unfold mode_rel. cbn [sp_mode sp_holders sp_waiters]. rewrite Em.
  cbn [node_queue set_lock set_shared]. change (node_queue q1) with ns'. rewrite Ek. split_and!; try done.
  simpl. lia.
Qed.

Lemma primary_release x q a m op r :
  q_rel q a -> spec_wf a -> releases m op r -> permitted true (Rel op r) (view_of a) ->
  exists x' q' out, process_primary_release cfg m (st x q) = Ok (tt, st x' q', out) /\
    grants out (spec_release op r a).2 /\ q_rel q' (spec_release op r a).1.
Proof.
  intros Hr Hwf Hm HP. destruct (spec_release_cases true op r a Hwf HP)
    as [(w1 & w2 & Hw & _ & Hn & ->)|[(Em & _ & Hh & ->)|(Em & -> & Hh & Hne & ->)]].
  - by apply (release_withdraw x q a m op r).
  - by apply (release_last x q a m op r).
  - by apply release_leave.
Qed.
End queue.

(** ** The clients *)

Section clients.
Context (pre : option (Z -> lock_post_header -> lock_post_header)) (id : Z).

(** The host a frame is addressed to. *)
Definition host_of_ip (ip : Z) : option Z := List.find (fun h => ip_addr (h - 1) =? ip) host_list.

(** The grants a host's events stand for. *)
Definition granted_by (h : Z) (m : rw) (evs : list cevent) : list (rw * req) :=
  concat (map (fun e => match e with Signalled _ t => [(m, (h, t))] | CSent _ => [] end) evs).

(** Hand a frame to the host it is addressed to. *)
Definition deliver1 (f : frame) (hosts : gmap Z client) : result (gmap Z client * list (rw * req)) :=
  match host_of_ip (ip_dst_addr f) with
  | None => Ok (hosts, [])
  | Some h =>
      match hosts !! h with
      | None => Ok (hosts, [])
      | Some c =>
          match packet_dispatch pre true None (f_msg f) c with
          | Fault e => Fault e
          | Ok (_, c', evs) => Ok (<[h := c']> hosts, granted_by h (rw_of (h_mode (f_msg f))) evs)
          end
      end
  end.

Fixpoint deliver (fs : list frame) (hosts : gmap Z client) : result (gmap Z client * list (rw * req)) :=
  match fs with
  | [] => Ok (hosts, [])
  | f :: fs' =>
      match deliver1 f hosts with
      | Fault e => Fault e
      | Ok (hosts', gs) =>
          match deliver fs' hosts' with
          | Fault e => Fault e
          | Ok (hosts'', gs') => Ok (hosts'', gs ++ gs')
          end
      end
  end.

(** The host has a flag for the transaction. *)
Definition flagged (hosts : gmap Z client) (r : req) : Prop :=
  exists c w, hosts !! fst r = Some c /\ lock_wait_table c !! id = Some w /\ is_Some (w !! snd r).

(** The host has initialised the lock's wait table. *)
Definition ready (hosts : gmap Z client) (h : Z) : Prop :=
  exists c w, hosts !! h = Some c /\ lock_wait_table c !! id = Some w.

Lemma ready_insert hosts h c' w k :
  lock_wait_table c' !! id = Some w -> ready hosts k -> ready (<[h := c']> hosts) k.
Proof.
  intros Ew (c0 & w0 & E0 & Ew0). destruct (decide (k = h)) as [->|Hne].
  - exists c', w. by rewrite lookup_insert_eq.
  - exists c0, w0. by rewrite lookup_insert_ne.
Qed.

Lemma net_signal_eq c w t :
  lock_wait_table c !! id = Some w -> is_Some (w !! t) ->
  coroutine_wait_queue_signal id t c =
    Ok (tt, Client (<[id := <[t := true]> w]> (lock_wait_table c)) (c_tx c), [Signalled id t]).
Proof.
  intros E [b Eb]. unfold coroutine_wait_queue_signal, wait_flag, wait_flags, set_flags, bind, get, put.
  rewrite E. cbn [ret]. rewrite E. cbn [ret]. rewrite Eb. done.
Qed.

Lemma flagged_insert hosts h c c' w t r :
  hosts !! h = Some c -> lock_wait_table c !! id = Some w ->
  c' = Client (<[id := <[t := true]> w]> (lock_wait_table c)) (c_tx c) ->
  flagged hosts r -> flagged (<[h := c']> hosts) r.
Proof.
  intros Eh Ew -> (c0 & w0 & E0 & Ew0 & Hf). destruct (decide (fst r = h)) as [E|Hne].
  - rewrite E in E0. assert (c0 = c) as -> by congruence. assert (w0 = w) as -> by congruence.
    eexists _, _. split; [rewrite E; apply lookup_insert_eq|]. split; [simpl; apply lookup_insert_eq|].
    destruct (decide (snd r = t)) as [->|]; [by rewrite lookup_insert_eq|by rewrite lookup_insert_ne].
  - exists c0, w0. by rewrite lookup_insert_ne.
Qed.

Lemma host_of_ip_addr h : 1 <= h <= 8 -> host_of_ip (ip_addr (h - 1)) = Some h.
Proof.
  intros Hh. assert (h = 1 \/ h = 2 \/ h = 3 \/ h = 4 \/ h = 5 \/ h = 6 \/ h = 7 \/ h = 8) as Hc by lia.
  destruct Hc as [->|[->|[->|[->|[->|[->|[->| ->]]]]]]]; vm_compute; reflexivity.
Qed.

(** A grant arrives where it belongs. *)
Lemma deliver_grant cfg tr x sn n hosts :
  pre = None -> node_ok id n -> in_uw 32 id -> flagged hosts (client_id n, txn_id n) ->
  exists hosts', deliver1 (gframe cfg tr x sn n) hosts = Ok (hosts', [key n]) /\
    (forall r, flagged hosts r -> flagged hosts' r) /\ (forall k, ready hosts k -> ready hosts' k).
Proof.
  intros Hpre (Hi & Hm & Hc & Ht & Hip) Hid (c & w & Eh & Ew & Hf). cbn [fst snd] in *.
  unfold deliver1, gframe. cbn [ip_dst_addr generate_header_lock_server]. rewrite Hip, host_of_ip_addr by done.
  rewrite Eh. cbn [f_msg generate_header_lock_server h_mode]. unfold packet_dispatch, lock_packet_dispatch.
  rewrite Hpre. cbn [h_op_type h_lock_id h_txn_id is_grant]. change (_ || _) with true. cbv iota.
  rewrite Hi, !ntohl_htonl by done. cbv zeta.
  unfold is_grant. cbn [h_op_type]. change (_ || _) with true. cbv iota.
  rewrite !bind_assoc, (bind_ok _ _ _ _ _ _ (net_signal_eq c w (txn_id n) Ew Hf)). cbn.
  eexists. split; [reflexivity|]. split; intros r.
  - by eapply flagged_insert.
  - eapply ready_insert. simpl. by rewrite lookup_insert_eq.
Qed.

Lemma deliver_grants cfg out ws hosts :
  pre = None -> in_uw 32 id -> grants cfg id out ws -> (forall o r, (o, r) ∈ ws -> flagged hosts r) ->
  exists hosts', deliver out hosts = Ok (hosts', ws) /\
    (forall r, flagged hosts r -> flagged hosts' r) /\ (forall k, ready hosts k -> ready hosts' k).
Proof.
  intros Hpre Hid (tr & x & sn & ns & -> & HF & <-) Hfl. revert x hosts Hfl.
  induction HF as [|n ns Hn _ IH]; intros x hosts Hfl; [by exists hosts|]. cbn [gframes deliver map].
  destruct (deliver_grant cfg tr x sn n hosts Hpre Hn Hid) as (h1 & E1 & Hf1 & Hk1).
  { apply (Hfl (rw_of (mode n))). by left. }
  rewrite E1. destruct (IH (u32 (x + 1)) h1) as (h2 & E2 & Hf2 & Hk2).
  { intros o r Hr. apply Hf1, (Hfl o). by right. }
  rewrite E2. exists h2. split_and!; auto.
Qed.
End clients.

(** ** The system *)

Record netsys := NetSys { srv : server; hosts : gmap Z client }.

(** The switch's tables and metadata on a request (NetWire.to_primary). *)
Record switch := Switch { sw_port : Z; sw_ip : Z; sw_slots : Z; sw_head : Z; sw_tail : Z }.

Definition forward (sw : switch) : frame -> frame :=
  to_primary (sw_port sw) (sw_ip sw) (sw_slots sw) (sw_head sw) (sw_tail sw).

Section net.
Context (cfg : netcfg) (sw : switch) (id : Z) (md : modifier).

Record net_setting : Prop := {
  ns_id : 0 <= id < MAX_LOCK_NUM cfg;
  ns_width : in_uw 32 id;
  ns_md : modifier_ok md;
}.

Definition net_init : netsys :=
  NetSys (match init_all_locks cfg (Server ∅ 0) with Ok (_, s, _) => s | Fault _ => Server ∅ 0 end)
    (list_to_map (map (fun h => (h, match lock_local_init id (Client ∅ 0) with
                                    | Ok (_, c, _) => c | Fault _ => Client ∅ 0 end)) host_list)).

(** The frames a client hands to the network. *)
Definition frames_of (evs : list cevent) : list frame :=
  concat (map (fun e => match e with CSent f => [f] | Signalled _ _ => [] end) evs).

(** A client operation on host [h], carried through to the grants it causes. *)
Definition client_op (h : Z) (m : C Z) (s : netsys) : result (netsys * list (rw * req)) :=
  match hosts s !! h with
  | None => Ok (s, [])
  | Some c =>
      '(_, c', evs) ← m c;
      '(_, srv', out) ← rx_burst cfg (map (forward sw) (frames_of evs)) (srv s);
      '(hosts', gs) ← deliver None out (<[h := c']> (hosts s));
      Ok (NetSys srv' hosts', gs)
  end.

Definition net_step (e : event) (s : netsys) : result (netsys * list (rw * req)) :=
  match e with
  | Acq o (h, t) => client_op h (lock_acquire_async h md id t (lock_op o)) s
  | Rel o (h, t) => client_op h (lock_release h md id t (lock_op o)) s
  end.

#[local] Instance net_impl : RwLockImpl netsys := {
  impl_init := net_init;
  impl_step := net_step;
  impl_withdraw := true;
  impl_valid := fun e => match e with Acq _ r | Rel _ r => 1 <= fst r <= 8 /\ 0 <= snd r < 2 ^ 32 end;
  impl_valid_dec := fun e => match e with Acq _ r | Rel _ r => and_dec (and_dec _ _) (and_dec _ _) end;
}.

Definition net_rel (s : netsys) (a : spec) : Prop :=
  (exists T x q, srv s = st_of id T x q /\ q_rel id q a) /\
  (forall h, 1 <= h <= 8 -> ready id (hosts s) h) /\
  (forall o r, (o, r) ∈ sp_waiters a -> flagged id (hosts s) r).

Context (Hs : net_setting).

Lemma spec_step_known e a o r :
  (o, r) ∈ (spec_step e a).2 \/ (o, r) ∈ sp_waiters (spec_step e a).1 ->
  (o, r) ∈ sp_waiters a \/ e = Acq o r.
Proof using.
  assert (Hsch : forall ws, (o, r) ∈ (spec_schedule ws).2 \/ (o, r) ∈ sp_waiters (spec_schedule ws).1 -> (o, r) ∈ ws).
  { intros [|[[] r0] ws]; unfold spec_schedule; cbn [fst snd sp_waiters].
    - by intros [H|H].
    - intros [H|H]; by apply elem_of_filterb in H as [_ H].
    - intros [H|H]; [apply list_elem_of_singleton in H as ->; by left|by right]. }
  destruct e as [o' r'|o' r']; cbn [spec_step].
  - unfold spec_acquire. destruct (sp_mode a) as [[]|]; [destruct o'| |]; cbn [fst snd sp_waiters];
      rewrite ?elem_of_app, ?list_elem_of_singleton, ?elem_of_nil; naive_solver.
  - unfold spec_release. intros H. left.
    destruct (erase_first _ _) as [[i ws']|] eqn:E; cbn [fst snd sp_waiters] in H.
    + destruct H as [H|H]; [by apply elem_of_nil in H|].
      apply erase_first_Some in E as (l1 & x & l2 & -> & -> & _). apply elem_of_app. apply elem_of_app in H as [H|H]; [by left|].
      right. by right.
    + case_bool_decide; [by apply Hsch|]. cbn [fst snd sp_waiters] in H. by destruct H as [H|H]; [apply elem_of_nil in H|].
Qed.

(** The frame of a request reaches the server as the client meant it. *)
Lemma forward_node h tx t action o :
  1 <= h <= 8 -> in_uw 32 t -> action = ACQUIRE_LOCK \/ action = RELEASE_LOCK ->
  mbuf_to_node (forward sw (generate_header h tx md t action id (mode_val o))) =
    Node action (mode_val o) h t id (ip_addr (h - 1)) PRIMARY_BACKUP (appended md h t action id (mode_val o)).
Proof using Hs. intros Hh Ht Ha. unfold forward. apply parse_request; try done; apply Hs. Qed.

Lemma net_send_eq h t action m c :
  net_send h md t action id m c =
    Ok (tt, Client (lock_wait_table c) (u32 (c_tx c + 1)), [CSent (generate_header h (c_tx c) md t action id m)]).
Proof using. done. Qed.

(** What is common to the two operations: the server's answer is delivered. *)
Lemma client_op_rel h c c' f s T x q a e (m : C Z) :
  hosts s !! h = Some c -> srv s = st_of id T x q ->
  (exists v, m c = Ok (v, c', [CSent f])) ->
  (exists x' q' out, rx_frame cfg (forward sw f) (st_of id T x q) = Ok (tt, st_of id T x' q', out) /\
    grants cfg id out (spec_step e a).2 /\ q_rel id q' (spec_step e a).1) ->
  (forall k, 1 <= k <= 8 -> ready id (<[h := c']> (hosts s)) k) ->
  (forall o r, (o, r) ∈ sp_waiters a \/ e = Acq o r -> flagged id (<[h := c']> (hosts s)) r) ->
  exists s', client_op h m s = Ok (s', (spec_step e a).2) /\ net_rel s' (spec_step e a).1.
Proof using Hs.
  intros Eh Es (v & Em) (x' & q' & out & Erx & Hg & Hr) Hhosts Hfl.
  assert (Hknown : forall o r, (o, r) ∈ (spec_step e a).2 \/ (o, r) ∈ sp_waiters (spec_step e a).1 ->
    flagged id (<[h := c']> (hosts s)) r)
    by (intros o r H; by apply (Hfl o), spec_step_known).
  destruct (deliver_grants None id cfg out (spec_step e a).2 (<[h := c']> (hosts s)) eq_refl (ns_width Hs) Hg)
    as (hosts' & Ed & Hf' & Hk'); [eauto|].
  unfold client_op. rewrite Eh, Em. cbn [mbind result_bind frames_of map concat app].
  unfold rx_burst. cbn [for_each]. rewrite Es, (bind_ok _ _ _ _ _ _ Erx). cbn [for_each ret].
  cbn [mbind result_bind]. rewrite app_nil_r, Ed. eexists. split; [done|]. split_and!.
  - by exists T, x', q'.
  - cbn [NetRefine.hosts]. auto.
  - cbn [NetRefine.hosts]. intros o r Hw. apply Hf', (Hknown o). by right.
Qed.

Lemma rw_of_val o : rw_of (mode_val o) = o.
Proof using. by destruct o. Qed.

(** The server's side of an acquire and of a release. *)
Lemma rx_acquire h t o tx T x q a :
  q_rel id q a -> spec_wf a -> 1 <= h <= 8 -> in_uw 32 t -> permitted true (Acq o (h, t)) (view_of a) ->
  exists x' q' out,
    rx_frame cfg (forward sw (generate_header h tx md t ACQUIRE_LOCK id (mode_val o))) (st_of id T x q) =
      Ok (tt, st_of id T x' q', out) /\
    grants cfg id out (spec_acquire o (h, t) a).2 /\ q_rel id q' (spec_acquire o (h, t) a).1.
Proof using Hs.
  intros Hr Hwf Hh Ht HP. destruct (permitted_acq_fresh true o _ a Hwf HP) as [Hn Hw].
  unfold rx_frame. rewrite forward_node by auto. apply primary_acquire; try done.
  - split; [done|]. split; [by destruct o; [left|right]|done].
  - unfold key. cbn [mode client_id txn_id]. by rewrite rw_of_val.
Qed.

Lemma rx_release h t o tx T x q a :
  q_rel id q a -> spec_wf a -> 1 <= h <= 8 -> in_uw 32 t -> permitted true (Rel o (h, t)) (view_of a) ->
  exists x' q' out,
    rx_frame cfg (forward sw (generate_header h tx md t RELEASE_LOCK id (mode_val o))) (st_of id T x q) =
      Ok (tt, st_of id T x' q', out) /\
    grants cfg id out (spec_release o (h, t) a).2 /\ q_rel id q' (spec_release o (h, t) a).1.
Proof using Hs.
  intros Hr Hwf Hh Ht HP. unfold rx_frame. rewrite forward_node by auto. by apply primary_release.
Qed.

(** A request handle is made after the flag exists. *)
Lemma acquire_async_eq h t o c w :
  lock_wait_table c !! id = Some w ->
  lock_acquire_async h md id t (lock_op o) c =
    Ok (lock_req_of id t,
        Client (<[id := match w !! t with Some _ => w | None => <[t := false]> w end]> (lock_wait_table c))
          (u32 (c_tx c + 1)),
        [CSent (generate_header h (c_tx c) md t ACQUIRE_LOCK id (mode_val o))]).
Proof using.
  intros E. unfold lock_acquire_async, add_to_wait_queue, wait_flags, set_flags, bind, get, put.
  rewrite E. by destruct o.
Qed.

Lemma host_in_list h : 1 <= h <= 8 -> h ∈ host_list.
Proof using.
  intros Hh. replace host_list with (seqZ 1 8) by (vm_compute; reflexivity). apply elem_of_seqZ. lia.
Qed.

Lemma net_rel_init : net_rel net_init spec_init.
Proof using Hs.
  split_and!.
  - exists (lock_queue (srv net_init)), 0, new_queue.
    assert (Hl : forall l s, exists s', for_each l init_lock_queue s = Ok (tt, s', []) /\ n_tx s' = n_tx s /\
      (lock_queue s !! id = Some new_queue \/ (lock_queue s !! id = None /\ id ∈ l) -> lock_queue s' !! id = Some new_queue)).
    { clear Hs. induction l as [|k l IH]; intros s; cbn [for_each].
      - exists s. split_and!; try done. intros [?|[_ H]]; [done|by apply not_elem_of_nil in H].
      - unfold init_lock_queue at 1, bind, get, put, ret.
        destruct (lock_queue s !! k) as [qk|] eqn:Ek; [destruct (IH s) as (s' & E & Ex & Hq)|
          destruct (IH (Server (<[k := new_queue]> (lock_queue s)) (n_tx s))) as (s' & E & Ex & Hq)];
          rewrite E; exists s'; split_and!; try done; cbn [lock_queue] in Hq; intros [H|[H1 H2]]; apply Hq; eauto.
        + apply elem_of_cons in H2 as [->|H2]; [congruence|eauto].
        + left. destruct (decide (id = k)) as [->|]; [by rewrite lookup_insert_eq|by rewrite lookup_insert_ne].
        + destruct (decide (id = k)) as [->|Hne]; [left; by rewrite lookup_insert_eq|].
          right. rewrite lookup_insert_ne by done. split; [done|]. by apply elem_of_cons in H2 as [->|H2]. }
    destruct (Hl (seqZ 0 (MAX_LOCK_NUM cfg)) (Server ∅ 0)) as (s' & E & Ex & Hq).
    unfold net_init, init_all_locks. rewrite E. cbn [srv]. split.
    + unfold st_of. rewrite insert_id; [by destruct s'; simpl in *; subst|].
      apply Hq. right. split; [apply lookup_empty|]. apply elem_of_seqZ. destruct Hs. lia.
    + split; simpl; try done; constructor.
  - intros h Hh. exists (Client (<[id := ∅]> ∅) 0), ∅. split; [|cbn [lock_wait_table]; by rewrite lookup_insert_eq].
    unfold net_init. cbn [hosts]. apply elem_of_list_to_map_1.
    + rewrite <- list_fmap_compose. apply (bool_decide_unpack _). vm_compute. exact I.
    + apply list_elem_of_fmap. exists h. split; [|by apply host_in_list].
      unfold lock_local_init, init_lock_wait_table, bind, get, put. cbn [lock_wait_table].
      by rewrite lookup_empty.
  - intros o r H. by apply not_elem_of_nil in H.
Qed.

Lemma flagged_host hs h c c' w w' r :
  hs !! h = Some c -> lock_wait_table c !! id = Some w -> lock_wait_table c' !! id = Some w' ->
  (forall k, is_Some (w !! k) -> is_Some (w' !! k)) -> flagged id hs r -> flagged id (<[h := c']> hs) r.
Proof using.
  intros Eh Ew Ew' Hmono (c0 & w0 & E0 & Ew0 & Hf). destruct (decide (fst r = h)) as [E|Hne].
  - exists c', w'. rewrite E, lookup_insert_eq. split_and!; try done. apply Hmono.
    rewrite E in E0. assert (c0 = c) as -> by congruence. by assert (w0 = w) as -> by congruence.
  - exists c0, w0. by rewrite lookup_insert_ne.
Qed.

Definition net_laws : RwLockLaws netsys.
Proof using Hs.
  refine {| impl_rel := net_rel; impl_rel_init := net_rel_init |}.
  intros e s a HR Hwf Hv HP. simpl in Hv, HP. destruct HR as ((T & x & q & Es & Hr) & Hready & Hfl).
  change (impl_step e s) with (net_step e s). change (impl_withdraw) with true in HP.
  destruct e as [o [h t]|o [h t]]; destruct Hv as [Hh Ht]; simpl in Hh, Ht; unfold net_step;
    destruct (Hready h Hh) as (c & w & Eh & Ew).
  - set (w' := match w !! t with Some _ => w | None => <[t := false]> w end).
    assert (Hmono : forall k, is_Some (w !! k) -> is_Some (w' !! k)).
    { intros k Hk. unfold w'. destruct (w !! t) eqn:Et; [done|].
      destruct (decide (k = t)) as [->|]; [by rewrite lookup_insert_eq|by rewrite lookup_insert_ne]. }
    assert (Hself : is_Some (w' !! t))
      by (unfold w'; destruct (w !! t) eqn:Et; [by rewrite Et|by rewrite lookup_insert_eq]).
    eapply (client_op_rel h c (Client (<[id := w']> (lock_wait_table c)) (u32 (c_tx c + 1))) _ s T x q a); eauto.
    + eexists. by apply acquire_async_eq.
    + by apply rx_acquire.
    + intros k Hk. eapply ready_insert; [cbn [lock_wait_table]; by rewrite lookup_insert_eq|]. by apply Hready.
    + intros o' r [H|[= <- <-]].
      * eapply flagged_host; eauto. cbn [lock_wait_table]. by rewrite lookup_insert_eq.
      * exists (Client (<[id := w']> (lock_wait_table c)) (u32 (c_tx c + 1))), w'. cbn [fst snd].
        rewrite lookup_insert_eq. split_and!; try done. cbn [lock_wait_table]. by rewrite lookup_insert_eq.
  - eapply (client_op_rel h c (Client (lock_wait_table c) (u32 (c_tx c + 1)))
      (generate_header h (c_tx c) md t RELEASE_LOCK id (mode_val o)) s T x q a); eauto.
    + exists 0. unfold lock_release. by destruct o.
    + by apply rx_release.
    + intros k Hk. eapply ready_insert; [cbn [lock_wait_table]; exact Ew|]. by apply Hready.
    + intros o' r [H|[=]]. eapply flagged_host; eauto.
Defined.
End net.

(** ** What the clients get *)

(** C13: NetLock's primary server grants exactly what the reader/writer lock of
    [RwSpec] grants. The statement runs from a client's call through the frame,
    the switch, the server's queue and the grant frames back to the wait flags
    of the hosts, with queued requests withdrawn or not; nothing faults or
    exits on the way and the queue's mutex is free again. *)
Theorem net_refines cfg sw id md es :
  net_setting cfg id md ->
  let impl := net_impl cfg sw id md in
  well_behaved es (impl_init (S := netsys)) view_init ->
  exists s, run es (impl_init (S := netsys)) view_init = Ok (s, view_of (spec_run es spec_init)) /\
    exists q, lock_queue (srv s) !! id = Some q /\ queue_mutex q = false.
Proof.
  intros Hs impl HB. pose (laws := net_laws cfg sw id md Hs).
  destruct (run_refines es HB) as (s & E & ((T & x & q & Es & Hr) & _)). exists s. split; [exact E|].
  exists q. rewrite Es. split; [apply lookup_insert_eq|apply Hr].
Qed.

(** NetLock is safe and strands nobody, in every run of well-behaved
    clients that may also withdraw queued requests. *)
Theorem net_safe cfg sw id md es :
  net_setting cfg id md ->
  let impl := net_impl cfg sw id md in
  well_behaved es (impl_init (S := netsys)) view_init ->
  exists s v, run es (impl_init (S := netsys)) view_init = Ok (s, v) /\ exclusive v /\ no_stranded v.
Proof. intros Hs impl HB. pose proof (net_laws cfg sw id md Hs) as laws. exact (run_safe es HB). Qed.

Definition netcfg0 : netcfg := NetCfg 1 8 (init_len_in_switch false 8 []) None.
Definition switch0 : switch := Switch 5001 0x0a000204 10 0 0.
Definition md0 : modifier := Some (fun _ h => (h, [7; 8; 9])).

Definition net_events0 : list event :=
  [Acq Shared (2, 5); Acq Excl (1, 6); Acq Shared (3, 7); Acq Excl (2, 8); Rel Excl (1, 6);
   Rel Shared (2, 5); Rel Shared (3, 7); Acq Shared (4, 9); Acq Shared (5, 1); Rel Excl (2, 8)].

Lemma net_setting0 : net_setting netcfg0 3 md0.
Proof. split; [vm_compute; split; done|vm_compute; split; done|]. intros pt h. split; [done|]. simpl. lia. Qed.

Lemma net_behaved0 :
  let impl := net_impl netcfg0 switch0 3 md0 in
  well_behaved net_events0 (impl_init (S := netsys)) view_init.
Proof. intros impl. apply (bool_decide_unpack _). vm_compute. exact I. Qed.

Lemma net_refines_witness :
  let impl := net_impl netcfg0 switch0 3 md0 in
  exists s, run net_events0 (impl_init (S := netsys)) view_init =
      Ok (s, view_of (spec_run net_events0 spec_init)) /\
    exists q, lock_queue (srv s) !! 3 = Some q /\ queue_mutex q = false.
Proof. intros impl. exact (net_refines netcfg0 switch0 3 md0 net_events0 net_setting0 net_behaved0). Defined.

Lemma net_safe_witness :
  let impl := net_impl netcfg0 switch0 3 md0 in
  exists s v, run net_events0 (impl_init (S := netsys)) view_init = Ok (s, v) /\ exclusive v /\ no_stranded v.
Proof. intros impl. exact (net_safe netcfg0 switch0 3 md0 net_events0 net_setting0 net_behaved0). Defined.
