(* ===== verification/NetProps.v ===== *)
(** * NetProps: further properties of the NetLock lock server

    The secondary role (requests pushed back to the switch), the server's
    behaviour on arbitrary frames, and what a release of a request that is not
    in the queue does. *)

From S2P Require Import Prelude Types NetWire NetServer NetRefine.

#[local] Open Scope prog_scope.

(** ** Pushing requests back *)

Section push.
Context (cfg : netcfg) (id : Z) (T : gmap Z NodeQueuePerLock).
#[local] Abbreviation st := (st_of id T).

Definition push_frame (x sn : Z) (n : lock_queue_node) : frame :=
  generate_header_lock_server (LOCALHOST_ID cfg) x n PUSH_BACK_LOCK 0 (u8 sn) LK_PORT.

Fixpoint push_frames (x sn : Z) (ns : list lock_queue_node) : list frame :=
  match ns with
  | [] => []
  | n :: ns' => push_frame x sn n :: push_frames (u32 (x + 1)) sn ns'
  end.

Lemma push_loop n i x q :
  (i + n <= length (node_queue q))%nat ->
  exists x', for_each (seq i n) (fun k =>
      nd <- get_request id k ;; sn <- get_seqnum id ;; net_send_lock_server cfg nd PUSH_BACK_LOCK 0 sn) (st x q) =
    Ok (tt, st x' q, push_frames x (seqnum q) (take n (drop i (node_queue q)))).
Proof.
  revert i x. induction n as [|n IH]; intros i x Hl; [by exists x; rewrite take_0|].
  destruct (lookup_lt_is_Some_2 (node_queue q) i) as [nd E]; [lia|].
  destruct (IH (S i) (u32 (x + 1))) as (x' & E'); [lia|]. exists x'.
  cbn [seq for_each]. unfold get_request at 1, get_seqnum at 1. rewrite !bind_assoc.
  rewrite (bind_ok _ _ _ _ _ _ (net_read_queue_eq id T x q _)), E, (bind_ok (ret _) _ _ _ _ _ eq_refl), bind_assoc.
  rewrite (bind_ok _ _ _ _ _ _ (net_read_queue_eq id T x q _)).
  assert (Es : net_send_lock_server cfg nd PUSH_BACK_LOCK 0 (seqnum q) (st x q) =
    Ok (tt, st (u32 (x + 1)) q, [push_frame x (seqnum q) nd])) by done.
  rewrite (bind_ok _ _ _ _ _ _ Es), E'.
  by rewrite (drop_S _ _ _ E).
Qed.

Lemma dequeue_loop n i x q :
  (n <= length (node_queue q))%nat ->
  for_each (seq i n) (fun _ =>
      nd <- dequeue_request id ;; match nd with Some _ => ret tt | None => fail FaultNull end) (st x q) =
    Ok (tt, st x (set_nodes (drop n (node_queue q)) q), []).
Proof.
  revert i q. induction n as [|n IH]; intros i q Hl; [by destruct q|].
  cbn [seq for_each]. unfold dequeue_request at 1. rewrite !bind_assoc.
  rewrite (bind_ok _ _ _ _ _ _ (net_read_queue_eq id T x q _)).
  destruct (node_queue q) as [|nd l] eqn:Eq; [simpl in Hl; lia|]. rewrite !bind_assoc.
  rewrite (bind_ok _ _ _ _ _ _ (net_with_queue_eq id T x q _)).
  rewrite (bind_ok (ret _) _ _ _ _ _ eq_refl), (bind_ok (ret tt) _ _ _ _ _ eq_refl).
  rewrite IH by (simpl in *; lia). done.
Qed.

(** A release at the secondary server returns the oldest requests to the
    switch. As many requests as the switch has room for, or all of them, are
    sent in arrival order and leave the queue; the younger ones stay in order,
    and the lock's state is not touched. *)
Theorem secondary_push_back node q x room :
  lock_id node = id -> queue_mutex q = false -> len_in_switch cfg !! id = Some room -> 0 <= room ->
  let n := Nat.min (Z.to_nat room) (length (node_queue q)) in
  exists x', process_secondary_release cfg node (st x q) =
    Ok (tt, st x' (NQ (drop n (node_queue q)) false (shared_counter q) (exclusive_counter q)
                     (lock_state q) (seqnum q) (ticket_id q + 1)),
        push_frames x (seqnum q) (take n (node_queue q))).
Proof.
  intros Hid Hmx Hroom Hpos n. unfold process_secondary_release. rewrite Hid. nstep.
  unfold get_lock_queue_size. nstep. rewrite Hroom.
  set (dl := if Z.of_nat _ <? room then _ else room).
  assert (Hdl : Z.to_nat dl = n).
  { unfold dl, n. cbn [node_queue set_lock]. destruct (Z.ltb_spec (Z.of_nat (length (node_queue q))) room); lia. }
  rewrite Hdl. set (q1 := set_lock true _ q).
  destruct (push_loop n 0 x q1) as (x' & E); [cbn [node_queue q1 set_lock]; lia|].
  rewrite (bind_ok _ _ _ _ _ _ E).
  rewrite (bind_ok _ _ _ _ _ _ (dequeue_loop n 0 x' q1 ltac:(cbn [node_queue q1 set_lock]; lia))).
  rewrite net_unblock_eq by done. exists x'. rewrite drop_0. by rewrite !app_nil_r.
Qed.
End push.

Definition node0 (op m h t : Z) : lock_queue_node := Node op m h t 3 (ip_addr (h - 1)) 2 [].

Definition queue0 : NodeQueuePerLock :=
  NQ [node0 0 0 1 11; node0 0 1 2 12; node0 2 0 3 13] false 0 0 STATE_FREE 4 7.

Definition netcfg1 : netcfg := NetCfg 1 8 {[ 3 := 2 ]} None.

Lemma secondary_push_back_witness :
  exists x', process_secondary_release netcfg1 (node0 1 1 2 12) (st_of 3 ∅ 0 queue0) =
    Ok (tt, st_of 3 ∅ x' (NQ [node0 2 0 3 13] false 0 0 STATE_FREE 4 8),
        push_frames netcfg1 0 4 [node0 0 0 1 11; node0 0 1 2 12]).
Proof. apply (secondary_push_back netcfg1 3 ∅ (node0 1 1 2 12) queue0 0 2); done. Defined.

(** ** Arbitrary frames *)

Section total.
Context (cfg : netcfg) (id : Z) (T : gmap Z NodeQueuePerLock).
#[local] Abbreviation st := (st_of id T).

(** A handler that returns with the mutex free. *)
Definition settles (m : N unit) (x : Z) (q : NodeQueuePerLock) : Prop :=
  exists x' q' out, m (st x q) = Ok (tt, st x' q', out) /\ queue_mutex q' = false.

Lemma settles_unblock x q : queue_mutex q = true -> settles (unblock_queue id) x q.
Proof. intros Hmx. unfold settles. rewrite net_unblock_eq by done. by do 3 eexists. Qed.

Lemma settles_bind {A} (m : N A) (k : A -> N unit) x q x1 q1 v o1 :
  m (st x q) = Ok (v, st x1 q1, o1) -> settles (k v) x1 q1 -> settles (bind m k) x q.
Proof.
  intros E (x' & q' & out & E' & Hmx). exists x', q', (o1 ++ out). split; [|done].
  by rewrite (bind_ok _ _ _ _ _ _ E), E'.
Qed.

Lemma settles_with f (k : unit -> N unit) x q :
  settles (k tt) x (f q) -> settles (bind (with_queue id f) k) x q.
Proof. apply settles_bind with []. apply net_with_queue_eq. Qed.

Lemma settles_read {A} (f : NodeQueuePerLock -> A) (k : A -> N unit) x q :
  settles (k (f q)) x q -> settles (bind (read_queue id f) k) x q.
Proof. apply settles_bind with []. apply net_read_queue_eq. Qed.

Lemma settles_block (k : unit -> N unit) x q :
  queue_mutex q = false -> settles (k tt) x (set_lock true (ticket_id q + 1) q) ->
  settles (bind (block_queue id) k) x q.
Proof. intros Hmx. apply settles_bind with []. by apply net_block_eq. Qed.

Lemma settles_enqueue n (k : unit -> N unit) x q :
  lock_id n = id -> settles (k tt) x (set_nodes (node_queue q ++ [n]) q) ->
  settles (bind (enqueue_request n) k) x q.
Proof. intros Hn. apply settles_bind with []. by apply enqueue_eq. Qed.

Lemma settles_grant n tr sn (k : unit -> N unit) x q :
  settles (k tt) (u32 (x + 1)) q ->
  settles (bind (net_send_lock_server cfg n GRANT_LOCK_FROM_SERVER tr sn) k) x q.
Proof. eapply settles_bind. apply grant_eq. Qed.

Lemma settles_erase r h o (k : Z -> N unit) x q :
  (forall v l, settles (k v) x (set_nodes l q)) -> (forall v, settles (k v) x q) ->
  settles (bind (erase_lock_request id r h o) k) x q.
Proof.
  intros H1 H2. pose proof (net_erase_eq id T x q r o h) as E.
  destruct (erase_first _ _) as [[i l]|]; (eapply settles_bind; [exact E|]); auto.
Qed.
End total.

Create HintDb settle discriminated.
#[export] Hint Resolve settles_unblock : settle.

Ltac settle :=
  repeat first
    [ apply settles_with | apply settles_read | (apply settles_block; [done|])
    | (apply settles_enqueue; [done|]) | apply settles_grant
    | (apply settles_unblock; done)
    | match goal with |- settles _ _ (if ?b then _ else _) _ _ => destruct b end
    | progress nunfold ].

Section frames.
Context (cfg : netcfg) (id : Z) (T : gmap Z NodeQueuePerLock).

Lemma primary_acquire_settles node x q :
  lock_id node = id -> queue_mutex q = false -> settles id T (process_primary_acquire cfg node) x q.
Proof. intros Hi Hmx. unfold process_primary_acquire. rewrite Hi. settle. Qed.

(** What follows the erasure of the released request. *)
Lemma grant_head_settles p x q n l :
  queue_mutex q = true -> node_queue q = n :: l ->
  settles id T (set_lock_state id STATE_EXCLUSIVE ;; grant_at cfg id p 0 ;; unblock_queue id) x q.
Proof.
  intros Hmx Hq. nunfold. apply settles_with.
  eapply settles_bind; [apply (grant_at_eq cfg id T x (set_state STATE_EXCLUSIVE q) p 0 n); simpl; by rewrite Hq|].
  settle.
Qed.

Lemma grant_shared_settles p x q :
  queue_mutex q = true ->
  settles id T (set_lock_state id STATE_SHARED ;;
    shared_head <- get_shared_requests id ;;
    for_each shared_head (fun i => add_shared_counter id ;; grant_at cfg id p i) ;;
    unblock_queue id) x q.
Proof.
  intros Hmx. unfold set_lock_state, get_shared_requests. apply settles_with, settles_read.
  destruct (net_grant_loop_eq cfg id T p (node_queue q) [] x (set_state STATE_SHARED q) eq_refl) as (x' & E).
  eapply settles_bind; [exact E|]. settle.
Qed.

Lemma primary_release_settles node x q :
  lock_id node = id -> queue_mutex q = false -> settles id T (process_primary_release cfg node) x q.
Proof.
  intros Hi Hmx. unfold process_primary_release. rewrite Hi. apply settles_block; [done|].
  assert (Htail : forall (k : option lock_queue_node -> N unit) q1, queue_mutex q1 = true ->
    k None = (add_seqnum id ;; unblock_queue id) ->
    (forall n l, node_queue q1 = n :: l -> settles id T (k (Some n)) x (set_state STATE_FREE q1)) ->
    settles id T (set_lock_state id STATE_FREE ;; cur_head <- get_head_request id ;; k cur_head) x q1).
  { intros k q1 Hq1 Hk Hn. nunfold. apply settles_with, settles_read.
    change (node_queue (set_state STATE_FREE q1)) with (node_queue q1).
    destruct (node_queue q1) as [|n l] eqn:El; cbn [head]; [|by apply (Hn n l)]. rewrite Hk. settle. }
  apply settles_erase; [intros v l|intros v]; set (q1 := set_lock true _ q); try set (q2 := set_nodes l q1).
  all: destruct (mode node =? SHARED); [|destruct (mode node =? EXCLUSIVE); [|by settle]].
  all: nunfold; apply settles_read; case_if; [|by settle].
  1, 3: apply settles_with, settles_read; case_if; [by settle|].
  all: apply Htail; [done|done|]; intros n' l' Hl.
  all: case_if; [by apply grant_head_settles with n' l'|case_if; [|by settle]].
  1, 2: by settle.
  all: by apply grant_shared_settles.
Qed.

Lemma secondary_release_settles node x q room :
  lock_id node = id -> queue_mutex q = false -> len_in_switch cfg !! id = Some room ->
  settles id T (process_secondary_release cfg node) x q.
Proof.
  intros Hi Hmx Hroom. unfold process_secondary_release. rewrite Hi. apply settles_block; [done|].
  unfold get_lock_queue_size. apply settles_read. rewrite Hroom. set (dl := if _ <? _ then _ else _).
  set (q1 := set_lock true _ q).
  assert (Hdl : (Z.to_nat dl <= length (node_queue q1))%nat).
  { unfold dl. cbn [node_queue q1 set_lock]. destruct (Z.ltb_spec (Z.of_nat (length (node_queue q))) room); lia. }
  destruct (push_loop cfg id T (Z.to_nat dl) 0 x q1) as (x' & E); [lia|].
  eapply settles_bind; [exact E|].
  eapply settles_bind; [exact (dequeue_loop id T _ 0 x' q1 Hdl)|]. settle.
Qed.

Lemma rx_frame_settles f x q room :
  lock_id (mbuf_to_node f) = id -> queue_mutex q = false -> len_in_switch cfg !! id = Some room ->
  settles id T (rx_frame cfg f) x q.
Proof.
  intros Hi Hmx Hroom.
  assert (Hret : settles id T (ret tt) x q) by (by exists x, q, []).
  unfold rx_frame, process_primary_backup, process_secondary_backup.
  repeat case_if; try done; [by apply primary_acquire_settles|by apply primary_release_settles| |].
  - unfold process_secondary_acquire. rewrite Hi. settle.
  - by apply secondary_release_settles with room.
Qed.
End frames.

(** The lock server survives every frame for a lock it manages, whatever
    its operation, mode, role and sender. The handler returns, with the mutex
    of the lock's queue released, and no other lock is touched. *)
Theorem server_total cfg f s q room :
  let id := lock_id (mbuf_to_node f) in
  lock_queue s !! id = Some q -> queue_mutex q = false -> len_in_switch cfg !! id = Some room ->
  exists s' q' out, rx_frame cfg f s = Ok (tt, s', out) /\
    lock_queue s' !! id = Some q' /\ queue_mutex q' = false /\
    forall id', id' <> id -> lock_queue s' !! id' = lock_queue s !! id'.
Proof.
  intros id Hq Hmx Hroom.
  destruct (rx_frame_settles cfg id (lock_queue s) f (n_tx s) q room eq_refl Hmx Hroom)
    as (x' & q' & out & E & Hmx').
  assert (Es : st_of id (lock_queue s) (n_tx s) q = s)
    by (unfold st_of; rewrite insert_id by done; by destruct s).
  rewrite Es in E. exists (st_of id (lock_queue s) x' q'), q', out.
  split; [done|]. split; [apply lookup_insert_eq|]. split; [done|].
  intros id' Hne. cbn [lock_queue st_of]. by rewrite lookup_insert_ne.
Qed.

(** A release in a mode the protocol does not have. *)
Definition odd_frame : frame :=
  generate_header 4 0 None 99 RELEASE_LOCK 3 7.

Definition server0 : server := Server {[ 3 := queue0 ]} 0.

Lemma server_total_witness :
  exists s' q' out, rx_frame netcfg1 odd_frame server0 = Ok (tt, s', out) /\
    lock_queue s' !! 3 = Some q' /\ queue_mutex q' = false /\
    forall id', id' <> 3 -> lock_queue s' !! id' = lock_queue server0 !! id'.
Proof. apply (server_total netcfg1 odd_frame server0 queue0 2); vm_compute; reflexivity. Defined.

(** ** Releases of requests that are not in the queue *)

(** [erase_lock_request] returns 0 both for the head of the queue and for
    a request that is not there, so an exclusive release by somebody who is
    not in the queue passes for the holder's. The lock stays with its holder,
    but the holder is granted it a second time, with the stranger's payload. *)
Theorem stray_release_regrants cfg id T x q m n l :
  queue_mutex q = false -> lock_state q = STATE_EXCLUSIVE -> node_queue q = n :: l -> mode n = EXCLUSIVE ->
  lock_id m = id -> mode m = EXCLUSIVE ->
  Forall (fun k => (client_id k, txn_id k) <> (client_id m, txn_id m)) (node_queue q) ->
  process_primary_release cfg m (st_of id T x q) =
    Ok (tt, st_of id T (u32 (x + 1))
              (NQ (set_payload (payload m) n :: l) false (shared_counter q) (exclusive_counter q)
                 STATE_EXCLUSIVE (seqnum q) (ticket_id q + 1)),
        [gframe cfg 1 x (seqnum q) (set_payload (payload m) n)]).
Proof.
  intros Hmx Hst Hq Hn Hi Hm HF. unfold process_primary_release. rewrite Hi. nstep.
  pose proof (net_erase_eq id T x (set_lock true (ticket_id q + 1) q) (txn_id m) (mode m) (client_id m)) as E.
  rewrite (proj2 (erase_first_None _ (node_queue (set_lock true (ticket_id q + 1) q)))) in E.
  - rewrite (bind_ok _ _ _ _ _ _ E), Hm. change (EXCLUSIVE =? SHARED) with false.
    change (EXCLUSIVE =? EXCLUSIVE) with true. cbv iota. nunfold. nstep.
    cbn [lock_state set_lock]. rewrite Hst. change (_ && _) with true. cbv iota. nstep. nstep.
    cbn [node_queue set_state set_lock]. rewrite Hq. cbn [head]. rewrite Hn.
    change (EXCLUSIVE =? EXCLUSIVE) with true. cbv iota. nstep.
    rewrite (bind_ok _ _ _ _ _ _ (grant_at_eq cfg id T x
      (set_state STATE_EXCLUSIVE (set_state STATE_FREE (set_lock true (ticket_id q + 1) q))) (payload m) 0 n
      ltac:(simpl; by rewrite Hq))).
    rewrite net_unblock_eq by done. cbn [node_queue set_state set_lock set_nodes]. by rewrite Hq.
  - apply (list.Forall_impl _ _ _ HF). intros k Hk. unfold node_is.
    destruct (Z.eqb_spec (client_id k) (client_id m)) as [E1|], (Z.eqb_spec (txn_id k) (txn_id m)) as [E2|];
      rewrite ?andb_false_r; try done. destruct Hk. by rewrite E1, E2.
Qed.

Definition queue1 : NodeQueuePerLock :=
  NQ [Node 0 1 2 12 3 (ip_addr 1) 1 []; Node 0 1 5 50 3 (ip_addr 4) 1 []] false 0 0 STATE_EXCLUSIVE 0 9.

Lemma stray_release_regrants_witness :
  process_primary_release netcfg1 (Node 1 1 4 40 3 (ip_addr 3) 1 [6; 6]) (st_of 3 ∅ 0 queue1) =
    Ok (tt, st_of 3 ∅ 1
              (NQ [Node 0 1 2 12 3 (ip_addr 1) 1 [6; 6]; Node 0 1 5 50 3 (ip_addr 4) 1 []] false 0 0
                 STATE_EXCLUSIVE 0 10),
        [gframe netcfg1 1 0 0 (Node 0 1 2 12 3 (ip_addr 1) 1 [6; 6])]).
Proof.
  apply (stray_release_regrants netcfg1 3 ∅ 0 queue1 (Node 1 1 4 40 3 (ip_addr 3) 1 [6; 6])
    (Node 0 1 2 12 3 (ip_addr 1) 1 []) [Node 0 1 5 50 3 (ip_addr 4) 1 []]); try done.
  by repeat constructor.
Defined.
