(* ===== verification/NetSwitch.v ===== *)
(** * NetSwitch: the queues NetLock keeps in the switch

    Models baseline/NetLock/switch/p4 (ingress.p4, egress.p4, the registers of
    includes/registers.p4) and the entries that switch/control/test.py writes
    into its tables and registers.  A lock has an interval of slots that it uses
    as a ring: [head_reg] is the slot before the first request, [tail_reg] the
    slot of the last.  A request finds the lock free or is stored; a release
    takes the first request out and then goes round through the switch, one pass
    for each further request that may have to be granted.

    One pass reads and writes each register at most once, so [switch_pass] is a
    function of the registers.  Fields of the lock header are as stored, in
    network order, as in [NetWire].  The warm-up traffic to port 4321 and the
    tenant counters, which nothing uses, are left out. *)

From S2P Require Import Prelude Types NetWire.

#[local] Open Scope prog_scope.

(** ** Registers *)

Record lock_regs := LockRegs {
  left_bound : Z;
  right_bound : Z;
  queue_size_op : Z;
  slots_lo : Z;      (** [slots_two_sides_register]: empty slots *)
  slots_hi : Z;      (** ... and requests sent on to the server *)
  excl_count : Z;    (** [shared_and_exclusive_count_register] *)
  shared_count : Z;
  head_reg : Z;
  tail_reg : Z;
}.

(** A cell of each array register. *)
Record slot := Slot {
  ip_array : Z;
  mode_array : Z;
  client_id_array : Z;
  tid_array : Z;
  timestamp_array : Z;
}.

Record nswitch := NSwitch { regs : gmap Z lock_regs; slots : gmap Z slot }.

(** Registers are zero until they are written. *)
Definition regs0 : lock_regs := LockRegs 0 0 0 0 0 0 0 0 0.
Definition slot0 : slot := Slot 0 0 0 0 0.

Definition regs_of (i : Z) (s : nswitch) : lock_regs := default regs0 (regs s !! i).
Definition slot_of (k : Z) (s : nswitch) : slot := default slot0 (slots s !! k).
Definition set_regs (i : Z) (r : lock_regs) (s : nswitch) : nswitch := NSwitch (<[i := r]> (regs s)) (slots s).
Definition set_slot (k : Z) (x : slot) (s : nswitch) : nswitch := NSwitch (regs s) (<[k := x]> (slots s)).

Definition with_slots (lo hi : Z) (r : lock_regs) : lock_regs :=
  LockRegs (left_bound r) (right_bound r) (queue_size_op r) lo hi (excl_count r) (shared_count r) (head_reg r) (tail_reg r).
Definition with_counts (excl shared : Z) (r : lock_regs) : lock_regs :=
  LockRegs (left_bound r) (right_bound r) (queue_size_op r) (slots_lo r) (slots_hi r) excl shared (head_reg r) (tail_reg r).
Definition with_head (h : Z) (r : lock_regs) : lock_regs :=
  LockRegs (left_bound r) (right_bound r) (queue_size_op r) (slots_lo r) (slots_hi r) (excl_count r) (shared_count r) h (tail_reg r).
Definition with_tail (t : Z) (r : lock_regs) : lock_regs :=
  LockRegs (left_bound r) (right_bound r) (queue_size_op r) (slots_lo r) (slots_hi r) (excl_count r) (shared_count r) (head_reg r) t.

(** ** Packets *)

(** A frame with the header of a packet that goes round: the mode of the
    request taken out, and the positions of the next and the last request. *)
Record npacket := NPacket { np : frame; recirculate_hdr : option (Z * Z * Z) }.

(** Where a packet goes: to the port of its destination, as a mirrored copy to
    the port of its destination, or back into the switch. *)
Inductive nout :=
  | ToPort (f : frame)
  | Mirror (f : frame)
  | Recirc (p : npacket).

Definition with_msg (h : lock_post_header) (f : frame) : frame :=
  Frame (eth_dst f) (eth_src f) (ip_total_length f) (ip_src_addr f) (ip_dst_addr f)
    (udp_src_port f) (udp_dst_port f) (udp_dgram_len f) h (f_body f) (data_len f).
Definition with_dst (ip : Z) (f : frame) : frame :=
  Frame (eth_dst f) (eth_src f) (ip_total_length f) (ip_src_addr f) ip
    (udp_src_port f) (udp_dst_port f) (udp_dgram_len f) (f_msg f) (f_body f) (data_len f).

Definition with_op (op : Z) (h : lock_post_header) : lock_post_header :=
  Hdr (recirc_flag h) op (h_mode h) (h_client_id h) (h_txn_id h) (h_lock_id h) (timestamp h)
    (empty_slots h) (hd_head h) (hd_tail h) (h_ncnt h) (h_transferred h).
Definition with_recirc (flag : Z) (h : lock_post_header) : lock_post_header :=
  Hdr flag (h_op_type h) (h_mode h) (h_client_id h) (h_txn_id h) (h_lock_id h) (timestamp h)
    (empty_slots h) (hd_head h) (hd_tail h) (h_ncnt h) (h_transferred h).
Definition with_queue (slots head tail : Z) (h : lock_post_header) : lock_post_header :=
  Hdr (recirc_flag h) (h_op_type h) (h_mode h) (h_client_id h) (h_txn_id h) (h_lock_id h) (timestamp h)
    (htonl slots) (htonl head) (htonl tail) (h_ncnt h) (h_transferred h).

(** ** Tables (switch/control/test.py) *)

Definition ipv4_address_list : list Z :=
  [0x0a000204; 0x0a000201; 0x0a000202; 0x0a000203; 0x0a000205; 0x0a000206; 0x0a000207; 0x0a000208].

Definition server_ip : Z := 0x0a000207.

(** [ipv4_route_table] and [i2e_mirror_table] have an entry for each address;
    other packets are dropped. *)
Definition routed (ip : Z) : bool := existsb (fun a => htonl a =? ip) ipv4_address_list.

Definition ipv4_route_table (f : frame) : list nout := if routed (ip_dst_addr f) then [ToPort f] else [].

Definition fix_port (lock : Z) : Z := 9000 + lock mod 256.

Definition set_as_secondary_action (f : frame) : frame :=
  Frame (mac_of SECONDARY_BACKUP) (eth_src f) (ip_total_length f) (ip_src_addr f) (ip_dst_addr f)
    (udp_src_port f) (udp_dst_port f) (udp_dgram_len f) (f_msg f) (f_body f) (data_len f).

(** [fix_src_port_table], [set_tag_table] and [forward_to_server_table]: the
    server is the primary of a lock that is not in the switch, and then the header
    stays as it is; else it keeps the requests that do not fit. *)
Definition to_server (lock_exist : bool) (slots head tail : Z) (f : frame) : frame :=
  let h := f_msg f in
  let f := fix_src_port_action (fix_port (ntohl (h_lock_id h))) f in
  if lock_exist then
    forward_to_server_action server_ip (htonl slots) (htonl head) (htonl tail) (set_as_secondary_action f)
  else forward_to_server_action server_ip (empty_slots h) (hd_head h) (hd_tail h) (set_as_primary_action f).

(** ** Acquire *)

Definition size_of_queue (r : lock_regs) : Z := u32 (right_bound r - left_bound r).

(** The next slot of the ring. *)
Definition ring_next (r : lock_regs) (k : Z) : Z := if k =? right_bound r then left_bound r else u32 (k + 1).

Definition dec_empty_slots_alu (r : lock_regs) : lock_regs * Z :=
  if (0 <? slots_lo r) && (u32 (slots_hi r + queue_size_op r) <=? 0) then
    (with_slots (slots_lo r - 1) (slots_hi r) r, slots_hi r)
  else (with_slots (slots_lo r) (u32 (slots_hi r + 1)) r, u32 (slots_hi r + 1)).

Definition push_back_alu (r : lock_regs) : lock_regs :=
  with_slots (if 0 <? slots_lo r then slots_lo r - 1 else slots_lo r) (u32 (slots_hi r - 1)) r.

Definition acquire_shared_lock_alu (r : lock_regs) : lock_regs * Z :=
  let hi := u32 (shared_count r + 1) in
  (with_counts (excl_count r) hi r, if 0 <? excl_count r then hi else 0).

Definition acquire_exclusive_lock_alu (r : lock_regs) : lock_regs * Z :=
  (with_counts (u32 (excl_count r + 1)) (shared_count r) r,
   if (0 <? excl_count r) || (0 <? shared_count r) then 1 else 0).

(** [acquire_lock_table]: no entry for another mode. *)
Definition acquire_lock_table (mode : Z) (r : lock_regs) : lock_regs * Z :=
  if mode =? SHARED then acquire_shared_lock_alu r
  else if mode =? EXCLUSIVE then acquire_exclusive_lock_alu r else (r, 0).

Definition new_slot (f : frame) : slot :=
  let h := f_msg f in Slot (ip_src_addr f) (h_mode h) (h_client_id h) (h_txn_id h) (timestamp h).

(** Control [AcquireLock], for requests and for requests that the server sends
    back. *)
Definition acquire_lock (i : Z) (f : frame) (s : nswitch) : nswitch * list nout :=
  let h := f_msg f in
  let r := regs_of i s in
  let '(r, length_in_server) :=
    if h_op_type h =? ACQUIRE_LOCK then dec_empty_slots_alu r else (push_back_alu r, 0) in
  if negb (length_in_server =? 0) then (set_regs i r s, ipv4_route_table (to_server true 0 0 0 f))
  else
    let '(r, locked) := acquire_lock_table (h_mode h) r in
    let tail := ring_next r (tail_reg r) in
    let s := set_slot tail (new_slot f) (set_regs i (with_tail tail r) s) in
    if locked =? 0 then
      let h := with_queue length_in_server 0 tail h in
      let h := if h_op_type h =? ACQUIRE_LOCK then with_op DIRECT_GRANT_FROM_SWITCH h else h in
      (s, ipv4_route_table (with_dst (ip_src_addr f) (with_msg h f)))
    else (s, []).

(** ** Release *)

Definition inc_empty_slots_alu (r : lock_regs) : lock_regs * Z :=
  (if slots_lo r <=? size_of_queue r then with_slots (u32 (slots_lo r + 1)) (slots_hi r) r else r, slots_lo r).

Definition update_lock_alu (mode : Z) (r : lock_regs) : lock_regs :=
  if mode =? EXCLUSIVE then with_counts (u32 (excl_count r - 1)) (shared_count r) r
  else if mode =? SHARED then with_counts (excl_count r) (u32 (shared_count r - 1)) r else r.

(** Bytes of the header of a packet that goes round. *)
Definition recirculate_bytes (x : option (Z * Z * Z)) : list Z :=
  match x with
  | Some (dequeued_mode, cur_head, cur_tail) =>
      [dequeued_mode] ++ rev (le_bytes 4 cur_head) ++ rev (le_bytes 4 cur_tail)
  | None => []
  end.

(** The egress pipeline on a mirrored copy of the packet as it entered: the
    request in slot [x] becomes the packet's; the header for going round is not
    parsed there and stays in front of the body. *)
Definition change_op_type_action (p : npacket) (x : slot) (head tail : Z) : frame :=
  let f := np p in
  let h := f_msg f in
  let extra := recirculate_bytes (recirculate_hdr p) in
  Frame (eth_dst f) (eth_src f) (ip_total_length f) (ip_array x) (ip_array x)
    (u16 (LK_PORT + ntohl (tid_array x) mod 128)) LK_PORT (udp_dgram_len f)
    (Hdr 0 ACQUIRE_LOCK (mode_array x) (client_id_array x) (tid_array x) (h_lock_id h) (timestamp h)
       (empty_slots h) (htonl head) (htonl tail) (h_ncnt h) (h_transferred h))
    (extra ++ f_body f) (data_len f + Z.of_nat (length extra)).

(** Control [ReleaseLock] on a packet whose positions are known: grant the
    request at [head], if it is its turn, and go on to the next one. *)
Definition release_at (p : npacket) (r : lock_regs) (head tail flag dequeued_mode : Z) (x : slot) : list nout :=
  let f := with_dst (ip_array x) (np p) in
  let grant :=
    ((flag =? 1) && ((dequeued_mode =? EXCLUSIVE) || (mode_array x =? EXCLUSIVE))) ||
    ((flag =? 2) && (mode_array x =? SHARED)) in
  let mirror :=
    if grant && routed (ip_array x) then [Mirror (change_op_type_action p x head tail)] else [] in
  if grant || (flag =? 0) then
    let mark :=
      if head =? tail then None
      else if flag =? 0 then Some (1, mode_array x)
      else if ((flag =? 1) && (mode_array x =? SHARED)) || (flag =? 2) then Some (2, dequeued_mode)
      else None in
    match mark with
    | Some (flag', dequeued) =>
        mirror ++ [Recirc (NPacket (with_msg (with_recirc flag' (f_msg f)) f) (Some (dequeued, ring_next r head, tail)))]
    | None => mirror
    end
  else mirror.

Definition release_lock (i : Z) (p : npacket) (s : nswitch) : nswitch * list nout :=
  let f := np p in
  let r := regs_of i s in
  if recirc_flag (f_msg f) =? 0 then
    let '(r', empty_slots_before_pop) := inc_empty_slots_alu r in
    let head := ring_next r' (head_reg r') in
    let r' := update_lock_alu (h_mode (f_msg f)) (with_head head r') in
    let s := set_regs i r' s in
    if empty_slots_before_pop =? size_of_queue r then
      (s, ipv4_route_table (to_server true empty_slots_before_pop head 0 f))
    else (s, release_at p r' head (tail_reg r') 0 0 (slot_of head s))
  else
    let '(dequeued_mode, head, tail) := default (0, 0, 0) (recirculate_hdr p) in
    (s, release_at p r head tail (recirc_flag (f_msg f)) dequeued_mode (slot_of head s)).

(** ** One pass, and all of them *)

(** [check_lock_exist_table]: the registers of a lock. *)
Abbreviation lock_table := (gmap Z Z).

(** The parser finds a lock header behind two ports. *)
Definition nlk_valid (f : frame) : bool := (udp_dst_port f =? LK_PORT) || (udp_dst_port f =? 8889).

Definition switch_pass (t : lock_table) (p : npacket) (s : nswitch) : nswitch * list nout :=
  let f := np p in
  let op := h_op_type (f_msg f) in
  if negb (nlk_valid f) then (s, [])
  else if (op =? ACQUIRE_LOCK) || (op =? PUSH_BACK_LOCK) || (op =? RELEASE_LOCK) then
    match t !! ntohl (h_lock_id (f_msg f)) with
    | Some i => if op =? RELEASE_LOCK then release_lock i p s else acquire_lock i f s
    | None => (s, ipv4_route_table (to_server false 0 0 0 f))
    end
  else (s, ipv4_route_table f).

(** The packet a pass leaves to go round, and the frames it sends. *)
Fixpoint next_pass (outs : list nout) : option npacket :=
  match outs with
  | [] => None
  | Recirc p :: _ => Some p
  | _ :: outs' => next_pass outs'
  end.

Definition sent_frames (outs : list nout) : list nout :=
  filterb (fun o => match o with Recirc _ => false | _ => true end) outs.

(** A packet with everything it leaves to go round, in at most [fuel] passes. *)
Fixpoint switch_packet (fuel : nat) (t : lock_table) (p : npacket) (s : nswitch) : option (nswitch * list nout) :=
  match fuel with
  | O => None
  | S n =>
      let '(s', outs) := switch_pass t p s in
      match next_pass outs with
      | None => Some (s', sent_frames outs)
      | Some p' => '(s'', fs) ← switch_packet n t p' s'; Some (s'', sent_frames outs ++ fs)
      end
  end.

(** ** Setting up a lock *)

(** The interval behind slot [start_bound], for [n] requests. *)
Definition init_regs (start_bound n : Z) : lock_regs :=
  LockRegs (start_bound + 1) (start_bound + n) 0 n 0 0 0 (start_bound + 1) (start_bound + 1).

(** The lines of the file of queue lengths, each a lock and its length. *)
Definition init_tables (lines : list (Z * Z)) : lock_table * nswitch :=
  (fold_left (fun '(t, s, start_bound) '(lk, n) =>
     (<[lk := lk]> t, set_regs lk (init_regs start_bound n) s, start_bound + n))
     lines (∅, NSwitch ∅ ∅, 0)).1.
