(* ===== verification/NetSwitchRefine.v ===== *)
(** * NetSwitchRefine: the switch queue is a first-come-first-served lock

    The contract of a lock whose requests fit the slots that NetLock gives it in
    the switch, and the proof that the registers, with all passes of each
    release, implement it: a request is granted at once when the lock is free or
    shared with nobody waiting, requests that wait are granted in the order of
    their arrival, and when the last holder leaves the longest waiting request
    gets the lock, together with the readers directly behind it. *)

From S2P Require Import Prelude RwSpec Types NetWire NetServer NetRefine NetSwitch.

#[local] Open Scope prog_scope.

(** ** The contract *)

Fixpoint take_shared (ws : list (rw * req)) : list (rw * req) :=
  match ws with w :: ws' => if is_shared w then w :: take_shared ws' else [] | [] => [] end.

Fixpoint drop_shared (ws : list (rw * req)) : list (rw * req) :=
  match ws with w :: ws' => if is_shared w then drop_shared ws' else ws | [] => [] end.

Definition fifo_acquire (op : rw) (r : req) (a : spec) : spec * list (rw * req) :=
  match sp_mode a, op, sp_waiters a with
  | None, _, _ => (Spec (Some op) {[ r ]} (sp_waiters a), [(op, r)])
  | Some Shared, Shared, [] => (Spec (Some Shared) ({[ r ]} ∪ sp_holders a) [], [(Shared, r)])
  | _, _, _ => (Spec (sp_mode a) (sp_holders a) (sp_waiters a ++ [(op, r)]), [])
  end.

Definition fifo_schedule (ws : list (rw * req)) : spec * list (rw * req) :=
  match ws with
  | [] => (Spec None ∅ [], [])
  | (Excl, r) :: ws' => (Spec (Some Excl) {[ r ]} ws', [(Excl, r)])
  | (Shared, _) :: _ => (Spec (Some Shared) (list_to_set (map snd (take_shared ws))) (drop_shared ws), take_shared ws)
  end.

Definition fifo_release (op : rw) (r : req) (a : spec) : spec * list (rw * req) :=
  let hs := sp_holders a ∖ {[ r ]} in
  if bool_decide (hs = ∅) then fifo_schedule (sp_waiters a) else (Spec (sp_mode a) hs (sp_waiters a), []).

Definition fifo_step (e : event) (a : spec) : spec * list (rw * req) :=
  match e with Acq op r => fifo_acquire op r a | Rel op r => fifo_release op r a end.

Definition fifo_run (es : list event) (a : spec) : spec := fold_left (fun a e => (fifo_step e a).1) es a.

Record fifo_wf (a : spec) : Prop := {
  ff_free : sp_mode a = None -> sp_holders a = ∅ /\ sp_waiters a = [];
  ff_busy : sp_mode a <> None -> sp_holders a <> ∅;
  ff_excl : sp_mode a = Some Excl -> exists r, sp_holders a = {[ r ]};
  ff_shared : forall w ws, sp_mode a = Some Shared -> sp_waiters a = w :: ws -> is_shared w = false;
  ff_nodup : NoDup (map snd (sp_waiters a));
  ff_disjoint : forall r, r ∈ sp_holders a -> r ∉ map snd (sp_waiters a);
}.

Lemma take_drop_shared ws : take_shared ws ++ drop_shared ws = ws.
Proof. induction ws as [|w ws IH]; [done|]. simpl. destruct (is_shared w); [|done]. simpl. by rewrite IH. Qed.

Lemma take_shared_all ws : Forall (fun w => w.1 = Shared) (take_shared ws).
Proof.
  induction ws as [|[[] r] ws IH]; simpl; constructor; done.
Qed.

Lemma drop_shared_head ws w ws' : drop_shared ws = w :: ws' -> is_shared w = false.
Proof.
  induction ws as [|x ws IH]; simpl; [done|]. destruct (is_shared x) eqn:E; [done|]. by intros [= <- _].
Qed.

Lemma fifo_wf_init : fifo_wf spec_init.
Proof. split; simpl; try done; try constructor; set_solver. Qed.

Lemma fifo_schedule_wf ws : NoDup (map snd ws) -> fifo_wf (fifo_schedule ws).1.
Proof.
  intros Hnd. destruct ws as [|[[] r] ws]; unfold fifo_schedule; [apply fifo_wf_init| |].
  - set (ws' := (Shared, r) :: ws) in *. rewrite <- (take_drop_shared ws'), map_app in Hnd.
    apply list.NoDup_app in Hnd as (Hn1 & Hn2 & Hn3). split; cbn [sp_mode sp_holders sp_waiters fst]; try done.
    + intros _. unfold ws'. simpl. set_solver.
    + intros w ws0 _ E. by apply (drop_shared_head ws' w ws0).
    + intros r' Hr'. rewrite elem_of_list_to_set in Hr'. by apply Hn2.
  - simpl in Hnd. apply list.NoDup_cons in Hnd as [Hr Hnd]. split; simpl; try done; set_solver.
Qed.

Lemma fifo_single op r : fifo_wf (Spec (Some op) {[ r ]} []).
Proof. split; cbn [sp_mode sp_holders sp_waiters map]; try set_solver. constructor. Qed.

Lemma fifo_acquire_wf op r a :
  fifo_wf a -> r ∉ sp_holders a -> r ∉ map snd (sp_waiters a) -> fifo_wf (fifo_acquire op r a).1.
Proof.
  intros [Hf Hb He Hs Hn Hd] Hr1 Hr2. unfold fifo_acquire.
  assert (Hen : sp_mode a <> None -> (sp_mode a = Some Shared -> op = Shared -> sp_waiters a <> []) ->
    fifo_wf (Spec (sp_mode a) (sp_holders a) (sp_waiters a ++ [(op, r)]))).
  { intros Hm Hop. split; cbn [sp_mode sp_holders sp_waiters]; try done.
    - intros w ws Em Ew. destruct (sp_waiters a) as [|w0 ws0] eqn:Ew0; simpl in Ew.
      + injection Ew as <- _. destruct op; [by destruct (Hop Em eq_refl)|done].
      + injection Ew as <- _. by apply (Hs w0 ws0).
    - rewrite map_app. simpl. apply list.NoDup_app. split; [done|]. split; [set_solver|]. apply NoDup_singleton.
    - intros r' Hr'. rewrite map_app. simpl. rewrite elem_of_app, list_elem_of_singleton.
      intros [H| ->]; [by apply (Hd r')|done]. }
  destruct (sp_mode a) as [[]|] eqn:Em; [destruct op; [destruct (sp_waiters a) as [|w ws] eqn:Ew|]| |]; cbn [fst].
  - split; simpl; try done; try set_solver.
  - apply Hen; done.
  - apply Hen; done.
  - apply Hen; done.
  - destruct (Hf eq_refl) as [_ ->]. apply fifo_single.
Qed.

Lemma fifo_fresh op r a :
  fifo_wf a -> permitted false (Acq op r) (view_of a) -> r ∉ sp_holders a /\ r ∉ map snd (sp_waiters a).
Proof.
  intros Hwf HP. cbn in HP. split; intros Hr.
  - destruct (sp_mode a) as [m|] eqn:Em.
    + apply (HP m). apply elem_of_union_l. by apply elem_of_held.
    + destruct (ff_free _ Hwf Em) as [E _]. set_solver.
  - apply elem_of_waiter_snd in Hr as [o Ho]. apply (HP o). set_solver.
Qed.

Lemma fifo_release_cases op r a :
  fifo_wf a -> permitted false (Rel op r) (view_of a) ->
  sp_mode a = Some op /\ r ∈ sp_holders a /\
  ((sp_holders a = {[ r ]} /\ fifo_release op r a = fifo_schedule (sp_waiters a)) \/
   (op = Shared /\ sp_holders a ∖ {[ r ]} <> ∅ /\
    fifo_release op r a = (Spec (sp_mode a) (sp_holders a ∖ {[ r ]}) (sp_waiters a), []))).
Proof.
  intros Hwf HP. apply permitted_rel_cases in HP as [[Hm Hr]|[? _]]; [|done].
  split_and!; [done..|]. unfold fifo_release. case_bool_decide as E; [left|right].
  - split; [|done]. apply set_eq. intros x. destruct (decide (x = r)); set_solver.
  - split_and!; try done. destruct op; [done|]. destruct (ff_excl _ Hwf Hm) as [h Hh]. rewrite Hh in *. set_solver.
Qed.

Lemma fifo_step_wf e a : fifo_wf a -> permitted false e (view_of a) -> fifo_wf (fifo_step e a).1.
Proof.
  intros Hwf HP. destruct e as [op r|op r]; cbn [fifo_step].
  - destruct (fifo_fresh _ _ _ Hwf HP). by apply fifo_acquire_wf.
  - destruct (fifo_release_cases _ _ _ Hwf HP) as (Hm & Hr & [[_ ->]|(_ & Hne & ->)]).
    + apply fifo_schedule_wf, Hwf.
    + split; cbn [sp_mode sp_holders sp_waiters fst].
      * intros E. rewrite Hm in E. done.
      * done.
      * intros E. destruct (ff_excl _ Hwf E) as [h Hh]. exists h. set_solver.
      * intros w ws. apply (ff_shared _ Hwf).
      * apply (ff_nodup _ Hwf).
      * intros x Hx. apply (ff_disjoint _ Hwf). set_solver.
Qed.

(** The clients' view follows the contract. *)
Lemma view_of_fifo_acquire op r a :
  fifo_wf a -> r ∉ sp_holders a -> r ∉ map snd (sp_waiters a) ->
  view_step (Acq op r) (fifo_acquire op r a).2 (view_of a) = view_of (fifo_acquire op r a).1.
Proof.
  intros Hwf Hh Hw. unfold fifo_acquire, view_of.
  assert (Hw' : forall o, (o, r) ∉ sp_waiters a)
    by (intros o Ho; apply Hw, elem_of_waiter_snd; by exists o).
  destruct (sp_mode a) as [[]|] eqn:Hm;
    [destruct op; [destruct (sp_waiters a) as [|w ws] eqn:Ew|]| |]; simpl; rewrite ?Hm; simpl.
  all: apply view_eq; intros [o r']; rewrite ?elem_of_difference, ?elem_of_union,
    ?elem_of_held, ?elem_of_singleton, ?list_to_set_app, ?elem_of_list_to_set; set_solver.
Qed.

Lemma view_of_fifo_schedule op r a :
  fifo_wf a -> sp_mode a = Some op -> sp_holders a = {[ r ]} ->
  view_step (Rel op r) (fifo_schedule (sp_waiters a)).2 (view_of a) = view_of (fifo_schedule (sp_waiters a)).1.
Proof.
  intros Hwf Hm Hh. pose proof (ff_disjoint _ Hwf r) as Hd. rewrite Hh in Hd.
  specialize (Hd ltac:(set_solver)). pose proof (ff_nodup _ Hwf) as Hnd.
  assert (Hw : forall o, (o, r) ∉ sp_waiters a)
    by (intros o Ho; apply Hd, elem_of_waiter_snd; by exists o).
  unfold view_of. rewrite Hm, Hh.
  destruct (sp_waiters a) as [|[[] r0] ws] eqn:Ews; unfold fifo_schedule.
  - simpl. apply view_eq; intros [o r']; set_solver.
  - rewrite <- Ews in *. pose proof (take_drop_shared (sp_waiters a)) as E.
    pose proof (take_shared_all (sp_waiters a)) as HF.
    set (t := take_shared (sp_waiters a)) in *. set (d := drop_shared (sp_waiters a)) in *. rewrite <- E in *.
    rewrite list.Forall_forall in HF. rewrite map_app in Hnd. apply list.NoDup_app in Hnd as (_ & Hnd & _).
    cbn [fst snd view_step v_held v_pending sp_mode sp_holders sp_waiters]. apply view_eq; intros [o r'].
    + rewrite elem_of_union, elem_of_difference, !elem_of_held, elem_of_singleton, !elem_of_list_to_set, elem_of_waiter_snd.
      split; [intros [[H1 H2]|H]; [set_solver|]|].
      * pose proof (HF _ H). simpl in *. eauto.
      * intros (-> & o' & H). right. pose proof (HF _ H). simpl in *. by subst.
    + rewrite !elem_of_difference, elem_of_singleton, !elem_of_list_to_set, elem_of_app.
      assert (Hx : (o, r') ∈ d -> (o, r') ∉ t).
      { intros H1 H2. apply (Hnd r'); apply elem_of_waiter_snd; eauto. }
      assert (Hy : (o, r') ∈ d -> (o, r') <> (op, r)).
      { intros H1 [= -> ->]. apply (Hw op). rewrite elem_of_app. by right. }
      tauto.
  - simpl in *. apply list.NoDup_cons in Hnd as [Hr0 Hnd].
    assert (Hw0 : forall o, (o, r0) ∉ ws)
      by (intros o Ho; apply Hr0, elem_of_waiter_snd; by exists o).
    apply view_eq; intros [o r']; rewrite ?elem_of_held; set_solver.
Qed.

Lemma view_of_fifo_step e a :
  fifo_wf a -> permitted false e (view_of a) -> view_step e (fifo_step e a).2 (view_of a) = view_of (fifo_step e a).1.
Proof.
  intros Hwf HP. destruct e as [op r|op r]; cbn [fifo_step].
  - destruct (fifo_fresh _ _ _ Hwf HP). by apply view_of_fifo_acquire.
  - destruct (fifo_release_cases _ _ _ Hwf HP) as (Hm & Hr & [[Hh ->]|(Hop & Hne & ->)]).
    + by apply view_of_fifo_schedule.
    + pose proof (ff_disjoint _ Hwf r Hr) as Hd.
      assert (Hw : forall o, (o, r) ∉ sp_waiters a)
        by (intros o Ho'; apply Hd, elem_of_waiter_snd; by exists o).
      unfold view_of. simpl. rewrite Hm. apply view_eq; intros [o r'].
      * rewrite elem_of_union, elem_of_difference, !elem_of_held. set_solver.
      * set_solver.
Qed.

Lemma fifo_exclusive a : fifo_wf a -> exclusive (view_of a).
Proof.
  intros Hwf r. unfold view_of. simpl. destruct (sp_mode a) as [m|] eqn:Hm; [|set_solver].
  rewrite elem_of_held. intros [<- Hr]. destruct (ff_excl _ Hwf Hm) as [h Hh].
  rewrite Hh in *. apply elem_of_singleton in Hr as ->. apply set_eq. intros [o r'].
  rewrite elem_of_held. set_solver.
Qed.

Lemma fifo_no_stranded a : fifo_wf a -> no_stranded (view_of a).
Proof.
  intros Hwf. unfold no_stranded, view_of. simpl. intros Hh. destruct (sp_mode a) as [m|] eqn:Hm.
  - destruct (ff_busy _ Hwf) as []; [by rewrite Hm|]. apply set_eq. intros r.
    split; [|set_solver]. intros Hr. exfalso.
    assert ((m, r) ∈ (set_map (pair m) (sp_holders a) : gset (rw * req))) as H
      by (by apply elem_of_held). rewrite Hh in H. set_solver.
  - destruct (ff_free _ Hwf Hm) as [_ ->]. done.
Qed.

(** ** The ring *)

Section ring.
Context (L n : Z) (Hn : 1 <= n) (HL : 0 <= L) (HR : L + n < 2 ^ 32).

(** The [k]-th slot behind [h]. *)
Definition pos (h k : Z) : Z := L + (h - L + k) mod n.

Lemma pos_range h k : L <= pos h k < L + n.
Proof using Hn. unfold pos. pose proof (Z.mod_pos_bound (h - L + k) n). lia. Qed.

Lemma pos_0 h : L <= h < L + n -> pos h 0 = h.
Proof using. intros Hh. unfold pos. rewrite Z.add_0_r, Z.mod_small; lia. Qed.

Lemma pos_pos h j k : pos (pos h j) k = pos h (j + k).
Proof using Hn.
  unfold pos. f_equal. rewrite (Z.add_comm L), Z.add_simpl_r, Z.add_mod_idemp_l by lia. f_equal. lia.
Qed.

Lemma pos_next r h k :
  left_bound r = L -> right_bound r = L + n - 1 -> ring_next r (pos h k) = pos h (k + 1).
Proof using Hn HL HR.
  intros EL ER. unfold ring_next. rewrite EL, ER. rewrite <- (pos_pos h k 1).
  pose proof (pos_range h k) as Hp. generalize dependent (pos h k). intros x Hp. unfold pos.
  destruct (Z.eqb_spec x (L + n - 1)) as [->|Hx].
  - replace (L + n - 1 - L + 1) with n by lia. rewrite Z.mod_same by lia. lia.
  - rewrite Z.mod_small by lia. rewrite uw_small by (unfold in_uw; lia). lia.
Qed.

Lemma pos_inj h j k : 0 <= j -> 0 <= k -> Z.abs (j - k) < n -> pos h j = pos h k -> j = k.
Proof using Hn.
  unfold pos. intros Hj Hk Hd E. assert (E' : (h - L + j) mod n = (h - L + k) mod n) by lia.
  pose proof (Z.div_mod (h - L + j) n). pose proof (Z.div_mod (h - L + k) n).
  assert (Hq : n * ((h - L + j) / n - (h - L + k) / n) = j - k) by lia.
  generalize dependent ((h - L + j) / n - (h - L + k) / n). intros d Hd'. assert (d = 0) by nia. lia.
Qed.
End ring.

(** ** Requests and grants as packets *)

Definition key_of (f : frame) : rw * req :=
  (rw_of (h_mode (f_msg f)), (h_client_id (f_msg f), ntohl (h_txn_id (f_msg f)))).

(** What a client learns from a packet of the switch: the direct grants, and
    the mirrored packets. *)
Definition grant_of (o : nout) : option (rw * req) :=
  match o with
  | Mirror f => Some (key_of f)
  | ToPort f => if h_op_type (f_msg f) =? DIRECT_GRANT_FROM_SWITCH then Some (key_of f) else None
  | Recirc _ => None
  end.

Definition skey (x : slot) : rw * req :=
  (rw_of (mode_array x), (client_id_array x, ntohl (tid_array x))).

Definition slot_ok (x : slot) : Prop :=
  (mode_array x = SHARED \/ mode_array x = EXCLUSIVE) /\ 1 <= client_id_array x <= 8 /\
  ip_array x = ip_addr (client_id_array x - 1).

Definition excls (q : list (rw * req)) : Z := Z.of_nat (length (filterb (fun w => negb (is_shared w)) q)).
Definition shareds (q : list (rw * req)) : Z := Z.of_nat (length (filterb is_shared q)).

Lemma counts_app q1 q2 : excls (q1 ++ q2) = excls q1 + excls q2 /\ shareds (q1 ++ q2) = shareds q1 + shareds q2.
Proof. unfold excls, shareds. rewrite !List.filter_app, !length_app. lia. Qed.

Lemma counts_length q : excls q + shareds q = Z.of_nat (length q) /\ 0 <= excls q /\ 0 <= shareds q.
Proof.
  unfold excls, shareds. induction q as [|w q IH]; [done|]. cbn [List.filter length]. destruct (is_shared w); cbn [negb length]; lia.
Qed.

Lemma counts_excl q : Forall (fun w => w.1 = Excl) q -> shareds q = 0.
Proof. unfold shareds. induction 1 as [|[o r] q Hw _ IH]; [done|]. cbn in *. by rewrite Hw. Qed.

Lemma counts_shared q : Forall (fun w => w.1 = Shared) q -> excls q = 0.
Proof. unfold excls. induction 1 as [|[o r] q Hw _ IH]; [done|]. cbn in *. by rewrite Hw. Qed.

Lemma routed_client h : 1 <= h <= 8 -> routed (ip_addr (h - 1)) = true.
Proof.
  intros Hh. assert (h = 1 \/ h = 2 \/ h = 3 \/ h = 4 \/ h = 5 \/ h = 6 \/ h = 7 \/ h = 8) as Hc by lia.
  destruct Hc as [->|[->|[->|[->|[->|[->|[->| ->]]]]]]]; vm_compute; reflexivity.
Qed.

Lemma mode_shared x : slot_ok x -> (mode_array x =? SHARED) = is_shared (skey x).
Proof. unfold is_shared, skey, rw_of. simpl. by destruct (mode_array x =? SHARED). Qed.

Lemma mode_excl x : slot_ok x -> (mode_array x =? EXCLUSIVE) = negb (is_shared (skey x)).
Proof. intros Hx. rewrite <- mode_shared by done. destruct Hx as [[-> | ->] _]; done. Qed.

(** ** The registers of one lock *)

Section queue.
Context (L n id : Z) (Hn : 1 <= n) (HL : 0 <= L) (HR : L + n < 2 ^ 32).

Abbreviation pos := (pos L n).

Definition len {A} (l : list A) : Z := Z.of_nat (length l).

Definition queue_regs (h : Z) (q : list (rw * req)) : lock_regs :=
  LockRegs L (L + n - 1) 0 (n - len q) 0 (excls q) (shareds q) h (pos h (len q)).

(** The requests in the slots behind [h], oldest first. *)
Record queue_at (s : nswitch) (h : Z) (xs : list slot) : Prop := {
  qa_head : L <= h < L + n;
  qa_fits : len xs <= n;
  qa_ok : Forall slot_ok xs;
  qa_regs : regs s !! id = Some (queue_regs h (map skey xs));
  qa_slots : forall k x, xs !! k = Some x -> slots s !! pos h (Z.of_nat k + 1) = Some x;
}.

(** Whether a request gets the lock at once. *)
Definition at_once (op : rw) (q : list (rw * req)) : bool :=
  match op with Shared => excls q =? 0 | Excl => (excls q =? 0) && (shareds q =? 0) end.

Record request_frame (op : rw) (r : req) (f : frame) : Prop := {
  rf_mode : h_mode (f_msg f) = mode_val op;
  rf_client : h_client_id (f_msg f) = r.1;
  rf_host : 1 <= r.1 <= 8;
  rf_txn : ntohl (h_txn_id (f_msg f)) = r.2;
  rf_ip : ip_src_addr f = ip_addr (r.1 - 1);
}.

Lemma new_slot_ok op r f : request_frame op r f -> slot_ok (new_slot f) /\ skey (new_slot f) = (op, r).
Proof using.
  intros [Hm Hc Hh Ht Hi]. unfold slot_ok, skey, new_slot. cbn. rewrite Hm, Hc, Ht, Hi.
  destruct op, r; cbn; auto.
Qed.

Lemma u32_len q : len q < n -> u32 (excls q + 1) = excls q + 1 /\ u32 (shareds q + 1) = shareds q + 1.
Proof using HL HR.
  intros Hq. pose proof (counts_length q) as (E & ? & ?). unfold len in Hq. rewrite !uw_small by (unfold in_uw; lia). done.
Qed.

(** The table of the modes: the request is counted, and finds out whether it has
    to wait. *)
Lemma acquire_table op k q r :
  len q < n -> excl_count r = excls q -> shared_count r = shareds q ->
  exists locked, acquire_lock_table (mode_val op) r =
      (with_counts (excls (q ++ [(op, k)])) (shareds (q ++ [(op, k)])) r, locked) /\
    (locked =? 0) = at_once op q.
Proof using HL HR.
  intros Hq Ee Es. destruct (u32_len q Hq) as [E1 E2]. pose proof (counts_length q) as (_ & H1 & H2).
  destruct (counts_app q [(op, k)]) as [-> ->].
  unfold acquire_lock_table, acquire_shared_lock_alu, acquire_exclusive_lock_alu.
  destruct op; cbn [mode_val]; change (EXCLUSIVE =? SHARED) with false; change (EXCLUSIVE =? EXCLUSIVE) with true;
    change (SHARED =? SHARED) with true; cbv iota zeta; rewrite Ee, Es, ?E1, ?E2.
  - eexists. split; [unfold excls at 3, shareds at 3; cbn; by rewrite Z.add_0_r|]. cbn [at_once].
    destruct (Z.ltb_spec 0 (excls q)), (Z.eqb_spec (excls q) 0); try lia.
  - eexists. split; [unfold excls at 3, shareds at 3; cbn; by rewrite Z.add_0_r|]. cbn [at_once].
    destruct (Z.ltb_spec 0 (excls q)), (Z.ltb_spec 0 (shareds q)), (Z.eqb_spec (excls q) 0), (Z.eqb_spec (shareds q) 0);
      try lia; done.
Qed.

Lemma regs_queue s h xs : queue_at s h xs -> regs_of id s = queue_regs h (map skey xs).
Proof using. intros HQ. unfold regs_of. by rewrite (qa_regs _ _ _ HQ). Qed.

Lemma len_keys (xs : list slot) : len (map skey xs) = len xs.
Proof using. unfold len. by rewrite length_map. Qed.

Lemma slot_taken h q :
  len q < n -> dec_empty_slots_alu (queue_regs h q) = (with_slots (n - len q - 1) 0 (queue_regs h q), 0).
Proof using.
  intros Hq. unfold dec_empty_slots_alu. cbn [queue_regs slots_lo slots_hi queue_size_op].
  by rewrite (proj2 (Z.ltb_lt 0 (n - len q))) by lia.
Qed.

Lemma acquire_queue op k s h xs f :
  queue_at s h xs -> len xs < n -> request_frame op k f -> h_op_type (f_msg f) = ACQUIRE_LOCK ->
  exists s' outs, acquire_lock id f s = (s', outs) /\ queue_at s' h (xs ++ [new_slot f]) /\
    next_pass outs = None /\
    omap grant_of (sent_frames outs) = (if at_once op (map skey xs) then [(op, k)] else []).
Proof using Hn HL HR.
  intros HQ0 Hlt Hreq Hop. pose proof (regs_queue s h xs HQ0) as Er. destruct HQ0 as [Hh Hf Hok Hr Hs].
  destruct (new_slot_ok op k f Hreq) as [Hnok Hnk]. pose proof (len_keys xs) as Hq. set (q := map skey xs) in *.
  assert (Hq' : len (q ++ [(op, k)]) = len xs + 1) by (unfold len in *; rewrite length_app; simpl; lia).
  destruct (acquire_table op k q (with_slots (n - len q - 1) 0 (queue_regs h q))) as (locked & Et & El); [lia|done|done|].
  unfold acquire_lock. rewrite Er, Hop. change (ACQUIRE_LOCK =? ACQUIRE_LOCK) with true. cbv iota.
  rewrite slot_taken by lia. cbn [Z.eqb negb]. rewrite (rf_mode _ _ _ Hreq), Et.
  cbn [tail_reg with_counts with_slots queue_regs]. rewrite (pos_next L n Hn HL HR) by done. rewrite El, Hq.
  set (s' := set_slot _ _ _). assert (HQ : queue_at s' h (xs ++ [new_slot f])).
  { split; [done| | | |].
    - unfold len in *. rewrite length_app. simpl. lia.
    - apply Forall_app. split; [done|]. constructor; [done|constructor].
    - rewrite map_app. cbn [map]. rewrite Hnk. fold q. unfold s', set_slot, set_regs. cbn [regs].
      rewrite lookup_insert_eq. unfold queue_regs. rewrite Hq'. unfold with_tail, with_counts, with_slots, queue_regs. cbn.
      do 2 f_equal. lia.
    - intros i x Hx. unfold s', set_slot. cbn [slots]. apply lookup_app_Some in Hx as [Hx|[Hi Hx]].
      + pose proof (lookup_lt_Some _ _ _ Hx) as Hi. rewrite lookup_insert_ne; [by apply Hs|].
        intros E. apply pos_inj in E; unfold len in *; lia.
      + apply list_lookup_singleton_Some in Hx as [Hi' <-]. replace (Z.of_nat i) with (len xs) by (unfold len; lia).
        by rewrite lookup_insert_eq. }
  destruct (at_once op q) eqn:Ea; (eexists _, _; split; [reflexivity|]); (split; [exact HQ|]).
  - unfold ipv4_route_table. cbn [ip_dst_addr with_dst with_msg]. rewrite (rf_ip _ _ _ Hreq), routed_client by apply Hreq.
    split; [done|]. cbn. unfold key_of. cbn. rewrite Hop. cbn.
    rewrite (rf_mode _ _ _ Hreq), (rf_client _ _ _ Hreq), (rf_txn _ _ _ Hreq). by destruct op, k.
  - done.
Qed.
(** ** The passes of a release *)

Context (t : lock_table) (Ht : t !! id = Some id).

Record round_packet (flag : Z) (p : npacket) : Prop := {
  rp_valid : nlk_valid (np p) = true;
  rp_op : h_op_type (f_msg (np p)) = RELEASE_LOCK;
  rp_lock : ntohl (h_lock_id (f_msg (np p))) = id;
  rp_flag : recirc_flag (f_msg (np p)) = flag;
}.

Lemma round_pass flag p s : round_packet flag p -> switch_pass t p s = release_lock id p s.
Proof using Ht. intros [Hv Ho Hl _]. unfold switch_pass. by rewrite Hv, Ho, Hl, Ht. Qed.

Lemma round_next flag flag' p ip x :
  round_packet flag p -> round_packet flag' (NPacket (with_msg (with_recirc flag' (f_msg (with_dst ip (np p)))) (with_dst ip (np p))) x).
Proof using. intros [Hv Ho Hl _]. by split. Qed.

Lemma key_of_copy p x hd tl : key_of (change_op_type_action p x hd tl) = skey x.
Proof using. done. Qed.

(** The tail of the ring is met at the last request only. *)
Lemma at_tail h j m : L <= h < L + n -> 1 <= j <= m -> m <= n -> (pos h j =? pos h m) = (j =? m).
Proof using Hn.
  intros Hh Hj Hm. destruct (Z.eqb_spec j m) as [->|Hne]; [apply Z.eqb_refl|].
  apply Z.eqb_neq. intros E. apply pos_inj in E; lia.
Qed.

(** A later pass of a release, at the request behind [pre]. *)
Record on_way (s : nswitch) (h : Z) (pre : list slot) (x : slot) (rest : list slot) (flag dq : Z) (p : npacket) : Prop := {
  ow_queue : queue_at s h (pre ++ x :: rest);
  ow_round : round_packet flag p;
  ow_hdr : recirculate_hdr p = Some (dq, pos h (len pre + 1), pos h (len (pre ++ x :: rest)));
}.

Lemma on_way_pass s h pre x rest flag dq p :
  on_way s h pre x rest flag dq p -> flag <> 0 ->
  switch_pass t p s = (s, release_at p (queue_regs h (map skey (pre ++ x :: rest))) (pos h (len pre + 1))
    (pos h (len (pre ++ x :: rest))) flag dq x).
Proof using Ht.
  intros [HQ HR' Eh] Hf. rewrite (round_pass flag) by done. unfold release_lock.
  rewrite (rp_flag _ _ HR'), (proj2 (Z.eqb_neq flag 0)) by done. rewrite Eh, (regs_queue s h _ HQ). cbn [default from_option Datatypes.id].
  do 2 f_equal. unfold slot_of. unfold len at 1. rewrite (qa_slots _ _ _ HQ (length pre) x); [done|].
  by apply list_lookup_middle.
Qed.

Lemma on_way_next s h pre x y rest flag flag' dq p :
  on_way s h pre x (y :: rest) flag dq p ->
  on_way s h (pre ++ [x]) y rest flag' dq
    (NPacket (with_msg (with_recirc flag' (f_msg (with_dst (ip_array x) (np p)))) (with_dst (ip_array x) (np p)))
       (Some (dq, ring_next (queue_regs h (map skey (pre ++ x :: y :: rest))) (pos h (len pre + 1)),
              pos h (len (pre ++ x :: y :: rest))))).
Proof using Hn HL HR.
  intros [HQ HR' Eh]. split.
  - by rewrite <- app_assoc.
  - by apply (round_next flag).
  - cbn [recirculate_hdr]. rewrite (pos_next L n Hn HL HR) by done. rewrite <- app_assoc. cbn [app].
    do 4 f_equal. unfold len. rewrite length_app. simpl. lia.
Qed.

Lemma on_way_last s h pre x rest flag dq p :
  on_way s h pre x rest flag dq p ->
  (pos h (len pre + 1) =? pos h (len (pre ++ x :: rest))) = match rest with [] => true | _ => false end.
Proof using Hn.
  intros [HQ _ _]. pose proof (qa_fits _ _ _ HQ) as Hf. pose proof (qa_head _ _ _ HQ) as Hh.
  unfold len in *. rewrite length_app in *. cbn [length] in *. rewrite at_tail by lia.
  destruct rest; cbn [length] in *; [apply Z.eqb_eq|apply Z.eqb_neq]; lia.
Qed.

Lemma slot_in s h pre x rest : queue_at s h (pre ++ x :: rest) -> slot_ok x.
Proof using. intros HQ. pose proof (qa_ok _ _ _ HQ) as HF. by apply Forall_app in HF as [_ ?%Forall_inv]. Qed.

(** The passes of the readers behind a reader. *)
Lemma drain_readers rest s h pre x dq p fuel :
  on_way s h pre x rest 2 dq p -> (length rest < fuel)%nat ->
  exists outs, switch_packet fuel t p s = Some (s, outs) /\ omap grant_of outs = take_shared (map skey (x :: rest)).
Proof using Hn HL HR Ht.
  revert pre x p fuel. induction rest as [|y rest IH]; intros pre x p fuel HW Hfuel;
    (destruct fuel as [|fuel]; [lia|]); cbn [switch_packet];
    rewrite (on_way_pass s h pre x _ 2 dq p HW) by done; unfold release_at;
    rewrite (on_way_last _ _ _ _ _ _ _ _ HW);
    pose proof (slot_in _ _ _ _ _ (ow_queue _ _ _ _ _ _ _ _ HW)) as Hx;
    rewrite (mode_shared x Hx), (proj2 (proj2 Hx)), routed_client by apply Hx;
    change (2 =? 1) with false; change (2 =? 2) with true; change (2 =? 0) with false;
    cbn [map take_shared]; destruct (is_shared (skey x)) eqn:Es; cbn [andb orb app next_pass sent_frames List.filter].
  - eexists. split; [reflexivity|done].
  - eexists. split; [reflexivity|done].
  - rewrite <- (proj2 (proj2 Hx)).
    destruct (IH (pre ++ [x]) y _ fuel (on_way_next _ _ _ _ _ _ 2 2 _ _ HW)) as (outs & E & Eo); [simpl in Hfuel; lia|].
    rewrite E. eexists. split; [reflexivity|]. cbn [omap list_omap app grant_of]. cbn. by rewrite Eo.
  - eexists. split; [reflexivity|done].
Qed.
(** The pass behind a release, at the request that is now the first. *)
Lemma next_turn s h x rest dq p fuel :
  on_way s h [] x rest 1 dq p -> (length rest < fuel)%nat ->
  exists outs, switch_packet fuel t p s = Some (s, outs) /\
    omap grant_of outs =
      if (dq =? EXCLUSIVE) || negb (is_shared (skey x)) then (fifo_schedule (map skey (x :: rest))).2 else [].
Proof using Hn HL HR Ht.
  intros HW Hfuel. destruct fuel as [|fuel]; [lia|]. cbn [switch_packet].
  rewrite (on_way_pass s h [] x _ 1 dq p HW) by done. unfold release_at. rewrite (on_way_last _ _ _ _ _ _ _ _ HW).
  pose proof (slot_in _ _ _ _ _ (ow_queue _ _ _ _ _ _ _ _ HW)) as Hx.
  rewrite (mode_excl x Hx), (mode_shared x Hx), (proj2 (proj2 Hx)), routed_client by apply Hx.
  change (1 =? 1) with true. change (1 =? 2) with false. change (1 =? 0) with false. cbn [andb orb]. rewrite orb_false_r, andb_true_r.
  assert (Ek : exists r, skey x = (if is_shared (skey x) then Shared else Excl, r)).
  { unfold is_shared. exists (skey x).2. by destruct (skey x) as [[] r]. }
  destruct Ek as [r Ek]. cbn [map]. rewrite Ek. unfold fifo_schedule.
  destruct (is_shared (skey x)) eqn:Es; cbn [is_shared fst negb orb]; rewrite ?orb_false_r, ?orb_true_r, ?orb_true_l.
  - destruct (dq =? EXCLUSIVE) eqn:Ed; cbn [orb app next_pass sent_frames List.filter]; [|eexists; split; [reflexivity|done]].
    destruct rest as [|y rest]; cbn [app next_pass sent_frames List.filter].
    + eexists. split; [reflexivity|]. cbn [snd take_shared map is_shared fst]. rewrite <- Ek. done.
    + rewrite <- (proj2 (proj2 Hx)).
      destruct (drain_readers rest s h ([] ++ [x]) y dq _ fuel (on_way_next _ _ _ _ _ _ 1 2 _ _ HW)) as (outs & E & Eo);
        [simpl in Hfuel; lia|].
      cbn [app] in E |- *. rewrite E. eexists. split; [reflexivity|]. cbn [snd take_shared is_shared fst]. rewrite <- Ek.
      change (take_shared (map skey (y :: rest))) with (take_shared (skey y :: map skey rest)) in Eo.
      cbn. by rewrite Eo.
  - eexists. destruct rest; (split; [reflexivity|]); simpl; by rewrite key_of_copy, Ek.
Qed.
(** The registers after the first request left. *)
Definition popped (x : slot) (h : Z) (q : list (rw * req)) : lock_regs :=
  update_lock_alu (mode_array x) (with_head (pos h 1) (with_slots (n - len q) 0 (queue_regs h (skey x :: q)))).

Lemma popped_regs x h q : slot_ok x -> len q < n -> popped x h q = queue_regs (pos h 1) q.
Proof using Hn HL HR.
  intros Hx Hq. pose proof (counts_length q) as (E & ? & ?). unfold len in Hq.
  assert (Ec : excls (skey x :: q) = excls [skey x] + excls q /\ shareds (skey x :: q) = shareds [skey x] + shareds q)
    by apply (counts_app [skey x] q). destruct Ec as [Ee Es].
  assert (El : len (skey x :: q) = len q + 1) by (unfold len; simpl; lia).
  unfold popped, update_lock_alu. rewrite (mode_excl x Hx), (mode_shared x Hx).
  unfold excls at 2 in Ee. unfold shareds at 2 in Es. cbn [List.filter] in Ee, Es.
  destruct (is_shared (skey x)); cbn [negb length] in *;
    unfold with_counts, with_head, with_slots, queue_regs; cbn; rewrite Ee, Es, El;
    rewrite (pos_pos L n Hn); f_equal; try lia; try (rewrite uw_small by (unfold in_uw; lia)); try lia; f_equal; lia.
Qed.

Lemma pop_queue s h x xs :
  queue_at s h (x :: xs) -> queue_at (set_regs id (popped x h (map skey xs)) s) (pos h 1) xs.
Proof using Hn HL HR.
  intros [Hh Hf Hok Hr Hs]. apply Forall_cons_1 in Hok as [Hx Hok].
  assert (Hl : len (map skey xs) < n) by (rewrite len_keys; unfold len in *; simpl in Hf; lia). split.
  - pose proof (pos_range L n Hn h 1). lia.
  - rewrite len_keys in Hl. lia.
  - done.
  - cbn [set_regs regs]. by rewrite lookup_insert_eq, popped_regs.
  - intros k y Hy. cbn [set_regs slots]. rewrite (pos_pos L n Hn). rewrite <- (Hs (S k) y Hy). do 2 f_equal. lia.
Qed.

Lemma size_queue h q : size_of_queue (queue_regs h q) = n - 1.
Proof using Hn HL HR. unfold size_of_queue. cbn. rewrite uw_small by (unfold in_uw; lia). lia. Qed.

Lemma head_next r h :
  L <= h < L + n -> left_bound r = L -> right_bound r = L + n - 1 -> ring_next r h = pos h 1.
Proof using Hn HL HR. intros Hh El Er. rewrite <- (pos_0 L n h Hh) at 1. by rewrite (pos_next L n Hn HL HR). Qed.

(** A release of one of the holders takes the first request out. *)
Lemma first_pass s h x xs p :
  queue_at s h (x :: xs) -> round_packet 0 p -> h_mode (f_msg (np p)) = mode_array x ->
  switch_pass t p s =
    let r' := popped x h (map skey xs) in
    let s' := set_regs id r' s in
    (s', if bool_decide (xs = []) then ipv4_route_table (to_server true (n - 1) (pos h 1) 0 (np p))
         else release_at p r' (pos h 1) (pos h (len (x :: xs))) 0 0 x).
Proof using Hn HL HR Ht.
  intros HQ HP Hm. pose proof (qa_fits _ _ _ HQ) as Hf. pose proof (qa_head _ _ _ HQ) as Hh.
  rewrite (round_pass 0) by done. unfold release_lock. rewrite (rp_flag _ _ HP), (regs_queue s h _ HQ). cbn [Z.eqb].
  assert (El : len (map skey (x :: xs)) = len xs + 1) by (rewrite len_keys; unfold len; simpl; lia).
  assert (Hf' : len xs + 1 <= n) by (unfold len in *; simpl in Hf; lia).
  unfold inc_empty_slots_alu. rewrite size_queue. cbn [queue_regs slots_lo]. rewrite El.
  rewrite (proj2 (Z.leb_le (n - (len xs + 1)) (n - 1))) by (unfold len; lia).
  rewrite uw_small by (unfold in_uw, len in *; lia). replace (n - (len xs + 1) + 1) with (n - len (map skey xs)) by (rewrite len_keys; lia).
  cbn [head_reg with_slots queue_regs slots_hi]. rewrite (head_next _ h Hh) by done.
  rewrite Hm. cbv zeta. change (update_lock_alu _ _) with (popped x h (map skey xs)).
  assert (Et' : tail_reg (popped x h (map skey xs)) = pos h (len (x :: xs))).
  { unfold popped, update_lock_alu. rewrite <- (len_keys (x :: xs)). by repeat case_if. }
  case_bool_decide as E.
  - subst xs. by rewrite (proj2 (Z.eqb_eq _ _)) by (unfold len; simpl; lia).
  - rewrite (proj2 (Z.eqb_neq _ _)) by (destruct xs; [done|unfold len; simpl; lia]). rewrite Et'. do 2 f_equal.
    pose proof (qa_slots _ _ _ HQ 0%nat x eq_refl) as Ex. change (Z.of_nat 0 + 1) with 1 in Ex.
    unfold slot_of. cbn [set_regs slots]. by rewrite Ex.
Qed.
(** The grants of a release that takes [x] out in front of [xs]. *)
Definition turn (x : rw * req) (q : list (rw * req)) : list (rw * req) :=
  match q with
  | [] => []
  | y :: _ => if negb (is_shared x) || negb (is_shared y) then (fifo_schedule q).2 else []
  end.

Lemma release_queue s h x xs p fuel :
  queue_at s h (x :: xs) -> round_packet 0 p -> h_mode (f_msg (np p)) = mode_array x -> (length xs <= fuel)%nat ->
  exists s' outs, switch_packet (S fuel) t p s = Some (s', outs) /\ queue_at s' (pos h 1) xs /\
    omap grant_of outs = turn (skey x) (map skey xs).
Proof using Hn HL HR Ht.
  intros HQ HP Hm Hfuel. pose proof (pop_queue s h x xs HQ) as HQ'. pose proof (slot_in s h [] x xs HQ) as Hx.
  cbn [switch_packet]. rewrite (first_pass s h x xs p HQ HP Hm). cbv zeta.
  set (s' := set_regs id _ s) in *. case_bool_decide as E.
  - subst xs. exists s', [ToPort (to_server true (n - 1) (pos h 1) 0 (np p))]. split_and!; [|done|].
    + unfold ipv4_route_table. change (routed _) with true. done.
    + cbn. by rewrite (rp_op _ _ HP).
  - destruct xs as [|y ys]; [done|]. unfold release_at. change (0 =? 1) with false. change (0 =? 2) with false.
    change (0 =? 0) with true. cbn [andb orb app].
    pose proof (qa_fits _ _ _ HQ) as Hf. rewrite at_tail; [|apply (qa_head _ _ _ HQ)|unfold len; simpl; lia|done].
    rewrite (proj2 (Z.eqb_neq _ _)) by (unfold len; simpl; lia). cbn [next_pass sent_frames List.filter app].
    set (p' := NPacket _ _). assert (HW : on_way s' (pos h 1) [] y ys 1 (mode_array x) p').
    { split; [done| |].
      - by apply (round_next 0).
      - cbn [recirculate_hdr p']. unfold len at 2. cbn [length]. rewrite (popped_regs x h _ Hx).
        + rewrite (pos_next L n Hn HL HR), !(pos_pos L n Hn) by done. do 3 f_equal. cbn [app]. unfold len. simpl. lia.
        + rewrite len_keys. unfold len in *. simpl in *. lia. }
    destruct (next_turn s' (pos h 1) y ys (mode_array x) p' fuel HW) as (outs & Eo & Eg); [simpl in Hfuel; lia|].
    rewrite Eo. exists s', outs. split_and!; [done|done|]. rewrite Eg, (mode_excl x Hx). done.
Qed.
End queue.

(** ** The switch implements the contract *)

Lemma schedule_parts ws :
  (fifo_schedule ws).2 ++ sp_waiters (fifo_schedule ws).1 = ws /\
  (NoDup (map snd ws) -> length (fifo_schedule ws).2 = size (sp_holders (fifo_schedule ws).1)) /\
  forall m, sp_mode (fifo_schedule ws).1 = Some m -> Forall (fun w => w.1 = m) (fifo_schedule ws).2.
Proof.
  destruct ws as [|[[] r] ws]; unfold fifo_schedule; cbn [fst snd sp_waiters sp_holders sp_mode].
  - done.
  - split_and!.
    + apply take_drop_shared.
    + intros Hnd. rewrite <- (take_drop_shared ((Shared, r) :: ws)), map_app in Hnd.
      apply list.NoDup_app in Hnd as (Hnd & _). by rewrite size_list_to_set, length_map.
    + intros m [= <-]. apply take_shared_all.
  - split_and!; [done|by rewrite size_singleton|]. intros m [= <-]. by constructor.
Qed.

Lemma at_once_acquire op r a hs :
  fifo_wf a -> length hs = size (sp_holders a) -> (forall m, sp_mode a = Some m -> Forall (fun w => w.1 = m) hs) ->
  (fifo_acquire op r a).2 = (if at_once op (hs ++ sp_waiters a) then [(op, r)] else []) /\
  exists hs', hs ++ sp_waiters a ++ [(op, r)] = hs' ++ sp_waiters (fifo_acquire op r a).1 /\
    (r ∉ sp_holders a -> length hs' = size (sp_holders (fifo_acquire op r a).1)) /\
    forall m, sp_mode (fifo_acquire op r a).1 = Some m -> Forall (fun w => w.1 = m) hs'.
Proof.
  intros Hwf Hlen Hm. unfold fifo_acquire, at_once. destruct (counts_app hs (sp_waiters a)) as [-> ->].
  pose proof (counts_length hs) as (Eh & Hh1 & Hh2). pose proof (counts_length (sp_waiters a)) as (Ew & Hw1 & Hw2).
  assert (Hq : forall b : bool, b = false ->
    [] = (if b then [(op, r)] else []) /\
    exists hs', hs ++ sp_waiters a ++ [(op, r)] = hs' ++ sp_waiters a ++ [(op, r)] /\
      (r ∉ sp_holders a -> length hs' = size (sp_holders a)) /\
      forall m, sp_mode a = Some m -> Forall (fun w => w.1 = m) hs') by (intros b ->; split; [done|by exists hs]).
  assert (Hbusy : sp_mode a <> None -> 0 < Z.of_nat (length hs)).
  { intros H%(ff_busy _ Hwf). rewrite Hlen. assert (size (sp_holders a) <> 0%nat) by (by intros ?%size_empty_inv%leibniz_equiv). lia. }
  destruct (sp_mode a) as [[]|] eqn:Em; [destruct op| |].
  - rewrite (counts_shared hs (Hm Shared eq_refl)). destruct (sp_waiters a) as [|w ws] eqn:Eq.
    + split; [done|]. exists (hs ++ [(Shared, r)]). split_and!; [by rewrite app_nil_r| |].
      * intros Hr. cbn [sp_holders fst]. rewrite size_union by set_solver. rewrite size_singleton, length_app. simpl. lia.
      * cbn. intros m [= <-]. apply Forall_app. split; [by apply Hm|by constructor].
    + cbn [fst snd sp_waiters sp_holders sp_mode]. rewrite <- Em in *. apply Hq. apply Z.eqb_neq.
      pose proof (ff_shared _ Hwf w ws ltac:(done) Eq) as Hw. unfold excls. cbn [List.filter]. rewrite Hw. simpl. lia.
  - cbn [fst snd sp_waiters sp_holders sp_mode]. rewrite <- Em in *. apply Hq. apply andb_false_iff. right.
    apply Z.eqb_neq. pose proof (counts_shared hs (Hm Shared Em)). specialize (Hbusy ltac:(by rewrite Em)). lia.
  - cbn [fst snd sp_waiters sp_holders sp_mode]. rewrite <- Em in *. apply Hq. specialize (Hbusy ltac:(by rewrite Em)).
    pose proof (counts_excl hs (Hm Excl Em)).
    destruct op; [|apply andb_false_iff; left]; apply Z.eqb_neq; lia.
  - destruct (ff_free _ Hwf Em) as [E1 E2]. rewrite E1, size_empty in Hlen. destruct hs; [|done]. rewrite E2. split.
    + by destruct op.
    + exists [(op, r)]. cbn. split_and!; [done|by rewrite size_singleton|]. intros m [= <-]. by constructor.
Qed.
Section impl.
Context (L n id tx : Z) (Hn : 1 <= n) (HL : 0 <= L) (HR : L + n < 2 ^ 32) (Hid : in_uw 32 id).

Definition the_table : lock_table := {[ id := id ]}.

(** A client's packet for an event. *)
Definition nlk_packet (e : event) : npacket :=
  match e with
  | Acq op r => NPacket (generate_header r.1 tx None r.2 ACQUIRE_LOCK id (mode_val op)) None
  | Rel op r => NPacket (generate_header r.1 tx None r.2 RELEASE_LOCK id (mode_val op)) None
  end.

Definition nlk_step (e : event) (s : nswitch) : result (nswitch * list (rw * req)) :=
  match switch_packet (Z.to_nat n + 1) the_table (nlk_packet e) s with
  | Some (s', outs) => Ok (s', omap grant_of outs)
  | None => Fault FaultExit
  end.

Definition nlk_valid_event (e : event) : Prop :=
  match e with Acq _ r | Rel _ r => 1 <= r.1 <= 8 /\ in_uw 32 r.2 end.

#[global] Instance nlk_valid_event_dec e : Decision (nlk_valid_event e).
Proof. unfold nlk_valid_event, in_uw. destruct e; apply _. Defined.

#[global] Instance nlk_impl : RwLockImpl nswitch := {
  impl_init := set_regs id (init_regs (L - 1) n) (NSwitch ∅ ∅);
  impl_step := nlk_step;
  impl_withdraw := false;
  impl_valid := nlk_valid_event;
}.

Definition nlk_rel (s : nswitch) (a : spec) : Prop :=
  exists h xs hs, queue_at L n id s h xs /\ map skey xs = hs ++ sp_waiters a /\
    length hs = size (sp_holders a) /\ forall m, sp_mode a = Some m -> Forall (fun w => w.1 = m) hs.

Lemma nlk_rel_init : nlk_rel impl_init spec_init.
Proof using Hn HL HR.
  exists L, [], []. split_and!; [|done|done|done]. split.
  - lia.
  - unfold len. simpl. lia.
  - constructor.
  - cbn [impl_init nlk_impl set_regs regs]. rewrite lookup_insert_eq. unfold init_regs, queue_regs. f_equal.
    cbn [map]. unfold len. cbn [length Z.of_nat]. rewrite pos_0 by lia. f_equal; cbn; lia.
  - by intros k x Hx.
Qed.

Lemma event_frame op r act : 1 <= r.1 <= 8 -> in_uw 32 r.2 ->
  let f := generate_header r.1 tx None r.2 act id (mode_val op) in
  request_frame op r f /\ h_op_type (f_msg f) = act /\ nlk_valid f = true /\ ntohl (h_lock_id (f_msg f)) = id /\
  recirc_flag (f_msg f) = 0.
Proof using Hid.
  intros Hh Ht f. split_and!; try done; [|by apply ntohl_htonl]. split; try done.
  - cbn. apply uw_small. unfold in_uw. lia.
  - cbn. by apply ntohl_htonl.
Qed.

Lemma keys_length hs a xs :
  map skey xs = hs ++ sp_waiters a -> length hs = size (sp_holders a) ->
  len xs = Z.of_nat (size (sp_holders a) + length (sp_waiters a)).
Proof using.
  intros E El. rewrite <- El, <- length_app, <- E, length_map. done.
Qed.

Lemma acquire_sim op r s a :
  nlk_rel s a -> fifo_wf a -> nlk_valid_event (Acq op r) -> permitted false (Acq op r) (view_of a) ->
  Z.of_nat (size (sp_holders a) + length (sp_waiters a)) < n ->
  exists s', nlk_step (Acq op r) s = Ok (s', (fifo_acquire op r a).2) /\ nlk_rel s' (fifo_acquire op r a).1.
Proof using Hn HL HR Hid.
  intros (h & xs & hs & HQ & E & El & Hm) Hwf [Hh Ht] HP Hroom. destruct (fifo_fresh _ _ _ Hwf HP) as [Hr _].
  destruct (event_frame op r ACQUIRE_LOCK Hh Ht) as (Hf & Ho & Hv & Hl & _). set (f := generate_header _ _ _ _ _ _ _) in *.
  destruct (acquire_queue L n id Hn HL HR op r s h xs f HQ) as (s' & outs & Ea & HQ' & En & Eg);
    [by rewrite (keys_length hs a)|done|done|].
  destruct (at_once_acquire op r a hs Hwf El Hm) as (Eg' & hs' & E' & El' & Hm').
  exists s'. unfold nlk_step. rewrite Nat.add_1_r. cbn [switch_packet nlk_packet]. fold f.
  unfold switch_pass. cbn [np]. rewrite Hv, Ho, Hl. cbn [negb]. change (_ || _) with true. change (_ =? RELEASE_LOCK) with false.
  cbv iota. unfold the_table. rewrite lookup_singleton_eq, Ea, En, Eg, E, <- Eg'. split; [done|].
  exists h, (xs ++ [new_slot f]), hs'. split_and!; [done| |by apply El'|done].
  rewrite map_app, E. cbn [map]. by rewrite (proj2 (new_slot_ok op r f Hf)), <- app_assoc.
Qed.

(** The first request in the queue is one of the lock's mode. *)
Lemma first_holder op r s a h xs hs :
  queue_at L n id s h xs -> map skey xs = hs ++ sp_waiters a -> length hs = size (sp_holders a) ->
  (forall m, sp_mode a = Some m -> Forall (fun w => w.1 = m) hs) -> sp_mode a = Some op -> r ∈ sp_holders a ->
  exists x xs' hs', xs = x :: xs' /\ hs = skey x :: hs' /\ map skey xs' = hs' ++ sp_waiters a /\
    mode_val op = mode_array x /\ is_shared (skey x) = (if decide (op = Shared) then true else false) /\
    Forall (fun w => w.1 = op) hs'.
Proof using Hn HL HR Hid.
  intros HQ E El Hm Hmode Hr. pose proof (Hm op Hmode) as HF.
  destruct hs as [|k hs']; [symmetry in El; apply size_empty_inv in El; set_solver|].
  destruct xs as [|x xs']; [done|]. cbn [map app] in E. injection E as E1 E. subst k.
  apply Forall_cons_1 in HF as [Hx HF]. exists x, xs', hs'. split_and!; try done.
  - pose proof (qa_ok _ _ _ _ _ _ HQ) as [Hok _]%Forall_cons_1. destruct Hok as [Hmo _].
    unfold skey, rw_of in Hx. cbn in Hx. destruct Hmo as [Hmo|Hmo]; rewrite Hmo in *; cbn in Hx; by subst.
  - unfold is_shared. rewrite Hx. by destruct op.
Qed.

Lemma release_sim op r s a :
  nlk_rel s a -> fifo_wf a -> nlk_valid_event (Rel op r) -> permitted false (Rel op r) (view_of a) ->
  exists s', nlk_step (Rel op r) s = Ok (s', (fifo_release op r a).2) /\ nlk_rel s' (fifo_release op r a).1.
Proof using Hn HL HR Hid.
  intros (h & xs & hs & HQ & E & El & Hm) Hwf [Hh Ht] HP.
  destruct (fifo_release_cases _ _ _ Hwf HP) as (Hmode & Hr & Hcase).
  destruct (first_holder op r s a h xs hs HQ E El Hm Hmode Hr) as (x & xs' & hs' & -> & -> & E' & Emode & Esh & HF).
  destruct (event_frame op r RELEASE_LOCK Hh Ht) as (Hf & Ho & Hv & Hl & Hz).
  assert (HP' : round_packet id 0 (nlk_packet (Rel op r))) by by split.
  pose proof (qa_fits _ _ _ _ _ _ HQ) as Hfit. unfold len in Hfit. cbn [length] in Hfit.
  destruct (release_queue L n id Hn HL HR the_table (lookup_singleton_eq id id) s h x xs' (nlk_packet (Rel op r)) (Z.to_nat n) HQ HP')
    as (s' & outs & Ep & HQ' & Eg); [by rewrite <- Emode|lia|].
  exists s'. unfold nlk_step. rewrite Nat.add_1_r, Ep, Eg, E'. cbn [length] in El.
  destruct Hcase as [[Hone ->]|(-> & Hne & ->)].
  - rewrite Hone, size_singleton in El. destruct hs'; [|done]. cbn [app] in *.
    destruct (schedule_parts (sp_waiters a)) as (Es & Hlen & Hmo). split.
    + do 2 f_equal. unfold turn. destruct (sp_waiters a) as [|w ws] eqn:Ew; [done|].
      destruct (is_shared (skey x)) eqn:Ex; [|done]. cbn [negb orb]. destruct (decide (op = Shared)) as [->|]; [|done].
      by rewrite (ff_shared _ Hwf w ws Hmode Ew).
    + exists (pos L n h 1), xs', (fifo_schedule (sp_waiters a)).2. split_and!; [done|by rewrite E'|apply Hlen, Hwf|done].
  - destruct hs' as [|k hs'].
    { assert (size (sp_holders a) = 1%nat) as [y Hy%leibniz_equiv]%size_1_elem_of by (simpl in El; lia).
      destruct Hne. rewrite Hy in Hr |- *. apply elem_of_singleton in Hr as ->. by rewrite difference_diag_L. }
    split.
    + do 2 f_equal. cbn [turn app]. rewrite Esh, decide_True by done. apply Forall_cons_1 in HF as [Hk _].
      unfold is_shared. by rewrite Hk.
    + exists (pos L n h 1), xs', (k :: hs'). cbn [sp_waiters sp_holders sp_mode]. split_and!; [done|done| |].
      * cbn [fst sp_holders]. rewrite size_difference by set_solver. rewrite size_singleton. simpl in *. lia.
      * rewrite Hmode. by intros m [= <-].
Qed.
End impl.

Definition event_in (R : gset req) (e : event) : Prop := match e with Acq _ r | Rel _ r => r ∈ R end.

(** Holders and waiters are requesters of the run. *)
Definition from (R : gset req) (a : spec) : Prop :=
  sp_holders a ⊆ R /\ forall r, r ∈ map snd (sp_waiters a) -> r ∈ R.

Lemma from_step R e a : event_in R e -> from R a -> from R (fifo_step e a).1.
Proof.
  intros He [H1 H2]. destruct e as [op r|op r]; cbn [fifo_step event_in] in *.
  - unfold fifo_acquire. destruct (sp_mode a) as [[]|]; [destruct op; [destruct (sp_waiters a) eqn:Ew|]| |];
      (split; cbn [fst sp_holders sp_waiters]; [set_solver|]); intros x; rewrite ?map_app; cbn [map snd];
      rewrite ?elem_of_app, ?list_elem_of_singleton; try (intros Hx; by apply H2); try (intros [Hx| ->]; [by apply H2|done]).
  - unfold fifo_release. case_bool_decide; [|split; cbn [fst sp_holders sp_waiters]; [set_solver|done]].
    destruct (schedule_parts (sp_waiters a)) as (E & _ & _).
    assert (Hin : forall x, x ∈ map snd (fifo_schedule (sp_waiters a)).2 \/ x ∈ map snd (sp_waiters (fifo_schedule (sp_waiters a)).1) -> x ∈ R).
    { intros x Hx. apply H2. rewrite <- E, map_app, elem_of_app. done. }
    split; [|intros x Hx; apply Hin; by right].
    intros x Hx. apply Hin. left. unfold fifo_schedule in Hx |- *. destruct (sp_waiters a) as [|[[] k] ws]; cbn [fst snd sp_holders] in *.
    + by apply elem_of_empty in Hx.
    + by apply elem_of_list_to_set in Hx.
    + apply elem_of_singleton in Hx as ->. by left.
Qed.

Lemma from_room R op r a :
  from R a -> fifo_wf a -> r ∈ R -> permitted false (Acq op r) (view_of a) ->
  (size (sp_holders a) + length (sp_waiters a) < size R)%nat.
Proof.
  intros [H1 H2] Hwf Hr HP. destruct (fifo_fresh _ _ _ Hwf HP) as [Hr1 Hr2].
  set (ws := list_to_set (map snd (sp_waiters a)) : gset req).
  assert (Hws : size ws = length (sp_waiters a)) by (unfold ws; rewrite size_list_to_set by apply Hwf; apply length_map).
  assert (Hd : sp_holders a ## ws).
  { intros x Hx Hx'. unfold ws in Hx'. rewrite elem_of_list_to_set in Hx'. by apply (ff_disjoint _ Hwf x). }
  rewrite <- Hws, <- size_union by done. apply subset_size. split.
  - apply union_subseteq. split; [done|]. intros x Hx. unfold ws in Hx. rewrite elem_of_list_to_set in Hx. by apply H2.
  - intros Hsub. apply Hsub in Hr. apply elem_of_union in Hr as [Hr|Hr]; [done|].
    unfold ws in Hr. by rewrite elem_of_list_to_set in Hr.
Qed.

Section runs.
Context (L n id tx : Z) (Hn : 1 <= n) (HL : 0 <= L) (HR : L + n < 2 ^ 32) (Hid : in_uw 32 id).
Context (R : gset req) (Hfit : Z.of_nat (size R) <= n).

Abbreviation impl := (nlk_impl L n id tx).

Lemma nlk_run_sim es s a :
  nlk_rel L n id s a -> fifo_wf a -> from R a -> Forall (event_in R) es -> @well_behaved nswitch impl es s (view_of a) ->
  exists s', @run nswitch impl es s (view_of a) = Ok (s', view_of (fifo_run es a)) /\ fifo_wf (fifo_run es a).
Proof using Hn HL HR Hid Hfit.
  revert s a. induction es as [|e es IH]; intros s a HQ Hwf Hfrom Hin HB; [by exists s|].
  apply Forall_cons_1 in Hin as [He Hin]. destruct HB as (Hv & HP & HB).
  assert (Hstep : exists s', nlk_step n id tx e s = Ok (s', (fifo_step e a).2) /\ nlk_rel L n id s' (fifo_step e a).1).
  { destruct e as [op r|op r]; [apply acquire_sim|apply release_sim]; try done.
    pose proof (from_room R op r a Hfrom Hwf He HP). lia. }
  destruct Hstep as (s' & E & HQ'). cbn [run]. cbn [impl_step impl] in *. rewrite E in *.
  rewrite (view_of_fifo_step _ _ Hwf HP) in *. cbn [fifo_run fold_left].
  apply IH; [done|by apply fifo_step_wf|by apply from_step|done|done].
Qed.
End runs.

(** C14: NetLock's switch queue implements the first-come-first-served
    reader/writer lock. For at most as many requesters as the lock has slots,
    and with the passes of each release done before the next packet of the lock,
    the switch grants exactly what the contract grants, whatever the interval of
    slots and however often the ring wraps around; no exclusive holder has
    company, and no request waits for a lock that nobody holds. *)
Theorem nlk_switch_refines L n id tx R es :
  1 <= n -> 0 <= L -> L + n < 2 ^ 32 -> in_uw 32 id -> Z.of_nat (size R) <= n -> Forall (event_in R) es ->
  let impl := nlk_impl L n id tx in
  @well_behaved nswitch impl es (@impl_init nswitch impl) view_init ->
  let v := view_of (fifo_run es spec_init) in
  exists s, @run nswitch impl es (@impl_init nswitch impl) view_init = Ok (s, v) /\ exclusive v /\ no_stranded v.
Proof.
  intros Hn HL HR Hid Hfit Hin impl HB v.
  destruct (nlk_run_sim L n id tx Hn HL HR Hid R Hfit es (@impl_init nswitch impl) spec_init) as (s & E & Hwf).
  - by apply nlk_rel_init.
  - apply fifo_wf_init.
  - split; [apply empty_subseteq|by intros r Hr%not_elem_of_nil].
  - done.
  - done.
  - exists s. split_and!; [exact E|by apply fifo_exclusive|by apply fifo_no_stranded].
Qed.

Definition nlk_events0 : list event :=
  [Acq Shared (1, 11); Acq Shared (2, 12); Acq Excl (3, 13); Acq Shared (4, 14); Rel Shared (2, 12); Rel Shared (1, 11);
   Acq Shared (2, 15); Rel Excl (3, 13); Acq Excl (1, 11); Rel Shared (2, 15); Rel Shared (4, 14)].

Lemma nlk_switch_refines_witness :
  exists s, @run nswitch (nlk_impl 1 6 5 0) nlk_events0 (@impl_init nswitch (nlk_impl 1 6 5 0)) view_init =
      Ok (s, view_of (fifo_run nlk_events0 spec_init)) /\
    exclusive (view_of (fifo_run nlk_events0 spec_init)) /\ no_stranded (view_of (fifo_run nlk_events0 spec_init)).
Proof.
  apply (nlk_switch_refines 1 6 5 0 {[ (1, 11); (2, 12); (3, 13); (4, 14); (2, 15) ]} nlk_events0).
  - lia.
  - lia.
  - lia.
  - split; lia.
  - vm_compute. discriminate.
  - repeat (constructor; [unfold event_in; set_solver|]). constructor.
  - apply (bool_decide_unpack _). vm_compute. exact I.
Defined.
