(* ===== verification/NetSwitchProps.v ===== *)
(** * NetSwitchProps: the switch queue between its clients and its server

    Two places where the parts of NetLock do not fit together: the packets by
    which the switch grants queued requests are of a type that the clients
    ignore, and the server sends requests back without knowing how many slots
    are free. *)

From S2P Require Import Prelude RwSpec Types NetWire NetServer NetRefine NetSwitch NetSwitchRefine.

#[local] Open Scope prog_scope.

(** ** Grants of queued requests *)

(** The frame of an output. *)
Definition out_frame (o : nout) : option frame :=
  match o with ToPort f | Mirror f => Some f | Recirc _ => None end.

(** Operations that a client's dispatcher has no handler for. *)
Definition unhandled (op : Z) : Prop := op = ACQUIRE_LOCK \/ op = RELEASE_LOCK \/ op = PUSH_BACK_LOCK.

Lemma unhandled_ignored pre registered mem_diff h c :
  unhandled (h_op_type h) -> packet_dispatch pre registered mem_diff h c = Ok (0, c, []).
Proof. intros H. unfold packet_dispatch, is_grant. by destruct H as [->|[->| ->]]. Qed.

Definition silent (outs : list nout) : Prop :=
  Forall (fun o => match out_frame o with Some f => unhandled (h_op_type (f_msg f)) | None => True end) outs.

Lemma silent_route f : unhandled (h_op_type (f_msg f)) -> silent (ipv4_route_table f).
Proof. intros H. unfold ipv4_route_table, silent. case_match; [by apply Forall_singleton|constructor]. Qed.

Lemma release_at_silent p r head tail flag dq x : silent (release_at p r head tail flag dq x).
Proof.
  unfold release_at, silent. repeat case_match; cbn [app];
    repeat first [apply Forall_nil_2 | apply Forall_cons_2]; try done; by left.
Qed.

Lemma release_silent i p s : h_op_type (f_msg (np p)) = RELEASE_LOCK -> silent (release_lock i p s).2.
Proof.
  intros Ho. unfold release_lock. case_match.
  - destruct (inc_empty_slots_alu _) as [r' b]. case_match; [|apply release_at_silent].
    apply silent_route. right. left. exact Ho.
  - destruct (default _ _) as [[dq hd] tl]. apply release_at_silent.
Qed.

Lemma push_back_silent i f s : h_op_type (f_msg f) = PUSH_BACK_LOCK -> silent (acquire_lock i f s).2.
Proof.
  intros Ho. unfold acquire_lock. rewrite Ho. change (PUSH_BACK_LOCK =? ACQUIRE_LOCK) with false. cbn [Z.eqb negb].
  destruct (acquire_lock_table _ _) as [r locked]. case_match; [|by constructor].
  apply silent_route. cbn [h_op_type f_msg with_dst with_msg with_queue]. rewrite Ho.
  change (PUSH_BACK_LOCK =? ACQUIRE_LOCK) with false. right. right. exact Ho.
Qed.

(** A request that had to wait is never granted at its client. The switch
    grants queued requests in the passes of a release, and requests that come
    back from the server when they arrive; whatever the state of its registers,
    every frame it sends then has an operation that a client's dispatcher drops,
    so no wait flag is raised. *)
Theorem queued_grants_ignored t p s s' outs o f pre registered mem_diff c :
  h_op_type (f_msg (np p)) = RELEASE_LOCK \/ h_op_type (f_msg (np p)) = PUSH_BACK_LOCK ->
  switch_pass t p s = (s', outs) -> o ∈ outs -> out_frame o = Some f ->
  packet_dispatch pre registered mem_diff (f_msg f) c = Ok (0, c, []).
Proof.
  intros Ho E Hin Ef. apply unhandled_ignored. assert (HS : silent outs).
  { change outs with ((s', outs).2). rewrite <- E. unfold switch_pass.
    case_match; [by constructor|]. destruct Ho as [Ho|Ho]; rewrite Ho; change (_ || _) with true; cbv iota;
      (destruct (t !! _) as [i|]; [|apply silent_route; cbn; rewrite Ho; unfold unhandled; auto]).
    - by apply release_silent.
    - by apply push_back_silent. }
  unfold silent in HS. rewrite list.Forall_forall in HS. specialize (HS o Hin). by rewrite Ef in HS.
Qed.

(** The pass that grants a writer that waited behind another. *)
Definition granting_pass : npacket * nswitch :=
  let t := init_tables [(5, 4)] in
  let step := fun (p : npacket) (s : nswitch) => (switch_pass t.1 p s).1 in
  let s := step (nlk_packet 5 0 (Acq Excl (2, 12))) (step (nlk_packet 5 0 (Acq Excl (1, 11))) t.2) in
  let '(s', outs) := switch_pass t.1 (nlk_packet 5 0 (Rel Excl (1, 11))) s in
  (default (nlk_packet 5 0 (Rel Excl (1, 11))) (next_pass outs), s').

Lemma queued_grants_ignored_witness :
  exists f, (switch_pass (init_tables [(5, 4)]).1 granting_pass.1 granting_pass.2).2 = [Mirror f] /\
    grant_of (Mirror f) = Some (Excl, (2, 12)) /\
    packet_dispatch None true None (f_msg f) (Client {[ 5 := {[ 12 := false ]} ]} 0) =
      Ok (0, Client {[ 5 := {[ 12 := false ]} ]} 0, []).
Proof.
  destruct (switch_pass (init_tables [(5, 4)]).1 granting_pass.1 granting_pass.2) as [s' outs] eqn:E.
  assert (Ho : exists f, outs = [Mirror f] /\ grant_of (Mirror f) = Some (Excl, (2, 12))).
  { vm_compute in E. injection E as _ <-. eexists. split; reflexivity. }
  destruct Ho as (f & -> & Hg). exists f. split; [done|]. split; [done|].
  apply (queued_grants_ignored (init_tables [(5, 4)]).1 granting_pass.1 granting_pass.2 s' [Mirror f] (Mirror f)).
  - left. vm_compute. reflexivity.
  - exact E.
  - left.
  - reflexivity.
Defined.

(** ** Requests that the server sends back *)

(** The switch, the server, and the packets on the links between them, which
    keep their order. *)
Record nlk_net := NlkNet {
  nn_switch : nswitch;
  nn_server : server;
  nn_up : list frame;      (** to the server *)
  nn_down : list frame;    (** back to the switch *)
  nn_granted : list (rw * req);
}.

Inductive nlk_label :=
  | NClient (e : event)  (** a client's packet reaches the switch *)
  | NServe               (** the server handles the first packet of its link *)
  | NReturn.             (** the switch handles the first packet the server sent *)

Section net.
Context (t : lock_table) (cfg : netcfg) (id : Z).

(** Frames for the server carry its role in place of a hardware address; the
    others go to clients, and are grants. *)
Definition for_server (f : frame) : bool := byte_at 0 (eth_dst f) =? 0.

Definition switched (p : npacket) (down : list frame) (s : nlk_net) : option nlk_net :=
  '(sw, outs) ← switch_packet 20 t p (nn_switch s);
  let fs := omap out_frame outs in
  Some (NlkNet sw (nn_server s) (nn_up s ++ filterb for_server fs) down
          (nn_granted s ++ map key_of (filterb (fun f => negb (for_server f)) fs))).

Definition nlk_net_step (l : nlk_label) (s : nlk_net) : option nlk_net :=
  match l with
  | NClient e => switched (nlk_packet id 0 e) (nn_down s) s
  | NServe =>
      match nn_up s with
      | f :: up =>
          match rx_frame cfg f (nn_server s) with
          | Ok (_, srv, out) => Some (NlkNet (nn_switch s) srv up (nn_down s ++ out) (nn_granted s))
          | Fault _ => None
          end
      | [] => Some s
      end
  | NReturn =>
      match nn_down s with
      | f :: down => switched (NPacket f None) down s
      | [] => Some s
      end
  end.

Definition nlk_net_run (ls : list nlk_label) (s : nlk_net) : option nlk_net :=
  fold_left (fun s l => s ← s; nlk_net_step l s) ls (Some s).
End net.

Definition nlk_cfg2 : netcfg := NetCfg 7 8 {[ 5 := 2 ]} None.

Definition nlk_net0 : nlk_net :=
  NlkNet (init_tables [(5, 2)]).2 (Server {[ 5 := new_queue ]} 0) [] [] [].

Definition push_back_run : list nlk_label :=
  [NClient (Acq Excl (1, 1)); NClient (Acq Excl (1, 2)); NClient (Acq Excl (1, 3)); NClient (Acq Excl (1, 4));
   NClient (Acq Excl (1, 5)); NClient (Acq Excl (1, 6)); NServe; NServe; NServe; NServe;
   NClient (Rel Excl (1, 1)); NClient (Rel Excl (1, 2)); NServe; NReturn; NClient (Rel Excl (1, 3)); NServe;
   NReturn; NReturn; NReturn; NClient (Rel Excl (1, 4)); NClient (Acq Excl (2, 7))].

(** The server sends back more requests than the switch has room for. It
    returns as many as the lock has slots whenever a release finds the queue
    empty; here a returned request is granted and released while the next one is
    still on its link, so two batches meet in two slots and a request is
    overwritten. In the end every granted request was released and nothing is on
    the links or at the server, yet the switch has granted neither the two
    requests that remain nor the one that comes after them. *)
Theorem push_back_overflow :
  exists s, nlk_net_run (init_tables [(5, 2)]).1 nlk_cfg2 5 push_back_run nlk_net0 = Some s /\
    nn_granted s = [(Excl, (1, 1)); (Excl, (1, 2)); (Excl, (1, 3)); (Excl, (1, 4))] /\
    nn_up s = [] /\ nn_down s = [] /\
    option_map node_queue (lock_queue (nn_server s) !! 5) = Some [] /\
    excl_count (regs_of 5 (nn_switch s)) = 3.
Proof.
  destruct (nlk_net_run (init_tables [(5, 2)]).1 nlk_cfg2 5 push_back_run nlk_net0) as [s|] eqn:E; [|by vm_compute in E].
  exists s. split; [done|]. vm_compute in E. injection E as <-. repeat split.
Qed.
