(* ===== verification/RpcServer.v ===== *)
(** * RpcServer: the lock registration and recovery coordinator

    Models the request handlers of rpc/main.cc with the messages of lib/rpc.h.
    The handlers run one at a time in the daemon's event loop.  A message is
    its fields; the transport, which parses it, is not modelled, so every
    request is well formed.  [ready_signal] is a byte another process writes:
    an argument of the handlers that read it. *)

From S2P Require Import Prelude Types.
From stdpp Require Import sorting.

#[local] Open Scope Z_scope.

(** ** State *)

Record lock_data := LockData {
  has_agent : bool;
  holders : gset Z;
  waiters : gset Z;
}.

Record rpc_server := RpcServer {
  lock_tbl : gmap Z Z;           (** lock key to identifier *)
  lid_pool : Z;
  lm_state : gmap Z lock_data;
  fault_signal : Z;
  ready_bitmap : Z;
}.

Definition rpc_server_init : rpc_server := RpcServer ∅ 0 ∅ 0 0.

(** [lm_state[lid]] value-initialises a missing entry. *)
Definition new_lock_data : lock_data := LockData false ∅ ∅.
Definition lm_at (lid : Z) (s : rpc_server) : lock_data := index new_lock_data lid (lm_state s).
Definition set_lm (lid : Z) (d : lock_data) (s : rpc_server) : rpc_server :=
  RpcServer (lock_tbl s) (lid_pool s) (<[lid := d]> (lm_state s)) (fault_signal s) (ready_bitmap s).

(** ** Registration *)

Definition lock_register (lock_ident : Z) (s : rpc_server) : Z * rpc_server :=
  match lock_tbl s !! lock_ident with
  | Some lid => (lid, s)
  | None =>
      let lid := u32 (lid_pool s + 1) in
      (lid, RpcServer (<[lock_ident := lid]> (lock_tbl s)) lid (lm_state s) (fault_signal s) (ready_bitmap s))
  end.

(** ** Recovery *)

Definition recovery_start (ready_signal : Z) (s : rpc_server) : Z * rpc_server := (ready_signal, s).

Definition collect_holders (lid holder : Z) (s : rpc_server) : Z * rpc_server :=
  let d := lm_at lid s in
  (0, set_lm lid (LockData (has_agent d) ({[ holder ]} ∪ holders d) (waiters d)) s).

Definition collect_waiters (lid waiter : Z) (s : rpc_server) : Z * rpc_server :=
  let d := lm_at lid s in
  (0, set_lm lid (LockData true (holders d) ({[ waiter ]} ∪ waiters d)) s).

(** 2: not every living machine has submitted its data; 1: the waiter is in the
    wait queue; 0: it is not. *)
Definition check_waiter (lid waiter : Z) (s : rpc_server) : Z * rpc_server :=
  if (fault_signal s =? 0) || negb (Z.lor (ready_bitmap s) 1 =? Z.lor (fault_signal s) 1) then (2, s)
  else
    let d := lm_at lid s in
    let s := set_lm lid d s in
    if has_agent d then ((if bool_decide (waiter ∈ waiters d) then 1 else 0), s)
    else (0, s).

Definition MAX_HOLDERS : Z := 256.

(** A [std::set] is traversed in ascending order. *)
Definition in_order (X : gset Z) : list Z := merge_sort Z.le (elements X).

(** Filling [extra_holders]: a write beyond the array is a fault. *)
Definition fill_holders (hs : list Z) : result (Z * list Z) :=
  if MAX_HOLDERS <? Z.of_nat (length hs) then Fault FaultBounds
  else Ok (Z.of_nat (length hs), hs).

(** The reply is [extra_num] and the entries of [extra_holders] written. *)
Definition check_holder (is_agent : bool) (lid holder_num : Z) (s : rpc_server)
    : result (Z * list Z * rpc_server) :=
  let d := lm_at lid s in
  let s := set_lm lid d s in
  let n := Z.of_nat (size (holders d)) in
  if is_agent then
    if holder_num <? n then
      if MAX_HOLDERS <? i32 n then Ok (i32 n, [], s)
      else '(k, hs) ← fill_holders (in_order (holders d)); Ok (i32 n, hs, s)
    else Ok (0, [], s)
  else if negb (has_agent d) then
    if 0 <? n then
      '(k, hs) ← fill_holders (in_order (holders d));
      Ok (i32 n, hs, set_lm lid (LockData true (holders d) (waiters d)) s)
    else Ok (0, [], s)
  else Ok (0, [], s).

(** The C++ expression [ready_bitmap | 1 == fault_signal | 1]: equality binds
    tighter than the bitwise or. *)
Definition all_ready (bitmap fault : Z) : Z :=
  Z.lor (Z.lor bitmap (if 1 =? fault then 1 else 0)) 1.

(** [1 << mid] is a 32-bit integer, sign-extended into the bitmap. *)
Definition recovery_ready (ready_signal mid fault_code : Z) (s : rpc_server) : Z * rpc_server :=
  let bm := Z.lor (ready_bitmap s) (u64 (i32 (Z.shiftl 1 mid))) in
  let s := RpcServer (lock_tbl s) (lid_pool s) (lm_state s) fault_code bm in
  ((if negb (ready_signal =? 0) && negb (all_ready bm fault_code =? 0) then 1 else 0), s).

(** ** Registration gives every key one identifier *)

Fixpoint register_all (ks : list Z) (s : rpc_server) : list Z * rpc_server :=
  match ks with
  | [] => ([], s)
  | k :: ks' =>
      let '(lid, s) := lock_register k s in
      let '(lids, s) := register_all ks' s in
      (lid :: lids, s)
  end.

(** The identifiers handed out are 1, ..., [lid_pool], each to one key. *)
Record table_ok (s : rpc_server) : Prop := {
  tb_pool : lid_pool s = Z.of_nat (size (lock_tbl s));
  tb_range : forall k lid, lock_tbl s !! k = Some lid -> 1 <= lid <= lid_pool s;
  tb_inj : forall k1 k2 lid, lock_tbl s !! k1 = Some lid -> lock_tbl s !! k2 = Some lid -> k1 = k2;
}.

Lemma table_ok_init : table_ok rpc_server_init.
Proof. by split. Qed.

Lemma lock_register_ok k s :
  table_ok s -> lid_pool s + 1 < 2 ^ 32 ->
  let '(lid, s') := lock_register k s in
  table_ok s' /\ lock_tbl s' !! k = Some lid /\ lid_pool s <= lid_pool s' <= lid_pool s + 1 /\
  (forall k' v, lock_tbl s !! k' = Some v -> lock_tbl s' !! k' = Some v).
Proof.
  intros Hok Hlt. unfold lock_register. destruct (lock_tbl s !! k) as [lid|] eqn:E.
  - split_and!; auto; lia.
  - pose proof (tb_pool _ Hok) as Hp. rewrite uw_small by (unfold in_uw; lia). cbn [lock_tbl lid_pool].
    split_and!; try lia.
    + split; cbn [lock_tbl lid_pool].
      * rewrite map_size_insert_None by done. lia.
      * intros k' lid. rewrite lookup_insert_Some. intros [[_ <-]|[_ H]]; [lia|].
        pose proof (tb_range _ Hok _ _ H). lia.
      * intros k1 k2 lid. rewrite !lookup_insert_Some.
        intros [[<- <-]|[N1 H1]] [[<- E2]|[N2 H2]]; try done.
        -- pose proof (tb_range _ Hok _ _ H2). lia.
        -- pose proof (tb_range _ Hok _ _ H1). lia.
        -- by apply (tb_inj _ Hok) with lid.
    + by rewrite lookup_insert_eq.
    + intros k' v H. rewrite lookup_insert_ne; [done|]. intros ->. congruence.
Qed.

Lemma register_all_ok ks s :
  table_ok s -> lid_pool s + Z.of_nat (length ks) < 2 ^ 32 ->
  let '(lids, s') := register_all ks s in
  table_ok s' /\ Forall2 (fun k lid => lock_tbl s' !! k = Some lid) ks lids /\
  (forall k v, lock_tbl s !! k = Some v -> lock_tbl s' !! k = Some v).
Proof.
  revert s. induction ks as [|k ks IH]; intros s Hok Hlt; cbn [register_all]; [by split_and!|].
  cbn [length] in Hlt. pose proof (lock_register_ok k s Hok ltac:(lia)) as H1.
  destruct (lock_register k s) as [lid s1]. destruct H1 as (Hok1 & Hk & Hp & Hmono).
  specialize (IH s1 Hok1 ltac:(lia)). destruct (register_all ks s1) as [lids s2].
  destruct IH as (Hok2 & HF & Hmono2). split_and!; [done| |auto]. constructor; [by apply Hmono2|done].
Qed.

(** The coordinator numbers locks consistently. However registrations are
    repeated and interleaved, the identifiers returned are positive, and two
    registrations return the same identifier exactly when they are for the same
    key. The bound is the number of identifiers. *)
Theorem register_consistent ks i j k1 k2 l1 l2 :
  Z.of_nat (length ks) < 2 ^ 32 ->
  let lids := (register_all ks rpc_server_init).1 in
  ks !! i = Some k1 -> ks !! j = Some k2 -> lids !! i = Some l1 -> lids !! j = Some l2 ->
  length lids = length ks /\ 1 <= l1 /\ (l1 = l2 <-> k1 = k2).
Proof.
  intros Hlt lids Hi Hj Hl1 Hl2. subst lids.
  pose proof (register_all_ok ks rpc_server_init table_ok_init ltac:(simpl lid_pool; lia)) as H.
  destruct (register_all ks rpc_server_init) as [lids s]. cbn [fst] in *. destruct H as (Hok & HF & _).
  pose proof (Forall2_lookup_lr _ _ _ _ _ _ HF Hi Hl1) as H1.
  pose proof (Forall2_lookup_lr _ _ _ _ _ _ HF Hj Hl2) as H2. cbn in H1, H2.
  split; [by apply Forall2_length in HF|]. split; [by pose proof (tb_range _ Hok _ _ H1); lia|].
  split; [intros ->; by apply (tb_inj _ Hok) with l2|intros ->; congruence].
Qed.

Lemma register_consistent_witness :
  let lids := (register_all [70; 4; 70; 9] rpc_server_init).1 in
  length lids = 4%nat /\ 1 <= 1 /\ (1 = 1 <-> 70 = 70).
Proof. apply (register_consistent [70; 4; 70; 9] 0 2 70 70 1 1); done. Defined.

(** ** A lost agent is restored by one server only *)

Inductive rpc_op :=
  | LockRegister (lock_ident : Z)
  | CollectHolders (lid holder : Z)
  | CollectWaiters (lid waiter : Z)
  | RecoveryReady (ready_signal mid fault_code : Z)
  | CheckWaiter (lid waiter : Z)
  | CheckHolder (is_agent : bool) (lid holder_num : Z).

(** One request: the locks whose agent it restores, and the new state. *)
Definition handle (o : rpc_op) (s : rpc_server) : result (list Z * rpc_server) :=
  match o with
  | LockRegister k => Ok ([], (lock_register k s).2)
  | CollectHolders lid h => Ok ([], (collect_holders lid h s).2)
  | CollectWaiters lid w => Ok ([], (collect_waiters lid w s).2)
  | RecoveryReady r mid code => Ok ([], (recovery_ready r mid code s).2)
  | CheckWaiter lid w => Ok ([], (check_waiter lid w s).2)
  | CheckHolder ag lid n =>
      '(k, hs, s') ← check_holder ag lid n s;
      Ok ((if negb ag && (0 <? k) then [lid] else []), s')
  end.

Fixpoint handle_all (os : list rpc_op) (s : rpc_server) : result (list Z * rpc_server) :=
  match os with
  | [] => Ok ([], s)
  | o :: os' =>
      '(r, s1) ← handle o s;
      '(rs, s2) ← handle_all os' s1;
      Ok (r ++ rs, s2)
  end.

Definition agent_at (lid : Z) (s : rpc_server) : bool := has_agent (lm_at lid s).

Lemma lm_at_set lid lid' d s : lm_at lid' (set_lm lid d s) = if decide (lid' = lid) then d else lm_at lid' s.
Proof.
  unfold lm_at, set_lm. cbn [lm_state]. destruct (decide (lid' = lid)) as [->|Hne];
    [apply index_insert|by apply index_insert_ne].
Qed.

Lemma fill_holders_ok hs k hs' :
  fill_holders hs = Ok (k, hs') -> hs' = hs /\ Z.of_nat (length hs) <= 256.
Proof. unfold fill_holders, MAX_HOLDERS. case_if; [done|]. intros [= _ <-]. bprop. split; [done|lia]. Qed.

(** What a holder check does to the agents. *)
Lemma check_holder_agent ag lid n s k hs s' :
  check_holder ag lid n s = Ok (k, hs, s') ->
  (forall l, agent_at l s = true -> agent_at l s' = true) /\
  (ag = false -> 0 < k -> agent_at lid s = false /\ agent_at lid s' = true).
Proof.
  unfold check_holder. set (d := lm_at lid s). set (s1 := set_lm lid d s).
  assert (H1 : forall l, agent_at l s1 = agent_at l s).
  { intros l. unfold agent_at, s1. rewrite lm_at_set. case_decide; [by subst l|done]. }
  destruct ag.
  - assert (Hs : forall x : result (Z * list Z * rpc_server), x = Ok (k, hs, s') ->
      (forall a b c, x = Ok (a, b, c) -> c = s1) -> s' = s1) by (intros x Hx H; by apply (H k hs)).
    intros E. split; [|done]. intros l Hl.
    rewrite (Hs _ E); [by rewrite H1|]. intros a b c.
    destruct (n <? _); [|by intros [= _ _ <-]]. destruct (MAX_HOLDERS <? _); [by intros [= _ _ <-]|].
    unfold mbind, result_bind. destruct (fill_holders _) as [[fk fh]|]; [by intros [= _ _ <-]|done].
  - destruct (has_agent d) eqn:Ed; cbn [negb].
    + intros [= <- _ <-]. split; [intros l; by rewrite H1|intros _ Hk; exfalso; lia].
    + destruct (0 <? _); [|intros [= <- _ <-]; split; [intros l; by rewrite H1|intros _ Hk; exfalso; lia]].
      unfold mbind, result_bind. destruct (fill_holders _) as [[fk fh]|]; [|done]. intros [= _ _ <-].
      set (d' := LockData true _ _). assert (H2 : forall l, agent_at l (set_lm lid d' s1) =
        if decide (l = lid) then true else agent_at l s).
      { intros l. unfold agent_at. rewrite lm_at_set. case_decide; [done|]. apply H1. }
      split; [intros l Hl; rewrite H2; by case_decide|]. intros _ _. split; [done|]. rewrite H2. by case_decide.
Qed.

Lemma handle_agents o s r s' :
  handle o s = Ok (r, s') ->
  (forall l, agent_at l s = true -> agent_at l s' = true) /\
  NoDup r /\ forall l, l ∈ r -> agent_at l s = false /\ agent_at l s' = true.
Proof.
  destruct o as [k|lid h|lid w|rs mid code|lid w|ag lid n]; cbn [handle];
    try (intros [= <- <-]; split_and!; [|constructor|by intros l Hl%elem_of_nil]; intros l Hl).
  - unfold lock_register. by destruct (lock_tbl s !! k).
  - unfold agent_at, collect_holders. cbn [snd]. rewrite lm_at_set. case_decide; [by subst l|done].
  - unfold agent_at, collect_waiters. cbn [snd]. rewrite lm_at_set. by case_decide.
  - done.
  - unfold check_waiter. case_if; [done|]. cbv zeta.
    assert (H : agent_at l (set_lm lid (lm_at lid s) s) = true).
    { unfold agent_at. rewrite lm_at_set. case_decide; [by subst l|done]. }
    by destruct (has_agent (lm_at lid s)).
  - unfold mbind, result_bind. destruct (check_holder ag lid n s) as [[[k hs] s1]|] eqn:E; [|done].
    intros [= <- <-]. destruct (check_holder_agent _ _ _ _ _ _ _ E) as [H1 H2].
    split; [done|]. destruct ag; cbn [negb andb]; [split; [constructor|by intros l Hl%elem_of_nil]|].
    destruct (Z.ltb_spec 0 k); [|split; [constructor|by intros l Hl%elem_of_nil]].
    split; [apply NoDup_singleton|]. intros l Hl%list_elem_of_singleton. subst l. by apply H2.
Qed.

Lemma handle_all_agents os s rs s' :
  handle_all os s = Ok (rs, s') ->
  NoDup rs /\ (forall l, agent_at l s = true -> agent_at l s' = true) /\
  forall l, l ∈ rs -> agent_at l s = false /\ agent_at l s' = true.
Proof.
  revert s rs. induction os as [|o os IH]; intros s rs; cbn [handle_all].
  - intros [= <- <-]. split_and!; [constructor|done|by intros l Hl%elem_of_nil].
  - unfold mbind, result_bind. destruct (handle o s) as [[r s1]|] eqn:E1; [|done].
    destruct (handle_all os s1) as [[rs1 s2]|] eqn:E2; [|done]. intros [= <- <-].
    destruct (handle_agents _ _ _ _ E1) as (H1 & H2 & H3). destruct (IH _ _ E2) as (H4 & H5 & H6).
    split_and!; [|by auto|].
    + apply list.NoDup_app. split_and!; try done. intros l Hl Hl'.
      destruct (H3 l Hl) as [_ Ha]. destruct (H6 l Hl') as [Hb _]. congruence.
    + intros l [Hl|Hl]%elem_of_app; [destruct (H3 l Hl); auto|]. destruct (H6 l Hl) as [Ha Hb].
      split; [|done]. destruct (agent_at l s) eqn:E; [|done]. apply H1 in E. congruence.
Qed.

(** During a recovery the coordinator lets at most one server restore the
    agent of a lock. In every sequence of requests, from any state, the replies
    that hand over a lock's holders to a server that is not its agent are for
    distinct locks, none of which had an agent before. *)
Theorem restored_once os s rs s' :
  handle_all os s = Ok (rs, s') ->
  NoDup rs /\ forall l, l ∈ rs -> agent_at l s = false /\ agent_at l s' = true.
Proof. intros E. destruct (handle_all_agents _ _ _ _ E) as (H1 & _ & H2). by split. Qed.

Definition recovery0 : list rpc_op :=
  [CollectHolders 5 (LOCK_HOLDER 1 10); CollectHolders 6 (LOCK_HOLDER 2 11); CollectHolders 5 (LOCK_HOLDER 3 12);
   CollectWaiters 6 (LOCK_HOLDER 4 13); RecoveryReady 1 2 1; CheckHolder false 5 0; CheckHolder false 6 0;
   CheckHolder false 5 0; CheckHolder true 5 1].

Lemma restored_once_witness :
  match handle_all recovery0 rpc_server_init with
  | Ok (rs, s') => NoDup rs /\ forall l, l ∈ rs -> agent_at l rpc_server_init = false /\ agent_at l s' = true
  | Fault _ => False
  end.
Proof.
  destruct (handle_all recovery0 rpc_server_init) as [[rs s']|] eqn:E; [|by vm_compute in E].
  exact (restored_once recovery0 rpc_server_init rs s' E).
Defined.

(** ** Where the handlers do not do what they mean to *)

(** The recovery barrier does not wait. [recovery_ready] is to answer
    ready when every living machine has submitted its data, but the expression
    that compares the two bitmaps is always nonzero, so a server is told to go
    on as soon as the switch is ready. *)
Theorem recovery_ready_ignores_bitmap ready_signal mid fault_code s :
  (recovery_ready ready_signal mid fault_code s).1 = if ready_signal =? 0 then 0 else 1.
Proof.
  unfold recovery_ready, all_ready. cbn [fst]. set (b := Z.lor (ready_bitmap s) _).
  assert (H : Z.lor (Z.lor b (if 1 =? fault_code then 1 else 0)) 1 <> 0).
  { intros E. apply Z.lor_eq_0_iff in E as [_ E]. done. }
  apply Z.eqb_neq in H. rewrite H. by destruct (ready_signal =? 0).
Qed.

(** A server that is no agent and asks about a lock with more than
    [MAX_HOLDERS] holders makes the coordinator write behind its reply; the
    check that an agent's request has is missing. *)
Theorem check_holder_overflow lid n s :
  has_agent (lm_at lid s) = false -> MAX_HOLDERS < Z.of_nat (size (holders (lm_at lid s))) ->
  check_holder false lid n s = Fault FaultBounds.
Proof.
  intros Ha Hs. unfold check_holder. rewrite Ha. cbn [negb].
  destruct (Z.ltb_spec 0 (Z.of_nat (size (holders (lm_at lid s))))) as [_|]; [|unfold MAX_HOLDERS in Hs; lia].
  unfold fill_holders, in_order. rewrite (merge_sort_Permutation Z.le).
  change (length (elements ?X)) with (size X).
  by rewrite (proj2 (Z.ltb_lt _ _) Hs).
Qed.

Definition crowd0 : rpc_server :=
  RpcServer ∅ 0 {[ 5 := LockData false (list_to_set (seqZ 1 257)) ∅ ]} 1 0.

Lemma check_holder_overflow_witness : check_holder false 5 0 crowd0 = Fault FaultBounds.
Proof. apply (check_holder_overflow 5 0 crowd0); vm_compute; reflexivity. Defined.
