(* ===== verification/Net.v ===== *)
(** * Net: framing and dispatch of lock packets

    Models lib/net.cc: the dispatcher table, the framing of the packets that
    lib/post.c sends, and the polling loop that dispatches a received frame and
    reuses its buffer when the handler asks for the packet to be forwarded.  A
    frame is here the lengths the module writes and the packet in it; [Frames]
    has it as bytes.  DPDK's transmission is taken to succeed. *)

From S2P Require Import Prelude Types Post Lock LockProofs Agent LockApi LockApiProofs.

#[local] Open Scope prog_scope.

(** ** Frames *)

Definition sizeof_ether_hdr : Z := 14.
Definition sizeof_ipv4_hdr : Z := 20.
Definition sizeof_udp_hdr : Z := 8.
Definition hdrs : Z := sizeof_ether_hdr + sizeof_ipv4_hdr + sizeof_udp_hdr.

(** Length fields in host order. *)
Record mbuf := Mbuf {
  total_length : Z;      (** of the IP header *)
  dgram_len : Z;         (** of the UDP header *)
  data_len : Z;
  pkt_len : Z;
  m_post : packet;
}.

Definition frame_of (size : Z) (p : packet) : mbuf :=
  Mbuf (u16 (sizeof_ipv4_hdr + size + sizeof_udp_hdr)) (u16 (sizeof_udp_hdr + size))
       (u16 (size + hdrs)) (u32 (size + hdrs)) p.

(** [net_send] and one packet of [net_send_batch]. *)
Definition net_send (s : sent) : mbuf := frame_of (s_size s) (s_pkt s).
Definition net_send_batch (ss : list sent) : list mbuf := map net_send ss.

(** ** The dispatcher table *)

(** A dispatcher gets the packet buffer and returns it with the return value. *)
Definition dispatcher := packet -> H (packet * Z).
Definition dispatchers := Z -> option dispatcher.

Definition register_packet_dispatcher (t : Z) (f : dispatcher) (ds : dispatchers) : dispatchers :=
  fun u => if u =? t then Some f else ds u.

(** The registrations of [lock_setup]. *)
Definition lock_dispatchers (cfg : config) (ds : dispatchers) : dispatchers :=
  let d := lock_packet_dispatch cfg in
  register_packet_dispatcher POST_LOCK_FREE d
  (register_packet_dispatcher POST_LOCK_TRANSFER d
  (register_packet_dispatcher POST_LOCK_RELEASE d
  (register_packet_dispatcher POST_LOCK_GRANT_WO_AGENT d
  (register_packet_dispatcher POST_LOCK_GRANT_WITH_AGENT d
  (register_packet_dispatcher POST_LOCK_ACQUIRE d ds))))).

(** The table has [NUM_POST_TYPES] entries and is indexed by the type byte of
    the packet. *)
Definition packet_dispatch (ds : dispatchers) (p : packet) : H (packet * Z) :=
  if NUM_POST_TYPES <=? pk_type p then fail FaultBounds
  else match ds (pk_type p) with
       | None => ret (p, 0)
       | Some d => d p
       end.

(** ** Polling *)

(** The forwarded frame: the buffer is enlarged when the return value says the
    payload grew. *)
Definition reuse (m : mbuf) (p : packet) (r : Z) : mbuf :=
  if 1 <? r then
    Mbuf (u16 (total_length m + r)) (dgram_len m) (u16 (data_len m + r)) (u32 (pkt_len m + r)) p
  else Mbuf (total_length m) (dgram_len m) (data_len m) (pkt_len m) p.

(** One received frame: the new state and the frames sent. *)
Definition poll_one (ds : dispatchers) (m : mbuf) (h : host) : result (host * list mbuf) :=
  match packet_dispatch ds (m_post m) h with
  | Fault f => Fault f
  | Ok ((p, r), h', out) =>
      Ok (h', net_send_batch out ++ (if r =? 0 then [] else [reuse m p r]))
  end.

Fixpoint poll_all (ds : dispatchers) (ms : list mbuf) (h : host) : result (host * list mbuf) :=
  match ms with
  | [] => Ok (h, [])
  | m :: ms' =>
      '(h1, out1) ← poll_one ds m h;
      '(h2, out2) ← poll_all ds ms' h1;
      Ok (h2, out1 ++ out2)
  end.

(** Returns the number of frames received. *)
Definition net_poll_packets (ds : dispatchers) (ms : list mbuf) (h : host) : result (Z * host * list mbuf) :=
  '(h', out) ← poll_all ds ms h;
  Ok (Z.of_nat (length ms), h', out).

(** ** Lengths *)

Definition bytes (p : packet) : Z := Z.of_nat (length (encode_post p)).

(** Bytes a return value adds to the frame. *)
Definition growth (r : Z) : Z := if 1 <? r then r else 0.

Lemma length_encode p :
  bytes p = 17 + 5 * Z.of_nat (length (pk_wq p)) + Z.of_nat (length (pk_extra p)).
Proof. unfold bytes. rewrite length_encode_post. lia. Qed.

Lemma length_body p :
  Z.of_nat (length (pk_body p)) = 5 * Z.of_nat (length (pk_wq p)) + Z.of_nat (length (pk_extra p)).
Proof. unfold pk_body. rewrite length_app, length_concat_wqe. lia. Qed.

(** How far the packet left in the buffer and the bytes the return value asks
    for agree: the body of the old packet beyond the new one stays behind it. *)
Definition size_law (p : packet) (o : outcome) : Prop :=
  o_ret o <> 0 -> 0 <= growth (o_ret o) <= 5 * DPDK_TX_BURST_SIZE /\
    bytes (o_pkt o) + Z.min (growth (o_ret o)) (Z.of_nat (length (pk_body p))) = bytes p + growth (o_ret o).

Lemma size_same p l q out r :
  (r = 0 \/ r = 1) -> bytes q = bytes p -> size_law p (Outcome l q out r).
Proof.
  intros [-> | ->] E H; [done|]. cbn [o_ret o_pkt]. split; [vm_compute; split; done|]. rewrite E. unfold growth.
  simpl. pose proof (length_body p). lia.
Qed.

Lemma size_free cfg l p q :
  bytes q = bytes p -> pk_body q = pk_body p -> bytes (lock_free_helper cfg l q).2 = bytes p.
Proof.
  intros E Eb. unfold lock_free_helper. cbn [snd]. rewrite length_encode. cbn [pk_wq pk_extra].
  rewrite Eb, length_body, <- E, length_encode. simpl. rewrite !length_encode in E. lia.
Qed.

Lemma bytes_body p q : pk_wq q = pk_wq p -> pk_extra q = pk_extra p -> bytes q = bytes p.
Proof. intros E1 E2. by rewrite !length_encode, E1, E2. Qed.

Lemma size_tail cfg l p o :
  Z.of_nat (length (l_wqueue l)) <= DPDK_TX_BURST_SIZE ->
  release_tail cfg l p = Ok o -> size_law p o.
Proof.
  intros Hq. unfold release_tail, lock_no_waiters, lock_transfer_helper.
  destruct (lock_no_holders l); [|intros [= <-]; by apply size_same; [left|]].
  destruct (l_wqueue l) as [|w wq] eqn:Ew.
  - change (bool_decide _) with true. cbv iota.
    destruct (lock_free_helper cfg l p) as [l' p'] eqn:E. intros [= <-]. apply size_same; [by right|].
    pose proof (size_free cfg l p p eq_refl eq_refl) as H. by rewrite E in H.
  - rewrite bool_decide_false by done. cbn [mbind result_bind]. unfold DPDK_TX_BURST_SIZE in Hq. simpl length in Hq.
    set (n := length wq). fold n in Hq.
    assert (En : i32 (Z.of_nat n) = Z.of_nat n) by (apply sw_small; lia). rewrite En. intros [= <-].
    assert (Hb : forall h, bytes (Packet POST_LOCK_TRANSFER h wq (drop (5 * n) (pk_body p))) =
      17 + 5 * Z.of_nat n + Z.max 0 (Z.of_nat (length (pk_body p)) - 5 * Z.of_nat n)).
    { intros h. rewrite length_encode. cbn [pk_wq pk_extra]. rewrite length_drop. fold n. lia. }
    assert (Hp : bytes p = 17 + Z.of_nat (length (pk_body p))) by (rewrite length_encode, length_body; lia).
    unfold size_law, growth, DPDK_TX_BURST_SIZE. cbn [o_ret o_pkt]. rewrite Hb, Hp. change sizeof_wqe with 5.
    destruct (Z.eqb_spec (Z.of_nat n) 0) as [E0|Hne]; intros _.
    + change (1 <? 1) with false. cbv iota. lia.
    + assert (E5 : i32 (Z.of_nat n * 5) = Z.of_nat n * 5) by (apply sw_small; lia). rewrite E5.
      destruct (Z.ltb_spec 1 (Z.of_nat n * 5)) as [_|]; lia.
Qed.

Lemma size_release cfg l p o :
  Z.of_nat (length (l_wqueue l)) <= DPDK_TX_BURST_SIZE ->
  process_release cfg l p = Ok o -> size_law p o.
Proof.
  intros Hq. unfold process_release. case_if.
  - unfold mbind, result_bind. destruct (handle_release_lm _ _ l) as [[[sched l'] out]|]; [|done].
    destruct sched; [|intros [= <-]; by apply size_same; [left|]].
    destruct (l_wqueue l'); [done|]. intros [= <-]. by apply size_same; [right|].
  - case_if.
    + destruct (erase_first _ _) as [[i wq]|]; [intros [= <-]; by apply size_same; [left|]|]. by apply size_tail.
    + case_if; [intros [= <-]; by apply size_same; [left|]|]. by apply size_tail.
Qed.

Lemma forwarded_size cfg l p o :
  packet_preprocess cfg = None -> Z.of_nat (length (l_wqueue l)) <= DPDK_TX_BURST_SIZE ->
  lock_packet_process cfg l p = Ok o -> size_law p o.
Proof.
  intros Hpre Hq. unfold lock_packet_process. rewrite Hpre. repeat case_if.
  - unfold process_acquire. cbv zeta. repeat case_if; try (destruct (handle_acquire_lm _ _ _ _) as [[] ?]);
      intros [= <-]; (apply size_same; [by auto|done]).
  - unfold process_grant_with_agent, mbind, result_bind. case_if; [intros [= <-]; by apply size_same; [left|]|].
    match goal with |- context [match ?x with Ok _ => _ | Fault _ => _ end] => destruct x as [[l' out]|] end; [|done].
    intros [= <-]. by apply size_same; [left|].
  - intros [= <-]. by apply size_same; [left|].
  - by apply size_release.
  - unfold process_pushback. cbv zeta. case_if; intros [= <-]; apply size_same; auto.
  - intros [= <-]. by apply size_same; [left|].
Qed.

(** ** What happens to a received lock packet *)

Definition lock_type (t : Z) : Prop := POST_LOCK_ACQUIRE <= t <= POST_LOCK_FREE.

Lemma dispatch_lock cfg ds p :
  lock_type (pk_type p) -> packet_dispatch (lock_dispatchers cfg ds) p = lock_packet_dispatch cfg p.
Proof.
  unfold lock_type, POST_LOCK_ACQUIRE, POST_LOCK_FREE. intros Ht. unfold packet_dispatch, NUM_POST_TYPES.
  destruct (Z.leb_spec 9 (pk_type p)); [lia|].
  assert (pk_type p = 1 \/ pk_type p = 2 \/ pk_type p = 3 \/ pk_type p = 4 \/ pk_type p = 5 \/ pk_type p = 6) as Hc by lia.
  destruct Hc as [->|[->|[->|[->|[->| ->]]]]]; reflexivity.
Qed.

(** A dispatched packet is processed by the lock it names. *)
Lemma dispatch_process cfg p h :
  config_wf cfg -> host_wf h -> Forall short_queue (h_heap h) -> packet_ok p ->
  Z.of_nat (length (pk_wq p)) <= DPDK_TX_BURST_SIZE ->
  exists h' l o, lock_packet_dispatch cfg p h = Ok ((o_pkt o, o_ret o), h', o_sends o) /\
    lock_packet_process cfg l p = Ok o /\ short_queue l /\
    packet_ok (o_pkt o) /\ Forall (fun s => packet_ok (s_pkt s)) (o_sends o).
Proof.
  intros Hc Hh Hq Hp Hwq.
  assert (Hdesc : exists a h1 l, lock_id_to_desc (lid_of (pk_hdr p)) h = Ok (a, h1, []) /\
    h_heap h1 !! a = Some l /\ lock_wf l /\ short_queue l).
  { unfold lock_id_to_desc, bind at 1, get. destruct (lock_id_map h !! _) as [a|] eqn:E.
    - destruct (map_Forall_lookup_1 _ _ _ _ (hw_ids _ Hh) E) as (k & l & El & _). exists a, h, l. split; [done|].
      split; [done|]. pose proof (hw_heap _ Hh) as Hw. rewrite list.Forall_lookup in Hw, Hq. eauto.
    - eexists (length (h_heap h)), _, (new_innet_lock 0 (lid_of (pk_hdr p))). split; [reflexivity|].
      cbn [h_heap]. split; [by apply list_lookup_middle|]. split; [apply new_innet_lock_wf|].
      unfold short_queue. simpl. unfold DPDK_TX_BURST_SIZE. lia. }
  destruct Hdesc as (a & h1 & l & E1 & E2 & Hl & Hs).
  destruct (lock_packet_process_good cfg l p Hc Hl Hp Hs Hwq) as (o & Eo & _ & Hop & Hos).
  exists (with_lock h1 a (o_lock o)), l, o. split; [|done]. unfold lock_packet_dispatch.
  rewrite (bind_ok _ _ _ _ _ _ E1), (bind_ok _ _ _ _ _ _ (lmeta_eq h1 a l E2)), Eo.
  rewrite (bind_ok _ _ _ _ _ _ (store_eq h1 a (o_lock o))).
  rewrite (bind_ok _ _ _ _ _ _ (for_each_emit_eq (o_sends o) _)). simpl. by rewrite app_nil_r.
Qed.

(** A lock frame is handled and what is forwarded is framed for the packet.
    Polling a frame whose lengths fit its packet does not fault; the frame that
    goes back, if any, is enlarged by the bytes the handler asked for, which is
    the growth of the packet except for the bytes of an old body left behind
    it, and the IP length covers the buffer. The UDP length is not adjusted: it
    falls short by exactly the growth. *)
Theorem forwarded_frame_lengths cfg ds p h :
  config_wf cfg -> host_wf h -> Forall short_queue (h_heap h) -> packet_ok p -> lock_type (pk_type p) ->
  Z.of_nat (length (pk_wq p)) <= DPDK_TX_BURST_SIZE -> bytes p <= 32768 ->
  exists h' sends fwd,
    poll_one (lock_dispatchers cfg ds) (frame_of (bytes p) p) h = Ok (h', net_send_batch sends ++ fwd) /\
    (fwd = [] \/ exists f r, fwd = [f] /\ packet_ok (m_post f) /\
       data_len f = hdrs + bytes p + growth r /\ pkt_len f = data_len f /\
       bytes (m_post f) + Z.min (growth r) (Z.of_nat (length (pk_body p))) = bytes p + growth r /\
       total_length f = data_len f - sizeof_ether_hdr /\
       dgram_len f = total_length f - sizeof_ipv4_hdr - growth r).
Proof.
  intros Hc Hh Hq Hp Ht Hwq Hb. unfold poll_one. cbn [m_post frame_of]. rewrite dispatch_lock by done.
  destruct (dispatch_process cfg p h Hc Hh Hq Hp Hwq) as (h' & l & o & E & Eo & Hs & Hop & Hos). rewrite E.
  pose proof (forwarded_size cfg l p o (proj2 (proj2 Hc)) Hs Eo) as Hsz.
  exists h', (o_sends o). destruct (Z.eqb_spec (o_ret o) 0) as [E0|Hne]; [exists []; auto|].
  destruct (Hsz Hne) as [Hpos Hlaw]. eexists. split; [reflexivity|]. right.
  exists (reuse (frame_of (bytes p) p) (o_pkt o) (o_ret o)), (o_ret o). split; [done|].
  unfold DPDK_TX_BURST_SIZE in Hpos. pose proof (length_encode p) as Hlen.
  unfold reuse, growth in *. change hdrs with 42. change sizeof_ether_hdr with 14. change sizeof_ipv4_hdr with 20.
  unfold frame_of. change hdrs with 42. change sizeof_ipv4_hdr with 20. change sizeof_udp_hdr with 8.
  destruct (1 <? o_ret o); cbn [m_post data_len pkt_len total_length dgram_len];
    rewrite ?uw_add_l, !(uw_small 16) by (unfold in_uw; change (2 ^ 16) with 65536; lia);
    rewrite ?(uw_small 32) by (unfold in_uw; change (2 ^ 32) with 4294967296; lia); split_and!; try done; lia.
Qed.

(** A release that hands the lock and the rest of its queue to another host. *)
Definition net_lock0 : innet_lock :=
  set_mode LOCK_EXCL (set_is_agent true (set_holders {[ LOCK_HOLDER 1 7 ]}
    (set_wqueue [mk_wqe LOCK_EXCL 8 2; mk_wqe LOCK_SHARED 9 3; mk_wqe LOCK_SHARED 10 4] (new_innet_lock 5 5)))).

Definition net_host0 : host := Host [net_lock0] {[ 5 := 0%nat ]} {[ 5 := 0%nat ]} true.

Lemma net_lock0_wf : lock_wf net_lock0.
Proof.
  split; try done.
  - do 3 (constructor; [apply mk_wqe_ok; auto|]). constructor.
  - intros x Hx. change (x ∈ ({[ LOCK_HOLDER 1 7 ]} : gset Z)) in Hx. apply elem_of_singleton in Hx as ->.
    by apply LOCK_HOLDER_range.
Qed.

Lemma net_host0_wf : host_wf net_host0.
Proof.
  split.
  - constructor; [apply net_lock0_wf|constructor].
  - apply map_Forall_singleton. by exists 5, net_lock0.
  - apply map_Forall_singleton. by exists 5, net_lock0.
Qed.

Lemma forwarded_frame_lengths_witness :
  let p := wire POST_LOCK_RELEASE 5 5 1 7 [] in
  exists h' sends fwd,
    poll_one (lock_dispatchers cfg0 (fun _ => None)) (frame_of (bytes p) p) net_host0 =
      Ok (h', net_send_batch sends ++ fwd) /\
    (fwd = [] \/ exists f r, fwd = [f] /\ packet_ok (m_post f) /\
       data_len f = hdrs + bytes p + growth r /\ pkt_len f = data_len f /\
       bytes (m_post f) + Z.min (growth r) (Z.of_nat (length (pk_body p))) = bytes p + growth r /\
       total_length f = data_len f - sizeof_ether_hdr /\
       dgram_len f = total_length f - sizeof_ipv4_hdr - growth r).
Proof.
  intros p. apply (forwarded_frame_lengths cfg0 (fun _ => None) p net_host0).
  - apply cfg0_wf.
  - apply net_host0_wf.
  - by repeat constructor.
  - by apply wire_ok.
  - done.
  - done.
  - by vm_compute.
Defined.

(** The dispatcher table is indexed by the type byte of a received packet
    without a bound, so a packet of an unknown type reads behind the table. *)
Theorem unknown_type_reads_behind_table ds m h :
  NUM_POST_TYPES <= pk_type (m_post m) -> poll_one ds m h = Fault FaultBounds.
Proof.
  intros Ht. unfold poll_one, packet_dispatch. by rewrite (proj2 (Z.leb_le _ _) Ht).
Qed.

Lemma unknown_type_reads_behind_table_witness :
  poll_one (fun _ => None) (frame_of 17 (wire 77 0 5 1 7 [])) net_host0 = Fault FaultBounds.
Proof. by apply (unknown_type_reads_behind_table (fun _ => None) (frame_of 17 (wire 77 0 5 1 7 [])) net_host0). Defined.
