(* ===== verification/Switch.v ===== *)
(** * Switch: the lock state machine of the switch

    Models the two switch programs that decide every lock request of a switch-
    managed lock: the Tofino pipelines switch/p4/ingress.p4, lock.p4, counter.p4
    and egress.p4 (with the multicast groups switch/control/bfrt.c sets up), and
    switch/p4_bmv2/fisslock_bmv2.p4, the single-file version for BMv2.  Their
    match-action tables are the same, so the tables and the actions they choose
    are defined once; the two programs differ in the flags they clear, in the
    locks they cover and in how they forward.

    Every register array is accessed at the lock's index only, so the entries of
    one lock are a record.  A [bit<1>] is a Boolean (1 is [true]).  The header is
    the [lock_post_header] of lib/post.h; the identifier is read in network
    order.  The UDP port the programs write does not decide anything here; [Frames]
    models it. *)

From S2P Require Import Prelude Types Post.

(** ** Registers *)

Record lock_regs := Regs {
  lock_free_mode : bool;      (** 0: LOCK_FREE, 1: LOCK_ACQUIRED *)
  lock_rw_mode : bool;        (** 0: LOCK_SHARED, 1: LOCK_EXCL *)
  lock_agent : Z;
  notification_cnt : Z;       (** 8 bits *)
}.

#[global] Instance lock_regs_eq_dec : EqDecision lock_regs.
Proof. solve_decision. Defined.

Definition regs_init : lock_regs := Regs false false 0 0.

(** ** Header bits *)

Definition set_mode_byte (f : Z -> Z) (p : packet) : packet :=
  let h := pk_hdr p in
  Packet (pk_type p)
    (Hdr (f (mode_old_mode h)) (lock_id h) (machine_id h) (task_id h) (agent h) (wq_size h) (ncnt h))
    (pk_wq p) (pk_extra p).

Definition set_bit (i : Z) (p : packet) : packet := set_mode_byte (fun b => Z.lor b (2 ^ i)) p.
Definition clear_bit (i : Z) (p : packet) : packet := set_mode_byte (fun b => Z.land b (255 - 2 ^ i)) p.

Definition hdr_bit (i : Z) (p : packet) : bool := Z.testbit (mode_old_mode (pk_hdr p)) i.

Definition pkt_mode (p : packet) : bool := hdr_bit 0 p.
Definition pkt_old_mode (p : packet) : bool := hdr_bit 1 p.

Definition set_type (t : Z) (p : packet) : packet := Packet t (pk_hdr p) (pk_wq p) (pk_extra p).

Definition set_agent (a : Z) (p : packet) : packet :=
  let h := pk_hdr p in
  Packet (pk_type p)
    (Hdr (mode_old_mode h) (lock_id h) (machine_id h) (task_id h) a (wq_size h) (ncnt h))
    (pk_wq p) (pk_extra p).

(** ** The tables *)

(** counter_table: the new count, and whether the packet's count matched it. *)
Definition counter_table (p : packet) (n : Z) : Z * bool :=
  let t := pk_type p in
  if (t =? POST_LOCK_ACQUIRE) && negb (pkt_mode p) then (u8 (n + 1), false)
  else if (t =? POST_LOCK_TRANSFER) || (t =? POST_LOCK_FREE) then
    if pkt_old_mode p then (0, false)
    else if n =? ncnt (pk_hdr p) then (0, true) else (n, false)
  else (n, false).

(** rw_table: the mode register, and the mode handed to the next table (the
    metadata field is zero when no entry matches). *)
Definition rw_table (p : packet) (acquired rw : bool) : bool * bool :=
  let t := pk_type p in
  if ((t =? POST_LOCK_TRANSFER) || (t =? POST_LOCK_FREE)) && acquired then (pkt_mode p, rw)
  else if t =? POST_LOCK_ACQUIRE then (if acquired then rw else pkt_mode p, rw)
  else (rw, false).

Inductive lock_op := new_agent | mcast_to_agent | fwd_to_agent | transfer_agent | reset_agent | nop.

(** lock_operation: keyed by the packet's type and mode, by whether the lock
    was acquired, and by its mode. *)
Definition lock_operation (p : packet) (acquired rw : bool) : lock_op :=
  let t := pk_type p in
  if t =? POST_LOCK_ACQUIRE then
    if negb acquired then new_agent
    else if negb (pkt_mode p) && negb rw then mcast_to_agent else fwd_to_agent
  else if negb acquired then nop
  else if t =? POST_LOCK_RELEASE then (if pkt_mode p then nop else fwd_to_agent)
  else if t =? POST_LOCK_TRANSFER then transfer_agent
  else if t =? POST_LOCK_FREE then reset_agent
  else nop.

(** What the chosen action does: the agent register, the packet, and the second
    destination (0: none). *)
Definition lock_action (o : lock_op) (a : Z) (p : packet) : Z * packet * Z :=
  let m := machine_id (pk_hdr p) in
  match o with
  | new_agent => (m, clear_bit 5 (set_type POST_LOCK_GRANT_WITH_AGENT (set_agent m p)), 0)
  | mcast_to_agent => (a, set_type POST_LOCK_GRANT_WO_AGENT (set_agent a p), m)
  | fwd_to_agent => (a, set_agent a p, 0)
  | transfer_agent => (m, set_bit 5 (set_type POST_LOCK_GRANT_WITH_AGENT (set_agent m p)), 0)
  | reset_agent => (0, set_agent 0 p, 0)
  | nop => (a, p, 0)
  end.

(** The body of both ingress controls for a lock in range: the notification
    count, the test for a packet that others in flight have outdated, and the
    state machine. [true]: the packet is replicated. *)
Definition fission (r : lock_regs) (p : packet) : lock_regs * packet * Z * bool :=
  let '(n, agent_changed) := counter_table p (notification_cnt r) in
  let t := pk_type p in
  if ((t =? POST_LOCK_TRANSFER) || (t =? POST_LOCK_FREE)) && negb (pkt_old_mode p) && negb agent_changed then
    (Regs (lock_free_mode r) (lock_rw_mode r) (lock_agent r) n, p, 0, false)
  else if t =? POST_LOCK_GRANT_WO_AGENT then
    (Regs (lock_free_mode r) (lock_rw_mode r) (lock_agent r) n, set_agent (machine_id (pk_hdr p)) p, 0, false)
  else
    let acquired := lock_free_mode r in
    let '(rw', rw) := rw_table p acquired (lock_rw_mode r) in
    let o := lock_operation p acquired rw in
    let '(a, p', dest2) := lock_action o (lock_agent r) p in
    (Regs (negb (t =? POST_LOCK_FREE)) rw' a n, p', dest2,
     match o with mcast_to_agent => true | _ => false end).

(** egress: the copies of a replicated packet differ by replication id. *)
Definition egress_rid (rid : Z) (p : packet) : packet :=
  if rid =? 2 then set_type POST_LOCK_GRANT_WO_AGENT p
  else if rid =? 1 then set_bit 6 (set_type POST_LOCK_ACQUIRE p)
  else p.

(** ** Register arrays *)

(** The register arrays, by lock: on Tofino identifiers below three slices and
    pairs of a slice and an index in it correspond one to one; on BMv2 the index
    is the identifier. *)
Abbreviation switch := (gmap Z lock_regs).

Definition regs_at (s : switch) (i : Z) : lock_regs := default regs_init (s !! i).

(** ** Tofino *)

Definition SLICE_SIZE : Z := 2 ^ 19.

(** [egress.p4]: the flag is in the header. *)
Definition tofino_egress (rid : Z) (p : packet) : packet :=
  if hdr_bit 7 p && ((rid =? 2) || (rid =? 1)) then clear_bit 7 (egress_rid rid p) else p.

(** [ingress.p4]: the packet that leaves the pipeline, and the second
    destination. *)
Definition tofino_ingress (s : switch) (p : packet) : switch * packet * Z :=
  let p := clear_bit 6 (clear_bit 7 p) in
  let i := lid_of (pk_hdr p) in
  if i / SLICE_SIZE <? 3 then
    let '(r, p, dest2, mc) := fission (regs_at s i) p in
    (<[i := r]> s, if mc : bool then set_bit 7 p else p, dest2)
  else (s, p, 0).

Section tofino.
(** The number of machines in the control plane's cluster table. *)
Context (MACHINE_NUM : Z).

(** The multicast groups [setup_mgrps] creates for single hosts: group h holds
    host h with replication id 1, group 128 + h with id 2.  A packet for a group
    that does not exist is dropped.  The broadcast groups from 192 on are not
    used by the lock pipeline, whose groups are host numbers and host numbers
    plus 128. *)
Definition mgrp (g : Z) : option (Z * Z) :=
  if (1 <=? g) && (g <=? MACHINE_NUM) then Some (g, 1)
  else if (129 <=? g) && (g <=? 128 + MACHINE_NUM) then Some (g - 128, 2) else None.

Definition tofino_copies (grp_a grp_b : Z) (p : packet) : list (Z * packet) :=
  omap (fun g => '(h, rid) ← mgrp g; Some (h, tofino_egress rid p)) [grp_a; grp_b].

Definition tofino (s : switch) (p : packet) : switch * list (Z * packet) :=
  let '(s, p, dest2) := tofino_ingress s p in
  (s, tofino_copies (agent (pk_hdr p)) (dest2 + 128) p).
End tofino.

(** ** BMv2 *)

Definition SLICE_MASK : Z := 0x3FF.
Definition SLICE_HIGH_MASK : Z := 0xFFFFFC00.

(** setup/multicast.txt: the nodes of group 299, as ports and replication
    ids. *)
Definition MCAST_SHARED_GRANT : list (Z * Z) := [(1, 1); (2, 2)].

Definition bmv2 (s : switch) (p : packet) : switch * list (Z * packet) :=
  let i := lid_of (pk_hdr p) in
  let unicast (p : packet) :=
    let eg := agent (pk_hdr p) in
    [(if eg =? 0 then machine_id (pk_hdr p) else eg, p)] in
  if Z.land i SLICE_HIGH_MASK =? 0 then
    let k := Z.land i SLICE_MASK in
    let '(r, p, _, mc) := fission (regs_at s k) p in
    (<[k := r]> s,
     if mc : bool then map (fun '(port, rid) => (port, egress_rid rid p)) MCAST_SHARED_GRANT
     else unicast p)
  else (s, unicast p).
