(* ===== verification/System.v ===== *)
(** * System: hosts, switch and network

    The distributed lock: hosts running lib/lock.cc (module [LockApi]), the
    switch, and the packets in flight between them.  A step is one call of a
    task, one packet processed by the switch, or one packet processed by a host.
    The polling loop of lib/net.cc sends a packet back when its handler asks for
    it, the one of lib/bmv2/bmv2_net.cc ignores the handler's answer: [resend]
    tells them apart, and [bmv2_build] is the branch of lib/lock.cc.  Every
    interleaving and every delivery order is a sequence of labels; [in_order]
    singles out the runs in which each link delivers in order. *)

From S2P Require Import Prelude Types Post Lock LockApi Switch.

#[local] Open Scope prog_scope.

(** ** State *)

Inductive msg :=
  | ToSwitch (h : Z) (p : packet)
  | ToHost (h : Z) (p : packet).

(** A task that is not idle waits with a request handle, or holds the lock. *)
Inductive task_state :=
  | Waiting (r : lock_req) (op : lock_state)
  | Held (op : lock_state).

#[global] Instance task_state_eq_dec : EqDecision task_state.
Proof. solve_decision. Defined.

Record system := System {
  hosts : gmap Z host;
  net : list msg;                     (** in flight, oldest first *)
  sw : switch;
  tasks : gmap (Z * Z) task_state;    (** by host and task *)
}.

(** ** Steps *)

Inductive label :=
  | LAcquire (h t : Z) (op : lock_state)
  | LPoll (h t : Z)
  | LRelease (h t : Z)
  | LTimeout (h t : Z)      (** a waiting task gives up and releases the lock *)
  | LNet (k : nat).

Section system.
Context (fabric : switch -> packet -> switch * list (Z * packet)).
Context (bmv2_build resend : bool) (n lid : Z).

Definition cfg_of (h : Z) : config := Config h None None bmv2_build false.

Definition host_init : host :=
  match lock_local_init lid (lock_setup FLAG_ENB_LOCAL_GRANT) with
  | Ok (_, x, _) => x
  | Fault _ => lock_setup FLAG_ENB_LOCAL_GRANT
  end.

Definition sys_init : system :=
  System (list_to_map (map (fun h => (h, host_init)) (seqZ 1 n))) [] ∅ ∅.

Definition sends (h : Z) (out : list sent) : list msg := map (fun s => ToSwitch h (s_pkt s)) out.

(** A step that is not enabled changes nothing. *)
Definition sys_step (e : label) (s : system) : result system :=
  match e with
  | LAcquire h t op =>
      match hosts s !! h, tasks s !! (h, t) with
      | Some x, None =>
          '(r, x', out) ← lock_acquire_async (cfg_of h) lid t op x;
          Ok (System (<[h := x']> (hosts s)) (net s ++ sends h out) (sw s)
                (<[(h, t) := if bool_decide (r = ReqNull) then Held op else Waiting r op]> (tasks s)))
      | _, _ => Ok s
      end
  | LPoll h t =>
      match hosts s !! h, tasks s !! (h, t) with
      | Some x, Some (Waiting r op) =>
          '(b, x', out) ← lock_req_granted r x;
          Ok (System (<[h := x']> (hosts s)) (net s ++ sends h out) (sw s)
                (if b =? 0 then tasks s else <[(h, t) := Held op]> (tasks s)))
      | _, _ => Ok s
      end
  | LRelease h t =>
      match hosts s !! h, tasks s !! (h, t) with
      | Some x, Some (Held op) =>
          '(_, x', out) ← lock_release (cfg_of h) lid t op x;
          Ok (System (<[h := x']> (hosts s)) (net s ++ sends h out) (sw s) (delete (h, t) (tasks s)))
      | _, _ => Ok s
      end
  | LTimeout h t =>
      match hosts s !! h, tasks s !! (h, t) with
      | Some x, Some (Waiting _ op) =>
          '(_, x', out) ← lock_release (cfg_of h) lid t op x;
          Ok (System (<[h := x']> (hosts s)) (net s ++ sends h out) (sw s) (delete (h, t) (tasks s)))
      | _, _ => Ok s
      end
  | LNet k =>
      match net s !! k with
      | None => Ok s
      | Some (ToSwitch _ p) =>
          let '(sw', out) := fabric (sw s) p in
          Ok (System (hosts s) (delete k (net s) ++ map (fun '(h, q) => ToHost h q) out) sw' (tasks s))
      | Some (ToHost h p) =>
          match hosts s !! h with
          | None => Ok (System (hosts s) (delete k (net s)) (sw s) (tasks s))
          | Some x =>
              '(q, x', out) ← lock_packet_dispatch (cfg_of h) p x;
              Ok (System (<[h := x']> (hosts s))
                    (delete k (net s) ++ sends h out ++ (if (q.2 =? 0) || negb resend then [] else [ToSwitch h q.1]))
                    (sw s) (tasks s))
          end
      end
  end.

Fixpoint sys_run (es : list label) (s : system) : result system :=
  match es with
  | [] => Ok s
  | e :: es' => s' ← sys_step e s; sys_run es' s'
  end.

(** [in_order es s]: no packet overtakes an earlier one of its link. *)
Definition same_link (m m' : msg) : bool :=
  match m, m' with
  | ToSwitch h _, ToSwitch h' _ | ToHost h _, ToHost h' _ => h =? h'
  | _, _ => false
  end.

Definition next_on_link (k : nat) (l : list msg) : bool :=
  match l !! k with
  | None => true
  | Some m => forallb (fun m' => negb (same_link m m')) (take k l)
  end.

Fixpoint in_order (es : list label) (s : system) : bool :=
  match es with
  | [] => true
  | e :: es' =>
      (match e with LNet k => next_on_link k (net s) | _ => true end) &&
      match sys_step e s with Ok s' => in_order es' s' | Fault _ => true end
  end.
End system.

(** ** What a state shows *)

Definition holds (s : system) (k : Z * Z) (op : lock_state) : Prop := tasks s !! k = Some (Held op).

(** The reader/writer discipline between the tasks that hold the lock. *)
Definition compatible (s : system) : Prop :=
  forall k1 k2 op1 op2, holds s k1 op1 -> holds s k2 op2 -> k1 <> k2 ->
    op1 = LOCK_SHARED /\ op2 = LOCK_SHARED.
