(* ===== verification/Fission.v ===== *)
(** * Fission: mutual exclusion across hosts

    The distributed lock of [System] with the Tofino switch, for exclusive
    requests: in every interleaving and for every delivery order exactly one
    place owns the lock - the switch (the lock is free), one host (its agent, on
    behalf of one holder), or one packet in flight (a free, a transfer or a grant
    with agency) - so at most one task holds it.  Then two runs in which every
    link delivers in order: with shared requests two tasks that exclude each
    other hold the lock at once, and with exclusive ones a request is lost. *)

From S2P Require Import Prelude RwSpec Types Post Lock LockProofs LockApi Agent LockApiProofs Switch System.

#[local] Open Scope prog_scope.

(** ** Packets of exclusive requests *)

Section excl.
Context (bmv2_build : bool) (n lid : Z) (Hn : 1 <= n < 64) (Hlid : 0 <= lid < SWITCH_LOCK_NUM).

Abbreviation cfg_of := (cfg_of bmv2_build).
Abbreviation sys_step := (sys_step (tofino n) bmv2_build true lid).
Abbreviation sys_run := (sys_run (tofino n) bmv2_build true lid).

Definition acq_pkt (m t a : Z) : packet :=
  Packet POST_LOCK_ACQUIRE (Hdr 1 (htonl lid) m t a 0 0) [] [].
Definition free_pkt (h : Z) : packet :=
  Packet POST_LOCK_FREE (Hdr 2 (htonl lid) h 0 h 0 0) [] [].
Definition transfer_pkt (h m t : Z) (wq : list wqe) : packet :=
  Packet POST_LOCK_TRANSFER (Hdr 3 (htonl lid) m t h (u32 (Z.of_nat (length wq))) 0) wq [].
(** [b] is the mode byte: 1, or 35 for a transferred lock. *)
Definition grant_pkt (b m t : Z) (wq : list wqe) : packet :=
  Packet POST_LOCK_GRANT_WITH_AGENT (Hdr b (htonl lid) m t m (u32 (Z.of_nat (length wq))) 0) wq [].

Definition host_ok (h : Z) : Prop := 1 <= h <= n.

Definition excl_wqe (w : wqe) : Prop :=
  wq_op w = ls_val LOCK_EXCL /\ host_ok (wq_host w) /\ in_uw 30 (wq_task w).

(** The packets there are. *)
Inductive msg_ok : msg -> Prop :=
  | ok_acq_up h m t a : host_ok m -> in_uw 30 t -> msg_ok (ToSwitch h (acq_pkt m t a))
  | ok_free h x : host_ok x -> msg_ok (ToSwitch h (free_pkt x))
  | ok_transfer h x m t wq :
      host_ok m -> in_uw 30 t -> Forall excl_wqe wq -> msg_ok (ToSwitch h (transfer_pkt x m t wq))
  | ok_acq_down h m t a : host_ok h -> host_ok m -> in_uw 30 t -> msg_ok (ToHost h (acq_pkt m t a))
  | ok_grant m t : host_ok m -> in_uw 30 t -> msg_ok (ToHost m (grant_pkt 1 m t []))
  | ok_grant_transferred m t wq :
      host_ok m -> in_uw 30 t -> Forall excl_wqe wq -> msg_ok (ToHost m (grant_pkt 35 m t wq)).

(** A packet that carries the ownership of the lock. *)
Definition is_token (m : msg) : bool :=
  match m with
  | ToSwitch _ p => (pk_type p =? POST_LOCK_FREE) || (pk_type p =? POST_LOCK_TRANSFER)
  | ToHost _ p => pk_type p =? POST_LOCK_GRANT_WITH_AGENT
  end.

Definition tokens (l : list msg) : nat := length (filterb is_token l).

Lemma tokens_app l1 l2 : tokens (l1 ++ l2) = (tokens l1 + tokens l2)%nat.
Proof using. unfold tokens. by rewrite List.filter_app, length_app. Qed.

Lemma tokens_delete k l m :
  l !! k = Some m -> tokens l = (tokens (delete k l) + if is_token m then 1 else 0)%nat.
Proof using.
  intros E. rewrite delete_take_drop. rewrite <- (take_drop_middle l k m E) at 1.
  rewrite !tokens_app. unfold tokens at 2. simpl. destruct (is_token m); simpl; unfold tokens; lia.
Qed.

(** ** The switch *)

Lemma lid_hdr b m k a w c : lid_of (Hdr b (htonl lid) m k a w c) = lid.
Proof using Hlid. apply ntohl_htonl. unfold in_uw, SWITCH_LOCK_NUM in *. lia. Qed.

Lemma lid_in_slices : (lid / SLICE_SIZE <? 3) = true.
Proof using Hlid.
  apply Z.ltb_lt, Z.div_lt_upper_bound; [done|]. unfold SWITCH_LOCK_NUM in Hlid. exact (proj2 Hlid).
Qed.

Lemma mgrp_128 : mgrp n 128 = None.
Proof using Hn. unfold mgrp. by rewrite (proj2 (andb_false_iff (1 <=? 128) (128 <=? n))) by lia. Qed.

Lemma copies_unicast g p :
  host_ok g -> hdr_bit 7 p = false -> tofino_copies n g 128 p = [(g, p)].
Proof using Hn.
  intros Hg E. unfold host_ok in Hg.
  assert (E1 : mgrp n g = Some (g, 1)).
  { unfold mgrp. by rewrite (proj2 (andb_true_iff (1 <=? g) (g <=? n))) by lia. }
  unfold tofino_copies. simpl. rewrite E1, mgrp_128. simpl. unfold tofino_egress. by rewrite E.
Qed.

Lemma copies_none p : tofino_copies n 0 128 p = [].
Proof using Hn. unfold tofino_copies. simpl. by rewrite mgrp_128. Qed.

(** The registers of the lock, and the switch with other ones. *)
Abbreviation regs s := (regs_at s lid).

Ltac switch_step :=
  unfold tofino, tofino_ingress, clear_bit, set_mode_byte, acq_pkt, free_pkt, transfer_pkt;
  cbn [pk_hdr pk_type pk_wq pk_extra lock_id mode_old_mode machine_id task_id agent wq_size ncnt];
  rewrite lid_hdr, lid_in_slices.

Lemma switch_acquire_free s m t a :
  host_ok m -> lock_free_mode (regs s) = false ->
  tofino n s (acq_pkt m t a) =
    (<[lid := Regs true true m (notification_cnt (regs s))]> s, [(m, grant_pkt 1 m t [])]).
Proof using Hn Hlid.
  intros Hm E. switch_step. unfold fission. cbn. rewrite E. cbn.
  f_equal. by apply copies_unicast.
Qed.

Lemma switch_acquire_held s m t a :
  host_ok (lock_agent (regs s)) -> lock_free_mode (regs s) = true ->
  exists rw, tofino n s (acq_pkt m t a) =
    (<[lid := Regs true rw (lock_agent (regs s)) (notification_cnt (regs s))]> s,
     [(lock_agent (regs s), acq_pkt m t (lock_agent (regs s)))]).
Proof using Hn Hlid.
  intros Ha E. exists (lock_rw_mode (regs s)). switch_step. unfold fission. cbn. rewrite E. cbn.
  f_equal. by apply copies_unicast.
Qed.

Lemma switch_free s x :
  lock_free_mode (regs s) = true ->
  tofino n s (free_pkt x) = (<[lid := Regs false false 0 0]> s, []).
Proof using Hn Hlid.
  intros E. switch_step. unfold fission. cbn. rewrite E. cbn. f_equal. by apply copies_none.
Qed.

Lemma switch_transfer s x m t wq :
  host_ok m -> lock_free_mode (regs s) = true ->
  tofino n s (transfer_pkt x m t wq) =
    (<[lid := Regs true true m 0]> s, [(m, grant_pkt 35 m t wq)]).
Proof using Hn Hlid.
  intros Hm E. switch_step. unfold fission. cbn. rewrite E. cbn. f_equal. by apply copies_unicast.
Qed.

(** ** The hosts *)

Definition mkhost (l : innet_lock) : host :=
  Host [l] (<[lid := 0%nat]> ∅) (<[lid := 0%nat]> ∅) true.

Lemma lid_range : in_uw 32 lid.
Proof using Hlid. unfold in_uw, SWITCH_LOCK_NUM in *. lia. Qed.

Lemma host_init_eq : host_init lid = mkhost (new_innet_lock lid lid).
Proof using Hlid.
  unfold host_init, lock_local_init. rewrite (bind_ok get _ _ _ _ _ eq_refl).
  unfold lock_setup at 1. cbn [lock_tbl]. rewrite lookup_empty, uw_small by apply lid_range. reflexivity.
Qed.

Lemma in_range l : l_id l = lid -> lock_out_of_range l = false.
Proof using Hlid. unfold lock_out_of_range. intros ->. lia. Qed.

(** [LOCK_HOLDER] on this development's tasks. *)
Lemma holder_inj h t t' : in_uw 30 t -> in_uw 30 t' -> LOCK_HOLDER h t = LOCK_HOLDER h t' -> t = t'.
Proof using.
  intros H1 H2 E. by apply LOCK_HOLDER_inj in E as [_ ?]; [|apply (in_uw_mono 30); [lia|done]..].
Qed.

Lemma u8_host h : host_ok h -> u8 h = h.
Proof using Hn. intros Hh. unfold host_ok in Hh. apply uw_small. unfold in_uw. lia. Qed.

Lemma u32_task t : in_uw 30 t -> u32 t = t.
Proof using. intros Ht. apply uw_small, (in_uw_mono 30); [lia|done]. Qed.

Definition acquired (h t : Z) (l : innet_lock) : innet_lock :=
  lock_prepare_wait t (if l_is_agent l then handle_suspend_acquire h t LOCK_EXCL l else l).

Lemma acquire_excl h l t :
  host_ok h -> in_uw 30 t -> l_id l = lid -> (l_is_agent l = false -> l_holders l = ∅) ->
  exists out, lock_acquire_async (cfg_of h) lid t LOCK_EXCL (mkhost l) =
    Ok (ReqPtr 0 t, mkhost (acquired h t l), out) /\
    map s_pkt out = if l_is_agent l then [] else [acq_pkt h t h].
Proof using Hn Hlid.
  intros Hh Ht Hi Hag.
  unfold lock_acquire_async. change (ls_eqb LOCK_EXCL LOCK_EXCL) with true. cbn [negb andb].
  rewrite (bind_ok (lock_key_to_desc lid) _ (mkhost l) 0%nat (mkhost l) [])
    by (apply lock_key_to_desc_eq; apply lookup_insert_eq).
  assert (E0 : h_heap (mkhost l) !! 0%nat = Some l) by done.
  do 2 mstep. rewrite (in_range l Hi). cbn [TPCC_ENB_LOCAL System.cfg_of andb].
  change (enb_local_grants (mkhost l)) with true. cbv iota.
  unfold acquired. destruct (l_is_agent l) eqn:Ea.
  - destruct (ls_eqb (l_mode l) LOCK_SHARED && ls_eqb LOCK_EXCL LOCK_SHARED) eqn:Es.
    { apply andb_true_iff in Es as [_ Es]. by vm_compute in Es. }
    destruct (FISSLOCK_BMV2 _ && _ && _ && _ && _); by eexists.
  - unfold lock_no_holders. rewrite (Hag eq_refl), bool_decide_true by done.
    rewrite andb_false_r. cbn [andb]. eexists. split; [reflexivity|]. cbn.
    by rewrite Hi, (u8_host h Hh), (u32_task t Ht).
Qed.

Lemma poll_excl l t (b : bool) :
  l_task_granted l !! t = Some b ->
  lock_req_granted (ReqPtr 0 t) (mkhost l) =
    Ok ((if b : bool then 1 else 0),
        mkhost (if b then set_task_granted (<[t := false]> (l_task_granted l)) l else l), []).
Proof using. intros E. unfold lock_req_granted, bind, lmeta, get. cbn. rewrite E. by destruct b. Qed.

(** The lock after its holder's release, and the packet sent. *)
Definition released (h t : Z) (l : innet_lock) : innet_lock :=
  let l1 := lock_remove_holder (LOCK_HOLDER h t)
              (set_local_holders (l_local_holders l ∖ {[ t ]}) l) in
  match l_wqueue l with
  | [] => set_ncnt 0 (set_mode FREE (set_is_agent false l1))
  | w :: wq =>
      if bmv2_build && (wq_host w =? h) then
        lock_local_notify (wq_task w)
          (lock_add_holder (LOCK_HOLDER h (wq_task w)) (set_mode (ls_of (wq_op w)) (set_wqueue wq l1)))
      else set_wqueue [] (set_ncnt 0 (set_mode FREE (set_is_agent false l1)))
  end.

Definition release_pkts (h : Z) (l : innet_lock) : list packet :=
  match l_wqueue l with
  | [] => [free_pkt h]
  | w :: wq =>
      if bmv2_build && (wq_host w =? h) then []
      else [transfer_pkt h (wq_host w) (wq_task w) wq]
  end.

Lemma release_excl h l t :
  host_ok h -> in_uw 30 t -> l_id l = lid -> l_is_agent l = true -> l_mode l = LOCK_EXCL ->
  l_holders l = {[ LOCK_HOLDER h t ]} -> l_ncnt l = 0 -> Forall excl_wqe (l_wqueue l) ->
  exists out, lock_release (cfg_of h) lid t LOCK_EXCL (mkhost l) = Ok (0, mkhost (released h t l), out) /\
    map s_pkt out = release_pkts h l.
Proof using Hn Hlid.
  intros Hh Ht Hi Ha Hm Hhold Hnc Hq. unfold lock_release.
  rewrite (bind_ok (lock_key_to_desc lid) _ (mkhost l) 0%nat (mkhost l) [])
    by (apply lock_key_to_desc_eq; apply lookup_insert_eq).
  assert (E0 : h_heap (mkhost l) !! 0%nat = Some l) by done.
  set (l0 := set_local_holders (l_local_holders l ∖ {[ t ]}) l). mstep.
  change (with_lock (mkhost l) 0 l0) with (mkhost l0).
  rewrite (bind_ok (lmeta 0) _ (mkhost l0) l0 (mkhost l0) []) by done.
  rewrite (in_range l0 Hi). cbn [TPCC_ENB_LOCAL System.cfg_of andb].
  change (l_is_agent l0) with (l_is_agent l). rewrite Ha. cbv zeta iota.
  unfold lock_has_holder. change (l_holders l0) with (l_holders l).
  rewrite Hhold, bool_decide_true by (by apply elem_of_singleton).
  cbn [negb]. change (LOCALHOST_ID (cfg_of h)) with h. set (l1 := handle_release h t l0).
  assert (E1 : lock_no_holders l1 = true).
  { apply bool_decide_true. change (l_holders l1) with (l_holders l ∖ {[ LOCK_HOLDER h t ]}).
    rewrite Hhold. set_solver. }
  rewrite E1. rewrite (bind_ok (store 0 l1) _ (mkhost l0) tt (mkhost l1) []) by done.
  unfold release_last, released, release_pkts. change (l_wqueue l1) with (l_wqueue l).
  change (l_id l1) with (l_id l). change (l_ncnt l1) with (l_ncnt l). change (l_mode l1) with (l_mode l).
  rewrite Hi, Hnc, Hm. destruct (l_wqueue l) as [|w wq].
  - eexists. split; [reflexivity|]. cbn. by rewrite (u8_host h Hh).
  - apply Forall_cons_1 in Hq as [(Eo & Hw & Ht') _]. cbn [FISSLOCK_BMV2 System.cfg_of LOCALHOST_ID].
    destruct (bmv2_build && (wq_host w =? h)); [by eexists|].
    eexists. split; [reflexivity|]. cbn. rewrite Eo.
    by rewrite Hi, (u8_host h Hh), (u8_host _ Hw), (u32_task _ Ht').
Qed.

(** The lock after a grant with agency, and after an exclusive request that
    arrived, with the packet sent back. *)
Definition granted (h t : Z) (wq : list wqe) (l : innet_lock) : innet_lock :=
  lock_local_notify t
    (set_wqueue (l_wqueue l ++ wq)
      (set_mode LOCK_EXCL (lock_add_holder (LOCK_HOLDER h t) (set_is_agent true l)))).

Lemma cfg_of_wf h : host_ok h -> config_wf (cfg_of h).
Proof using Hn. intros Hh. unfold host_ok in Hh. split; [|done]. unfold in_uw. cbn. lia. Qed.

Lemma deliver_lock h l p o :
  l_id l = lid -> lid_of (pk_hdr p) = lid -> lock_packet_process (cfg_of h) l p = Ok o ->
  lock_packet_dispatch (cfg_of h) p (mkhost l) = Ok ((o_pkt o, o_ret o), mkhost (o_lock o), o_sends o).
Proof using.
  intros Hi Ep Eo. unfold lock_packet_dispatch. rewrite Ep.
  rewrite (bind_ok (lock_id_to_desc lid) _ (mkhost l) 0%nat (mkhost l) [])
    by (apply lock_id_to_desc_eq; apply lookup_insert_eq).
  rewrite (bind_ok (lmeta 0) _ (mkhost l) l (mkhost l) []) by done. rewrite Eo.
  rewrite (bind_ok (store 0 (o_lock o)) _ (mkhost l) tt (mkhost (o_lock o)) []) by done.
  rewrite (bind_ok (for_each (o_sends o) emit) _ _ tt (mkhost (o_lock o)) (o_sends o))
    by apply for_each_emit_eq. unfold ret. by rewrite app_nil_r.
Qed.

Lemma deliver_grant_with_agent h l t b wq :
  host_ok h -> in_uw 30 t -> l_id l = lid -> l_ncnt l = 0 -> b = 35 \/ b = 1 /\ wq = [] ->
  exists wq', (wq' = wq \/ wq' = []) /\ (Z.of_nat (length wq) < 2 ^ 32 -> wq' = wq) /\
  lock_packet_dispatch (cfg_of h) (grant_pkt b h t wq) (mkhost l) =
    Ok ((grant_pkt b h t wq, 0), mkhost (granted h t wq' l), []).
Proof using Hn Hlid.
  intros Hh Ht Hi Hnc Hb. exists (if 0 <? u32 (Z.of_nat (length wq)) then wq else []).
  split; [destruct (_ <? _); auto|]. split.
  { intros Hl. rewrite uw_small by (unfold in_uw; lia). destruct wq; [by case_if|]. done. }
  apply (deliver_lock h l (grant_pkt b h t wq) (Outcome (granted h t _ l) _ [] 0)); [done|apply lid_hdr|].
  rewrite process_type_grant by (done || by apply cfg_of_wf). unfold process_grant_with_agent. cbn [grant_pkt pk_hdr task_id].
  rewrite (proj2 (Z.eqb_neq t TASK_FOR_RESTORE)) by (unfold in_uw in Ht; change TASK_FOR_RESTORE with 4294967295; lia).
  change (wq_size (pk_hdr (grant_pkt b h t wq))) with (u32 (Z.of_nat (length wq))).
  destruct l as [? ? ? ? nc ? ? ? ? ? ? ?]; cbn in Hi, Hnc; subst nc.
  destruct Hb as [-> | [-> ->]].
  - cbn. destruct (0 <? _); [reflexivity|]. unfold granted. cbn. by rewrite app_nil_r.
  - cbn. unfold granted. cbn. by rewrite app_nil_r.
Qed.

Definition arrived (m t : Z) (l : innet_lock) : innet_lock :=
  let lh := LOCK_HOLDER m t in
  let l := set_early_release (touch false lh (l_early_release l)) l in
  if l_is_agent l then handle_suspend_acquire m t LOCK_EXCL l
  else
    let c := index 0 lh (l_fwd_back_cnt l) in
    let l := set_fwd_back_cnt (touch 0 lh (l_fwd_back_cnt l)) l in
    if 2 <? c then
      set_fwd_back_cnt (delete lh (l_fwd_back_cnt l)) (handle_suspend_acquire m t LOCK_EXCL l)
    else set_fwd_back_cnt (<[lh := i16 (c + 1)]> (l_fwd_back_cnt l)) l.

Definition sent_back (m t : Z) (l : innet_lock) : bool :=
  negb (l_is_agent l) && negb (2 <? index 0 (LOCK_HOLDER m t) (l_fwd_back_cnt l)).

Lemma deliver_acquire h l m t a :
  host_ok h -> l_id l = lid -> (forall k, index false k (l_early_release l) = false) ->
  lock_packet_dispatch (cfg_of h) (acq_pkt m t a) (mkhost l) =
    Ok ((acq_pkt m t a, if sent_back m t l then 1 else 0), mkhost (arrived m t l), []).
Proof using Hn Hlid.
  intros Hh Hi He.
  apply (deliver_lock h l (acq_pkt m t a) (Outcome (arrived m t l) _ [] _)); [done|apply lid_hdr|].
  rewrite process_type_acquire by (done || by apply cfg_of_wf). unfold process_acquire. rewrite (in_range l Hi).
  cbn [acq_pkt pk_hdr machine_id task_id mode_old_mode].
  change (MODE 1) with LOCK_EXCL. change (ls_eqb LOCK_EXCL LOCK_SHARED) with false.
  cbn [andb]. cbv zeta. rewrite He. unfold arrived, sent_back.
  change (l_is_agent (set_early_release _ l)) with (l_is_agent l).
  destruct (l_is_agent l); cbn [negb andb].
  - reflexivity.
  - change (l_fwd_back_cnt (set_early_release _ l)) with (l_fwd_back_cnt l).
    destruct (2 <? _); reflexivity.
Qed.

(** ** The invariant of a host *)

(** [T] is what the host's tasks are doing, [ag] whether the host owns the
    lock: the agent has exactly one holder, other hosts have none; a task that
    holds the lock, or whose grant it has not seen yet, is that holder, and
    there is such a task. No request is sent back a fourth time. *)
Record host_inv (h : Z) (l : innet_lock) (T : Z -> option task_state) (ag : bool) : Prop := {
  hi_id : l_id l = lid;
  hi_agent : l_is_agent l = ag;
  hi_ncnt : l_ncnt l = 0;
  hi_early : forall k, index false k (l_early_release l) = false;
  hi_wq : Forall excl_wqe (l_wqueue l);
  hi_idle : ag = false -> l_holders l = ∅;
  hi_mode : ag = true -> l_mode l = LOCK_EXCL;
  hi_flag : forall t, l_task_granted l !! t = Some true ->
    in_uw 30 t /\ l_holders l = {[ LOCK_HOLDER h t ]} /\ forall op, T t <> Some (Held op);
  hi_held : forall t op, T t = Some (Held op) ->
    in_uw 30 t /\ op = LOCK_EXCL /\ l_holders l = {[ LOCK_HOLDER h t ]};
  hi_wait : forall t r op, T t = Some (Waiting r op) ->
    in_uw 30 t /\ op = LOCK_EXCL /\ r = ReqPtr 0 t /\ is_Some (l_task_granted l !! t);
  hi_busy : ag = true -> exists t, l_task_granted l !! t = Some true \/ exists op, T t = Some (Held op);
  hi_sent_back : forall k, 0 <= index 0 k (l_fwd_back_cnt l) <= 3;
}.

Lemma host_inv_ext h l T T' ag : (forall t, T' t = T t) -> host_inv h l T ag -> host_inv h l T' ag.
Proof using Hn Hlid.
  intros E [? ? ? ? ? ? ? Hf Hh Hw Hb ?]. split; try done.
  - intros t Ht. destruct (Hf t Ht) as (? & ? & ?). split_and!; [done..|]. intros op. by rewrite E.
  - intros t op. rewrite E. apply Hh.
  - intros t r op. rewrite E. apply Hw.
  - intros Hag. destruct (Hb Hag) as (t & Ht). exists t. by rewrite E.
Qed.

Lemma host_inv_holder h l T ag t op :
  host_inv h l T ag -> T t = Some (Held op) -> ag = true.
Proof using Hn Hlid.
  intros HI E. destruct (hi_held _ _ _ _ HI t op E) as (_ & _ & Hs). destruct ag; [done|].
  pose proof (hi_idle _ _ _ _ HI eq_refl) as H0. set_solver.
Qed.

(** At most one task of a host holds the lock or is about to learn it does. *)
Lemma host_inv_unique h l T ag t t' :
  host_inv h l T ag -> in_uw 30 t -> l_holders l = {[ LOCK_HOLDER h t ]} ->
  in_uw 30 t' -> l_holders l = {[ LOCK_HOLDER h t' ]} -> t = t'.
Proof using Hn Hlid.
  intros HI H1 E1 H2 E2. apply (holder_inj h); [done..|]. rewrite E1 in E2. set_solver.
Qed.

Lemma excl_wqe_mk m t : host_ok m -> in_uw 30 t -> excl_wqe (mk_wqe LOCK_EXCL t m).
Proof using Hn Hlid.
  intros Hm Ht. rewrite mk_wqe_exact; [by split_and!|done|].
  unfold host_ok in Hm. unfold in_uw. lia.
Qed.

Lemma host_inv_acquire h l T T' ag t :
  host_ok h -> in_uw 30 t -> host_inv h l T ag -> T t = None ->
  (forall t', T' t' = if decide (t' = t) then Some (Waiting (ReqPtr 0 t) LOCK_EXCL) else T t') ->
  host_inv h (acquired h t l) T' ag.
Proof using Hn Hlid.
  intros Hh Ht [Hi Ha Hnc He Hq Hid Hm Hf Hhe Hw Hb Hs] HT E.
  assert (Hsame : forall P : innet_lock -> Prop,
    P (lock_prepare_wait t (handle_suspend_acquire h t LOCK_EXCL l)) -> P (lock_prepare_wait t l) ->
    P (acquired h t l)) by (intros P H1 H2; unfold acquired; by destruct (l_is_agent l)).
  assert (Hg : l_task_granted (acquired h t l) = touch false t (l_task_granted l))
    by (by apply (Hsame (fun l' => l_task_granted l' = _))).
  assert (Hhold : l_holders (acquired h t l) = l_holders l)
    by (by apply (Hsame (fun l' => l_holders l' = _))).
  split; try by (apply (Hsame (fun l' => _ l' = _))).
  all: rewrite ?Hg, ?Hhold.
  - by apply (Hsame (fun l' => forall k, index false k (l_early_release l') = false)).
  - apply (Hsame (fun l' => Forall excl_wqe (l_wqueue l'))); [|done].
    apply Forall_app. split; [done|]. constructor; [by apply excl_wqe_mk|done].
  - done.
  - intros Hag. by apply (Hsame (fun l' => l_mode l' = _)); apply Hm.
  - intros t' [H|(_ & ? & _)]%lookup_touch_Some; [|done].
    destruct (Hf t' H) as (? & ? & ?). split_and!; [done..|]. intros op. rewrite E. by case_decide.
  - intros t' op. rewrite E. case_decide; [done|]. apply Hhe.
  - intros t' r op. rewrite E. case_decide as Hd.
    + intros [= <- <-]. subst t'. split_and!; [done..|]. apply lookup_touch_is_Some. by left.
    + intros H. destruct (Hw _ _ _ H) as (? & ? & ? & ?). split_and!; [done..|].
      apply lookup_touch_is_Some. by right.
  - intros Hag. destruct (Hb Hag) as (t' & [H|[op H]]); exists t'.
    + left. unfold touch. destruct (_ !! t) eqn:Et; [done|]. rewrite lookup_insert_ne; [done|congruence].
    + right. exists op. rewrite E, decide_False; [done|]. intros ->. congruence.
  - by apply (Hsame (fun l' => forall k, 0 <= index 0 k (l_fwd_back_cnt l') <= 3)).
Qed.

Lemma host_inv_poll h l T T' ag t :
  host_inv h l T ag -> l_task_granted l !! t = Some true ->
  (forall t', T' t' = if decide (t' = t) then Some (Held LOCK_EXCL) else T t') ->
  host_inv h (set_task_granted (<[t := false]> (l_task_granted l)) l) T' ag.
Proof using Hn Hlid.
  intros HI Hg E. destruct (hi_flag _ _ _ _ HI t Hg) as (Ht & Hs & _).
  pose proof (fun t' => host_inv_unique h l T ag t t' HI Ht Hs) as Hu.
  destruct HI as [Hi Ha Hnc He Hq Hid Hm Hf Hhe Hw Hb Hsb]. split; try done.
  - intros t' H. cbn in H. apply lookup_insert_Some in H as [[_ ?]|[Hne H]]; [done|].
    destruct (Hf t' H) as (H1 & H2 & _). by destruct Hne; apply Hu.
  - intros t' op. rewrite E. case_decide; [intros [= <-]; by subst t'|apply Hhe].
  - intros t' r op. rewrite E. case_decide as Hd; [done|]. intros H.
    destruct (Hw _ _ _ H) as (? & ? & ? & ?). split_and!; [done..|]. cbn. by rewrite lookup_insert_ne.
  - intros _. exists t. right. exists LOCK_EXCL. by rewrite E, decide_True.
Qed.

(** No grant is unseen while a task holds the lock. *)
Lemma host_inv_quiet h l T ag t op t' :
  host_inv h l T ag -> T t = Some (Held op) -> l_task_granted l !! t' <> Some true.
Proof using Hn Hlid.
  intros HI E Hg. destruct (hi_held _ _ _ _ HI t op E) as (Ht & _ & Hs).
  destruct (hi_flag _ _ _ _ HI t' Hg) as (Ht' & Hs' & Hn').
  apply (Hn' op). by rewrite <- (host_inv_unique h l T ag t t' HI Ht Hs Ht' Hs').
Qed.

(** When the holder has released, the lock has left the host or belongs to the
    next local task. *)
Definition kept (h : Z) (l : innet_lock) : bool :=
  match l_wqueue l with w :: _ => bmv2_build && (wq_host w =? h) | [] => false end.

Lemma host_inv_release h l T T' t :
  host_inv h l T true -> T t = Some (Held LOCK_EXCL) ->
  (forall t', T' t' = if decide (t' = t) then None else T t') ->
  host_inv h (released h t l) T' (kept h l).
Proof using Hn Hlid.
  intros HI HT E. destruct (hi_held _ _ _ _ HI t _ HT) as (Ht & _ & Hs).
  pose proof (fun t' => host_inv_unique h l T true t t' HI Ht Hs) as Hu.
  assert (Hnf : forall t', l_task_granted l !! t' = Some true -> False)
    by (intros t'; apply (host_inv_quiet h l T true t LOCK_EXCL t' HI HT)).
  destruct HI as [Hi Ha Hnc He Hq Hid Hm Hf Hhe Hw Hb Hsb].
  assert (Hnh : forall t' op, T' t' = Some (Held op) -> False).
  { intros t' op. rewrite E. case_decide as Hd; [done|]. intros H.
    destruct (Hhe _ _ H) as (H1 & _ & H2). by destruct Hd; rewrite (Hu t' H1 H2). }
  assert (Hw' : forall t' r op, T' t' = Some (Waiting r op) ->
    in_uw 30 t' /\ op = LOCK_EXCL /\ r = ReqPtr 0 t' /\ is_Some (l_task_granted l !! t')).
  { intros t' r op. rewrite E. case_decide; [done|apply Hw]. }
  assert (Hrem : l_holders l ∖ {[ LOCK_HOLDER h t ]} = ∅) by (rewrite Hs; set_solver).
  unfold kept, released. destruct (l_wqueue l) as [|w wq] eqn:Eq.
  - split; try done; cbn; try by rewrite Eq. all: try (by intros t' H; destruct (Hnf t' H)); try (by intros t' op H; destruct (Hnh _ _ H)).
  - apply Forall_cons_1 in Hq as [(Eo & Hwh & Hwt) Hq]. destruct (bmv2_build && (wq_host w =? h)).
    + split; try done; cbn.
      * intros _. by rewrite Eo.
      * intros t' [[<- _]|[_ H]]%lookup_insert_Some; [|by destruct (Hnf t' H)].
        split_and!; [done| |by intros op H; destruct (Hnh _ _ H)]. rewrite Hrem. set_solver.
      * by intros t' op H; destruct (Hnh _ _ H).
      * intros t' r op H. destruct (Hw' _ _ _ H) as (? & ? & ? & ?). split_and!; [done..|].
        destruct (decide (t' = wq_task w)) as [->|Hne];
          [rewrite lookup_insert_eq; eauto|by rewrite lookup_insert_ne].
      * intros _. exists (wq_task w). left. apply lookup_insert_eq.
    + split; try done; cbn; try (by intros t' H; destruct (Hnf t' H)); try (by intros t' op H; destruct (Hnh _ _ H)).
Qed.

Lemma host_inv_granted h l T t wq :
  in_uw 30 t -> Forall excl_wqe wq -> host_inv h l T false -> host_inv h (granted h t wq l) T true.
Proof using Hn Hlid.
  intros Ht Hwq [Hi Ha Hnc He Hq Hid Hm Hf Hhe Hw Hb Hsb]. specialize (Hid eq_refl).
  assert (Hnf : forall t', l_task_granted l !! t' = Some true -> False).
  { intros t' H. destruct (Hf t' H) as (_ & H2 & _). rewrite Hid in H2. set_solver. }
  assert (Hnh : forall t' op, T t' = Some (Held op) -> False).
  { intros t' op H. destruct (Hhe _ _ H) as (_ & _ & H2). rewrite Hid in H2. set_solver. }
  split; try done; cbn.
  - by apply Forall_app.
  - intros t' [[<- _]|[_ H]]%lookup_insert_Some; [|by destruct (Hnf t' H)].
    split_and!; [done| |by intros op H; destruct (Hnh _ _ H)]. rewrite Hid. set_solver.
  - by intros t' op H; destruct (Hnh _ _ H).
  - intros t' r op H. destruct (Hw _ _ _ H) as (? & ? & ? & ?). split_and!; [done..|].
    destruct (decide (t' = t)) as [->|Hne];
      [rewrite lookup_insert_eq; eauto|by rewrite lookup_insert_ne].
  - intros _. exists t. left. apply lookup_insert_eq.
Qed.

Lemma host_inv_arrived h l T ag m t :
  host_ok m -> in_uw 30 t -> host_inv h l T ag -> host_inv h (arrived m t l) T ag.
Proof using Hn Hlid.
  intros Hm' Ht [Hi Ha Hnc He Hq Hid Hm Hf Hhe Hw Hb Hsb].
  assert (Hq' : Forall excl_wqe (l_wqueue l ++ [mk_wqe LOCK_EXCL t m])).
  { apply Forall_app. split; [done|]. constructor; [by apply excl_wqe_mk|done]. }
  assert (He' : forall k, index false k (touch false (LOCK_HOLDER m t) (l_early_release l)) = false)
    by (intros k; by rewrite index_touch).
  unfold arrived. change (l_is_agent (set_early_release _ l)) with (l_is_agent l).
  destruct (l_is_agent l) eqn:Ea; [|cbv zeta; destruct (_ <? _) eqn:Hc]; split; try done; try (by rewrite <- Ha).
  - intros k. cbn. unfold index. destruct (decide (k = LOCK_HOLDER m t)) as [->|Hne];
      [by rewrite lookup_delete_eq|rewrite lookup_delete_ne by done]. fold (index 0 k (touch 0 (LOCK_HOLDER m t) (l_fwd_back_cnt l))).
    by rewrite index_touch.
  - intros k. cbn. apply Z.ltb_ge in Hc. destruct (decide (k = LOCK_HOLDER m t)) as [->|Hne];
      [|by rewrite index_insert_ne, index_touch]. rewrite index_insert. specialize (Hsb (LOCK_HOLDER m t)).
    rewrite sw_small by lia. change (l_fwd_back_cnt (set_early_release _ l)) with (l_fwd_back_cnt l) in Hc. lia.
Qed.

(** ** The invariant of the system *)

(** Who owns the lock: the switch when it is free, its agent, or a packet. *)
Inductive owner := OSwitch | OHost (h : Z) | OPacket.

#[global] Instance owner_eq_dec : EqDecision owner.
Proof using. solve_decision. Defined.

Record sys_inv (o : owner) (s : system) : Prop := {
  si_hosts : forall h x, hosts s !! h = Some x -> host_ok h /\ exists l, x = mkhost l /\
    host_inv h l (fun t => tasks s !! (h, t)) (bool_decide (o = OHost h));
  si_dom : forall h, host_ok h -> is_Some (hosts s !! h);
  si_tasks : forall h t v, tasks s !! (h, t) = Some v -> host_ok h;
  si_net : Forall msg_ok (net s);
  si_tokens : tokens (net s) = match o with OPacket => 1%nat | _ => 0%nat end;
  si_sw : lock_free_mode (regs (sw s)) = negb (bool_decide (o = OSwitch));
  si_reg : o <> OSwitch -> host_ok (lock_agent (regs (sw s)));
}.

Lemma init_lookup h x :
  hosts (sys_init n lid) !! h = Some x <-> host_ok h /\ x = mkhost (new_innet_lock lid lid).
Proof using Hlid.
  cbn. rewrite <- elem_of_list_to_map, list_elem_of_fmap, host_init_eq.
  - setoid_rewrite elem_of_seqZ. unfold host_ok. split.
    + intros (h' & [= -> ->] & ?). split; [lia|done].
    + intros [? ->]. exists h. split; [done|lia].
  - rewrite <- list_fmap_compose. change (NoDup (id <$> seqZ 1 n)). rewrite list_fmap_id. apply NoDup_seqZ.
Qed.

Lemma sys_inv_init : sys_inv OSwitch (sys_init n lid).
Proof using Hn Hlid.
  split; cbn [net sw tasks sys_init]; try done.
  - intros h x [Hh ->]%init_lookup. split; [done|]. eexists. split; [done|].
    rewrite bool_decide_false by done. by split.
  - intros h Hh. eexists. by apply init_lookup.
Qed.

(** A step of host [h]: a new lock, new tasks of [h], new packets. *)
Lemma sys_inv_host o o' s h l' ms tk :
  sys_inv o s -> host_ok h ->
  host_inv h l' (fun t => tk !! (h, t)) (bool_decide (o' = OHost h)) ->
  (forall h' t, h' <> h -> tk !! (h', t) = tasks s !! (h', t)) ->
  (forall h', h' <> h -> (o' = OHost h' <-> o = OHost h')) -> (o' = OSwitch <-> o = OSwitch) ->
  Forall msg_ok ms -> tokens ms = match o' with OPacket => 1%nat | _ => 0%nat end ->
  sys_inv o' (System (<[h := mkhost l']> (hosts s)) ms (sw s) tk).
Proof using Hn Hlid.
  intros [Hh Hd Ht Hm Hk Hs Hr] Hok HI Etk Eo Es Hms Hkn. split; cbn; try done.
  - intros h' x [[<- <-]|[Hne Hx]]%lookup_insert_Some; [by eauto|].
    destruct (Hh h' x Hx) as (? & l & -> & Hl). split; [done|]. exists l. split; [done|].
    rewrite (bool_decide_ext _ _ (Eo h' (not_eq_sym Hne))).
    eapply host_inv_ext; [|done]. intros t. by apply Etk.
  - intros h' Hh'. destruct (decide (h' = h)) as [->|Hne]; [rewrite lookup_insert_eq; eauto|].
    rewrite lookup_insert_ne by done. by apply Hd.
  - intros h' t v H. destruct (decide (h' = h)) as [->|Hne]; [done|].
    rewrite Etk in H by done. by apply Ht in H.
  - rewrite Hs. f_equal. by apply bool_decide_ext.
  - intros H. apply Hr. by rewrite <- Es.
Qed.

(** ** Where requests are *)

(** The requests a packet carries: its own and those of its wait queue. *)
Definition wq_req (w : wqe) : req := (wq_host w, wq_task w).

Definition carried (m : msg) : list req :=
  let p := match m with ToSwitch _ p | ToHost _ p => p end in
  if pk_type p =? POST_LOCK_FREE then []
  else (machine_id (pk_hdr p), task_id (pk_hdr p)) :: map wq_req (pk_wq p).

Definition count (k : req) (l : list req) : nat := length (filterb (fun x => bool_decide (x = k)) l).

Definition one (b : bool) : nat := if b then 1%nat else 0%nat.

(** How often a request is in a lock's wait queue or in its grant flags. *)
Definition at_lock (h : Z) (l : innet_lock) (k : req) : nat :=
  (count k (map wq_req (l_wqueue l)) +
   one (bool_decide (k.1 = h /\ l_task_granted l !! k.2 = Some true)))%nat.

Definition at_host (s : system) (k : req) (h : Z) : nat :=
  match hosts s !! h with
  | Some x => match h_heap x with l :: _ => at_lock h l k | [] => 0%nat end
  | None => 0%nat
  end.

(** How often it is anywhere: in packets in flight and at the hosts. *)
Definition places (s : system) (k : req) : nat :=
  (count k (concat (map carried (net s))) + list_sum (map (at_host s k) (seqZ 1 n)))%nat.

Definition is_waiting (x : option task_state) : nat :=
  match x with Some (Waiting _ _) => 1%nat | _ => 0%nat end.

Definition waiting (s : system) (k : req) : nat := is_waiting (tasks s !! k).

(** A step moves requests, adds those that begin and drops those that end. *)
Definition balanced (s s' : system) : Prop :=
  forall k, (places s' k + waiting s k = places s k + waiting s' k)%nat.

(** The size field of no packet in flight has overflowed. *)
Definition sizes_fit (s : system) : Prop :=
  Forall (fun m => Z.of_nat (length (carried m)) <= 2 ^ 32) (net s).

#[local] Arguments count : simpl never.
#[local] Arguments wq_req : simpl never.

Lemma count_app k l1 l2 : count k (l1 ++ l2) = (count k l1 + count k l2)%nat.
Proof using. unfold count. by rewrite List.filter_app, length_app. Qed.

Lemma count_cons k x l : count k (x :: l) = (one (bool_decide (x = k)) + count k l)%nat.
Proof using. unfold count. simpl. by destruct (bool_decide (x = k)). Qed.

Lemma count_nil k : count k [] = 0%nat.
Proof using. done. Qed.

Lemma count_single k x : count k [x] = one (bool_decide (x = k)).
Proof using. rewrite count_cons, count_nil. lia. Qed.

Definition in_flight (l : list msg) (k : req) : nat := count k (concat (map carried l)).

Lemma in_flight_app l1 l2 k : in_flight (l1 ++ l2) k = (in_flight l1 k + in_flight l2 k)%nat.
Proof using. unfold in_flight. by rewrite map_app, concat_app, count_app. Qed.

Lemma in_flight_one m k : in_flight [m] k = count k (carried m).
Proof using. unfold in_flight. simpl. by rewrite app_nil_r. Qed.

Lemma in_flight_delete i l m k :
  l !! i = Some m -> in_flight l k = (in_flight (delete i l) k + count k (carried m))%nat.
Proof using.
  intros E. rewrite delete_take_drop. rewrite <- (take_drop_middle l i m E) at 1.
  change (m :: drop (S i) l) with ([m] ++ drop (S i) l).
  rewrite !in_flight_app, in_flight_one. lia.
Qed.

(** One host's share of a sum over the hosts. *)
Lemma sum_update (f g : Z -> nat) h :
  host_ok h -> (forall h', h' <> h -> g h' = f h') ->
  (list_sum (map g (seqZ 1 n)) + f h = list_sum (map f (seqZ 1 n)) + g h)%nat.
Proof using.
  intros Hh Hg. unfold host_ok in Hh.
  assert (Hin : h ∈ seqZ 1 n) by (apply elem_of_seqZ; lia).
  pose proof (NoDup_seqZ 1 n) as Hnd. apply list_elem_of_split in Hin as (l1 & l2 & E).
  rewrite E in *. apply list.NoDup_app in Hnd as (_ & H1 & H2). apply list.NoDup_cons in H2 as [H2 _].
  assert (Hl : forall l, h ∉ l -> map g l = map f l).
  { intros l Hl. apply map_ext_in. intros h' Hin'. apply Hg. intros ->. by apply Hl, list_elem_of_In. }
  rewrite !map_app. simpl. rewrite !list_sum_app. simpl.
  rewrite (Hl l1), (Hl l2); [lia|done|]. intros Hh1. apply (H1 h Hh1). by left.
Qed.

(** A host step is balanced when what it takes from and adds to the lock, the
    network and the tasks is. *)
Lemma balanced_host s h l l' ms tk :
  host_ok h -> hosts s !! h = Some (mkhost l) ->
  (forall k, at_lock h l' k + in_flight ms k + waiting s k =
    at_lock h l k + in_flight (net s) k + is_waiting (tk !! k))%nat ->
  balanced s (System (<[h := mkhost l']> (hosts s)) ms (sw s) tk).
Proof using.
  intros Hh E H k. specialize (H k). unfold places. fold (in_flight (net s) k).
  cbn [net]. fold (in_flight ms k). set (s' := System _ _ _ _).
  assert (Hs : (list_sum (map (at_host s' k) (seqZ 1 n)) + at_lock h l k =
    list_sum (map (at_host s k) (seqZ 1 n)) + at_lock h l' k)%nat).
  { assert (E1 : at_host s k h = at_lock h l k) by (unfold at_host; by rewrite E).
    assert (E2 : at_host s' k h = at_lock h l' k)
      by (unfold at_host; cbn [hosts s']; by rewrite lookup_insert_eq).
    rewrite <- E1, <- E2. apply (sum_update (at_host s k) (at_host s' k) h Hh).
    intros h' Hne. unfold at_host. cbn [hosts s']. by rewrite lookup_insert_ne. }
  unfold waiting at 2. cbn [tasks s']. lia.
Qed.

Lemma balanced_switch s ms r :
  (forall k, in_flight ms k = in_flight (net s) k) ->
  balanced s (System (hosts s) ms r (tasks s)).
Proof using.
  intros H k. specialize (H k). unfold places. fold (in_flight (net s) k). cbn [net].
  fold (in_flight ms k). rewrite H. unfold waiting. cbn [tasks].
  by rewrite (map_ext (at_host (System (hosts s) ms r (tasks s)) k) (at_host s k)) by done.
Qed.

Lemma flag_touch h t (g : gmap Z bool) (k : req) :
  bool_decide (k.1 = h /\ touch false t g !! k.2 = Some true) =
  bool_decide (k.1 = h /\ g !! k.2 = Some true).
Proof using.
  apply bool_decide_ext. split; intros [-> H]; (split; [done|]).
  - apply lookup_touch_Some in H as [?|(_ & ? & _)]; done.
  - unfold touch. destruct (g !! t) eqn:E; [done|]. rewrite lookup_insert_ne; [done|congruence].
Qed.

(** Raising and lowering a flag. *)
Lemma flag_insert h t b (g : gmap Z bool) (k : req) :
  (one (bool_decide (k.1 = h /\ <[t := b]> g !! k.2 = Some true)) +
   one (bool_decide ((h, t) = k)) * one (bool_decide (g !! t = Some true)) =
   one (bool_decide (k.1 = h /\ g !! k.2 = Some true)) + one (bool_decide ((h, t) = k)) * one b)%nat.
Proof using Hn Hlid.
  destruct (decide ((h, t) = k)) as [<-|Hne]; cbn [fst snd].
  - rewrite lookup_insert_eq, (bool_decide_true ((h, t) = (h, t))) by done.
    rewrite (bool_decide_ext (h = h /\ g !! t = Some true) (g !! t = Some true)) by naive_solver.
    destruct b; [rewrite (bool_decide_true (h = h /\ Some true = Some true)) by done
      |rewrite (bool_decide_false (h = h /\ Some false = Some true)) by naive_solver]; cbn; lia.
  - rewrite (bool_decide_false ((h, t) = k)) by done.
    rewrite (bool_decide_ext (k.1 = h /\ <[t := b]> g !! k.2 = Some true) (k.1 = h /\ g !! k.2 = Some true)); [cbn; lia|].
    destruct k as [h' t']; cbn [fst snd]. destruct (decide (t' = t)) as [->|Ht].
    + split; intros [-> _]; done.
    + by rewrite lookup_insert_ne.
Qed.

(** What each operation does to the places of a request. *)
Lemma wq_req_mk m t : host_ok m -> in_uw 30 t -> wq_req (mk_wqe LOCK_EXCL t m) = (m, t).
Proof using Hn.
  intros Hm Ht. rewrite mk_wqe_exact; [done|done|]. unfold host_ok in Hm. unfold in_uw. lia.
Qed.

Lemma at_acquired h t l k :
  host_ok h -> in_uw 30 t ->
  at_lock h (acquired h t l) k =
    (at_lock h l k + one (l_is_agent l) * one (bool_decide ((h, t) = k)))%nat.
Proof using Hn Hlid.
  intros Hh Ht. unfold at_lock, acquired. destruct (l_is_agent l); cbn.
  - rewrite map_app, count_app. cbn [map]. rewrite wq_req_mk, count_single, flag_touch by done. cbn. lia.
  - rewrite flag_touch. lia.
Qed.

Lemma at_poll h t l k :
  l_task_granted l !! t = Some true ->
  (at_lock h (set_task_granted (<[t := false]> (l_task_granted l)) l) k + one (bool_decide ((h, t) = k)) =
   at_lock h l k)%nat.
Proof using Hn Hlid.
  intros E. unfold at_lock. cbn. pose proof (flag_insert h t false (l_task_granted l) k) as H.
  rewrite (bool_decide_true (l_task_granted l !! t = Some true)) in H by done. cbn in H. lia.
Qed.

Lemma at_notify (h : Z) t l (k : req) :
  l_task_granted l !! t <> Some true ->
  (one (bool_decide (k.1 = h /\ <[t := true]> (l_task_granted l) !! k.2 = Some true)) =
   one (bool_decide (k.1 = h /\ l_task_granted l !! k.2 = Some true)) + one (bool_decide ((h, t) = k)))%nat.
Proof using Hn Hlid.
  intros E. pose proof (flag_insert h t true (l_task_granted l) k) as H.
  rewrite (bool_decide_false (l_task_granted l !! t = Some true)) in H by done. cbn in H. lia.
Qed.

Lemma at_granted h t wq l k :
  l_task_granted l !! t <> Some true ->
  at_lock h (granted h t wq l) k =
    (at_lock h l k + one (bool_decide ((h, t) = k)) + count k (map wq_req wq))%nat.
Proof using Hn Hlid.
  intros E. unfold at_lock, granted. cbn. rewrite map_app, count_app, at_notify by done. lia.
Qed.

Lemma at_released h t l k :
  Forall excl_wqe (l_wqueue l) -> (forall t', l_task_granted l !! t' <> Some true) ->
  (at_lock h (released h t l) k + in_flight (map (ToSwitch h) (release_pkts h l)) k = at_lock h l k)%nat.
Proof using Hn Hlid.
  intros Hq Hf. unfold at_lock, released, release_pkts. destruct (l_wqueue l) as [|w wq] eqn:Ew.
  - cbn. rewrite Ew. unfold in_flight. cbn. rewrite !count_nil. lia.
  - destruct (bmv2_build && (wq_host w =? h)) eqn:Eb.
    + apply andb_true_iff in Eb as [_ Eb]. apply Z.eqb_eq in Eb. cbn.
      assert (Er : wq_req w = (h, wq_task w)) by (unfold wq_req; by rewrite Eb).
      rewrite at_notify by done. rewrite count_cons, Er.
      unfold in_flight. cbn. rewrite count_nil. lia.
    + cbn [map]. rewrite in_flight_one. cbn. rewrite !count_cons, count_nil.
      change (wq_req w) with (wq_host w, wq_task w). lia.
Qed.

Lemma at_arrived h m t l k :
  host_ok m -> in_uw 30 t ->
  (at_lock h (arrived m t l) k + one (sent_back m t l) * one (bool_decide ((m, t) = k)) =
   at_lock h l k + one (bool_decide ((m, t) = k)))%nat.
Proof using Hn Hlid.
  intros Hm Ht.
  assert (Hq : forall l', l_wqueue l' = l_wqueue l ++ [mk_wqe LOCK_EXCL t m] ->
    l_task_granted l' = l_task_granted l ->
    at_lock h l' k = (at_lock h l k + one (bool_decide ((m, t) = k)))%nat).
  { intros l' E1 E2. unfold at_lock. rewrite E1, E2, map_app, count_app. cbn [map].
    rewrite wq_req_mk, count_single by done. cbn. lia. }
  unfold arrived, sent_back. change (l_is_agent (set_early_release _ l)) with (l_is_agent l).
  destruct (l_is_agent l); cbn [negb andb one].
  - rewrite Hq by done. cbn. lia.
  - cbv zeta. change (l_fwd_back_cnt (set_early_release _ l)) with (l_fwd_back_cnt l).
    destruct (2 <? _); cbn [negb one]; [rewrite Hq by done; cbn; lia|].
    change (at_lock h (set_fwd_back_cnt _ _) k) with (at_lock h l k). lia.
Qed.

(** ** Every step preserves it *)

Definition label_ok (e : label) : Prop :=
  match e with LAcquire _ t op => in_uw 30 t /\ op = LOCK_EXCL | LTimeout _ _ => False | _ => True end.

Definition preserved (e : label) (o : owner) (s : system) : Prop :=
  exists o' s', sys_step e s = Ok s' /\ sys_inv o' s' /\ (sizes_fit s -> balanced s s').

Lemma balanced_refl s : balanced s s.
Proof using. intros k. lia. Qed.

Lemma is_waiting_insert (k k' : req) (v : task_state) (tk : gmap req task_state) :
  is_waiting (<[k := v]> tk !! k') =
    if bool_decide (k = k') then is_waiting (Some v) else is_waiting (tk !! k').
Proof using.
  destruct (decide (k = k')) as [->|Hne]; [by rewrite lookup_insert_eq, bool_decide_true|].
  by rewrite lookup_insert_ne, bool_decide_false.
Qed.

Lemma is_waiting_delete (k k' : req) (tk : gmap req task_state) :
  is_waiting (delete k tk !! k') = if bool_decide (k = k') then 0%nat else is_waiting (tk !! k').
Proof using.
  destruct (decide (k = k')) as [->|Hne]; [by rewrite lookup_delete_eq, bool_decide_true|].
  by rewrite lookup_delete_ne, bool_decide_false.
Qed.

Lemma sends_eq h out : sends h out = map (ToSwitch h) (map s_pkt out).
Proof using. unfold sends. by rewrite map_map. Qed.

Lemma owner_host o h : bool_decide (o = OHost h) = true -> o = OHost h.
Proof using. apply bool_decide_eq_true. Qed.

Lemma step_acquire h t o s :
  in_uw 30 t -> sys_inv o s -> preserved (LAcquire h t LOCK_EXCL) o s.
Proof using Hn Hlid.
  intros Ht HI. cbn [System.sys_step] in *. unfold preserved. cbn [System.sys_step].
  destruct (hosts s !! h) as [x|] eqn:Ex; [|by exists o, s; auto using balanced_refl].
  destruct (tasks s !! (h, t)) eqn:Et; [by exists o, s; auto using balanced_refl|].
  destruct (si_hosts _ _ HI h x Ex) as (Hh & l & -> & Hl).
  destruct (acquire_excl h l t Hh Ht) as (out & E & Eout).
  { apply Hl. } { intros Ha. apply (hi_idle _ _ _ _ Hl). by rewrite <- (hi_agent _ _ _ _ Hl). }
  assert (Hout : forall k, in_flight (sends h out) k =
    if l_is_agent l then 0%nat else one (bool_decide ((h, t) = k))).
  { intros k. rewrite sends_eq, Eout. destruct (l_is_agent l); [done|]. cbn [map].
    rewrite in_flight_one. apply count_single. }
  exists o. eexists. rewrite E. cbn [mbind result_bind]. rewrite bool_decide_false by done.
  split; [reflexivity|]. split.
  2: { intros _. apply (balanced_host s h l _ _ _ Hh Ex). intros k.
    rewrite at_acquired, in_flight_app, Hout, is_waiting_insert by done. unfold waiting.
    destruct (bool_decide ((h, t) = k)) eqn:Ek.
    - apply bool_decide_eq_true in Ek as <-. rewrite Et. destruct (l_is_agent l); cbn; lia.
    - destruct (l_is_agent l); cbn; lia. }
  apply (sys_inv_host o o s h); try done.
  - apply (host_inv_acquire h l _ _ _ t Hh Ht Hl Et). intros t'. destruct (decide (t' = t)) as [->|Hd].
    + by rewrite lookup_insert_eq.
    + rewrite lookup_insert_ne; [done|congruence].
  - intros h' t' Hne. rewrite lookup_insert_ne; [done|congruence].
  - apply Forall_app. split; [apply HI|]. rewrite sends_eq, Eout.
    destruct (l_is_agent l); [by apply Forall_nil_2|]. apply Forall_singleton. by constructor.
  - rewrite tokens_app, sends_eq, Eout, (si_tokens _ _ HI). destruct (l_is_agent l); cbn; lia.
Qed.

Lemma step_poll h t o s : sys_inv o s -> preserved (LPoll h t) o s.
Proof using Hn Hlid.
  intros HI. unfold preserved. cbn [System.sys_step].
  destruct (hosts s !! h) as [x|] eqn:Ex; [|by exists o, s; auto using balanced_refl].
  destruct (tasks s !! (h, t)) as [[r op|op]|] eqn:Et; [|by exists o, s; auto using balanced_refl..].
  destruct (si_hosts _ _ HI h x Ex) as (Hh & l & -> & Hl).
  destruct (hi_wait _ _ _ _ Hl t r op Et) as (Ht & -> & -> & b & Eb).
  rewrite (poll_excl l t b Eb). exists o. eexists. split; [reflexivity|]. split.
  2: { intros _. apply (balanced_host s h l _ _ _ Hh Ex). intros k. cbn [sends map].
    rewrite app_nil_r. unfold waiting. destruct b; cbn [Z.eqb]; [|lia].
    rewrite <- (at_poll h t l k Eb), is_waiting_insert.
    destruct (bool_decide ((h, t) = k)) eqn:Ek; cbn [one]; [|lia].
    apply bool_decide_eq_true in Ek as <-. rewrite Et. cbn. lia. }
  apply (sys_inv_host o o s h); try done.
  - destruct b; [|done]. apply (host_inv_poll h l _ _ _ t Hl Eb). intros t'. cbn. destruct (decide (t' = t)) as [->|Hd].
    + by rewrite lookup_insert_eq.
    + rewrite lookup_insert_ne; [done|congruence].
  - intros h' t' Hne. destruct b; cbn; [|done]. rewrite lookup_insert_ne; [done|congruence].
  - cbn. rewrite app_nil_r. apply HI.
  - cbn. rewrite app_nil_r. apply HI.
Qed.

Lemma step_release h t o s : sys_inv o s -> preserved (LRelease h t) o s.
Proof using Hn Hlid.
  intros HI. unfold preserved. cbn [System.sys_step].
  destruct (hosts s !! h) as [x|] eqn:Ex; [|by exists o, s; auto using balanced_refl].
  destruct (tasks s !! (h, t)) as [[r op|op]|] eqn:Et; [by exists o, s; auto using balanced_refl| |by exists o, s; auto using balanced_refl].
  destruct (si_hosts _ _ HI h x Ex) as (Hh & l & -> & Hl).
  destruct (hi_held _ _ _ _ Hl t op Et) as (Ht & -> & Hs).
  pose proof (host_inv_holder _ _ _ _ _ _ Hl Et) as Hag. rewrite Hag in Hl.
  apply owner_host in Hag as ->.
  destruct (release_excl h l t Hh Ht (hi_id _ _ _ _ Hl) (hi_agent _ _ _ _ Hl)
    (hi_mode _ _ _ _ Hl eq_refl) Hs (hi_ncnt _ _ _ _ Hl) (hi_wq _ _ _ _ Hl)) as (out & E & Eout).
  rewrite E. exists (if kept h l then OHost h else OPacket). eexists. split; [reflexivity|]. split.
  2: { intros _. apply (balanced_host s h l _ _ _ Hh Ex). intros k.
    rewrite in_flight_app, sends_eq, Eout, is_waiting_delete. unfold waiting.
    rewrite <- (at_released h t l k (hi_wq _ _ _ _ Hl)) by (intros t'; apply (host_inv_quiet _ _ _ _ _ _ t' Hl Et)).
    destruct (bool_decide ((h, t) = k)) eqn:Ek; [|lia].
    apply bool_decide_eq_true in Ek as <-. rewrite Et. cbn. lia. }
  apply (sys_inv_host (OHost h) _ s h); try done.
  - replace (bool_decide _) with (kept h l)
      by (destruct (kept h l); [by rewrite bool_decide_true|by rewrite bool_decide_false]).
    apply (host_inv_release h l _ _ t Hl Et). intros t'. destruct (decide (t' = t)) as [->|Hd].
    + by rewrite lookup_delete_eq.
    + rewrite lookup_delete_ne; [done|congruence].
  - intros h' t' Hne. rewrite lookup_delete_ne; [done|congruence].
  - intros h' Hne. destruct (kept h l); split; congruence.
  - destruct (kept h l); done.
  - apply Forall_app. split; [apply HI|]. rewrite sends_eq, Eout. unfold release_pkts.
    pose proof (hi_wq _ _ _ _ Hl) as Hq. destruct (l_wqueue l) as [|w wq]; [apply Forall_singleton; by constructor|].
    apply Forall_cons_1 in Hq as [(_ & Hw & Ht') Hq].
    destruct (bmv2_build && _); [by apply Forall_nil_2|]. apply Forall_singleton. by constructor.
  - rewrite tokens_app, sends_eq, Eout, (si_tokens _ _ HI). unfold release_pkts, kept.
    destruct (l_wqueue l) as [|w wq]; [done|]. by destruct (bmv2_build && _).
Qed.

Lemma net_without o s k m :
  sys_inv o s -> net s !! k = Some m ->
  msg_ok m /\ Forall msg_ok (delete k (net s)) /\
  (tokens (delete k (net s)) + if is_token m then 1 else 0)%nat =
    match o with OPacket => 1%nat | _ => 0%nat end.
Proof using Hn Hlid.
  intros HI E. split; [by eapply Forall_lookup_1; [apply HI|]|].
  split; [apply Forall_delete, HI|]. by rewrite <- (tokens_delete k (net s) m E), (si_tokens _ _ HI).
Qed.

(** A token in flight: the packet owns the lock. *)
Lemma token_owner o s k m :
  sys_inv o s -> net s !! k = Some m -> is_token m = true ->
  o = OPacket /\ tokens (delete k (net s)) = 0%nat.
Proof using Hn Hlid.
  intros HI E Ht. destruct (net_without o s k m HI E) as (_ & _ & Hk). rewrite Ht in Hk.
  destruct o; [lia|lia|]. split; [done|lia].
Qed.

(** A step of the switch. *)
Lemma sys_inv_switch o o' s r ms :
  sys_inv o s -> (forall h, o' = OHost h <-> o = OHost h) ->
  lock_free_mode r = negb (bool_decide (o' = OSwitch)) -> (o' <> OSwitch -> host_ok (lock_agent r)) ->
  Forall msg_ok ms -> tokens ms = match o' with OPacket => 1%nat | _ => 0%nat end ->
  sys_inv o' (System (hosts s) ms (<[lid := r]> (sw s)) (tasks s)).
Proof using Hn Hlid.
  intros [Hh Hd Ht Hm Hk Hs Hr] Eo Hf Ha Hms Hkn. split; cbn; try done.
  - intros h x Hx. destruct (Hh h x Hx) as (? & l & -> & Hl). split; [done|]. exists l. split; [done|].
    by rewrite (bool_decide_ext _ _ (Eo h)).
  - unfold regs_at. by rewrite lookup_insert_eq.
  - intros H. unfold regs_at. rewrite lookup_insert_eq. by apply Ha.
Qed.

(** The switch forwards the requests a packet carries. *)
Lemma balanced_forward s i m ms r :
  net s !! i = Some m -> concat (map carried ms) = carried m ->
  balanced s (System (hosts s) (delete i (net s) ++ ms) r (tasks s)).
Proof using.
  intros E Em. apply balanced_switch. intros k. rewrite in_flight_app, (in_flight_delete i _ m k E).
  unfold in_flight at 2. by rewrite Em.
Qed.

Lemma step_switch k h p o s :
  net s !! k = Some (ToSwitch h p) -> sys_inv o s -> preserved (LNet k) o s.
Proof using Hn Hlid.
  intros E HI. unfold preserved. cbn [System.sys_step]. rewrite E.
  destruct (net_without _ _ _ _ HI E) as (Hm & Hms & Hk). pose proof (si_sw _ _ HI) as Hsw.
  inversion Hm as [? m t a Hmo Ht|? x Hx|? x m t wq Hmo Ht Hwq| | |]; subst.
  - cbn in Hk. rewrite Nat.add_0_r in Hk. destruct (decide (o = OSwitch)) as [->|Ho].
    + rewrite switch_acquire_free by done. exists OPacket. eexists. split; [reflexivity|].
      split; [|intros _; by apply (balanced_forward s k _ _ _ E)].
      apply (sys_inv_switch OSwitch); try done.
      * apply Forall_app. split; [done|]. apply Forall_singleton. by constructor.
      * rewrite tokens_app, Hk. done.
    + rewrite bool_decide_false in Hsw by done. pose proof (si_reg _ _ HI Ho) as Ha.
      destruct (switch_acquire_held (sw s) m t a Ha Hsw) as [rw ->].
      exists o. eexists. split; [reflexivity|]. split; [|intros _; by apply (balanced_forward s k _ _ _ E)].
      apply (sys_inv_switch o); try done.
      * by rewrite bool_decide_false.
      * apply Forall_app. split; [done|]. apply Forall_singleton. by constructor.
      * rewrite tokens_app, Hk. destruct o; done.
  - destruct (token_owner _ _ _ _ HI E eq_refl) as [-> Hk0].
    rewrite switch_free by done. exists OSwitch. eexists. split; [reflexivity|].
    split; [|intros _; by apply (balanced_forward s k _ _ _ E)].
    apply (sys_inv_switch OPacket); try done; cbn; by rewrite app_nil_r.
  - destruct (token_owner _ _ _ _ HI E eq_refl) as [-> Hk0].
    rewrite switch_transfer by done. exists OPacket. eexists. split; [reflexivity|].
    split; [|intros _; apply (balanced_forward s k _ _ _ E), app_nil_r].
    apply (sys_inv_switch OPacket); try done.
    + apply Forall_app. split; [done|]. apply Forall_singleton. by constructor.
    + rewrite tokens_app, Hk0. done.
Qed.

Lemma host_inv_unowned h l T t : host_inv h l T false -> l_task_granted l !! t <> Some true.
Proof using Hn Hlid.
  intros HI Hg. destruct (hi_flag _ _ _ _ HI t Hg) as (_ & H & _).
  rewrite (hi_idle _ _ _ _ HI eq_refl) in H. set_solver.
Qed.

Lemma step_grant k h b t wq o s :
  net s !! k = Some (ToHost h (grant_pkt b h t wq)) -> sys_inv o s ->
  host_ok h -> in_uw 30 t -> Forall excl_wqe wq -> b = 35 \/ b = 1 /\ wq = [] ->
  preserved (LNet k) o s.
Proof using Hn Hlid.
  intros E HI Hh Ht Hwq Hb. unfold preserved. cbn [System.sys_step]. rewrite E.
  destruct (net_without _ _ _ _ HI E) as (_ & Hms & _).
  destruct (token_owner _ _ _ _ HI E eq_refl) as [-> Hk0].
  destruct (si_dom _ _ HI h Hh) as [x Ex]. rewrite Ex.
  destruct (si_hosts _ _ HI h x Ex) as (_ & l & -> & Hl).
  destruct (deliver_grant_with_agent h l t b wq Hh Ht (hi_id _ _ _ _ Hl) (hi_ncnt _ _ _ _ Hl) Hb)
    as (wq' & Hwq' & Hfit & ->).
  exists (OHost h). eexists. split; [reflexivity|]. split.
  2: { intros Hs. apply (balanced_host s h l _ _ _ Hh Ex). intros x.
    rewrite at_granted, in_flight_app, (in_flight_delete k _ _ x E); [|by eapply host_inv_unowned].
    apply (Forall_lookup_1 _ _ _ _ Hs) in E as Hw. cbn in Hw. rewrite length_map in Hw.
    rewrite Hfit by lia. cbn. rewrite count_cons. unfold waiting, in_flight. cbn. rewrite count_nil. lia. }
  apply (sys_inv_host OPacket _ s h); try done.
  - rewrite bool_decide_true by done. apply host_inv_granted; try done. by destruct Hwq' as [-> | ->].
  - intros h' Hne. split; congruence.
  - cbn. by rewrite app_nil_r.
  - cbn. by rewrite app_nil_r.
Qed.

Lemma step_deliver k h p o s :
  net s !! k = Some (ToHost h p) -> sys_inv o s -> preserved (LNet k) o s.
Proof using Hn Hlid.
  intros E HI. unfold preserved. cbn [System.sys_step]. rewrite E.
  destruct (net_without _ _ _ _ HI E) as (Hm & Hms & Hk).
  inversion Hm as [| | |? m t a Hho Hmo Ht|m t Hmo Ht|m t wq Hmo Ht Hwq]; subst.
  - cbn in Hk. rewrite Nat.add_0_r in Hk. destruct (hosts s !! h) as [x|] eqn:Ex.
    + destruct (si_hosts _ _ HI h x Ex) as (Hh & l & -> & Hl).
      rewrite (deliver_acquire h l m t a Hh (hi_id _ _ _ _ Hl) (hi_early _ _ _ _ Hl)).
      exists o. eexists. split; [reflexivity|]. split.
      2: { intros _. apply (balanced_host s h l _ _ _ Hh Ex). intros x.
        pose proof (at_arrived h m t l x Hmo Ht) as Hx.
        rewrite !in_flight_app, (in_flight_delete k _ _ x E). cbn. rewrite count_single.
        unfold waiting. cbn. change (in_flight [] x) with 0%nat.
        destruct (sent_back m t l); cbn in *; [|change (in_flight [] x) with 0%nat; lia].
        rewrite in_flight_one. cbn. rewrite count_single. lia. }
      apply (sys_inv_host o o s h); try done.
      * by apply host_inv_arrived.
      * apply Forall_app. split; [done|]. cbn. destruct (sent_back m t l); cbn; [|by apply Forall_nil_2].
        apply Forall_singleton. by constructor.
      * rewrite tokens_app, <- Hk. destruct (sent_back m t l); cbn; lia.
    + destruct (si_dom _ _ HI h Hho) as [x Ex']. congruence.
  - destruct (step_grant k h 1 t [] o s E HI Hmo Ht) as (o' & s' & Es & HI' & HB);
      [by apply Forall_nil_2|by right|]. cbn [System.sys_step] in Es. rewrite E in Es. by exists o', s'.
  - destruct (step_grant k h 35 t wq o s E HI Hmo Ht Hwq) as (o' & s' & Es & HI' & HB); [by left|].
    cbn [System.sys_step] in Es. rewrite E in Es. by exists o', s'.
Qed.

Lemma step_preserves e o s : label_ok e -> sys_inv o s -> preserved e o s.
Proof using Hn Hlid.
  intros He HI. destruct e as [h t op|h t|h t|h t|k].
  - destruct He as [Ht ->]. by apply step_acquire.
  - by apply step_poll.
  - by apply step_release.
  - done.
  - destruct (net s !! k) as [[h p|h p]|] eqn:E.
    + by apply (step_switch k h p).
    + by apply (step_deliver k h p).
    + exists o, s. cbn [System.sys_step]. by rewrite E.
Qed.

Lemma run_preserves es o s :
  Forall label_ok es -> sys_inv o s -> exists o' s', sys_run es s = Ok s' /\ sys_inv o' s'.
Proof using Hn Hlid.
  intros Hes. revert o s. induction Hes as [|e es He _ IH]; intros o s HI; [by exists o, s|].
  destruct (step_preserves e o s He HI) as (o1 & s1 & E & HI1 & _).
  destruct (IH o1 s1 HI1) as (o' & s' & E' & HI'). exists o', s'. split; [|done].
  cbn [System.sys_run]. by rewrite E.
Qed.

(** ** No request is lost or duplicated *)

Definition conserved (s : system) : Prop := forall k, places s k = waiting s k.

Lemma count_elem k l : k ∈ l -> (1 <= count k l)%nat.
Proof using Hn Hlid.
  induction 1 as [l|k x l _ IH]; rewrite count_cons; [rewrite bool_decide_true by done; cbn|]; lia.
Qed.

Lemma count_nodup l : (forall k, count k l <= 1)%nat -> NoDup l.
Proof using Hn Hlid.
  induction l as [|x l IH]; intros H; [constructor|]. constructor.
  - intros Hx%count_elem. specialize (H x). rewrite count_cons, bool_decide_true in H by done. cbn in H. lia.
  - apply IH. intros k. specialize (H k). rewrite count_cons in H. lia.
Qed.

(** The requesters of a run. *)
Context (R : gset req) (HR : Z.of_nat (size R) < 2 ^ 32).

Definition label_in (e : label) : Prop :=
  match e with LAcquire h t _ => (h, t) ∈ R | _ => True end.

Definition tasks_in (s : system) : Prop := forall k v, tasks s !! k = Some v -> k ∈ R.

Lemma tasks_in_step e s s' : label_in e -> tasks_in s -> sys_step e s = Ok s' -> tasks_in s'.
Proof using R.
  intros He Hs. assert (Hins : forall k v, k ∈ R -> forall k' v', <[k := v]> (tasks s) !! k' = Some v' -> k' ∈ R).
  { intros k v Hk k' v' [[<- _]|[_ H]]%lookup_insert_Some; [done|by apply Hs in H]. }
  destruct e as [h t op|h t|h t|h t|i]; cbn [System.sys_step]; unfold mbind, result_bind.
  - destruct (hosts s !! h); [|by intros [= <-]]. destruct (tasks s !! (h, t)); [by intros [= <-]|].
    destruct (lock_acquire_async _ _ _ _ _) as [[[r x'] out]|]; [|done]. intros [= <-] k v. cbn. by apply Hins.
  - destruct (hosts s !! h); [|by intros [= <-]].
    destruct (tasks s !! (h, t)) as [[r op|op]|] eqn:Et; [|by intros [= <-]..].
    destruct (lock_req_granted _ _) as [[[b x'] out]|]; [|done]. intros [= <-] k v. cbn.
    destruct (b =? 0); [apply Hs|]. apply Hins. by apply Hs in Et.
  - destruct (hosts s !! h); [|by intros [= <-]].
    destruct (tasks s !! (h, t)) as [[r op|op]|] eqn:Et; [by intros [= <-]| |by intros [= <-]].
    destruct (lock_release _ _ _ _ _) as [[[b x'] out]|]; [|done]. intros [= <-] k v. cbn.
    intros [_ H]%lookup_delete_Some. by apply Hs in H.
  - destruct (hosts s !! h); [|by intros [= <-]].
    destruct (tasks s !! (h, t)) as [[r op|op]|] eqn:Et; [|by intros [= <-]..].
    destruct (lock_release _ _ _ _ _) as [[[b x'] out]|]; [|done]. intros [= <-] k v. cbn.
    intros [_ H]%lookup_delete_Some. by apply Hs in H.
  - destruct (net s !! i) as [[h p|h p]|]; [| |by intros [= <-]].
    + destruct (tofino _ _ _) as [sw' out]. by intros [= <-].
    + destruct (hosts s !! h); [|by intros [= <-]].
      destruct (lock_packet_dispatch _ _ _) as [[[q x'] out]|]; [|done]. by intros [= <-].
Qed.

Lemma conserved_fits s : conserved s -> tasks_in s -> sizes_fit s.
Proof using Hn Hlid HR.
  intros Hc Ht. apply list.Forall_forall. intros m Hm. apply list_elem_of_lookup in Hm as [i E].
  assert (H1 : forall k, (count k (carried m) <= waiting s k)%nat).
  { intros k. rewrite <- Hc. unfold places. fold (in_flight (net s) k).
    rewrite (in_flight_delete i _ _ k E). lia. }
  assert (Hw : forall k, (waiting s k <= 1)%nat).
  { intros k. unfold waiting, is_waiting. destruct (tasks s !! k) as [[]|]; lia. }
  assert (Hnd : NoDup (carried m)) by (apply count_nodup; intros k; specialize (H1 k); specialize (Hw k); lia).
  rewrite <- (size_list_to_set (C := gset req) _ Hnd).
  assert (Hsub : (list_to_set (carried m) : gset req) ⊆ R).
  { intros k Hk%elem_of_list_to_set%count_elem. specialize (H1 k). unfold waiting, is_waiting in H1.
    destruct (tasks s !! k) as [[]|] eqn:Ek; [by apply Ht in Ek|lia|lia]. }
  apply subseteq_size in Hsub. lia.
Qed.

Lemma run_conserves es o s :
  Forall label_ok es -> Forall label_in es -> sys_inv o s -> conserved s -> tasks_in s ->
  exists s', sys_run es s = Ok s' /\ conserved s'.
Proof using Hn Hlid HR.
  intros Hes. revert o s. induction Hes as [|e es He _ IH]; intros o s Hin HI Hc Ht; [by exists s|].
  apply Forall_cons_1 in Hin as [Hin1 Hin].
  destruct (step_preserves e o s He HI) as (o1 & s1 & E & HI1 & HB).
  destruct (IH o1 s1 Hin HI1) as (s' & E' & Hs').
  - intros k. specialize (HB (conserved_fits s Hc Ht) k). specialize (Hc k). lia.
  - by apply (tasks_in_step e s s1).
  - exists s'. split; [|done]. cbn [System.sys_run]. by rewrite E.
Qed.

Lemma conserved_init : conserved (sys_init n lid).
Proof using Hn Hlid.
  intros k. unfold places, waiting. cbn [net tasks sys_init].
  assert (Hz : forall h, at_host (sys_init n lid) k h = 0%nat).
  { intros h. unfold at_host. destruct (hosts (sys_init n lid) !! h) as [x|] eqn:Ex; [|done].
    apply init_lookup in Ex as [_ ->]. unfold at_lock. cbn. rewrite count_nil.
    by rewrite bool_decide_false by (intros [_ H]; by rewrite lookup_empty in H). }
  rewrite (map_ext _ (fun _ => 0%nat) Hz). rewrite lookup_empty. cbn. rewrite count_nil.
  induction (seqZ 1 n) as [|h l IH]; [done|]. exact IH.
Qed.

(** At most one task holds the lock. *)
Lemma sys_inv_holder o s h1 t1 h2 t2 op1 op2 :
  sys_inv o s -> holds s (h1, t1) op1 -> holds s (h2, t2) op2 -> (h1, t1) = (h2, t2).
Proof using Hn Hlid.
  intros HI H1 H2.
  assert (Ho : forall h t op, holds s (h, t) op -> o = OHost h).
  { intros h t op H. destruct (si_dom _ _ HI h (si_tasks _ _ HI _ _ _ H)) as [x Ex].
    destruct (si_hosts _ _ HI h x Ex) as (_ & l & _ & Hl).
    apply owner_host. by apply (host_inv_holder _ _ _ _ _ _ Hl H). }
  pose proof (Ho _ _ _ H1) as ->. injection (Ho _ _ _ H2) as <-. f_equal.
  destruct (si_dom _ _ HI h1 (si_tasks _ _ HI _ _ _ H1)) as [x Ex].
  destruct (si_hosts _ _ HI h1 x Ex) as (_ & l & _ & Hl).
  destruct (hi_held _ _ _ _ Hl _ _ H1) as (? & _ & ?), (hi_held _ _ _ _ Hl _ _ H2) as (? & _ & ?).
  by apply (host_inv_unique h1 l _ _ t1 t2 Hl).
Qed.
End excl.

(** ** Exclusive requests exclude each other *)

(** C2: mutual exclusion across hosts. Up to 63 hosts share a switch-managed
    lock; their tasks request it exclusively, wait for their grants and release
    it through the API, the switch runs the Tofino program and the network
    delivers packets in any order. Then no interleaving of calls and packets
    makes a host fault, and in every state they lead to at most one task holds
    the lock. *)
Theorem exclusive_safe bmv2_build n lid es :
  1 <= n < 64 -> 0 <= lid < SWITCH_LOCK_NUM -> Forall label_ok es ->
  exists s, sys_run (tofino n) bmv2_build true lid es (sys_init n lid) = Ok s /\
    forall k1 k2 op1 op2, holds s k1 op1 -> holds s k2 op2 -> k1 = k2.
Proof.
  intros Hn Hlid Hes.
  destruct (run_preserves bmv2_build n lid Hn Hlid es _ _ Hes (sys_inv_init n lid Hn Hlid))
    as (o & s & E & HI).
  exists s. split; [done|]. intros [h1 t1] [h2 t2] op1 op2. by apply (sys_inv_holder n lid Hn Hlid o).
Qed.

Definition excl_labels0 : list label :=
  [LAcquire 1 4 LOCK_EXCL; LAcquire 2 5 LOCK_EXCL; LNet 0; LNet 1; LPoll 1 4; LNet 0; LNet 0;
   LRelease 1 4; LNet 0; LNet 0; LPoll 2 5].

Lemma exclusive_safe_witness :
  exists s, sys_run (tofino 8) false true 5 excl_labels0 (sys_init 8 5) = Ok s /\
    holds s (2, 5) LOCK_EXCL /\
    forall k1 k2 op1 op2, holds s k1 op1 -> holds s k2 op2 -> k1 = k2.
Proof.
  destruct (exclusive_safe false 8 5 excl_labels0) as (s & E & H).
  - lia.
  - unfold SWITCH_LOCK_NUM. lia.
  - repeat (constructor; [done|]). constructor.
  - exists s. split; [exact E|]. split; [|exact H]. vm_compute in E. injection E as <-. reflexivity.
Defined.

(** C6: no request is lost or duplicated. In the same runs, with requesters
    from a set of less than 2^32, every task that waits has its request in
    exactly one place - in a packet in flight, in the wait queue of one packet or
    one host, or as a raised grant flag - and no other request is anywhere,
    whatever was forwarded, sent back, transferred or handed over. *)
Theorem requests_conserved bmv2_build n lid R es :
  1 <= n < 64 -> 0 <= lid < SWITCH_LOCK_NUM -> Z.of_nat (size R) < 2 ^ 32 ->
  Forall label_ok es -> Forall (label_in R) es ->
  exists s, sys_run (tofino n) bmv2_build true lid es (sys_init n lid) = Ok s /\
    forall k, places n s k = waiting s k.
Proof.
  intros Hn Hlid HR Hes Hin.
  apply (run_conserves bmv2_build n lid Hn Hlid R HR es OSwitch); try done.
  - by apply sys_inv_init.
  - by apply conserved_init.
Qed.

Lemma requests_conserved_witness :
  exists s, sys_run (tofino 8) false true 5 excl_labels0 (sys_init 8 5) = Ok s /\
    forall k, places 8 s k = waiting s k.
Proof.
  apply (requests_conserved false 8 5 {[ (1, 4); (2, 5) ]} excl_labels0).
  - lia.
  - unfold SWITCH_LOCK_NUM. lia.
  - vm_compute. reflexivity.
  - repeat (constructor; [done|]). constructor.
  - repeat (constructor; [first [exact I | unfold label_in; set_solver]|]). constructor.
Defined.

(** ** Two runs with links in order *)

(** Host 1 is the agent for its own reader and frees the lock; the free is
    pushed back twice because others became readers.  Host 1's reader releases
    while its host is not the agent, so the release travels through the switch;
    its host becomes the agent again and grants the reader's next request on the
    spot; then the old release arrives and removes it. *)
Definition violation : list label :=
  [LAcquire 1 1 LOCK_SHARED; LAcquire 2 1 LOCK_SHARED; LNet 0; LNet 1; LPoll 1 1; LRelease
   1 1; LAcquire 1 1 LOCK_SHARED; LNet 0; LNet 0; LNet 1; LNet 2; LNet 1; LPoll 2 1;
   LRelease 2 1; LAcquire 2 1 LOCK_EXCL; LNet 1; LNet 0; LNet 1; LNet 3; LNet 1; LNet 1;
   LPoll 1 1; LRelease 1 1; LNet 2; LNet 1; LAcquire 1 1 LOCK_SHARED; LNet 1; LNet 1; LNet
   0; LNet 0; LPoll 2 1].

(** C36: with shared requests two tasks that exclude each other hold the lock at
    once. Two hosts with one task each, links in order, no packet lost: a task
    that releases while its host is not the agent and requests again when it is
    has its new hold removed by its old release, so the lock is freed under a
    reader and granted to a writer. *)
Theorem shared_reuse_violation :
  in_order (tofino 2) false true 5 violation (sys_init 2 5) = true /\
  exists s, sys_run (tofino 2) false true 5 violation (sys_init 2 5) = Ok s /\
    holds s (1, 1) LOCK_SHARED /\ holds s (2, 1) LOCK_EXCL /\ ~ compatible s.
Proof.
  split; [vm_compute; reflexivity|].
  destruct (sys_run (tofino 2) false true 5 violation (sys_init 2 5)) as [s|] eqn:E; [|by vm_compute in E].
  exists s. split; [done|]. vm_compute in E. injection E as <-.
  assert (H1 : forall s, tasks s !! (1, 1) = Some (Held LOCK_SHARED) ->
    tasks s !! (2, 1) = Some (Held LOCK_EXCL) -> holds s (1, 1) LOCK_SHARED /\
    holds s (2, 1) LOCK_EXCL /\ ~ compatible s).
  { intros s Ha Hb. split; [done|]. split; [done|]. intros Hc. by destruct (Hc _ _ _ _ Ha Hb). }
  by apply H1.
Qed.

(** Host 2's request chases the agent: each time host 1 has just freed the
    lock and sends it back, until the fourth time. *)
Definition starvation : list label :=
  [LAcquire 1 1 LOCK_EXCL; LAcquire 2 1 LOCK_EXCL; LNet 0; LNet 1; LPoll 1 1; LRelease 1 1;
   LAcquire 1 1 LOCK_EXCL; LNet 0; LNet 0; LNet 0; LNet 0; LNet 1; LNet 0; LPoll 1 1;
   LRelease 1 1; LAcquire 1 1 LOCK_EXCL; LNet 1; LNet 1; LNet 0; LNet 1; LNet 0; LPoll 1 1;
   LRelease 1 1; LAcquire 1 1 LOCK_EXCL; LNet 1; LNet 1; LNet 0; LNet 1; LNet 0; LPoll 1 1;
   LRelease 1 1; LNet 1; LNet 0].

(** The network is silent, nobody holds the lock, and the switch has it
    free. *)
Definition idle (lid : Z) (s : system) : Prop :=
  net s = [] /\ (forall k op, ~ holds s k op) /\ lock_free_mode (regs_at (sw s) lid) = false.

(** C38: a request can be lost. Two hosts, exclusive requests, links in order: a
    host that is not the agent suspends the fourth request it is to send back,
    expecting the lock to be on its way, but the lock had gone. In the end the
    lock is free, no packet is in flight, and a task waits in the queue of a
    host that is not the agent. *)
Theorem suspended_request_starves :
  in_order (tofino 2) false true 5 starvation (sys_init 2 5) = true /\
  exists s, sys_run (tofino 2) false true 5 starvation (sys_init 2 5) = Ok s /\ idle 5 s /\
    tasks s !! (2, 1) = Some (Waiting (ReqPtr 0 1) LOCK_EXCL) /\
    sys_run (tofino 2) false true 5 [LPoll 2 1] s = Ok s.
Proof.
  split; [vm_compute; reflexivity|].
  destruct (sys_run (tofino 2) false true 5 starvation (sys_init 2 5)) as [s|] eqn:E; [|by vm_compute in E].
  exists s. split; [done|]. vm_compute in E. injection E as <-. split; [|by split].
  split; [done|]. split; [|done]. intros k op Hk. unfold holds in Hk. cbn [tasks] in Hk.
  apply elem_of_map_to_list in Hk. vm_compute in Hk.
  apply list_elem_of_singleton in Hk. discriminate Hk.
Qed.
