(* ===== verification/Progress.v ===== *)
(** * Progress: deliveries end, and a silent lock is in use

    The distributed lock of [System] with the Tofino switch and exclusive
    requests, as in [Fission].  Packets do not circulate for ever: every delivery
    takes some of the work that is left in the network.  And when nothing is in
    flight a task waits only because another one has the lock, unless the
    requester's request was suspended by a host that is not the agent, the case
    of [Fission.suspended_request_starves]. *)

From S2P Require Import Prelude RwSpec Types Post Lock LockProofs LockApi Agent LockApiProofs Switch System Fission.

#[local] Open Scope prog_scope.

(** ** Deliveries *)

Section deliver.
Context (bmv2_build : bool) (n lid : Z).

(** The packets with these positions are processed one after the other. *)
Fixpoint deliver (ks : list nat) (s : system) : option system :=
  match ks with
  | [] => Some s
  | k :: ks' =>
      match net s !! k, sys_step (tofino n) bmv2_build true lid (LNet k) s with
      | Some _, Ok s' => deliver ks' s'
      | _, _ => None
      end
  end.

(** How often a lock's host will still send request [k] back, and all hosts. *)
Definition returns_left (l : innet_lock) (k : req) : nat :=
  Z.to_nat (3 - index 0 (LOCK_HOLDER k.1 k.2) (l_fwd_back_cnt l)).

Definition host_returns (hs : gmap Z host) (k : req) (h : Z) : nat :=
  match hs !! h with
  | Some x => match h_heap x with l :: _ => returns_left l k | [] => 0 end
  | None => 0
  end.

Definition returns (hs : gmap Z host) (k : req) : nat := list_sum (map (host_returns hs k) (seqZ 1 n)).

(** The deliveries a packet can still cause: a request that is sent back takes
    two, a transfer becomes a grant, and a free and a grant end. *)
Definition msg_work (hs : gmap Z host) (m : msg) : nat :=
  let request (p : packet) := (2 * returns hs (machine_id (pk_hdr p), task_id (pk_hdr p)))%nat in
  match m with
  | ToSwitch _ p =>
      if pk_type p =? POST_LOCK_ACQUIRE then request p + 2
      else if pk_type p =? POST_LOCK_TRANSFER then 2 else 1
  | ToHost _ p => if pk_type p =? POST_LOCK_ACQUIRE then request p + 1 else 1
  end.

Definition network_work (s : system) : nat := list_sum (map (msg_work (hosts s)) (net s)).

(** Task [k] has the lock, or gets it when it polls. *)
Definition obtains (s : system) (k : req) : Prop :=
  exists s' op, sys_step (tofino n) bmv2_build true lid (LPoll k.1 k.2) s = Ok s' /\ holds s' k op.

(** A host that is not the agent keeps the request of [k] in its queue. *)
Definition suspended (s : system) (k : req) : Prop :=
  exists h l, hosts s !! h = Some (mkhost lid l) /\ l_is_agent l = false /\ k ∈ map wq_req (l_wqueue l).
End deliver.

Section progress.
Context (bmv2_build : bool) (n lid : Z) (Hn : 1 <= n < 64) (Hlid : 0 <= lid < SWITCH_LOCK_NUM).

Abbreviation step := (sys_step (tofino n) bmv2_build true lid).
Abbreviation inv := (sys_inv n lid).
Abbreviation deliver := (deliver bmv2_build n lid).
Abbreviation host_ok := (host_ok n).
Abbreviation returns := (returns n).
Abbreviation msg_work := (msg_work n).
Abbreviation network_work := (network_work n).

(** ** Work *)

Lemma work_without hs k (l : list msg) m :
  l !! k = Some m -> (list_sum (map (msg_work hs) l) = list_sum (map (msg_work hs) (delete k l)) + msg_work hs m)%nat.
Proof using.
  intros E. rewrite delete_take_drop. rewrite <- (take_drop_middle l k m E) at 1.
  rewrite !map_app, !list_sum_app, map_cons, list_sum_cons. lia.
Qed.

(** A step of the switch leaves the hosts as they are. *)
Lemma switch_work s k m ms r :
  net s !! k = Some m -> (list_sum (map (msg_work (hosts s)) ms) < msg_work (hosts s) m)%nat ->
  (network_work (System (hosts s) (delete k (net s) ++ ms) r (tasks s)) < network_work s)%nat.
Proof using.
  intros E H. unfold Progress.network_work. cbn [net hosts]. rewrite map_app, list_sum_app.
  rewrite (work_without (hosts s) k (net s) m E). lia.
Qed.

Lemma returns_host hs h l l' k :
  host_ok h -> hs !! h = Some (mkhost lid l) ->
  (returns (<[h := mkhost lid l']> hs) k + returns_left l k = returns hs k + returns_left l' k)%nat.
Proof using.
  intros Hh E. unfold Progress.returns.
  assert (E1 : host_returns hs k h = returns_left l k) by (unfold host_returns; by rewrite E).
  assert (E2 : host_returns (<[h := mkhost lid l']> hs) k h = returns_left l' k)
    by (unfold host_returns; by rewrite lookup_insert_eq).
  rewrite <- E1, <- E2. apply (sum_update n _ _ h Hh).
  intros h' Hne. unfold host_returns. by rewrite lookup_insert_ne.
Qed.

(** The other packets have no more work than before. *)
Lemma host_work s k m ms h l l' tk r :
  net s !! k = Some m -> host_ok h -> hosts s !! h = Some (mkhost lid l) ->
  (forall m', m' ∈ delete k (net s) ->
    (msg_work (<[h := mkhost lid l']> (hosts s)) m' <= msg_work (hosts s) m')%nat) ->
  (list_sum (map (msg_work (<[h := mkhost lid l']> (hosts s))) ms) < msg_work (hosts s) m)%nat ->
  (network_work (System (<[h := mkhost lid l']> (hosts s)) (delete k (net s) ++ ms) r tk) < network_work s)%nat.
Proof using.
  intros E Hh Ex Hle H. unfold Progress.network_work. cbn [net hosts]. rewrite map_app, list_sum_app.
  rewrite (work_without (hosts s) k (net s) m E).
  assert (Hd : (list_sum (map (msg_work (<[h := mkhost lid l']> (hosts s))) (delete k (net s))) <=
    list_sum (map (msg_work (hosts s)) (delete k (net s))))%nat); [|lia].
  clear -Hle. induction (delete k (net s)) as [|m' ms IH]; [done|]. rewrite !map_cons, !list_sum_cons.
  pose proof (Hle m' ltac:(by left)). pose proof (IH ltac:(intros x Hx; apply Hle; by right)). lia.
Qed.

Lemma returns_left_same l l' k : l_fwd_back_cnt l' = l_fwd_back_cnt l -> returns_left l' k = returns_left l k.
Proof using. unfold returns_left. by intros ->. Qed.

(** A request that arrives at a host which is not the agent and sends it back:
    it can do so once less. *)
Lemma returns_left_sent_back m t l :
  (forall k, 0 <= index 0 k (l_fwd_back_cnt l)) -> sent_back m t l = true ->
  (returns_left (arrived m t l) (m, t) + 1 = returns_left l (m, t))%nat.
Proof using.
  intros Hc Hs. unfold sent_back in Hs. apply andb_true_iff in Hs as [Ha%negb_true_iff Hs%negb_true_iff].
  unfold arrived. change (l_is_agent (set_early_release _ l)) with (l_is_agent l). rewrite Ha. cbv zeta.
  change (l_fwd_back_cnt (set_early_release _ l)) with (l_fwd_back_cnt l). rewrite Hs.
  unfold returns_left. cbn [fst snd]. cbn [l_fwd_back_cnt set_fwd_back_cnt]. rewrite index_insert.
  specialize (Hc (LOCK_HOLDER m t)). apply Z.ltb_ge in Hs. rewrite sw_small by lia. lia.
Qed.

(** Nothing changes for the other requests. *)
Lemma returns_left_other m t l k :
  in_uw 30 t -> in_uw 30 k.2 -> k <> (m, t) -> returns_left (arrived m t l) k = returns_left l k.
Proof using.
  intros Ht Hk Hne. unfold returns_left. assert (Hd : LOCK_HOLDER k.1 k.2 <> LOCK_HOLDER m t).
  { intros E%LOCK_HOLDER_inj; [|apply (in_uw_mono 30); [lia|done]..]. apply Hne. by destruct k, E as [[= ->] [= ->]]. }
  f_equal. f_equal. unfold arrived. change (l_is_agent (set_early_release _ l)) with (l_is_agent l).
  destruct (l_is_agent l); [done|]. cbv zeta. change (l_fwd_back_cnt (set_early_release _ l)) with (l_fwd_back_cnt l).
  destruct (_ <? _); cbn [l_fwd_back_cnt set_fwd_back_cnt].
  - unfold index at 1. rewrite lookup_delete_ne by done. apply index_touch.
  - by rewrite index_insert_ne, index_touch.
Qed.

Lemma agent_keeps_counts m t l : l_is_agent l = true -> l_fwd_back_cnt (arrived m t l) = l_fwd_back_cnt l.
Proof using. intros Ha. unfold arrived. change (l_is_agent (set_early_release _ l)) with (l_is_agent l). by rewrite Ha. Qed.

(** Work depends on the request of a packet only. *)
Definition requester (m : msg) : req :=
  let p := match m with ToSwitch _ p | ToHost _ p => p end in (machine_id (pk_hdr p), task_id (pk_hdr p)).

Lemma msg_work_le hs hs' m : (returns hs' (requester m) <= returns hs (requester m))%nat -> (msg_work hs' m <= msg_work hs m)%nat.
Proof using. unfold requester. destruct m; cbn; intros H; repeat case_if; lia. Qed.

Lemma msg_ok_request m : msg_ok n lid m -> in_uw 30 (requester m).2.
Proof using. intros []; cbn; done. Qed.

Lemma request_carried m hs hs' : msg_ok n lid m -> ~ requester m ∈ carried m -> msg_work hs' m = msg_work hs m.
Proof using.
  intros Hm Hc. destruct Hm; cbn; try done; destruct Hc; unfold carried, requester; cbn; by left.
Qed.

Lemma switch_delivery o s s' k h p :
  inv o s -> net s !! k = Some (ToSwitch h p) -> step (LNet k) s = Ok s' -> (network_work s' < network_work s)%nat.
Proof using Hn Hlid.
  intros HI E. cbn [System.sys_step]. rewrite E. destruct (net_without _ _ Hn Hlid _ _ _ _ HI E) as (Hm & _ & _).
  pose proof (si_sw _ _ _ _ HI) as Hsw.
  inversion Hm as [? m t a Hmo Ht|? x Hx|? x m t wq Hmo Ht Hwq| | |]; subst.
  - destruct (decide (o = OSwitch)) as [->|Ho].
    + rewrite (switch_acquire_free n lid Hn Hlid) by done. intros [= <-]. apply (switch_work s k _ _ _ E). cbn. lia.
    + rewrite bool_decide_false in Hsw by done.
      destruct (switch_acquire_held n lid Hn Hlid (sw s) m t a (si_reg _ _ _ _ HI Ho) Hsw) as [rw ->].
      intros [= <-]. apply (switch_work s k _ _ _ E). cbn. lia.
  - destruct (token_owner _ _ Hn Hlid _ _ _ _ HI E eq_refl) as [-> _].
    rewrite (switch_free n lid Hn Hlid) by done. intros [= <-]. apply (switch_work s k _ _ _ E). cbn. lia.
  - destruct (token_owner _ _ Hn Hlid _ _ _ _ HI E eq_refl) as [-> _].
    rewrite (switch_transfer n lid Hn Hlid) by done. intros [= <-]. apply (switch_work s k _ _ _ E). cbn. lia.
Qed.

(** A host's step that only lowers the counts of the request it handled. *)
Lemma host_delivery s k m ms h l l' tk r :
  net s !! k = Some m -> Forall (msg_ok n lid) (net s) -> host_ok h -> hosts s !! h = Some (mkhost lid l) ->
  (forall k', in_uw 30 k'.2 -> k' <> requester m -> returns_left l' k' = returns_left l k') ->
  (returns_left l' (requester m) <= returns_left l (requester m) \/ in_flight (delete k (net s)) (requester m) = 0)%nat ->
  (list_sum (map (msg_work (<[h := mkhost lid l']> (hosts s))) ms) < msg_work (hosts s) m)%nat ->
  (network_work (System (<[h := mkhost lid l']> (hosts s)) (delete k (net s) ++ ms) r tk) < network_work s)%nat.
Proof using Hn Hlid.
  intros E Hok Hh Ex Hsame Hreq H. apply (host_work s k m ms h l l' tk r E Hh Ex); [|done].
  intros m' Hm'. pose proof (proj1 (list.Forall_forall _ _) (Forall_delete _ _ k Hok) m' Hm') as Hm.
  pose proof (returns_host (hosts s) h l l' (requester m') Hh Ex) as Hr.
  destruct (decide (requester m' = requester m)) as [Eq|Hne].
  - destruct Hreq as [Hle|Hz]; [apply msg_work_le; rewrite Eq in *; lia|].
    apply Nat.eq_le_incl, request_carried; [done|]. rewrite Eq. intros Hin.
    pose proof (count_elem n lid Hn Hlid (requester m) (concat (map carried (delete k (net s))))) as Hc.
    unfold in_flight in Hz. rewrite Hz in Hc. specialize (Hc ltac:(apply list_elem_of_In, in_concat; exists (carried m');
      split; [apply in_map|]; by apply list_elem_of_In)). lia.
  - apply msg_work_le. rewrite Hsame in Hr; [lia|by apply msg_ok_request|done].
Qed.

Lemma acquire_delivery o s k h m t a x :
  inv o s -> conserved n s -> net s !! k = Some (ToHost h (acq_pkt lid m t a)) -> hosts s !! h = Some x ->
  host_ok m -> in_uw 30 t ->
  forall s', step (LNet k) s = Ok s' -> (network_work s' < network_work s)%nat.
Proof using Hn Hlid.
  intros HI HC E Ex Hm Ht s'. destruct (si_hosts _ _ _ _ HI h x Ex) as (Hh & l & -> & Hl).
  cbn [System.sys_step]. rewrite E, Ex.
  rewrite (deliver_acquire bmv2_build n lid Hn Hlid h l m t a Hh (hi_id _ _ _ _ _ _ Hl) (hi_early _ _ _ _ _ _ Hl)).
  intros [= <-]. assert (Hc : forall k0, 0 <= index 0 k0 (l_fwd_back_cnt l)) by (intros k0; apply (hi_sent_back _ _ _ _ _ _ Hl k0)).
  apply (host_delivery s k _ _ h l _ _ _ E (si_net _ _ _ _ HI) Hh Ex).
  - intros k' Hk' Hne. by apply returns_left_other.
  - change (requester _) with (m, t). destruct (sent_back m t l) eqn:Es.
    + left. pose proof (returns_left_sent_back m t l Hc Es). lia.
    + destruct (l_is_agent l) eqn:Ea.
      * left. by rewrite (returns_left_same l) by (by apply agent_keeps_counts).
      * right. pose proof (HC (m, t)) as Hp. unfold places in Hp. fold (in_flight (net s) (m, t)) in Hp.
        rewrite (in_flight_delete k _ _ (m, t) E) in Hp. change (carried _) with [(m, t)] in Hp.
        rewrite count_single, bool_decide_true in Hp by done. cbn [one] in Hp.
        unfold waiting, is_waiting in Hp. destruct (tasks s !! (m, t)) as [[]|]; lia.
  - cbn [sends map app]. destruct (sent_back m t l) eqn:Es; cbn [Z.eqb negb orb];
      change (POST_LOCK_ACQUIRE =? POST_LOCK_ACQUIRE) with true; [|cbn; lia].
    pose proof (returns_host (hosts s) h l (arrived m t l) (m, t) Hh Ex).
    pose proof (returns_left_sent_back m t l Hc Es). cbn. lia.
Qed.

Lemma grant_delivery o s k h b t wq x :
  inv o s -> net s !! k = Some (ToHost h (grant_pkt lid b h t wq)) -> hosts s !! h = Some x ->
  in_uw 30 t -> b = 35 \/ b = 1 /\ wq = [] ->
  forall s', step (LNet k) s = Ok s' -> (network_work s' < network_work s)%nat.
Proof using Hn Hlid.
  intros HI E Ex Ht Hb s'. destruct (si_hosts _ _ _ _ HI h x Ex) as (Hh & l & -> & Hl).
  cbn [System.sys_step]. rewrite E, Ex.
  destruct (deliver_grant_with_agent bmv2_build n lid Hn Hlid h l t b wq Hh Ht (hi_id _ _ _ _ _ _ Hl)
    (hi_ncnt _ _ _ _ _ _ Hl) Hb) as (wq' & _ & _ & ->).
  intros [= <-]. apply (host_delivery s k _ _ h l _ _ _ E (si_net _ _ _ _ HI) Hh Ex).
  - intros k' _ _. by apply returns_left_same.
  - left. by rewrite (returns_left_same l).
  - cbn. lia.
Qed.

(** Every delivery takes work from the network. *)
Lemma delivery_works o s s' k m :
  inv o s -> conserved n s -> net s !! k = Some m -> step (LNet k) s = Ok s' -> (network_work s' < network_work s)%nat.
Proof using Hn Hlid.
  intros HI HC E Es. destruct m as [h p|h p]; [by apply (switch_delivery o s s' k h p)|].
  destruct (net_without _ _ Hn Hlid _ _ _ _ HI E) as (Hm & _ & _).
  assert (Hd : forall h, host_ok h -> exists x, hosts s !! h = Some x) by (intros h' Hh'; by apply (si_dom _ _ _ _ HI)).
  inversion Hm as [| | |? m t a Hho Hmo Ht|m t Hmo Ht|m t wq Hmo Ht Hwq]; subst.
  - destruct (Hd h Hho) as [x Ex]. by apply (acquire_delivery o s k h m t a x HI HC E Ex Hmo Ht).
  - destruct (Hd h Hmo) as [x Ex]. apply (grant_delivery o s k h 1 t [] x HI E Ex Ht); [by right|done].
  - destruct (Hd h Hmo) as [x Ex]. apply (grant_delivery o s k h 35 t wq x HI E Ex Ht); [by left|done].
Qed.

(** ** Places *)

(** One host's share of a sum over the hosts, and a host that has a share. *)
Lemma sum_member (f : Z -> nat) h : host_ok h -> (f h <= list_sum (map f (seqZ 1 n)))%nat.
Proof using.
  intros Hh. unfold Fission.host_ok in Hh. assert (Hin : h ∈ seqZ 1 n) by (apply elem_of_seqZ; lia).
  apply list_elem_of_split in Hin as (l1 & l2 & ->). rewrite map_app, list_sum_app, map_cons, list_sum_cons. lia.
Qed.

Lemma sum_positive (f : Z -> nat) l : (0 < list_sum (map f l))%nat -> exists h, h ∈ l /\ (0 < f h)%nat.
Proof using.
  induction l as [|x l IH]; [by intros ?%Nat.lt_irrefl|]. rewrite map_cons, list_sum_cons. intros H.
  destruct (decide (0 < f x)%nat) as [Hx|Hx]; [exists x; split; [by left|done]|].
  destruct IH as (h & Hin & Hh); [lia|]. exists h. split; [by right|done].
Qed.

Lemma flag_placed s h t l :
  host_ok h -> hosts s !! h = Some (mkhost lid l) -> l_task_granted l !! t = Some true -> (1 <= places n s (h, t))%nat.
Proof using.
  intros Hh Ex Hf. pose proof (sum_member (at_host s (h, t)) h Hh) as Hle. unfold at_host at 1 in Hle.
  rewrite Ex in Hle. cbn [mkhost h_heap] in Hle. unfold at_lock in Hle. cbn [fst snd] in Hle.
  rewrite bool_decide_true in Hle by done. cbn [one] in Hle. unfold places. lia.
Qed.

Lemma count_pos k l : (0 < count k l)%nat -> k ∈ l.
Proof using.
  induction l as [|x l IH]; [by intros ?%Nat.lt_irrefl|]. rewrite count_cons.
  destruct (decide (x = k)) as [->|Hne]; [by left|]. rewrite bool_decide_false by done. cbn [one]. intros H. right. apply IH, H.
Qed.

(** ** The reachable states *)

Context (R : gset req) (HR : Z.of_nat (size R) < 2 ^ 32).

Definition reached (o : owner) (s : system) : Prop := inv o s /\ conserved n s /\ tasks_in R s.

Lemma reached_init : reached OSwitch (sys_init n lid).
Proof using Hn Hlid.
  split; [by apply sys_inv_init|]. split; [by apply conserved_init|]. by intros k v.
Qed.

Lemma reached_step e o s : label_ok e -> label_in R e -> reached o s -> exists o' s', step e s = Ok s' /\ reached o' s'.
Proof using Hn Hlid HR.
  intros He Hin (HI & HC & HT). destruct (step_preserves bmv2_build n lid Hn Hlid e o s He HI) as (o' & s' & E & HI' & HB).
  exists o', s'. split; [done|]. split; [done|]. split.
  - intros k. specialize (HB (conserved_fits n lid Hn Hlid R HR s HC HT) k). specialize (HC k). lia.
  - by apply (tasks_in_step bmv2_build n lid R e s s').
Qed.

Lemma reached_run es o s :
  Forall label_ok es -> Forall (label_in R) es -> reached o s ->
  exists o' s', sys_run (tofino n) bmv2_build true lid es s = Ok s' /\ reached o' s'.
Proof using Hn Hlid HR.
  intros Hes. revert o s. induction Hes as [|e es He _ IH]; intros o s Hin HG; [by exists o, s|].
  apply Forall_cons_1 in Hin as [Hin1 Hin]. destruct (reached_step e o s He Hin1 HG) as (o1 & s1 & E & HG1).
  destruct (IH o1 s1 Hin HG1) as (o' & s' & E' & HG'). exists o', s'. split; [|done].
  cbn [System.sys_run]. by rewrite E.
Qed.

Lemma deliver_bound ks o s s' :
  reached o s -> deliver ks s = Some s' -> (length ks + network_work s' <= network_work s)%nat /\ exists o', reached o' s'.
Proof using Hn Hlid HR.
  revert o s. induction ks as [|k ks IH]; intros o s HG; [by intros [= <-]; split; [|exists o]|].
  cbn [Progress.deliver]. destruct (net s !! k) as [m|] eqn:E; [|done].
  destruct (reached_step (LNet k) o s I I HG) as (o1 & s1 & E1 & HG1). rewrite E1. intros Hd.
  destruct (IH o1 s1 HG1 Hd) as [Hle ?]. destruct HG as (HI & HC & _).
  pose proof (delivery_works o s s1 k m HI HC E E1). cbn [length]. split; [lia|done].
Qed.

Lemma deliver_silent o s : reached o s -> exists ks s', deliver ks s = Some s' /\ net s' = [].
Proof using Hn Hlid HR.
  remember (network_work s) as w eqn:Ew. revert o s Ew. induction (lt_wf w) as [w _ IH]; intros o s -> HG.
  destruct (net s) as [|m ms] eqn:En; [by exists [], s|]. assert (E : net s !! 0%nat = Some m) by (by rewrite En).
  destruct (reached_step (LNet 0) o s I I HG) as (o1 & s1 & E1 & HG1). pose proof HG as (HI & HC & _).
  destruct (IH _ (delivery_works o s s1 0 m HI HC E E1) o1 s1 eq_refl HG1) as (ks & s' & Hd & Hn').
  exists (0%nat :: ks), s'. split; [|done]. cbn [Progress.deliver]. by rewrite E, E1.
Qed.

(** ** A silent lock *)

(** The agent's holder has the lock or a raised flag. *)
Lemma agent_obtains s h : reached (OHost h) s -> host_ok h -> exists k, obtains bmv2_build n lid s k.
Proof using Hn Hlid.
  intros (HI & HC & _) Hh. destruct (si_dom _ _ _ _ HI h Hh) as [x Ex].
  destruct (si_hosts _ _ _ _ HI h x Ex) as (_ & l & -> & Hl). rewrite bool_decide_true in Hl by done.
  destruct (hi_busy _ _ _ _ _ _ Hl eq_refl) as (t & [Hf|[op Ht]]); exists (h, t); unfold obtains; cbn [fst snd System.sys_step].
  - assert (Hw : is_waiting (tasks s !! (h, t)) = 1%nat).
    { pose proof (HC (h, t)) as Hp. pose proof (flag_placed s h t l Hh Ex Hf) as Hle. unfold waiting in Hp.
      unfold is_waiting in *. destruct (tasks s !! (h, t)) as [[]|]; lia. }
    rewrite Ex. destruct (tasks s !! (h, t)) as [[r op|]|] eqn:Et; [|done..].
    destruct (hi_wait _ _ _ _ _ _ Hl t r op Et) as (_ & -> & -> & _). rewrite (poll_excl lid l t true Hf).
    eexists _, LOCK_EXCL. split; [reflexivity|]. unfold holds. cbn. apply lookup_insert_eq.
  - rewrite Ex, Ht. by eexists s, op.
Qed.

Lemma silent_waiting o s k :
  reached o s -> net s = [] -> waiting s k = 1%nat -> (exists k', obtains bmv2_build n lid s k') \/ suspended lid s k.
Proof using Hn Hlid.
  intros HG En Hw. pose proof HG as (HI & HC & _). pose proof (HC k) as Hp. rewrite Hw in Hp. unfold places in Hp.
  rewrite En in Hp. change (count k (concat (map carried []))) with 0%nat in Hp.
  destruct (sum_positive (at_host s k) (seqZ 1 n)) as (h & Hin & Hpos); [lia|].
  assert (Hh : host_ok h) by (apply elem_of_seqZ in Hin; unfold Fission.host_ok; lia).
  destruct (si_dom _ _ _ _ HI h Hh) as [x Ex]. destruct (si_hosts _ _ _ _ HI h x Ex) as (_ & l & -> & Hl).
  destruct (decide (o = OHost h)) as [->|Ho]; [left; by apply (agent_obtains s h)|].
  rewrite bool_decide_false in Hl by done. right. exists h, l. split; [done|]. split; [apply Hl|].
  apply count_pos. unfold at_host in Hpos. rewrite Ex in Hpos. cbn [mkhost h_heap] in Hpos. unfold at_lock in Hpos.
  rewrite (bool_decide_false (k.1 = h /\ _)) in Hpos; [cbn [one] in Hpos; lia|].
  intros [_ H]. exact (host_inv_unowned n lid Hn Hlid _ _ _ _ Hl H).
Qed.
End progress.

(** C5: deliveries come to an end when all requests are exclusive. In systems of
    up to 63 hosts whose tasks request the lock exclusively only and never time
    out ([label_ok]), with requesters from a set of less than 2^32: in every state
    that their calls and the packets lead to, each delivery takes at least one from
    a number computed from the state, so no sequence of deliveries is longer; and
    some sequence leaves no packet in flight. Nothing of the kind is claimed of
    shared requests, which a host that is not the agent can send back to the switch
    without bound. *)
Theorem deliveries_end bmv2_build n lid R es :
  1 <= n < 64 -> 0 <= lid < SWITCH_LOCK_NUM -> Z.of_nat (size R) < 2 ^ 32 ->
  Forall label_ok es -> Forall (label_in R) es ->
  exists s, sys_run (tofino n) bmv2_build true lid es (sys_init n lid) = Ok s /\
    (forall ks s', deliver bmv2_build n lid ks s = Some s' ->
       (length ks + network_work n s' <= network_work n s)%nat) /\
    exists ks s', deliver bmv2_build n lid ks s = Some s' /\ net s' = [].
Proof.
  intros Hn Hlid HR Hes Hin.
  destruct (reached_run bmv2_build n lid Hn Hlid R HR es _ _ Hes Hin (reached_init n lid Hn Hlid R)) as (o & s & E & HG).
  exists s. split; [done|]. split.
  - intros ks s' Hd. by apply (deliver_bound bmv2_build n lid Hn Hlid R HR ks o s s' HG).
  - by apply (deliver_silent bmv2_build n lid Hn Hlid R HR o s).
Qed.

Lemma deliveries_end_witness :
  exists s, sys_run (tofino 8) false true 5 (take 2 excl_labels0) (sys_init 8 5) = Ok s /\
    (forall ks s', deliver false 8 5 ks s = Some s' -> (length ks + network_work 8 s' <= network_work 8 s)%nat) /\
    exists ks s', deliver false 8 5 ks s = Some s' /\ net s' = [].
Proof.
  apply (deliveries_end false 8 5 {[ (1, 4); (2, 5) ]} (take 2 excl_labels0)).
  - lia.
  - unfold SWITCH_LOCK_NUM. lia.
  - vm_compute. reflexivity.
  - repeat (constructor; [done|]). constructor.
  - repeat (constructor; [first [exact I | unfold label_in; set_solver]|]). constructor.
Defined.

(** C3: no deadlock when all requests are exclusive. In systems of up to 63 hosts
    whose tasks request the lock exclusively only and never time out ([label_ok]),
    with requesters from a set of less than 2^32: in every state that their calls
    and the packets lead to and in which no packet is in flight, a task waits only
    because some task has the lock or gets it when it polls, or because a host that
    is not the agent has suspended its request. *)
Theorem no_deadlock bmv2_build n lid R es :
  1 <= n < 64 -> 0 <= lid < SWITCH_LOCK_NUM -> Z.of_nat (size R) < 2 ^ 32 ->
  Forall label_ok es -> Forall (label_in R) es ->
  exists s, sys_run (tofino n) bmv2_build true lid es (sys_init n lid) = Ok s /\
    (net s = [] -> forall k r op, tasks s !! k = Some (Waiting r op) ->
       (exists k', obtains bmv2_build n lid s k') \/ suspended lid s k).
Proof.
  intros Hn Hlid HR Hes Hin.
  destruct (reached_run bmv2_build n lid Hn Hlid R HR es _ _ Hes Hin (reached_init n lid Hn Hlid R)) as (o & s & E & HG).
  exists s. split; [done|]. intros En k r op Hk. apply (silent_waiting bmv2_build n lid Hn Hlid R o s k HG En).
  unfold waiting. by rewrite Hk.
Qed.

(** Host 1 has the lock, the request of host 2 is in its queue. *)
Definition queued_labels : list label := take 7 excl_labels0.

Lemma no_deadlock_witness :
  exists s, sys_run (tofino 8) false true 5 queued_labels (sys_init 8 5) = Ok s /\ net s = [] /\
    is_Some (tasks s !! (2, 5)) /\
    (net s = [] -> forall k r op, tasks s !! k = Some (Waiting r op) ->
       (exists k', obtains false 8 5 s k') \/ suspended 5 s k).
Proof.
  destruct (no_deadlock false 8 5 {[ (1, 4); (2, 5) ]} queued_labels) as (s & E & H).
  - lia.
  - unfold SWITCH_LOCK_NUM. lia.
  - vm_compute. reflexivity.
  - repeat (constructor; [done|]). constructor.
  - repeat (constructor; [first [exact I | unfold label_in; set_solver]|]). constructor.
  - exists s. split; [exact E|]. split; [|split; [|exact H]]; vm_compute in E; injection E as <-; [reflexivity|].
    by eexists.
Defined.
