(* ===== verification/ControlPlane.v ===== *)
(** * ControlPlane: the tables and multicast groups the switch starts with

    Models switch/control/bfrt.c, the program that fills the forwarding table and
    creates the multicast groups of the FissLock switch, for the machines listed
    in switch/control/cluster.h, and shows that the data plane of [Switch] finds
    there what it relies on.

    The Barefoot runtime is not part of the program: a multicast manager and a
    match-action table are interfaces with laws that state their documented
    behaviour.  A call that does not succeed fails an assertion
    (bf_sys_assert), which aborts.  Looking up the handles of the table, its key
    and its action (setup_tables) has no effect on the switch and is left out. *)

From S2P Require Import Prelude Types Post Switch.

#[local] Open Scope prog_scope.

(** ** The Barefoot runtime *)

(** A multicast group is created empty and gets nodes; a node sends one copy of a
    packet, with its replication id, to every port of its map.  [replicate d g]:
    the copies, as port and replication id, of a packet for group [g], if there
    is such a group. *)
Class McManager (D : Type) := {
  mc_grp : Type;
  mc_node : Type;
  mc_mgrp_create : Z -> D -> option (mc_grp * D);
  mc_node_create : Z -> gset Z -> D -> option (mc_node * D);
  mc_associate_node : mc_grp -> mc_node -> D -> option D;
  replicate : D -> Z -> option (list (Z * Z));
}.

(** The handles: [is_grp d g gid] and [is_node d n rid ports]. *)
Class McManagerLaws (D : Type) `{!McManager D} := {
  is_grp : D -> mc_grp -> Z -> Prop;
  is_node : D -> mc_node -> Z -> gset Z -> Prop;
  mgrp_fresh : forall d gid, replicate d gid = None ->
    exists g d', mc_mgrp_create gid d = Some (g, d') /\ is_grp d' g gid /\ replicate d' gid = Some [] /\
      forall gid', gid' <> gid -> replicate d' gid' = replicate d gid';
  mgrp_exists : forall d gid, is_Some (replicate d gid) -> mc_mgrp_create gid d = None;
  node_created : forall d rid ports,
    exists n d', mc_node_create rid ports d = Some (n, d') /\ is_node d' n rid ports /\
      (forall gid, replicate d' gid = replicate d gid) /\ forall g gid, is_grp d g gid -> is_grp d' g gid;
  node_associated : forall d g gid n rid ports,
    is_grp d g gid -> is_node d n rid ports -> replicate d gid = Some [] ->
    exists d', mc_associate_node g n d = Some d' /\
      replicate d' gid = Some (map (fun p => (p, rid)) (elements ports)) /\
      forall gid', gid' <> gid -> replicate d' gid' = replicate d gid';
}.

(** A table of exact matches with room for [mat_size] entries. *)
Class MatTable (T : Type) := {
  entry_add : Z -> Z -> T -> option T;
  entry : T -> Z -> option Z;
  mat_entries : T -> nat;
}.

Definition mat_size : nat := 32.

Class MatTableLaws (T : Type) `{!MatTable T} := {
  entry_added : forall t k v, entry t k = None -> (mat_entries t < mat_size)%nat ->
    exists t', entry_add k v t = Some t' /\ mat_entries t' = S (mat_entries t) /\
      forall k', entry t' k' = if decide (k' = k) then Some v else entry t k';
}.

(** ** The program (bfrt.c, bfrt.h) *)

Record machine_info := MachineInfo { ip_addr : Z; mac_addr : Z; port : Z }.

(** cluster.h *)
Definition cluster : list machine_info :=
  [MachineInfo 0x0a000204 0x1070fd0de230 24; MachineInfo 0x0a000201 0x08c0ebfd52c4 16;
   MachineInfo 0x0a000202 0x08c0ebfe8c50 4; MachineInfo 0x0a000203 0x1070fd0de448 12;
   MachineInfo 0x0a000205 0x08c0ebde0156 56; MachineInfo 0x0a000206 0x08c0ebdcb30a 48;
   MachineInfo 0x0a000207 0x08c0ebde011a 40; MachineInfo 0x0a000208 0x08c0ebdca15a 32].

Definition MID (i : nat) : Z := Z.of_nat i + 1.

Section program.
Context {D T : Type} `{!McManager D, !MatTable T}.
Context (connected_machines : list machine_info).

Definition MACHINE_NUM : nat := length connected_machines.

Record asic := Asic { mc : D; eth_fallback : T }.

Definition C := M asic Empty_set.

(** A call of the runtime under bf_sys_assert. *)
Definition mc_call {A} (f : D -> option (A * D)) : C A :=
  s <- get ;;
  match f (mc s) with
  | Some (a, d) => put (Asic d (eth_fallback s)) ;; ret a
  | None => fail FaultAssert
  end.

Definition mat_call (f : T -> option T) : C unit :=
  s <- get ;;
  match f (eth_fallback s) with
  | Some t => put (Asic (mc s) t)
  | None => fail FaultAssert
  end.

Definition add_tbl_entry (dst_mac port : Z) : C unit := mat_call (entry_add dst_mac port).

Definition create_mgrp (gid : Z) (port_map : gset Z) (rid : Z) : C unit :=
  ghdl <- mc_call (mc_mgrp_create gid) ;;
  node_hdl <- mc_call (mc_node_create rid port_map) ;;
  mc_call (fun d => d' ← mc_associate_node ghdl node_hdl d; Some (tt, d')).

(** Every machine's port but that of machine [i], and all ports. *)
Definition other_ports (i : nat) : gset Z := list_to_set (map port (delete i connected_machines)).
Definition all_ports : gset Z := list_to_set (map port connected_machines).

(** The groups of one machine: op 1 and 2, then the broadcast without it. *)
Definition machine_mgrps (i : nat) (m : machine_info) : C unit :=
  for_each [1; 2] (fun op => create_mgrp (MID i + 128 * (op - 1)) {[ port m ]} op) ;;
  create_mgrp (MID i + 192) (other_ports i) 0.

Definition setup_mgrps : C unit :=
  for_each (imap pair connected_machines) (fun '(i, m) => machine_mgrps i m) ;;
  create_mgrp 255 all_ports 0.

Definition driver_init : C unit :=
  for_each connected_machines (fun m => add_tbl_entry (mac_addr m) (port m)) ;;
  setup_mgrps.

(** The forwarding table of packets that are not the lock service's: the port
    of a destination address; without one the packet is dropped. *)
Definition eth_forward (s : asic) (dst_mac : Z) : option Z := entry (eth_fallback s) dst_mac.
End program.
Arguments asic : clear implicits.
Arguments Asic {D T}.

(** ** What the data plane finds *)

(** The group of copies with replication id [rid] to [ports]. *)
Definition copies_to (rid : Z) (ports : gset Z) : list (Z * Z) := map (fun p => (p, rid)) (elements ports).

(** The groups after the first [k] machines. *)
Definition groups (ms : list machine_info) (k : nat) (g : Z) : option (list (Z * Z)) :=
  let one_of (b rid : Z) := m ← ms !! Z.to_nat (g - b - 1); Some [(port m, rid)] in
  if decide (0 < g <= Z.of_nat k) then one_of 0 1
  else if decide (128 < g <= 128 + Z.of_nat k) then one_of 128 2
  else if decide (192 < g <= 192 + Z.of_nat k) then Some (copies_to 0 (other_ports ms (Z.to_nat (g - 193))))
  else None.

Section groups.
Context {D T : Type} `{!McManager D, !MatTable T, !McManagerLaws D, !MatTableLaws T}.
Context (ms : list machine_info).
Abbreviation asic := (asic D T).

Lemma wp_mc_call {A} (f : D -> option (A * D)) (Q : A -> asic -> Prop) s :
  (exists a d, f (mc s) = Some (a, d) /\ Q a (Asic d (eth_fallback s))) -> wp (mc_call f) Q s.
Proof using. intros (a & d & E & HQ). unfold mc_call. apply wp_bind, wp_get. rewrite E. by apply wp_bind, wp_put, wp_ret. Qed.

Lemma wp_create_mgrp gid ports rid s (Q : unit -> asic -> Prop) :
  replicate (mc s) gid = None ->
  (forall d, replicate d gid = Some (copies_to rid ports) ->
    (forall gid', gid' <> gid -> replicate d gid' = replicate (mc s) gid') -> Q tt (Asic d (eth_fallback s))) ->
  wp (create_mgrp (T:=T) gid ports rid) Q s.
Proof using McManagerLaws0.
  intros Hg HQ. unfold create_mgrp.
  destruct (mgrp_fresh _ _ Hg) as (g & d1 & E1 & Hg1 & Hr1 & Hs1).
  destruct (node_created d1 rid ports) as (n & d2 & E2 & Hn2 & Hs2 & Hg2).
  destruct (node_associated d2 g gid n rid ports (Hg2 _ _ Hg1) Hn2) as (d3 & E3 & Hr3 & Hs3); [by rewrite Hs2|].
  apply wp_bind, wp_mc_call. exists g, d1. split; [done|]. apply wp_bind, wp_mc_call. exists n, d2. split; [done|].
  apply wp_mc_call. exists tt, d3. cbn [mc]. rewrite E3. split; [done|]. apply HQ; [done|].
  intros gid' Hne. by rewrite Hs3, Hs2, Hs1.
Qed.

(** A group that exists is not created again. *)
Lemma create_mgrp_again gid ports rid s :
  is_Some (replicate (mc s) gid) -> create_mgrp (T:=T) gid ports rid s = Fault FaultAssert.
Proof using McManagerLaws0.
  intros Hg. unfold create_mgrp, mc_call, bind, get. cbn. by rewrite (mgrp_exists _ _ Hg).
Qed.

(** The manager after the groups of the first [k] machines. *)
Definition has_groups (k : nat) (s : asic) : Prop := forall g, replicate (mc s) g = groups ms k g.

Ltac in_ranges := repeat (case_decide; try lia).

Lemma groups_step k m g :
  ms !! k = Some m -> Z.of_nat k < 62 ->
  groups ms (S k) g =
    if decide (g = MID k + 192) then Some (copies_to 0 (other_ports ms k))
    else if decide (g = MID k + 128) then Some [(port m, 2)]
    else if decide (g = MID k) then Some [(port m, 1)] else groups ms k g.
Proof using.
  intros Em Hk. unfold groups, MID.
  destruct (decide (g = Z.of_nat k + 1 + 192)) as [->|H1]; [in_ranges; by replace (Z.to_nat _) with k by lia|].
  destruct (decide (g = Z.of_nat k + 1 + 128)) as [->|H2]; [in_ranges; replace (Z.to_nat _) with k by lia; by rewrite Em|].
  destruct (decide (g = Z.of_nat k + 1)) as [->|H3]; [in_ranges; replace (Z.to_nat _) with k by lia; by rewrite Em|].
  by in_ranges.
Qed.

Lemma groups_fresh k g : Z.of_nat k < 62 -> g = MID k \/ g = MID k + 128 \/ g = MID k + 192 \/ g = 255 -> groups ms k g = None.
Proof using. unfold groups, MID. intros Hk Hg. by in_ranges. Qed.

Lemma wp_machine_mgrps k m s :
  ms !! k = Some m -> Z.of_nat k < 62 -> has_groups k s ->
  wp (machine_mgrps (T:=T) ms k m) (fun _ s' => has_groups (S k) s' /\ eth_fallback s' = eth_fallback s) s.
Proof using All.
  intros Em Hk Hs. unfold machine_mgrps, for_each. apply wp_bind, wp_bind.
  replace (MID k + 128 * (1 - 1)) with (MID k) by lia. replace (MID k + 128 * (2 - 1)) with (MID k + 128) by lia.
  assert (Hne : MID k + 128 <> MID k /\ MID k + 192 <> MID k /\ MID k + 192 <> MID k + 128) by lia.
  apply wp_create_mgrp; [rewrite Hs; apply groups_fresh; auto|]. intros d1 E1 F1.
  apply wp_bind, wp_create_mgrp; cbn [mc]; [rewrite F1, Hs by tauto; apply groups_fresh; auto|]. intros d2 E2 F2. apply wp_ret.
  apply wp_create_mgrp; cbn [mc]; [rewrite F2, F1, Hs by tauto; apply groups_fresh; auto|]. intros d3 E3 F3.
  split; [|done]. intros g. cbn [mc]. rewrite (groups_step k m g Em Hk). unfold copies_to in *.
  rewrite elements_singleton in E1, E2. repeat case_decide; subst; rewrite ?F3, ?F2, ?F1 by done; done.
Qed.

Lemma wp_all_mgrps l k s :
  drop k ms = l -> Z.of_nat (length ms) <= 62 -> has_groups k s ->
  wp (for_each (imap (fun i m => ((k + i)%nat, m)) l) (fun '(i, m) => machine_mgrps (T:=T) ms i m))
    (fun _ s' => has_groups (k + length l) s' /\ eth_fallback s' = eth_fallback s) s.
Proof using All.
  revert k s. induction l as [|m l IH]; intros k s El Hn Hs; [apply wp_ret; by rewrite Nat.add_0_r|].
  assert (Em : ms !! k = Some m) by (rewrite <- (take_drop k ms), El; apply list_lookup_middle;
    rewrite length_take; apply (f_equal length) in El; rewrite length_drop in El; cbn in El; lia).
  assert (Hk : (k < length ms)%nat) by (by eapply lookup_lt_Some).
  rewrite imap_cons. cbn [for_each]. rewrite Nat.add_0_r. apply wp_bind.
  eapply wp_mono; [apply (wp_machine_mgrps k m s Em); [lia|done]|]. intros _ s1 [H1 E1].
  replace (imap _ l) with (imap (fun i m => ((S k + i)%nat, m)) l).
  2: { apply imap_ext. intros i x _. cbn. f_equal. lia. }
  eapply wp_mono; [apply (IH (S k) s1)|]; [|done|done|].
  - replace (S k) with (k + 1)%nat by lia. by rewrite <- (drop_drop ms 1 k), El.
  - intros _ s2 [H2 E2]. cbn [length]. rewrite Nat.add_succ_r. split; [exact H2|]. by rewrite E2.
Qed.

(** The forwarding table. *)
Definition port_of_mac (l : list machine_info) (a : Z) : option Z :=
  foldr (fun m r => if decide (a = mac_addr m) then Some (port m) else r) None l.

Lemma port_of_mac_None l a : a ∉ map mac_addr l -> port_of_mac l a = None.
Proof using.
  induction l as [|m l IH]; [done|]. cbn [map]. intros [Hne Hin]%not_elem_of_cons. cbn. rewrite decide_False by done. by apply IH.
Qed.

Lemma wp_entries l s :
  (forall m, m ∈ l -> entry (eth_fallback s) (mac_addr m) = None) -> NoDup (map mac_addr l) ->
  (mat_entries (eth_fallback s) + length l <= mat_size)%nat ->
  wp (for_each l (fun m => add_tbl_entry (D:=D) (mac_addr m) (port m)))
    (fun _ s' => mc s' = mc s /\ forall a, entry (eth_fallback s') a =
       match port_of_mac l a with Some p => Some p | None => entry (eth_fallback s) a end) s.
Proof using All.
  revert s. induction l as [|m l IH]; intros s Hf Hnd Hsz; [by apply wp_ret|].
  cbn [map length] in *. apply list.NoDup_cons in Hnd as [Hm Hnd].
  destruct (entry_added (eth_fallback s) (mac_addr m) (port m)) as (t' & Et & En & Ee); [apply Hf; by left|lia|].
  cbn [for_each]. apply wp_bind. unfold add_tbl_entry at 1, mat_call. apply wp_bind, wp_get. rewrite Et. apply wp_put.
  eapply wp_mono; [apply IH; cbn [eth_fallback]; [|done|lia]|].
  - intros m' Hm'. rewrite Ee, decide_False; [apply Hf; by right|]. intros E. apply Hm. rewrite <- E.
    apply list_elem_of_In, in_map, list_elem_of_In, Hm'.
  - intros _ s' [E1 E2]. split; [done|]. intros a. rewrite E2. cbn [eth_fallback]. rewrite Ee.
    unfold port_of_mac. cbn [foldr]. fold (port_of_mac l a). case_decide as Hd; [|done]. subst a.
    by rewrite port_of_mac_None.
Qed.

(** ** The start of the switch *)

Lemma wp_driver_init s :
  (forall g, replicate (mc s) g = None) -> (forall a, entry (eth_fallback s) a = None) ->
  mat_entries (eth_fallback s) = 0%nat -> (length ms <= mat_size)%nat -> NoDup (map mac_addr ms) ->
  wp (driver_init ms) (fun _ s' =>
    (forall g, g <> 255 -> replicate (mc s') g = groups ms (length ms) g) /\
    replicate (mc s') 255 = Some (copies_to 0 (all_ports ms)) /\
    forall a, eth_forward s' a = port_of_mac ms a) s.
Proof using All.
  unfold mat_size. intros Hg He H0 Hn Hnd. unfold driver_init. apply wp_bind.
  eapply wp_mono; [apply wp_entries; [by intros m _|done|unfold mat_size; lia]|]. intros _ s1 [E1 F1].
  unfold setup_mgrps. apply wp_bind. eapply wp_mono; [apply (wp_all_mgrps ms 0 s1)|]; [done|lia| |].
  { intros g. rewrite E1, Hg. unfold groups. by in_ranges. }
  intros _ s2 [H2 E2]. cbn [Nat.add] in H2. apply wp_create_mgrp.
  { rewrite H2. unfold groups. by in_ranges. }
  intros d Ed Fd. split_and!; [|exact Ed|].
  - intros g Hne. cbn [mc]. rewrite Fd by done. apply H2.
  - intros a. unfold eth_forward. cbn [eth_fallback]. rewrite E2, F1, He. by destruct (port_of_mac ms a).
Qed.

(** The ports and replication ids to which the two groups of a packet that leaves
    the ingress pipeline send it, and the copies after the egress pipeline. *)
Definition replicas (s : asic) (grp_a grp_b : Z) : list (Z * Z) :=
  g ← [grp_a; grp_b]; default [] (replicate (mc s) g).

Definition mcast (s : asic) (grp_a grp_b : Z) (p : packet) : list (Z * packet) :=
  map (fun '(port, rid) => (port, tofino_egress rid p)) (replicas s grp_a grp_b).

(** The port of a host. *)
Definition host_port (h : Z) : Z := default 0 (m ← ms !! Z.to_nat (h - 1); Some (port m)).

Lemma groups_mgrp g :
  0 <= g <= 192 -> (length ms <= mat_size)%nat ->
  default [] (groups ms (length ms) g) =
    match mgrp (Z.of_nat (length ms)) g with Some (h, rid) => [(host_port h, rid)] | None => [] end.
Proof using.
  unfold mat_size. intros Hg Hn. unfold groups, mgrp, host_port.
  destruct (decide (0 < g <= Z.of_nat (length ms))) as [H1|H1].
  - rewrite (proj2 (Z.leb_le 1 g)), (proj2 (Z.leb_le g _)) by lia. cbn [andb].
    destruct (lookup_lt_is_Some_2 ms (Z.to_nat (g - 1))) as [m Em]; [lia|]. rewrite Z.sub_0_r, Em. done.
  - replace ((1 <=? g) && (g <=? Z.of_nat (length ms))) with false by (symmetry; apply andb_false_iff; lia).
    destruct (decide (128 < g <= 128 + Z.of_nat (length ms))) as [H2|H2].
    + rewrite (proj2 (Z.leb_le 129 g)), (proj2 (Z.leb_le g _)) by lia. cbn [andb].
      destruct (lookup_lt_is_Some_2 ms (Z.to_nat (g - 128 - 1))) as [m Em]; [lia|]. rewrite Em. done.
    + replace ((129 <=? g) && (g <=? 128 + Z.of_nat (length ms))) with false by (symmetry; apply andb_false_iff; lia).
      by in_ranges.
Qed.

(** An empty switch, a cluster that fits the table, and what driver_init leaves. *)
Record startable (s : asic) : Prop := {
  st_groups : forall g, replicate (mc s) g = None;
  st_table : forall a, entry (eth_fallback s) a = None;
  st_entries : mat_entries (eth_fallback s) = 0%nat;
  st_machines : (length ms <= mat_size)%nat;
  st_macs : NoDup (map mac_addr ms);
}.

Record installed (s : asic) : Prop := {
  in_groups : forall g, g <> 255 -> replicate (mc s) g = groups ms (length ms) g;
  in_all : replicate (mc s) 255 = Some (copies_to 0 (all_ports ms));
  in_table : forall a, eth_forward s a = port_of_mac ms a;
}.

Lemma driver_installed s : startable s -> exists s', driver_init ms s = Ok (tt, s', []) /\ installed s'.
Proof using All.
  intros [Hg He H0 Hn Hnd].
  destruct (wp_ok _ _ _ (wp_driver_init s Hg He H0 Hn Hnd)) as ([] & s' & out & E & H1 & H2 & H3).
  exists s'. split; [rewrite E; by destruct out|by split].
Qed.

Lemma installed_replicas s a dest2 :
  installed s -> (length ms <= mat_size)%nat -> 0 <= a <= 192 -> 0 <= dest2 < 64 ->
  replicas s a (dest2 + 128) =
    omap (fun g => '(h, rid) ← mgrp (Z.of_nat (length ms)) g; Some (host_port h, rid)) [a; dest2 + 128].
Proof using All.
  intros Hs Hn Ha Hd. unfold replicas. cbn [mbind list_bind]. rewrite app_nil_r.
  change (omap ?f [a; dest2 + 128]) with (omap f ([a] ++ [dest2 + 128])). rewrite omap_app.
  assert (Hg : forall g, 0 <= g <= 192 -> default [] (replicate (mc s) g) =
    omap (fun g => '(h, rid) ← mgrp (Z.of_nat (length ms)) g; Some (host_port h, rid)) [g]).
  { intros g Hg. rewrite (in_groups s Hs), groups_mgrp by lia. cbn. by destruct (mgrp _ g) as [[h rid]|]. }
  by rewrite !Hg by lia.
Qed.
End groups.

(** C23: the control plane installs what the data plane relies on. Started on an
    empty switch with at most 32 machines of distinct addresses, driver_init
    succeeds; then the two multicast groups of a lock packet - its agent field up
    to 192, and 128 plus a host number or zero - send the copies of the model of
    the data plane to the ports of the hosts, each rewritten by the egress
    pipeline for its replication id; every machine's address is forwarded to its
    port and no other address is; and group 255 reaches all ports. *)
Theorem control_plane_installs {D T : Type} `{!McManager D, !MatTable T, !McManagerLaws D, !MatTableLaws T} ms (s : asic D T) :
  startable ms s ->
  exists s', driver_init ms s = Ok (tt, s', []) /\
    (forall a dest2 p, 0 <= a <= 192 -> 0 <= dest2 < 64 ->
       mcast s' a (dest2 + 128) p =
       map (fun '(h, q) => (host_port ms h, q)) (tofino_copies (Z.of_nat (length ms)) a (dest2 + 128) p)) /\
    (forall a, eth_forward s' a = port_of_mac ms a) /\
    replicate (mc s') 255 = Some (copies_to 0 (all_ports ms)).
Proof.
  intros Hst. destruct (driver_installed ms s Hst) as (s' & E & Hs). exists s'. split; [done|].
  split; [|split; [apply (in_table ms s' Hs)|apply (in_all ms s' Hs)]]. intros a dest2 p Ha Hd.
  unfold mcast, tofino_copies. rewrite (installed_replicas ms s' a dest2 Hs (st_machines ms s Hst) Ha Hd).
  cbn [omap list_omap]. destruct (mgrp _ a) as [[h1 r1]|], (mgrp _ (dest2 + 128)) as [[h2 r2]|]; done.
Qed.

(** ** How many machines there can be *)

Section limit.
Context {D T : Type} `{!McManager D, !MatTable T, !McManagerLaws D}.
Abbreviation asic := (asic D T).
Abbreviation C := (C (D:=D) (T:=T)).

(** [m] aborts, or returns in a state with [Q]. *)
Definition aborts_or {A} (m : C A) (Q : asic -> Prop) (s : asic) : Prop :=
  match m s with Ok (_, s', _) => Q s' | Fault f => f = FaultAssert end.

Definition exists_grp (s : asic) (g : Z) : Prop := is_Some (replicate (mc s) g).

Lemma aborts_bind {A B} (m : C A) (k : A -> C B) Q s :
  aborts_or m (fun s' => forall a, aborts_or (k a) Q s') s -> aborts_or (bind m k) Q s.
Proof using. unfold aborts_or, bind. destruct (m s) as [[[a s'] o]|f]; [|done]. intros H. specialize (H a). by destruct (k a s') as [[[b s''] o']|f]. Qed.

Lemma aborts_mono {A} (m : C A) (P Q : asic -> Prop) s : (forall s', P s' -> Q s') -> aborts_or m P s -> aborts_or m Q s.
Proof using. unfold aborts_or. destruct (m s) as [[[a s'] o]|f]; auto. Qed.

Lemma aborts_for_each {A} (l : list A) (body : A -> C unit) (P : asic -> Prop) s :
  (forall x s, P s -> aborts_or (body x) P s) -> P s -> aborts_or (for_each l body) P s.
Proof using.
  intros Hb. revert s. induction l as [|x l IH]; intros s HP; [done|]. cbn [for_each].
  apply aborts_bind. eapply aborts_mono; [|by apply Hb]. intros s' HP' _. by apply IH.
Qed.

Lemma create_aborts gid ports rid s :
  aborts_or (create_mgrp gid ports rid) (fun s' => exists_grp s' gid /\ forall g, exists_grp s g -> exists_grp s' g) s.
Proof using All.
  destruct (replicate (mc s) gid) as [cs|] eqn:E; [by unfold aborts_or; rewrite create_mgrp_again|].
  assert (H : wp (create_mgrp gid ports rid) (fun _ s' => exists_grp s' gid /\ forall g, exists_grp s g -> exists_grp s' g) s).
  { apply wp_create_mgrp; [done|]. intros d Ed Fd. unfold exists_grp. cbn [mc]. split; [by rewrite Ed|]. intros g Hg.
    rewrite Fd; [done|]. intros ->. rewrite E in Hg. by destruct Hg. }
  apply wp_ok in H as (a & s' & out & Es & H). unfold aborts_or. by rewrite Es.
Qed.

Lemma machine_aborts ms i m g s :
  exists_grp s g \/ g = MID i + 192 -> aborts_or (machine_mgrps ms i m) (fun s' => exists_grp s' g) s.
Proof using All.
  intros Hg. unfold machine_mgrps. apply aborts_bind.
  apply (aborts_mono _ (fun s' => exists_grp s' g \/ g = MID i + 192)).
  - intros s' Hs' _. eapply aborts_mono; [|apply create_aborts]. intros s2 [H1 H2]. destruct Hs' as [?| ->]; auto.
  - apply aborts_for_each; [|done]. intros op s1 H1. eapply aborts_mono; [|apply create_aborts].
    intros s2 [_ H2]. destruct H1; auto.
Qed.
End limit.

(** C40: there can be at most 62 machines. With more of them the broadcast group
    without the 63rd machine, 63 + 192, is the group 255 for all machines, so one
    of the two is created twice and the control plane aborts, whatever the state
    of the switch. *)
Theorem too_many_machines {D T : Type} `{!McManager D, !MatTable T, !McManagerLaws D} ms (s : asic D T) :
  (62 < length ms)%nat -> driver_init ms s = Fault FaultAssert.
Proof.
  intros Hn. assert (H : aborts_or (driver_init ms) (fun _ => False) s).
  - unfold driver_init. apply aborts_bind, (aborts_mono _ (fun _ => True)).
    2: { apply aborts_for_each; [|done]. intros m s1 _. unfold aborts_or, add_tbl_entry, mat_call, bind, get.
      by destruct (entry_add _ _ _). }
    intros s1 _ _. unfold setup_mgrps. apply aborts_bind.
    destruct (lookup_lt_is_Some_2 ms 62%nat Hn) as [m Em].
    rewrite <- (take_drop_middle (imap pair ms) 62 (62%nat, m)) by (by rewrite list_lookup_imap, Em).
    apply (aborts_mono _ (fun s2 => exists_grp s2 255)).
    + intros s2 H2 _. unfold aborts_or. by rewrite create_mgrp_again.
    + unfold aborts_or. rewrite for_each_app. apply aborts_bind, (aborts_mono _ (fun _ => True)).
      * intros s2 _ _. cbn [for_each]. apply aborts_bind. eapply aborts_mono; [|by apply (machine_aborts ms 62 m 255); right].
        intros s3 H3 _. apply aborts_for_each; [|done]. intros [i x] s4 H4. apply machine_aborts. by left.
      * apply aborts_for_each; [|done]. intros [i x] s2 _. eapply aborts_mono; [|by apply (machine_aborts ms i x (MID i + 192)); right]. done.
  - unfold aborts_or in H. by destruct (driver_init ms s) as [[[? ?] ?]|f]; [|by rewrite H].
Qed.

(** ** A runtime *)

#[global] Instance map_manager : McManager (gmap Z (list (Z * Z))) := {
  mc_grp := Z;
  mc_node := Z * gset Z;
  mc_mgrp_create gid d := match d !! gid with None => Some (gid, <[gid := []]> d) | Some _ => None end;
  mc_node_create rid ports d := Some ((rid, ports), d);
  mc_associate_node g n d := cs ← d !! g; Some (<[g := cs ++ copies_to n.1 n.2]> d);
  replicate d gid := d !! gid;
}.

#[global, program] Instance map_manager_laws : McManagerLaws (gmap Z (list (Z * Z))) := {
  is_grp _ g gid := g = gid;
  is_node _ n rid ports := n = (rid, ports);
}.
Next Obligation.
  intros d gid E. cbn in *. rewrite E. do 2 eexists. split; [done|]. split; [done|]. split; [apply lookup_insert_eq|].
  intros g Hne. by rewrite lookup_insert_ne.
Qed.
Next Obligation. intros d gid [cs E]. cbn in *. by rewrite E. Qed.
Next Obligation. intros d rid ports. cbn. eauto 10. Qed.
Next Obligation.
  intros d g gid n rid ports -> -> E. cbn in *. rewrite E. eexists. split; [done|]. split; [apply lookup_insert_eq|].
  intros g Hne. by rewrite lookup_insert_ne.
Qed.

#[global] Instance map_table : MatTable (gmap Z Z) := {
  entry_add k v t := if decide (t !! k = None /\ (size t < mat_size)%nat) then Some (<[k := v]> t) else None;
  entry t k := t !! k;
  mat_entries t := size t;
}.

#[global] Instance map_table_laws : MatTableLaws (gmap Z Z).
Proof.
  split. intros t k v E Hs. cbn in *. rewrite decide_True by done. eexists. split; [done|].
  split; [by apply map_size_insert_None|]. intros k'. case_decide as Hd; [subst; apply lookup_insert_eq|by rewrite lookup_insert_ne].
Qed.

Definition empty_asic : asic (gmap Z (list (Z * Z))) (gmap Z Z) := Asic ∅ ∅.

Lemma cluster_startable : startable cluster empty_asic.
Proof.
  split.
  - intros g. apply lookup_empty.
  - intros a. apply lookup_empty.
  - reflexivity.
  - unfold mat_size. cbn. lia.
  - apply (bool_decide_unpack _). vm_compute. exact I.
Qed.

Lemma control_plane_installs_witness :
  exists s', driver_init cluster empty_asic = Ok (tt, s', []) /\
    (forall a dest2 p, 0 <= a <= 192 -> 0 <= dest2 < 64 ->
       mcast s' a (dest2 + 128) p =
       map (fun '(h, q) => (host_port cluster h, q)) (tofino_copies 8 a (dest2 + 128) p)) /\
    (forall a, eth_forward s' a = port_of_mac cluster a) /\
    replicate (mc s') 255 = Some (copies_to 0 (all_ports cluster)).
Proof. apply (control_plane_installs cluster empty_asic), cluster_startable. Defined.

Definition many_machines : list machine_info := map (fun i => MachineInfo 0 i i) (seqZ 1 63).

Lemma too_many_machines_witness : driver_init many_machines empty_asic = Fault FaultAssert.
Proof. apply (too_many_machines many_machines empty_asic). vm_compute. lia. Defined.
