(* ===== verification/Frames.v ===== *)
(** * Frames: lock packets as bytes on the wire

    Models the frames of lib/net.cc byte by byte (the header template and what
    net_send writes into it), the parser and deparser of the switch
    (switch/p4/parser.p4), and the whole switch on a frame: parser, ingress
    pipeline with its two branches, multicast by the groups of [ControlPlane],
    egress pipeline.  The theorems show that the switch does with a frame what
    [Switch.tofino] does with the packet in it.

    The checksum unit of the deparser is hardware: a function from the bytes it
    covers to 16 bits.  A frame that ends inside a header is dropped, as is the
    default of the architecture; the intrinsic headers the hardware puts before a
    frame are not part of it. *)

From S2P Require Import Prelude Types Post Lock Net Switch ControlPlane.

(** ** Fields of a header *)

(** rte_cpu_to_be_16, stored. *)
Definition be16 (v : Z) : list Z := [u8 (Z.shiftr v 8); u8 v].
Definition be_value (bs : list Z) : Z := le_value (rev bs).

(** A field of [len] bytes at offset [off], and a store there. *)
Definition field (off len : nat) (hdr : list Z) : Z := be_value (slice off len hdr).
Definition write (off : nat) (bs hdr : list Z) : list Z :=
  take off hdr ++ bs ++ drop (off + length bs) hdr.

(** ** The frames of the host (lib/net.cc) *)

Definition ETHER_TYPE_IPV4 : Z := 0x0800.
Definition IPPROTO_UDP : Z := 17.
Definition SERVER_POST_TYPE : Z := 20001.
Definition CLIENT_POST_TYPE : Z := 20002.

(** Offsets in a frame of the fields of rte_ether_hdr, rte_ipv4_hdr and
    rte_udp_hdr. *)
Definition eth_dst_addr : nat := 0.
Definition eth_src_addr : nat := 6.
Definition eth_ether_type : nat := 12.
Definition ip_version_ihl : nat := 14.
Definition ip_total_length : nat := 16.
Definition ip_next_proto_id : nat := 23.
Definition ip_src_addr : nat := 26.
Definition ip_dst_addr : nat := 30.
Definition udp_src_port : nat := 34.
Definition udp_dst_port : nat := 36.
Definition udp_dgram_len : nat := 38.

Definition init_header_template : list Z :=
  let t := repeat 0 42 in
  let t := write eth_ether_type (be16 ETHER_TYPE_IPV4) t in
  let t := write eth_src_addr [0x08; 0xc0; 0xeb; 0xdc; 0xb3; 0x00] t in
  let t := write eth_dst_addr [0x08; 0xc0; 0xeb; 0xdc; 0xa1; 0x12] t in
  let t := write ip_src_addr (le_bytes 4 167772672) t in
  let t := write ip_dst_addr (le_bytes 4 167772673) t in
  let t := write ip_version_ihl [Z.lor (Z.shiftl 4 4) 5] t in
  let t := write ip_next_proto_id [IPPROTO_UDP] t in
  write udp_dst_port (be16 SERVER_POST_TYPE) t.

(** [net_send] with [size] payload bytes, which are in the buffer behind the
    header; [tx] is the number of packets the core has sent. *)
Definition net_send (tx size : Z) (payload : list Z) : list Z :=
  let f := init_header_template ++ payload in
  let f := write ip_total_length (be16 (20 + size + 8)) f in
  let f := write udp_src_port (be16 (SERVER_POST_TYPE + tx mod 128)) f in
  let f := write udp_dgram_len (be16 (8 + size)) f in
  take (Z.to_nat (size + 42)) f.

(** [net_poll_packets]: the packet buffer of a received frame. *)
Definition packet_buf (f : list Z) : list Z := drop 42 f.

(** ** The headers of the switch (headers.p4) *)

(** A header that is not valid is [None]. *)
Record header_t := Header {
  ethernet : option (list Z);
  ipv4 : option (list Z);
  ipv6 : option (list Z);
  arp : option (list Z);
  udp : option (list Z);
  roce : option (list Z);
  roce_reth : option (list Z);
  roce_aeth : option (list Z);
  lock : option (list Z);
}.

Definition no_headers : header_t := Header None None None None None None None None None.

Definition set_ethernet x h := Header (Some x) (ipv4 h) (ipv6 h) (arp h) (udp h) (roce h) (roce_reth h) (roce_aeth h) (lock h).
Definition set_ipv4 x h := Header (ethernet h) (Some x) (ipv6 h) (arp h) (udp h) (roce h) (roce_reth h) (roce_aeth h) (lock h).
Definition set_ipv6 x h := Header (ethernet h) (ipv4 h) (Some x) (arp h) (udp h) (roce h) (roce_reth h) (roce_aeth h) (lock h).
Definition set_arp x h := Header (ethernet h) (ipv4 h) (ipv6 h) (Some x) (udp h) (roce h) (roce_reth h) (roce_aeth h) (lock h).
Definition set_udp x h := Header (ethernet h) (ipv4 h) (ipv6 h) (arp h) (Some x) (roce h) (roce_reth h) (roce_aeth h) (lock h).
Definition set_roce x h := Header (ethernet h) (ipv4 h) (ipv6 h) (arp h) (udp h) (Some x) (roce_reth h) (roce_aeth h) (lock h).
Definition set_roce_reth x h := Header (ethernet h) (ipv4 h) (ipv6 h) (arp h) (udp h) (roce h) (Some x) (roce_aeth h) (lock h).
Definition set_roce_aeth x h := Header (ethernet h) (ipv4 h) (ipv6 h) (arp h) (udp h) (roce h) (roce_reth h) (Some x) (lock h).
Definition set_lock x h := Header (ethernet h) (ipv4 h) (ipv6 h) (arp h) (udp h) (roce h) (roce_reth h) (roce_aeth h) (Some x).

(** Lengths in bytes. *)
Definition ethernet_t : nat := 14.
Definition ipv4_t : nat := 20.
Definition ipv6_t : nat := 40.
Definition arp_t : nat := 28.
Definition udp_t : nat := 8.
Definition roce_t : nat := 12.
Definition roce_reth_t : nat := 16.
Definition roce_aeth_t : nat := 4.
Definition lock_hdr_t : nat := 17.

(** ** The parser (parser.p4) *)

Definition TYPE_IPV4 : Z := 0x0800.
Definition TYPE_IPV6 : Z := 0x86dd.
Definition TYPE_ARP : Z := 0x0806.
Definition TYPE_UDP : Z := 17.
Definition UDP_PORT_ROCE : Z := 4791.
Definition UDP_PORT_SERVER : Z := 20001.
Definition UDP_PORT_CLIENT : Z := 20002.
Definition ROCE_WRITE_REQ : Z := 10.
Definition ROCE_READ_REQ : Z := 12.
Definition ROCE_READ_RES : Z := 16.
Definition ROCE_WRITE_RES : Z := 17.

(** A state gets the headers so far and the rest of the frame. *)
Definition parser := header_t -> list Z -> option (header_t * list Z).

Definition accept : parser := fun h rest => Some (h, rest).

Definition extract (n : nat) (set : list Z -> header_t -> header_t) (next : list Z -> parser) : parser :=
  fun h pkt => if (length pkt <? n)%nat then None else next (take n pkt) (set (take n pkt) h) (drop n pkt).

Definition parse_lock : parser := extract lock_hdr_t set_lock (fun _ => accept).
Definition parse_roce_reth : parser := extract roce_reth_t set_roce_reth (fun _ => accept).
Definition parse_roce_aeth : parser := extract roce_aeth_t set_roce_aeth (fun _ => accept).

Definition parse_roce : parser := extract roce_t set_roce (fun roce =>
  let opcode := field 0 1 roce in
  if (opcode =? ROCE_READ_REQ) || (opcode =? ROCE_WRITE_REQ) then parse_roce_reth
  else if (opcode =? ROCE_READ_RES) || (opcode =? ROCE_WRITE_RES) then parse_roce_aeth
  else accept).

Definition udp_dst (udp : list Z) : Z := field 2 2 udp.

Definition parse_udp : parser := extract udp_t set_udp (fun udp =>
  let dst_port := udp_dst udp in
  if dst_port =? UDP_PORT_ROCE then parse_roce
  else if (dst_port =? UDP_PORT_SERVER) || (dst_port =? UDP_PORT_CLIENT) then parse_lock
  else accept).

Definition parse_ipv6 : parser := extract ipv6_t set_ipv6 (fun _ => accept).
Definition parse_arp : parser := extract arp_t set_arp (fun _ => accept).

Definition parse_ipv4 : parser := extract ipv4_t set_ipv4 (fun ipv4 =>
  if field 9 1 ipv4 =? TYPE_UDP then parse_udp else accept).

Definition parse_ethernet : parser := extract ethernet_t set_ethernet (fun ethernet =>
  let l3_proto := field 12 2 ethernet in
  if l3_proto =? TYPE_IPV4 then parse_ipv4
  else if l3_proto =? TYPE_IPV6 then parse_ipv6
  else if l3_proto =? TYPE_ARP then parse_arp
  else accept).

(** The ingress and the egress parser have the same states. *)
Definition parse (f : list Z) : option (header_t * list Z) := parse_ethernet no_headers f.

(** ** The deparsers *)

Definition emit_hdr (h : option (list Z)) : list Z := default [] h.

Definition deparse (h : header_t) (payload : list Z) : list Z :=
  emit_hdr (ethernet h) ++ emit_hdr (ipv4 h) ++ emit_hdr (ipv6 h) ++ emit_hdr (arp h) ++ emit_hdr (udp h) ++
  emit_hdr (roce h) ++ emit_hdr (roce_reth h) ++ emit_hdr (roce_aeth h) ++ emit_hdr (lock h) ++ payload.

Section switch.
(** The checksum unit. *)
Context (checksum_update : list Z -> Z).

(** The checksum is at offset 10 of the IPv4 header and covers the rest. *)
Definition ipv4_checksum (ip : list Z) : list Z :=
  write 10 (be16 (checksum_update (take 10 ip ++ drop 12 ip))) ip.

Definition ingress_deparse (h : header_t) (payload : list Z) : list Z :=
  deparse (match ipv4 h with Some ip => set_ipv4 (ipv4_checksum ip) h | None => h end) payload.

(** ** The pipelines *)

(** The lock header as the packet without a body. *)
Definition lock_packet (lk : list Z) : packet := Packet (le_value (take 1 lk)) (decode_hdr (drop 1 lk)) [] [].
Definition lock_header (p : packet) : list Z := le_bytes 1 (pk_type p) ++ encode_hdr (pk_hdr p).

Definition set_dst_port (port : Z) (h : header_t) : header_t :=
  match udp h with Some u => set_udp (write 2 (be16 port) u) h | None => h end.

(** The UDP port each action of lock.p4 writes. *)
Definition op_port (o : lock_op) (port : Z) : Z :=
  match o with
  | new_agent | transfer_agent => UDP_PORT_CLIENT
  | fwd_to_agent => UDP_PORT_SERVER
  | mcast_to_agent | reset_agent | nop => port
  end.

Definition fission_port (r : lock_regs) (p : packet) (port : Z) : Z :=
  let '(_, agent_changed) := counter_table p (notification_cnt r) in
  let t := pk_type p in
  if ((t =? POST_LOCK_TRANSFER) || (t =? POST_LOCK_FREE)) && negb (pkt_old_mode p) && negb agent_changed then port
  else if t =? POST_LOCK_GRANT_WO_AGENT then port
  else
    let '(_, rw) := rw_table p (lock_free_mode r) (lock_rw_mode r) in
    op_port (lock_operation p (lock_free_mode r) rw) port.

(** The port after the ingress pipeline (ingress.p4). *)
Definition ingress_port (s : switch) (p : packet) (port : Z) : Z :=
  let p := clear_bit 6 (clear_bit 7 p) in
  let i := lid_of (pk_hdr p) in
  if i / SLICE_SIZE <? 3 then fission_port (regs_at s i) p port
  else if pk_type p =? POST_LOCK_GRANT_WO_AGENT then UDP_PORT_CLIENT else port.

Definition egress_port (rid : Z) (p : packet) (port : Z) : Z :=
  if hdr_bit 7 p && (rid =? 2) then UDP_PORT_CLIENT
  else if hdr_bit 7 p && (rid =? 1) then UDP_PORT_SERVER else port.

Definition dst_port (h : header_t) : Z := default 0 (u ← udp h; Some (udp_dst u)).

Section asic.
Context {D T : Type} `{!McManager D, !MatTable T} (a : asic D T).

(** [IngressPipe]: the registers, the headers and where the traffic manager
    sends copies, as port and replication id. *)
Definition ingress (s : switch) (h : header_t) : switch * header_t * list (Z * Z) :=
  match lock h with
  | Some lk =>
      let p := lock_packet lk in
      let '(s', q, dest2) := tofino_ingress s p in
      (s', set_lock (lock_header q) (set_dst_port (ingress_port s p (dst_port h)) h),
       replicas a (agent (pk_hdr q)) (dest2 + 128))
  | None =>
      (s, h, match ethernet h with
             | Some e => match eth_forward a (field 0 6 e) with Some port => [(port, 0)] | None => [] end
             | None => []
             end)
  end.

(** [EgressPipe]. *)
Definition egress (rid : Z) (h : header_t) : header_t :=
  match lock h with
  | Some lk =>
      let p := lock_packet lk in
      set_lock (lock_header (tofino_egress rid p)) (set_dst_port (egress_port rid p (dst_port h)) h)
  | None => h
  end.

Definition egress_frame (rid : Z) (f : list Z) : option (list Z) :=
  '(h, payload) ← parse f; Some (deparse (egress rid h) payload).

(** A frame that enters the switch: the registers, and the frames that leave it
    with their ports. *)
Definition switch_frame (s : switch) (f : list Z) : switch * list (Z * list Z) :=
  match parse f with
  | None => (s, [])
  | Some (h, payload) =>
      let '(s', h', copies) := ingress s h in
      let f' := ingress_deparse h' payload in
      (s', omap (fun '(port, rid) => g ← egress_frame rid f'; Some (port, g)) copies)
  end.
End asic.
End switch.

(** ** Bytes *)

Lemma be_value_be16 v : 0 <= v < 65536 -> be_value (be16 v) = v.
Proof.
  intros Hv. unfold be_value, be16, u8, uw. cbn [rev app]. unfold le_value. rewrite Z.shiftr_div_pow2 by done.
  change (2 ^ 8) with 256. rewrite (Z.mod_small (v / 256)) by (split; [by apply Z.div_pos; lia|apply Z.div_lt_upper_bound; lia]).
  pose proof (Z.div_mod v 256 ltac:(done)). lia.
Qed.

Lemma length_write off bs l : (off + length bs <= length l)%nat -> length (write off bs l) = length l.
Proof. intros Hl. unfold write. rewrite !length_app, length_take, length_drop. lia. Qed.

(** A field that a store before or behind it leaves, and the field it stores. *)
Lemma field_write_before o n off bs l : (o + n <= off)%nat -> (off <= length l)%nat -> field o n (write off bs l) = field o n l.
Proof.
  intros Ho Hl. unfold field, slice, write. f_equal. rewrite drop_app_le by (rewrite length_take; lia).
  rewrite take_app_le by (rewrite length_drop, length_take; lia). by rewrite take_drop_commute, take_take, Nat.min_l, <- take_drop_commute by lia.
Qed.

Lemma field_write off bs l : (off <= length l)%nat -> field off (length bs) (write off bs l) = be_value bs.
Proof.
  intros Hl. unfold field, slice, write. f_equal. rewrite drop_app_length' by (rewrite length_take; lia). by rewrite take_app_length.
Qed.

Lemma udp_dst_set port u : length u = udp_t -> 0 <= port < 65536 -> udp_dst (write 2 (be16 port) u) = port.
Proof. unfold udp_t. intros Hu Hp. unfold udp_dst. change 2%nat with (length (be16 port)) at 2. rewrite field_write by lia. by apply be_value_be16. Qed.

(** ** Frames with a lock packet *)

Definition lock_port (port : Z) : Prop := port = UDP_PORT_SERVER \/ port = UDP_PORT_CLIENT.

Record udp_headers (e i u : list Z) : Prop := {
  uh_ethernet : length e = ethernet_t;
  uh_ipv4 : length i = ipv4_t;
  uh_udp : length u = udp_t;
  uh_l3 : field 12 2 e = TYPE_IPV4;
  uh_l4 : field 9 1 i = TYPE_UDP;
}.

Definition lock_frame (p : packet) (f : list Z) : Prop :=
  exists e i u, f = e ++ i ++ u ++ encode_post p /\ udp_headers e i u /\ lock_port (udp_dst u).

(** What the host reads in a received frame. *)
Lemma lock_frame_post p f : lock_frame p f -> packet_wf p -> decode_post (packet_buf f) = Some p.
Proof.
  intros (e & i & u & -> & [He Hi Hu _ _] & _) Hp. unfold packet_buf. rewrite !app_assoc, drop_app_length'.
  - by apply decode_encode_post.
  - by rewrite !length_app, He, Hi, Hu.
Qed.

Lemma encode_split p : encode_post p = lock_header p ++ pk_body p.
Proof. unfold encode_post, lock_header, pk_body. by rewrite <- !app_assoc. Qed.

Lemma length_lock_header p : length (lock_header p) = lock_hdr_t.
Proof. unfold lock_header. by rewrite length_app, length_le_bytes, length_encode_hdr. Qed.

(** A packet with another body. *)
Definition rebody (w : list wqe) (x : list Z) (p : packet) : packet := Packet (pk_type p) (pk_hdr p) w x.
Abbreviation bare := (rebody [] []).

Lemma lock_packet_header p : packet_wf p -> lock_packet (lock_header p) = bare p.
Proof.
  intros [Ht Hh _ _]. unfold lock_packet, lock_header, rebody. unfold in_uw in Ht. f_equal.
  - rewrite take_app_length' by (by rewrite length_le_bytes). by rewrite le_value_bytes_small by (simpl; lia).
  - rewrite drop_app_length' by (by rewrite length_le_bytes). by apply decode_encode_hdr.
Qed.

(** ** The parser and the deparser *)

Lemma extract_app n set next h x rest : length x = n -> extract n set next h (x ++ rest) = next x (set x h) rest.
Proof.
  intros <-. unfold extract. rewrite length_app. destruct (Nat.ltb_spec (length x + length rest) (length x)); [lia|].
  by rewrite take_app_length, drop_app_length.
Qed.

Lemma parse_headers e i u rest :
  udp_headers e i u ->
  parse (e ++ i ++ u ++ rest) =
    (if udp_dst u =? UDP_PORT_ROCE then parse_roce
     else if (udp_dst u =? UDP_PORT_SERVER) || (udp_dst u =? UDP_PORT_CLIENT) then parse_lock else accept)
      (Header (Some e) (Some i) None None (Some u) None None None None) rest.
Proof.
  intros [He Hi Hu Hl3 Hl4]. unfold parse, parse_ethernet. rewrite extract_app by done. cbv zeta. rewrite Hl3. cbn [Z.eqb].
  change (TYPE_IPV4 =? TYPE_IPV4) with true. cbv iota. unfold parse_ipv4. rewrite extract_app by done.
  rewrite Hl4. change (TYPE_UDP =? TYPE_UDP) with true. cbv iota. unfold parse_udp. by rewrite extract_app.
Qed.

Lemma parse_lock_frame e i u p :
  udp_headers e i u -> lock_port (udp_dst u) ->
  parse (e ++ i ++ u ++ encode_post p) =
    Some (Header (Some e) (Some i) None None (Some u) None None None (Some (lock_header p)), pk_body p).
Proof.
  intros Hh Hp. rewrite parse_headers, encode_split by done.
  destruct Hp as [-> | ->]; cbn; (unfold parse_lock; by rewrite extract_app by apply length_lock_header).
Qed.

Lemma deparse_lock e i u l body :
  deparse (Header (Some e) (Some i) None None (Some u) None None None (Some l)) body = e ++ i ++ u ++ l ++ body.
Proof. unfold deparse. cbn. by rewrite ?app_nil_r. Qed.

(** ** The pipelines on a packet without its body *)

Lemma fission_rebody r w x p :
  fission r (rebody w x p) = let '(r', q, d, mc) := fission r p in (r', rebody w x q, d, mc).
Proof.
  unfold fission. change (counter_table (rebody w x p)) with (counter_table p).
  destruct (counter_table p (notification_cnt r)) as [n ch]. cbv zeta. change (pk_type (rebody w x p)) with (pk_type p).
  change (pkt_old_mode (rebody w x p)) with (pkt_old_mode p). destruct (_ && _ && _); [done|].
  destruct (pk_type p =? POST_LOCK_GRANT_WO_AGENT); [done|]. change (rw_table (rebody w x p)) with (rw_table p).
  destruct (rw_table p _ _) as [rw' rw]. change (lock_operation (rebody w x p)) with (lock_operation p).
  by destruct (lock_operation p _ rw).
Qed.

Lemma ingress_rebody s w x p :
  tofino_ingress s (rebody w x p) = let '(s', q, d) := tofino_ingress s p in (s', rebody w x q, d).
Proof.
  unfold tofino_ingress. change (lid_of (pk_hdr (clear_bit 6 (clear_bit 7 (rebody w x p))))) with (lid_of (pk_hdr (clear_bit 6 (clear_bit 7 p)))).
  change (clear_bit 6 (clear_bit 7 (rebody w x p))) with (rebody w x (clear_bit 6 (clear_bit 7 p))).
  destruct (_ <? 3); [|done]. rewrite fission_rebody. destruct (fission _ _) as [[[r' q] d] mc]. by destruct mc.
Qed.

Lemma egress_rebody rid w x p : tofino_egress rid (rebody w x p) = rebody w x (tofino_egress rid p).
Proof.
  unfold tofino_egress, egress_rid. change (hdr_bit 7 (rebody w x p)) with (hdr_bit 7 p).
  by destruct (hdr_bit 7 p), (rid =? 2), (rid =? 1).
Qed.

(** ** What the pipelines keep *)

(** Same body, still a packet, and hosts stay below 64. *)
Definition hosts_below (p : packet) : Prop := 0 <= machine_id (pk_hdr p) < 64 /\ 0 <= agent (pk_hdr p) < 64.
Definition regs_below (r : lock_regs) : Prop := 0 <= lock_agent r < 64.

Record kept (p q : packet) : Prop := {
  kept_wf : packet_wf q;
  kept_hosts : hosts_below q;
  kept_wq : pk_wq q = pk_wq p;
  kept_extra : pk_extra q = pk_extra p;
}.

Lemma kept_refl p : packet_wf p -> hosts_below p -> kept p p.
Proof. by split. Qed.

Lemma mode_byte i b : 0 <= i < 8 -> in_uw 8 b -> in_uw 8 (Z.lor b (2 ^ i)) /\ in_uw 8 (Z.land b (255 - 2 ^ i)).
Proof.
  unfold in_uw. change (2 ^ 8) with 256. intros Hi Hb.
  assert (H : forallb (fun i => forallb (fun b => (0 <=? Z.lor b (2 ^ i)) && (Z.lor b (2 ^ i) <? 256) &&
    (0 <=? Z.land b (255 - 2 ^ i)) && (Z.land b (255 - 2 ^ i) <? 256)) (seqZ 0 256)) (seqZ 0 8) = true) by by vm_compute.
  rewrite forallb_forall in H. specialize (H i). rewrite <- list_elem_of_In, elem_of_seqZ, forallb_forall in H.
  specialize (H ltac:(lia) b). rewrite <- list_elem_of_In, elem_of_seqZ in H. specialize (H ltac:(lia)).
  rewrite !andb_true_iff in H. lia.
Qed.

Lemma kept_mode p q f : kept p q -> (forall b, in_uw 8 b -> in_uw 8 (f b)) -> kept p (set_mode_byte f q).
Proof. intros [[Ht Hh Hw Hs] Hb E1 E2] Hf. split; [|done..]. split; [done| |done..]. destruct Hh as [Hm Hh]. split; [by apply Hf|done]. Qed.

Lemma kept_set i p q : 0 <= i < 8 -> kept p q -> kept p (set_bit i q).
Proof. intros Hi Hk. apply kept_mode; [done|]. intros b Hb. by apply mode_byte. Qed.

Lemma kept_clear i p q : 0 <= i < 8 -> kept p q -> kept p (clear_bit i q).
Proof. intros Hi Hk. apply kept_mode; [done|]. intros b Hb. by apply mode_byte. Qed.

Lemma kept_type t p q : in_uw 8 t -> kept p q -> kept p (set_type t q).
Proof. intros Ht [[? ? ? ?] ? ? ?]. by split. Qed.

Lemma kept_agent a p q : 0 <= a < 64 -> kept p q -> kept p (set_agent a q).
Proof.
  intros Ha [[Ht (H1 & H2 & H3 & H4 & H5 & H6 & H7) Hw Hs] [Hm _] E1 E2]. split; [|by split|done..].
  split; [done| |done..]. unfold in_uw in *. repeat split; try done; cbn; lia.
Qed.

Create HintDb kept.
#[local] Hint Resolve kept_set kept_clear kept_type kept_agent : kept.
#[local] Hint Extern 1 (in_uw 8 _) => by vm_compute : kept.
#[local] Hint Extern 1 (_ <= _ < _) => lia : kept.

Lemma kept_fission r p q :
  kept p q -> regs_below r ->
  let '(r', q', d, _) := fission r q in kept p q' /\ regs_below r' /\ 0 <= d < 64.
Proof.
  intros Hk Hr. pose proof (kept_hosts p q Hk) as [Hm _]. unfold fission, regs_below in *.
  destruct (counter_table q _) as [n ch]. cbv zeta. destruct (_ && _ && _); [auto with lia|].
  destruct (pk_type q =? POST_LOCK_GRANT_WO_AGENT); [auto with lia kept|].
  destruct (rw_table q _ _) as [rw' rw]. destruct (lock_operation q _ rw); cbn; split_and!; auto with lia kept.
Qed.

Definition regs_ok (s : switch) : Prop := map_Forall (fun _ => regs_below) s.

Lemma kept_ingress s p :
  packet_wf p -> hosts_below p -> regs_ok s ->
  let '(s', q, d) := tofino_ingress s p in kept p q /\ regs_ok s' /\ 0 <= d < 64.
Proof.
  intros Hp Hb Hs. pose proof (kept_refl p Hp Hb) as Hk. unfold tofino_ingress.
  assert (Hc : kept p (clear_bit 6 (clear_bit 7 p))) by auto with kept.
  destruct (_ <? 3); [|done]. set (i := lid_of _).
  assert (Hr : regs_below (regs_at s i)).
  { unfold regs_at. destruct (s !! i) eqn:E; cbn; [by apply (Hs i)|unfold regs_below; cbn; lia]. }
  pose proof (kept_fission _ p _ Hc Hr) as H. destruct (fission _ _) as [[[r' q] d] mc]. destruct H as (H1 & H2 & H3).
  split_and!; [by destruct mc; auto with kept|by apply map_Forall_insert_2|lia..].
Qed.

Lemma kept_egress rid p q : kept p q -> kept p (tofino_egress rid q).
Proof.
  intros Hk. unfold tofino_egress, egress_rid. destruct (_ && _); [|done]. destruct (rid =? 2); [auto with kept|].
  destruct (rid =? 1); auto with kept.
Qed.

Lemma fission_port_lock r p port : lock_port port -> lock_port (fission_port r p port).
Proof.
  intros Hp. unfold fission_port. destruct (counter_table p _) as [n ch]. destruct (_ && _ && _); [done|].
  destruct (_ =? _); [done|]. destruct (rw_table p _ _) as [rw' rw]. unfold lock_port in *. destruct (lock_operation p _ rw); cbn; auto.
Qed.

Lemma ingress_port_lock s p port : lock_port port -> lock_port (ingress_port s p port).
Proof.
  intros Hp. unfold ingress_port. destruct (_ <? _); [by apply fission_port_lock|]. unfold lock_port. destruct (_ =? _); auto.
Qed.

Lemma egress_port_lock rid p port : lock_port port -> lock_port (egress_port rid p port).
Proof. intros Hp. unfold egress_port, lock_port. destruct (_ && _); [auto|]. destruct (_ && _); auto. Qed.

(** ** A lock frame in the switch *)

Lemma udp_headers_port e i u port : udp_headers e i u -> udp_headers e i (write 2 (be16 port) u).
Proof. intros [? ? Hu ? ?]. split; try done. unfold udp_t in *. rewrite length_write by (rewrite Hu; cbn; lia). done. Qed.

Lemma udp_headers_checksum ck e i u : udp_headers e i u -> udp_headers e (ipv4_checksum ck i) u.
Proof.
  intros [? Hi ? ? Hl]. unfold ipv4_checksum, ipv4_t in *. split; try done.
  - by rewrite length_write by (rewrite Hi; cbn; lia).
  - by rewrite field_write_before by lia.
Qed.

Lemma lock_port_range port : lock_port port -> 0 <= port < 65536.
Proof. unfold lock_port, UDP_PORT_SERVER, UDP_PORT_CLIENT. lia. Qed.

(** The frame of another packet with the same body, behind the same headers. *)
Lemma lock_frame_of e i u port p q :
  udp_headers e i u -> lock_port port -> kept p q ->
  lock_frame q (e ++ i ++ write 2 (be16 port) u ++ lock_header q ++ pk_body p).
Proof.
  intros Hh Hp Hk. exists e, i, (write 2 (be16 port) u). split_and!.
  - rewrite encode_split. unfold pk_body. by rewrite (kept_wq p q Hk), (kept_extra p q Hk).
  - by apply udp_headers_port.
  - rewrite udp_dst_set; [done|apply Hh|by apply lock_port_range].
Qed.

Lemma egress_lock rid p f :
  lock_frame p f -> packet_wf p -> hosts_below p ->
  exists g, egress_frame rid f = Some g /\ lock_frame (tofino_egress rid p) g.
Proof.
  intros (e & i & u & -> & Hh & Hport) Hp Hb. unfold egress_frame. rewrite parse_lock_frame by done.
  cbn [mbind option_bind]. eexists. split; [reflexivity|]. unfold egress. cbn [lock]. rewrite lock_packet_header by done.
  unfold set_dst_port, set_lock, set_udp. cbn [udp ethernet ipv4 ipv6 arp roce roce_reth roce_aeth lock]. rewrite deparse_lock.
  replace (lock_header (tofino_egress rid (bare p))) with (lock_header (tofino_egress rid p)) by by rewrite egress_rebody.
  apply lock_frame_of; [done|by apply egress_port_lock|by apply kept_egress, kept_refl].
Qed.

(** Copies one after the other. *)
Lemma copies_frames (n : Z) (port_of : Z -> Z) (q : packet) (f' : list Z) (l : list Z) :
  lock_frame q f' -> packet_wf q -> hosts_below q ->
  Forall2 (fun '(h, c) '(port, g) => port = port_of h /\ lock_frame c g /\ decode_post (packet_buf g) = Some c)
    (omap (fun g => '(h, rid) ← mgrp n g; Some (h, tofino_egress rid q)) l)
    (omap (fun '(port, rid) => g ← egress_frame rid f'; Some (port, g))
       (omap (fun g => '(h, rid) ← mgrp n g; Some (port_of h, rid)) l)).
Proof.
  intros Hf Hq Hb. induction l as [|x l IH]; [constructor|]. cbn [omap list_omap].
  destruct (mgrp n x) as [[h rid]|]; cbn [mbind option_bind]; [|done]. cbn [omap list_omap].
  destruct (egress_lock rid q f' Hf Hq Hb) as (g & -> & Hg). cbn [mbind option_bind]. constructor; [|done].
  split_and!; [done|done|]. apply lock_frame_post; [done|]. by apply (kept_wf q), kept_egress, kept_refl.
Qed.

(** C20: the switch does with a frame what its model does with the packet in it.
    After the control plane has started on a cluster, a frame with a lock packet
    of hosts below 64 - as net_send makes it or as the switch has sent it - is
    parsed, goes through the lock branch of the ingress pipeline, is replicated
    by the multicast groups, and every copy is parsed again, passes the egress
    pipeline and leaves at the port of its host: the registers and the copies are
    those of [tofino], each frame again holds a lock packet behind UDP headers of
    a port of the lock service, and what the receiving host decodes is the copy,
    its wait queue and appended bytes included. *)
Theorem lock_frames_switched {D T : Type} `{!McManager D, !MatTable T, !McManagerLaws D, !MatTableLaws T}
    checksum ms (a0 : asic D T) s p f :
  startable ms a0 -> regs_ok s -> packet_wf p -> hosts_below p -> lock_frame p f ->
  exists a, driver_init ms a0 = Ok (tt, a, []) /\
    (switch_frame checksum a s f).1 = (tofino (Z.of_nat (length ms)) s p).1 /\ regs_ok (switch_frame checksum a s f).1 /\
    Forall2 (fun '(h, q) '(port, g) => port = host_port ms h /\ lock_frame q g /\ decode_post (packet_buf g) = Some q)
      (tofino (Z.of_nat (length ms)) s p).2 (switch_frame checksum a s f).2.
Proof.
  intros Hst Hs Hp Hb (e & i & u & -> & Hh & Hport).
  destruct (driver_installed ms a0 Hst) as (a & E & Ha). exists a. split; [done|].
  unfold switch_frame. rewrite parse_lock_frame by done. unfold ingress. cbn [lock]. rewrite lock_packet_header, ingress_rebody by done.
  unfold tofino. pose proof (kept_ingress s p Hp Hb Hs) as H. destruct (tofino_ingress s p) as [[s' q] d].
  destruct H as (Hk & Hs' & Hd). cbn [fst snd]. split_and!; [done|done|].
  unfold ingress_deparse, set_dst_port, set_lock, set_udp, set_ipv4. cbn [udp ethernet ipv4 ipv6 arp roce roce_reth roce_aeth lock].
  rewrite deparse_lock. pose proof (kept_hosts p q Hk) as [_ Hag].
  rewrite (installed_replicas ms a _ d Ha (st_machines ms a0 Hst)) by (cbn; lia). unfold tofino_copies.
  apply copies_frames; [|apply Hk|apply Hk].
  change (lock_header (bare q)) with (lock_header q).
  apply (lock_frame_of e (ipv4_checksum checksum i) u); [by apply udp_headers_checksum|by apply ingress_port_lock|done].
Qed.

(** ** What net_send makes *)

Lemma sent_bytes tx (payload rest : list Z) :
  let size := Z.of_nat (length payload) in
  net_send tx size (payload ++ rest) =
    [0x08; 0xc0; 0xeb; 0xdc; 0xa1; 0x12; 0x08; 0xc0; 0xeb; 0xdc; 0xb3; 0x00; 8; 0] ++
    ([0x45; 0] ++ be16 (20 + size + 8) ++ [0; 0; 0; 0; 0; 17; 0; 0; 0; 2; 0; 10; 1; 2; 0; 10]) ++
    (be16 (SERVER_POST_TYPE + tx mod 128) ++ be16 SERVER_POST_TYPE ++ be16 (8 + size) ++ [0; 0]) ++ payload.
Proof.
  intros size. set (eth := [_; _; _; _; _; _; _; _; _; _; _; _; _; _]). set (ip := [_; _] ++ _). set (udp := be16 _ ++ _).
  change (net_send tx size (payload ++ rest)) with (take (Z.to_nat (size + 42)) (eth ++ ip ++ udp ++ payload ++ rest)).
  rewrite !app_assoc. rewrite take_app_le; rewrite <- ?app_assoc; [|rewrite !length_app; cbn; lia].
  apply take_ge. rewrite !length_app. cbn. lia.
Qed.

Lemma sent_lock_frame tx p rest : lock_frame p (net_send tx (bytes p) (encode_post p ++ rest)).
Proof. unfold bytes. rewrite (sent_bytes tx (encode_post p) rest). do 3 eexists. split; [reflexivity|]. by repeat split; try left. Qed.

(** C21: net_send makes a frame for the switch. The packet that lib/post.c has put
    behind the header, and the template with the two lengths and the source port
    written into it, are a frame with the packet for the parser of the switch;
    its lengths are those of the model of the framing, and what a host reads
    behind the header is the packet. Bytes of the buffer behind the packet stay
    out of the frame. *)
Theorem sent_frame tx s rest :
  packet_wf (s_pkt s) -> s_size s = bytes (s_pkt s) -> bytes (s_pkt s) < 65536 - hdrs ->
  let f := net_send tx (s_size s) (encode_post (s_pkt s) ++ rest) in
  let m := Net.net_send s in
  lock_frame (s_pkt s) f /\ Z.of_nat (length f) = data_len m /\ pkt_len m = data_len m /\
  field ip_total_length 2 f = total_length m /\ field udp_dgram_len 2 f = dgram_len m /\
  field udp_src_port 2 f = SERVER_POST_TYPE + tx mod 128 /\
  decode_post (packet_buf f) = Some (s_pkt s).
Proof.
  intros Hp Hs Hb f m. unfold f. rewrite Hs. unfold bytes in *. pose proof (length_encode_post (s_pkt s)) as Hlen.
  change hdrs with 42 in Hb.
  pose proof (sent_bytes tx (encode_post (s_pkt s)) rest) as E. cbv zeta in E. rewrite E.
  set (size := Z.of_nat (length (encode_post (s_pkt s)))) in *. set (b := encode_post (s_pkt s)) in *.
  assert (H16 : forall v, 0 <= v < 65536 -> u16 v = v) by (intros v Hv; by apply uw_small).
  pose proof (sent_lock_frame tx (s_pkt s) rest) as Hl. unfold bytes in Hl. fold b size in Hl. rewrite E in Hl. split; [done|]. subst m. unfold Net.net_send, frame_of. cbn [data_len pkt_len total_length dgram_len].
  rewrite Hs. fold size. change hdrs with 42. change sizeof_ipv4_hdr with 20. change sizeof_udp_hdr with 8.
  rewrite !H16 by lia. rewrite (uw_small 32) by (unfold in_uw; lia).
  assert (Htx : 0 <= tx mod 128 < 128) by (by apply Z.mod_pos_bound).
  split_and!; [rewrite !length_app; cbn; lia|done| | | |by apply lock_frame_post].
  - etransitivity; [reflexivity|apply be_value_be16; lia].
  - etransitivity; [reflexivity|apply be_value_be16; lia].
  - etransitivity; [reflexivity|apply be_value_be16; unfold SERVER_POST_TYPE; lia].
Qed.

Definition transfer0 : sent := send_post_transfer None 1 LOCK_EXCL 70000 3 40000 [mk_wqe LOCK_SHARED 9 4] 5 LOCK_SHARED.

Lemma transfer0_wf : packet_wf (s_pkt transfer0).
Proof. apply send_post_lock_generic_wf; [constructor; [apply mk_wqe_wf|constructor]|done]. Qed.

Lemma sent_frame_witness :
  let f := net_send 130 (s_size transfer0) (encode_post (s_pkt transfer0) ++ [0; 0]) in
  let m := Net.net_send transfer0 in
  lock_frame (s_pkt transfer0) f /\ Z.of_nat (length f) = data_len m /\ pkt_len m = data_len m /\
  field ip_total_length 2 f = total_length m /\ field udp_dgram_len 2 f = dgram_len m /\
  field udp_src_port 2 f = SERVER_POST_TYPE + 130 mod 128 /\
  decode_post (packet_buf f) = Some (s_pkt transfer0).
Proof.
  apply (sent_frame 130 transfer0 [0; 0]).
  - exact transfer0_wf.
  - vm_compute. reflexivity.
  - vm_compute. reflexivity.
Defined.

(** The transfer of a lock that host 1 has, on the cluster. *)
Definition regs0 : switch := {[ 70000 := Regs true true 1 5 ]}.

Lemma lock_frames_switched_witness :
  let p := s_pkt transfer0 in
  let f := net_send 130 (bytes p) (encode_post p ++ []) in
  exists a, driver_init cluster empty_asic = Ok (tt, a, []) /\
    (switch_frame (fun _ => 0) a regs0 f).1 = (tofino 8 regs0 p).1 /\ regs_ok (switch_frame (fun _ => 0) a regs0 f).1 /\
    Forall2 (fun '(h, q) '(port, g) => port = host_port cluster h /\ lock_frame q g /\ decode_post (packet_buf g) = Some q)
      (tofino 8 regs0 p).2 (switch_frame (fun _ => 0) a regs0 f).2.
Proof.
  apply (lock_frames_switched (fun _ => 0) cluster empty_asic regs0 (s_pkt transfer0)).
  - exact cluster_startable.
  - apply map_Forall_singleton. unfold regs_below. cbn. lia.
  - exact transfer0_wf.
  - unfold hosts_below. vm_compute. repeat split; congruence.
  - exact (sent_lock_frame 130 (s_pkt transfer0) []).
Defined.

(** The frame, byte for byte, and the copy that leaves the switch. *)
Example transfer0_frame :
  net_send 130 (s_size transfer0) (encode_post (s_pkt transfer0)) =
    [0x08; 0xc0; 0xeb; 0xdc; 0xa1; 0x12; 0x08; 0xc0; 0xeb; 0xdc; 0xb3; 0x00; 0x08; 0x00;
     0x45; 0; 0; 50; 0; 0; 0; 0; 0; 17; 0; 0; 0; 2; 0; 10; 1; 2; 0; 10; 0x4e; 0x23; 0x4e; 0x21; 0; 30; 0; 0] ++
    encode_post (s_pkt transfer0).
Proof. vm_compute. reflexivity. Qed.

Example transfer0_switched :
  match driver_init cluster empty_asic with
  | Ok (_, a, _) => map fst (switch_frame (fun _ => 0) a regs0 (net_send 130 (s_size transfer0) (encode_post (s_pkt transfer0)))).2
  | Fault _ => []
  end = [4].
Proof. vm_compute. reflexivity. Qed.
