(* ===== verification/ParFrames.v ===== *)
(** * ParFrames: the frames of ParLock

    Models the bytes that baseline/ParLock/lib/net.cc sends and reads: the
    header template, what net_send writes into it, and the fields that
    net_poll_packets takes from a received frame.  ParLock's hosts are connected
    by the FissLock switch, which forwards their frames by Ethernet address: the
    theorem sends a message through the switch program with the forwarding table
    of its control plane. *)

From S2P Require Import Prelude Types Post Switch ControlPlane ParQueue Frames.

(** ** The header template *)

Definition sizeof_lock_post_header : nat := 11.

(** Host 1 first. *)
Definition mac_list : list (list Z) :=
  [[0x10; 0x70; 0xfd; 0x0d; 0xe2; 0x30]; [0x08; 0xc0; 0xeb; 0xfd; 0x52; 0xc4];
   [0x08; 0xc0; 0xeb; 0xfe; 0x8c; 0x50]; [0x10; 0x70; 0xfd; 0x0d; 0xe4; 0x48];
   [0x08; 0xc0; 0xeb; 0xde; 0x01; 0x56]; [0x08; 0xc0; 0xeb; 0xdc; 0xb3; 0x0a];
   [0x08; 0xc0; 0xeb; 0xde; 0x01; 0x1a]; [0x08; 0xc0; 0xeb; 0xdc; 0xa1; 0x5a]].

Definition mac_at (host : Z) : result (list Z) :=
  match mac_list !! Z.to_nat (host - 1) with Some m => Ok m | None => Fault FaultBounds end.

Definition SERVER_POST_TYPE : Z := 30001.
Definition CLIENT_POST_TYPE : Z := 30002.

(** Offsets of the fields of lock_post_header behind the three headers. *)
Definition lk_post_type : nat := 42.
Definition lk_op : nat := 43.
Definition lk_lock_id : nat := 44.
Definition lk_machine_id : nat := 48.
Definition lk_lh_id : nat := 49.

Definition init_header_template (LOCALHOST_ID : Z) : result (list Z) :=
  mac ← mac_at LOCALHOST_ID;
  let size := Z.of_nat sizeof_lock_post_header in
  let t := repeat 0 (42 + sizeof_lock_post_header) in
  let t := write eth_ether_type (be16 ETHER_TYPE_IPV4) t in
  let t := write eth_src_addr mac t in
  let t := write eth_dst_addr mac t in
  let t := write ip_src_addr (le_bytes 4 167772672) t in
  let t := write ip_dst_addr (le_bytes 4 167772673) t in
  let t := write ip_total_length (be16 (20 + size + 8)) t in
  let t := write ip_next_proto_id [IPPROTO_UDP] t in
  let t := write ip_version_ihl [Z.lor (Z.shiftl 4 4) 5] t in
  let t := write udp_src_port (be16 1234) t in
  let t := write udp_dst_port (be16 1234) t in
  Ok (write udp_dgram_len (be16 (8 + size)) t).

(** ** Sending and receiving *)

(** [header_template] is that of the sending host; [tx] is the number of packets
    the core has sent. *)
Definition net_send (header_template : list Z) (tx dest post_type op lock_id machine_id lh_id : Z) : result (list Z) :=
  mac ← mac_at dest;
  let f := write eth_dst_addr mac header_template in
  let f := write ip_src_addr (le_bytes 4 (167772672 + tx mod 256)) f in
  let f := write ip_dst_addr (le_bytes 4 (167772672 + tx mod 256)) f in
  let f := write udp_dst_port
    (be16 (if (post_type =? POST_LOCK_REQ) || (post_type =? POST_UNLOCK_REQ) then SERVER_POST_TYPE else CLIENT_POST_TYPE)) f in
  let f := write lk_machine_id [u8 machine_id] f in
  let f := write lk_lh_id (le_bytes 4 lh_id) f in
  let f := write lk_lock_id (le_bytes 4 lock_id) f in
  let f := write lk_op [u8 op] f in
  Ok (write lk_post_type [u8 post_type] f).

(** The header that [net_poll_packets] copies from a frame and dispatches;
    [None]: the frame is dropped. *)
Definition net_poll (f : list Z) : option lock_post_header :=
  if negb (field udp_src_port 2 f =? 1234) then None
  else Some (Hdr (le_value (slice lk_post_type 1 f)) (le_value (slice lk_op 1 f)) (le_value (slice lk_lock_id 4 f))
                 (le_value (slice lk_machine_id 1 f)) (le_value (slice lk_lh_id 4 f))).

(** ** A message *)

Definition is_host (h : Z) : Prop := 1 <= h <= 8.

Lemma host_cases (P : Z -> Prop) : P 1 -> P 2 -> P 3 -> P 4 -> P 5 -> P 6 -> P 7 -> P 8 -> forall h, is_host h -> P h.
Proof.
  intros H1 H2 H3 H4 H5 H6 H7 H8 h Hh. unfold is_host in Hh.
  assert (h = 1 \/ h = 2 \/ h = 3 \/ h = 4 \/ h = 5 \/ h = 6 \/ h = 7 \/ h = 8) as Hc by lia.
  by destruct Hc as [-> | [-> | [-> | [-> | [-> | [-> | [-> | ->]]]]]]].
Qed.

(** The addresses in the two tables, ParLock's and the control plane's. *)
Lemma cluster_macs h : is_host h ->
  exists m, mac_at h = Ok m /\ length m = 6%nat /\ port_of_mac cluster (be_value m) = Some (host_port cluster h).
Proof. revert h. apply host_cases; (eexists; split; [reflexivity|split; [reflexivity|vm_compute; reflexivity]]). Qed.

(** The bytes of a message, by header. *)
Definition par_ethernet (dst src : list Z) : list Z := dst ++ src ++ [8; 0].
Definition par_ipv4 (tx : Z) : list Z :=
  [0x45; 0; 0; 39; 0; 0; 0; 0; 0; 17; 0; 0] ++ le_bytes 4 (167772672 + tx mod 256) ++ le_bytes 4 (167772672 + tx mod 256).
Definition par_udp (port : Z) : list Z := be16 1234 ++ be16 port ++ be16 19 ++ [0; 0].
Definition par_header (pt op id machine lh : Z) : list Z :=
  [u8 pt; u8 op] ++ le_bytes 4 id ++ [u8 machine] ++ le_bytes 4 lh.
Definition par_port (pt : Z) : Z := if (pt =? POST_LOCK_REQ) || (pt =? POST_UNLOCK_REQ) then SERVER_POST_TYPE else CLIENT_POST_TYPE.

Lemma par_frame_bytes me dst_mac src_mac tx dest pt op id machine lh :
  mac_at me = Ok src_mac -> length src_mac = 6%nat -> mac_at dest = Ok dst_mac -> length dst_mac = 6%nat ->
  (t ← init_header_template me; net_send t tx dest pt op id machine lh) =
    Ok (par_ethernet dst_mac src_mac ++ par_ipv4 tx ++ par_udp (par_port pt) ++ par_header pt op id machine lh).
Proof.
  intros Em Hm Ed Hd. unfold init_header_template, net_send. rewrite Em. cbn [mbind result_bind]. rewrite Ed.
  do 7 (destruct src_mac as [|? src_mac]; try done). do 7 (destruct dst_mac as [|? dst_mac]; try done).
Qed.

Lemma par_port_range pt : 0 <= par_port pt < 65536.
Proof. unfold par_port. destruct (_ || _); by vm_compute. Qed.

(** What a host reads behind any headers of a UDP frame of ParLock. *)
Lemma net_poll_bytes e i port pt op id machine lh :
  length e = 14%nat -> length i = 20%nat ->
  net_poll (e ++ i ++ par_udp port ++ par_header pt op id machine lh) =
    Some (Hdr (u8 pt) (u8 op) (u32 id) (u8 machine) (u32 lh)).
Proof.
  intros He Hi. do 15 (destruct e as [|? e]; try done). do 21 (destruct i as [|? i]; try done).
  unfold net_poll. change (negb (field _ _ _ =? _)) with false. cbv iota. f_equal.
  assert (H1 : forall x, le_value [x] = x) by (intros; unfold le_value; lia).
  assert (H4 : forall z, le_value (le_bytes 4 z) = u32 z) by (intros; by rewrite le_value_bytes).
  f_equal; (etransitivity; [|by first [apply H4|apply H1]]); reflexivity.
Qed.

(** A frame that is not for the lock service goes to the port of its destination
    address, as it came but for the IP checksum. *)
Lemma plain_frame_switched {D T : Type} `{!McManager D, !MatTable T} checksum (a : asic D T) s e i u rest port :
  udp_headers e i u -> ~ lock_port (udp_dst u) -> udp_dst u <> UDP_PORT_ROCE ->
  eth_forward a (field 0 6 e) = Some port ->
  switch_frame checksum a s (e ++ i ++ u ++ rest) = (s, [(port, e ++ ipv4_checksum checksum i ++ u ++ rest)]).
Proof.
  intros Hh Hl Hr Hp.
  assert (Hparse : forall i, udp_headers e i u ->
    parse (e ++ i ++ u ++ rest) = Some (Header (Some e) (Some i) None None (Some u) None None None None, rest)).
  { intros i' Hh'. rewrite parse_headers by done. rewrite (proj2 (Z.eqb_neq _ _) Hr).
    unfold lock_port in Hl. by rewrite !(proj2 (Z.eqb_neq _ _)) by tauto. }
  unfold switch_frame. rewrite Hparse by done. unfold ingress. cbn [lock ethernet]. rewrite Hp. cbn [omap list_omap mbind option_bind].
  unfold ingress_deparse, egress_frame, deparse, set_ipv4. cbn [ethernet ipv4 ipv6 arp udp roce roce_reth roce_aeth lock emit_hdr default app].
  unfold emit_hdr. cbn. rewrite Hparse by (by apply udp_headers_checksum). done.
Qed.

(** C22: a ParLock message arrives. After the control plane has started on the
    cluster, the frame that net_send makes on one of its hosts for another leaves
    the switch only at the port of the destination - the two programs agree on
    the addresses, the ports of ParLock are not those of the lock service, and no
    register changes - and the destination reads the header that the model of
    ParLock sends, every field at its width. *)
Theorem par_message_delivered {D T : Type} `{!McManager D, !MatTable T, !McManagerLaws D, !MatTableLaws T}
    checksum (a0 : asic D T) s me dest tx pt op id machine lh :
  startable cluster a0 -> is_host me -> is_host dest ->
  exists a f g hd, driver_init cluster a0 = Ok (tt, a, []) /\
    (t ← init_header_template me; net_send t tx dest pt op id machine lh) = Ok f /\
    switch_frame checksum a s f = (s, [(host_port cluster dest, g)]) /\ net_poll g = Some hd /\
    forall st, ParQueue.net_send dest pt op id machine lh st = Ok (tt, st, [Sent (PSent dest hd)]).
Proof.
  intros Hst Hme Hd. destruct (driver_installed cluster a0 Hst) as (a & E & Ha).
  destruct (cluster_macs me Hme) as (src & Es & Hs & _). destruct (cluster_macs dest Hd) as (dst & Ed & Hl & Hport).
  eexists a, _, _, _. split; [done|]. split; [by apply par_frame_bytes|].
  assert (Hf : field 0 6 (par_ethernet dst src) = be_value dst) by (unfold field, slice, par_ethernet; by rewrite drop_0, take_app_length').
  assert (Hu : udp_dst (par_udp (par_port pt)) = par_port pt)
    by (etransitivity; [reflexivity|apply be_value_be16, par_port_range]).
  assert (Hh : udp_headers (par_ethernet dst src) (par_ipv4 tx) (par_udp (par_port pt))).
  { split; try reflexivity; unfold par_ethernet.
    - by rewrite !length_app, Hl, Hs.
    - do 7 (destruct src as [|? src]; try done). by do 7 (destruct dst as [|? dst]; try done). }
  split.
  - apply plain_frame_switched; [done| | |].
    + rewrite Hu. unfold par_port, lock_port. destruct (_ || _); intros [? | ?]; done.
    + rewrite Hu. unfold par_port. by destruct (_ || _).
    + by rewrite (in_table cluster a Ha), Hf.
  - pose proof (uh_ipv4 _ _ _ (udp_headers_checksum checksum _ _ _ Hh)). split.
    + apply net_poll_bytes; [apply Hh|done].
    + intros st. unfold ParQueue.net_send, emit. by rewrite (uw_small 8 dest) by (unfold in_uw, is_host in *; lia).
Qed.

Lemma par_message_delivered_witness :
  exists a f g hd, driver_init cluster empty_asic = Ok (tt, a, []) /\
    (t ← init_header_template 2; net_send t 300 6 POST_LOCK_REQ 1 70000 2 40000) = Ok f /\
    switch_frame (fun _ => 0) a ∅ f = (∅, [(host_port cluster 6, g)]) /\ net_poll g = Some hd /\
    forall st, ParQueue.net_send 6 POST_LOCK_REQ 1 70000 2 40000 st = Ok (tt, st, [Sent (PSent 6 hd)]).
Proof.
  apply (par_message_delivered (fun _ => 0) empty_asic ∅ 2 6).
  - exact cluster_startable.
  - unfold is_host. lia.
  - unfold is_host. lia.
Defined.
