(* ===== verification/Messages.v ===== *)
(** * Messages: the packets of readers and writers

    The packets of [System] for shared and exclusive requests, as a type with
    one constructor for each packet that occurs, and what the switch program,
    the packet handlers and the calls of lib/lock.cc do with them: the equations
    of this file are the model's handlers evaluated on these packets, for the
    build without FISSLOCK_BMV2. *)

From S2P Require Import Prelude RwSpec Types Post Lock LockProofs LockApi Agent LockApiProofs Switch System Fission.

#[local] Open Scope prog_scope.

(** ** Messages *)

(** An operation: exclusive ([true]) or shared. *)
Definition op_of (e : bool) : lock_state := if e then LOCK_EXCL else LOCK_SHARED.

(** Messages to the switch ([U]) and to a host ([D]).  [k] is the requester,
    [e] its operation, [oe] the operation the lock was held with, [c] a count of
    notifications, [h] the other end; [tr]: the lock was transferred.  [DNotif]
    tells the agent of a request the switch granted. *)
Inductive vmsg :=
  | UAcq (h : Z) (e : bool) (k : req)
  | URel (k : req)
  | UFree (h : Z) (oe : bool) (c : Z)
  | UTransfer (h : Z) (k : req) (e oe : bool) (wq : list wqe) (c : Z)
  | UGrant (h : Z) (k : req)
  | DAcq (h : Z) (e : bool) (k : req)
  | DNotif (h : Z) (k : req)
  | DRel (h : Z) (k : req)
  | DFree (h : Z) (c : Z)
  | DTransfer (h : Z) (k : req) (e : bool) (wq : list wqe) (c : Z)
  | DGrant (k : req) (a : Z)
  | DAgent (k : req) (e oe tr : bool) (wq : list wqe) (c : Z).

(** The mode byte. *)
Definition bits (e oe tr : bool) : Z :=
  if tr then (if oe then (if e then 35 else 34) else (if e then 33 else 32))
  else if oe then (if e then 3 else 2) else (if e then 1 else 0).

Section messages.
Context (n lid : Z) (Hn : 1 <= n < 64) (Hlid : 0 <= lid < SWITCH_LOCK_NUM).

Abbreviation cfg_of := (cfg_of false).
Abbreviation host_ok := (host_ok n).
Abbreviation mkhost := (mkhost lid).

Definition hdr (b : Z) (k : req) (a : Z) (wq : list wqe) (c : Z) : lock_post_header :=
  Hdr b (htonl lid) k.1 k.2 a (u32 (Z.of_nat (length wq))) c.

Definition packet_of (m : vmsg) : packet :=
  match m with
  | UAcq h e k | DAcq h e k => Packet POST_LOCK_ACQUIRE (hdr (bits e false false) k h [] 0) [] []
  | URel k => Packet POST_LOCK_RELEASE (hdr 0 k k.1 [] 0) [] []
  | UFree h oe c => Packet POST_LOCK_FREE (hdr (bits false oe false) (h, 0) h [] c) [] []
  | UTransfer h k e oe wq c => Packet POST_LOCK_TRANSFER (hdr (bits e oe false) k h wq c) wq []
  | UGrant h k => Packet POST_LOCK_GRANT_WO_AGENT (hdr 0 k k.1 [] 0) [] []
  | DNotif h k => Packet POST_LOCK_ACQUIRE (hdr 64 k h [] 0) [] []
  | DRel h k => Packet POST_LOCK_RELEASE (hdr 0 k h [] 0) [] []
  | DFree h c => Packet POST_LOCK_FREE (hdr 0 (h, 0) h [] c) [] []
  | DTransfer h k e wq c => Packet POST_LOCK_TRANSFER (hdr (bits e false false) k h wq c) wq []
  | DGrant k a => Packet POST_LOCK_GRANT_WO_AGENT (hdr 0 k a [] 0) [] []
  | DAgent k e oe tr wq c => Packet POST_LOCK_GRANT_WITH_AGENT (hdr (bits e oe tr) k k.1 wq c) wq []
  end.

(** The link: the host at the other end, and whether it is the receiver. *)
Definition link (m : vmsg) : bool * Z :=
  match m with
  | UAcq h _ _ | UFree h _ _ | UTransfer h _ _ _ _ _ | UGrant h _ => (false, h)
  | URel k => (false, k.1)
  | DAcq h _ _ | DNotif h _ | DRel h _ | DFree h _ | DTransfer h _ _ _ _ => (true, h)
  | DGrant k _ | DAgent k _ _ _ _ _ => (true, k.1)
  end.

Definition msg_of (m : vmsg) : msg :=
  if (link m).1 then ToHost (link m).2 (packet_of m) else ToSwitch (link m).2 (packet_of m).

(** ** The switch *)

(** The lock's registers and the packets sent, by message. *)
Definition at_switch (r : lock_regs) (m : vmsg) : lock_regs * list vmsg :=
  let a := lock_agent r in
  let cnt := notification_cnt r in
  match m with
  | UAcq h e k =>
      let c := if e then cnt else u8 (cnt + 1) in
      if negb (lock_free_mode r) then (Regs true e k.1 c, [DAgent k e false false [] 0])
      else if negb e && negb (lock_rw_mode r) then (Regs true false a c, [DNotif a k; DGrant k a])
      else (Regs true (lock_rw_mode r) a c, [DAcq a e k])
  | URel k => (r, [DRel (lock_agent r) k])
  | UFree h oe c => if oe || (cnt =? c) then (Regs false false 0 0, []) else (r, [DFree h c])
  | UTransfer h k e oe wq c =>
      if oe || (cnt =? c) then (Regs true e k.1 0, [DAgent k e oe true wq c])
      else (r, [DTransfer h k e wq c])
  | UGrant h k => (r, [DGrant k k.1])
  | _ => (r, [])
  end.

(** The hosts a message is about, as far as the switch looks at them. *)
Definition hosts_ok (m : vmsg) : Prop :=
  match m with
  | UAcq _ _ k | URel k | UGrant _ k => host_ok k.1
  | UFree h _ _ => host_ok h
  | UTransfer h k _ _ _ _ => host_ok h /\ host_ok k.1
  | _ => True
  end.

Abbreviation regs s := (regs_at s lid).

Lemma lid_of_hdr b k a wq c : lid_of (hdr b k a wq c) = lid.
Proof using Hlid. by apply (lid_hdr lid Hlid). Qed.

Lemma packet_lid m : lid_of (pk_hdr (packet_of m)) = lid.
Proof using Hlid. destruct m; apply lid_of_hdr. Qed.

Lemma copies_one g p : host_ok g -> hdr_bit 7 p = false -> tofino_copies n g 128 p = [(g, p)].
Proof using Hn. by apply (copies_unicast n Hn). Qed.

(** A shared grant: the agent gets the notification, the requester the
    grant. *)
Lemma copies_two g h p :
  host_ok g -> host_ok h -> hdr_bit 7 p = true ->
  tofino_copies n g (h + 128) p =
    [(g, clear_bit 7 (egress_rid 1 p)); (h, clear_bit 7 (egress_rid 2 p))].
Proof using Hn.
  intros Hg Hh E. unfold Fission.host_ok in *. unfold tofino_copies.
  assert (E1 : mgrp n g = Some (g, 1)).
  { unfold mgrp. by rewrite (proj2 (andb_true_iff (1 <=? g) (g <=? n))) by lia. }
  assert (E2 : mgrp n (h + 128) = Some (h, 2)).
  { unfold mgrp. rewrite (proj2 (andb_false_iff (1 <=? h + 128) (h + 128 <=? n))) by lia.
    rewrite (proj2 (andb_true_iff (129 <=? h + 128) (h + 128 <=? 128 + n))) by lia.
    do 2 f_equal. lia. }
  simpl. rewrite E1, E2. simpl. unfold tofino_egress. by rewrite E.
Qed.

Definition deliveries (ms : list vmsg) : list (Z * packet) := map (fun m => ((link m).2, packet_of m)) ms.

(** What the switch assumes of a lock that is not free. *)
Definition regs_ok (r : lock_regs) (m : vmsg) : Prop :=
  (lock_free_mode r = true -> host_ok (lock_agent r)) /\
  match m with UAcq _ _ _ | UGrant _ _ => True | _ => lock_free_mode r = true end.

Lemma tofino_one s m r p g :
  lid_of (pk_hdr (packet_of m)) = lid ->
  fission (regs s) (clear_bit 6 (clear_bit 7 (packet_of m))) = (r, p, 0, false) ->
  agent (pk_hdr p) = g -> host_ok g -> hdr_bit 7 p = false ->
  tofino n s (packet_of m) = (<[lid := r]> s, [(g, p)]).
Proof using Hn Hlid.
  intros El E <- Hg Hb. unfold tofino, tofino_ingress.
  change (lid_of (pk_hdr (clear_bit 6 (clear_bit 7 (packet_of m))))) with (lid_of (pk_hdr (packet_of m))).
  rewrite El, (lid_in_slices lid Hlid), E. f_equal. by apply copies_one.
Qed.

Lemma tofino_two s m r p g h :
  lid_of (pk_hdr (packet_of m)) = lid ->
  fission (regs s) (clear_bit 6 (clear_bit 7 (packet_of m))) = (r, p, h, true) ->
  agent (pk_hdr p) = g -> host_ok g -> host_ok h -> hdr_bit 7 (set_bit 7 p) = true ->
  tofino n s (packet_of m) =
    (<[lid := r]> s, [(g, clear_bit 7 (egress_rid 1 (set_bit 7 p))); (h, clear_bit 7 (egress_rid 2 (set_bit 7 p)))]).
Proof using Hn Hlid.
  intros El E <- Hg Hh Hb. unfold tofino, tofino_ingress.
  change (lid_of (pk_hdr (clear_bit 6 (clear_bit 7 (packet_of m))))) with (lid_of (pk_hdr (packet_of m))).
  rewrite El, (lid_in_slices lid Hlid), E. f_equal. by apply (copies_two (agent (pk_hdr p))).
Qed.

Lemma switch_acquire s h e k :
  hosts_ok (UAcq h e k) -> regs_ok (regs s) (UAcq h e k) ->
  tofino n s (packet_of (UAcq h e k)) =
    (<[lid := (at_switch (regs s) (UAcq h e k)).1]> s, deliveries (at_switch (regs s) (UAcq h e k)).2).
Proof using Hn Hlid.
  intros Hk [Ha _]. cbn [hosts_ok] in Hk.
  destruct (regs s) as [fm rw a nc] eqn:Er. cbn [lock_free_mode lock_agent] in Ha.
  destruct fm; [specialize (Ha eq_refl)|].
  - destruct e; [|destruct rw].
    1, 2: by apply tofino_one; [apply lid_of_hdr|rewrite Er; reflexivity|..].
    erewrite tofino_two; [|apply lid_of_hdr|rewrite Er; reflexivity|reflexivity|done|exact Hk|reflexivity].
    reflexivity.
  - destruct e; apply tofino_one; try apply lid_of_hdr; rewrite ?Er; try reflexivity; try exact Hk.
Qed.

Lemma tofino_none s m r p :
  lid_of (pk_hdr (packet_of m)) = lid ->
  fission (regs s) (clear_bit 6 (clear_bit 7 (packet_of m))) = (r, p, 0, false) ->
  agent (pk_hdr p) = 0 -> tofino n s (packet_of m) = (<[lid := r]> s, []).
Proof using Hn Hlid.
  intros El E Ea. unfold tofino, tofino_ingress.
  change (lid_of (pk_hdr (clear_bit 6 (clear_bit 7 (packet_of m))))) with (lid_of (pk_hdr (packet_of m))).
  rewrite El, (lid_in_slices lid Hlid), E. cbv iota. rewrite Ea. f_equal. apply (copies_none n Hn).
Qed.

(** A free or a transfer whose count the switch compares with its own. *)
Lemma switch_token s m :
  match m with UFree _ _ _ | UTransfer _ _ _ _ _ _ => True | _ => False end ->
  hosts_ok m -> regs_ok (regs s) m ->
  tofino n s (packet_of m) = (<[lid := (at_switch (regs s) m).1]> s, deliveries (at_switch (regs s) m).2).
Proof using Hn Hlid.
  intros Hm Hk [Ha Hf]. destruct m as [| |h oe c|h k e oe wq c| | | | | | | |]; try done; clear Hm.
  all: cbn [hosts_ok] in Hk; destruct (regs s) as [fm rw a nc] eqn:Er; cbn [lock_free_mode] in Hf; subst fm.
  all: cbn [at_switch lock_agent notification_cnt]; destruct oe; cbn [orb].
  - apply (tofino_none s (UFree h true c) _ (set_agent 0 (clear_bit 6 (clear_bit 7 (packet_of (UFree h true c))))));
      [apply lid_of_hdr|rewrite Er; reflexivity|reflexivity].
  - destruct (nc =? c) eqn:Ec.
    + apply (tofino_none s (UFree h false c) _ (set_agent 0 (clear_bit 6 (clear_bit 7 (packet_of (UFree h false c))))));
        [apply lid_of_hdr|rewrite Er; unfold fission; cbn; by rewrite Ec|reflexivity].
    + apply (tofino_one s (UFree h false c)); [apply lid_of_hdr|rewrite Er; unfold fission; cbn; by rewrite Ec|done..].
  - destruct Hk as [Hh Hk]. by destruct e; (apply tofino_one; [apply lid_of_hdr|rewrite Er; reflexivity|..]).
  - destruct Hk as [Hh Hk]. destruct (nc =? c) eqn:Ec.
    + by destruct e; (apply tofino_one; [apply lid_of_hdr|rewrite Er; unfold fission; cbn; by rewrite Ec|..]).
    + by destruct e; (apply tofino_one; [apply lid_of_hdr|rewrite Er; unfold fission; cbn; by rewrite Ec|..]).
Qed.

Lemma switch_release s k :
  hosts_ok (URel k) -> regs_ok (regs s) (URel k) ->
  tofino n s (packet_of (URel k)) =
    (<[lid := (at_switch (regs s) (URel k)).1]> s, deliveries (at_switch (regs s) (URel k)).2).
Proof using Hn Hlid.
  intros Hk [Ha Hf]. cbn [hosts_ok] in Hk. destruct (regs s) as [fm rw a nc] eqn:Er.
  cbn [lock_free_mode lock_agent] in *. subst fm. specialize (Ha eq_refl).
  by apply tofino_one; [apply lid_of_hdr|rewrite Er; reflexivity|..].
Qed.

Lemma switch_grant s h k :
  hosts_ok (UGrant h k) -> 
  tofino n s (packet_of (UGrant h k)) =
    (<[lid := (at_switch (regs s) (UGrant h k)).1]> s, deliveries (at_switch (regs s) (UGrant h k)).2).
Proof using Hn Hlid.
  intros Hk. cbn [hosts_ok] in Hk. destruct (regs s) as [fm rw a nc] eqn:Er.
  by apply tofino_one; [apply lid_of_hdr|rewrite Er; reflexivity|..].
Qed.

(** The switch program on a message to it. *)
Lemma switch_message s m :
  (link m).1 = false -> hosts_ok m -> regs_ok (regs s) m ->
  tofino n s (packet_of m) = (<[lid := (at_switch (regs s) m).1]> s, deliveries (at_switch (regs s) m).2).
Proof using Hn Hlid.
  intros Hd Hk Hr. destruct m; try done.
  - by apply switch_acquire.
  - by apply switch_release.
  - by apply switch_token.
  - by apply switch_token.
  - by apply switch_grant.
Qed.

(** ** The calls of a task *)

Definition wq_excl (w : wqe) : bool := wq_op w =? ls_val LOCK_EXCL.
Definition is_excl (m : lock_state) : bool := ls_eqb m LOCK_EXCL.

(** A lock whose agent may have lost its last holder is freed or
    transferred. *)
Definition given_up (h : Z) (l : innet_lock) : innet_lock * list vmsg :=
  if lock_no_holders l then
    match l_wqueue l with
    | [] => (set_ncnt 0 (set_mode FREE (set_is_agent false l)), [UFree h (is_excl (l_mode l)) (u8 (l_ncnt l))])
    | w :: wq =>
        (set_wqueue [] (set_ncnt 0 (set_mode FREE (set_is_agent false l))),
         [UTransfer h (wq_req w) (wq_excl w) (is_excl (l_mode l)) wq (u8 (l_ncnt l))])
    end
  else (l, []).

(** The lock, the packets sent, and whether the agent granted the request on the
    spot. *)
Definition acquires (h t : Z) (e : bool) (l : innet_lock) : innet_lock * list vmsg * bool :=
  if l_is_agent l then
    if negb (is_excl (l_mode l)) && negb e then (handle_granted_acquire h t l, [], true)
    else (lock_prepare_wait t (handle_suspend_acquire h t (op_of e) l), [], false)
  else (lock_prepare_wait t l, [UAcq h e (h, t)], false).

Definition releases (h t : Z) (l : innet_lock) : innet_lock * list vmsg :=
  let l := set_local_holders (l_local_holders l ∖ {[ t ]}) l in
  if l_is_agent l then given_up h (handle_release h t l) else (l, [URel (h, t)]).

(** What the equations rely on: the lock's identifier, a mode that is shared or
    exclusive while the host is the agent, and waiters with an operation. *)
Definition op_mode (l : innet_lock) : Prop := l_is_agent l = true -> exists e, l_mode l = op_of e.

Definition waiter_ok (w : wqe) : Prop :=
  (exists e, wq_op w = ls_val (op_of e)) /\ host_ok (wq_host w) /\ in_uw 30 (wq_task w).

Record lock_ok (l : innet_lock) : Prop := {
  lo_id : l_id l = lid;
  lo_mode : op_mode l;
  lo_early : forall k, index false k (l_early_release l) = false;
  lo_wq : Forall waiter_ok (l_wqueue l);
  lo_ncnt : in_uw 32 (l_ncnt l);
}.

Lemma waiter_excl w : waiter_ok w -> wq_op w = ls_val (op_of (wq_excl w)).
Proof using. intros [[e E] _]. unfold wq_excl. rewrite E. by destruct e. Qed.

Definition key_ok (k : req) : Prop := host_ok k.1 /\ in_uw 30 k.2.

Lemma u8_hid h : host_ok h -> u8 h = h.
Proof using Hn. by apply Fission.u8_host. Qed.

Lemma u32_tid t : in_uw 30 t -> u32 t = t.
Proof using. by apply Fission.u32_task. Qed.

Lemma send_to h (out : list sent) (ms : list vmsg) :
  map s_pkt out = map packet_of ms -> Forall (fun m => link m = (false, h)) ms ->
  sends h out = map msg_of ms.
Proof using.
  intros E Hl. rewrite sends_eq, E, map_map. clear E. induction Hl as [|m ms Hm _ IH]; [done|].
  cbn [map]. rewrite IH. f_equal. unfold msg_of. by rewrite Hm.
Qed.

Lemma acquires_eq h t e l :
  key_ok (h, t) -> lock_ok l -> exists out,
  lock_acquire_async (cfg_of h) lid t (op_of e) (mkhost l) =
    Ok (if (acquires h t e l).2 then ReqNull else ReqPtr 0 t, mkhost (acquires h t e l).1.1, out) /\
  sends h out = map msg_of (acquires h t e l).1.2.
Proof using Hn Hlid.
  intros [Hh Ht] Hl. cbn [fst snd] in Hh, Ht. pose proof (lo_id _ Hl) as Hi. unfold lock_acquire_async.
  replace (negb (ls_eqb (op_of e) LOCK_EXCL) && negb (ls_eqb (op_of e) LOCK_SHARED)) with false by (by destruct e).
  rewrite (bind_ok (lock_key_to_desc lid) _ (mkhost l) 0%nat (mkhost l) [])
    by (apply lock_key_to_desc_eq; apply lookup_insert_eq).
  assert (E0 : h_heap (mkhost l) !! 0%nat = Some l) by done.
  do 2 mstep. rewrite (in_range lid Hlid l Hi). cbn [TPCC_ENB_LOCAL FISSLOCK_BMV2 System.cfg_of andb].
  change (enb_local_grants (mkhost l)) with true. cbv iota. unfold acquires.
  destruct (l_is_agent l) eqn:Ea.
  - destruct (lo_mode _ Hl Ea) as [e' Em]. rewrite Em. by destruct e', e; eexists.
  - eexists. split; [reflexivity|]. apply send_to; [|by repeat constructor].
    cbn. unfold hdr. by rewrite Hi, (u8_hid h Hh), (u32_tid t Ht); destruct e.
Qed.

(** What [release_last] and [release_tail] do with a lock without holders. *)
Lemma last_eq h l :
  host_ok h -> lock_ok l -> l_is_agent l = true -> lock_no_holders l = true -> exists out,
  release_last (cfg_of h) 0 l (mkhost l) = Ok (0, mkhost (given_up h l).1, out) /\
  sends h out = map msg_of (given_up h l).2.
Proof using Hn Hlid.
  intros Hh Hl Ha Hno. pose proof (lo_id _ Hl) as Hi. destruct (lo_mode _ Hl Ha) as [e Em].
  pose proof (lo_wq _ Hl) as Hq. unfold release_last, given_up. rewrite Hno, Em.
  destruct (l_wqueue l) as [|w wq].
  - eexists. split; [reflexivity|]. apply send_to; [|by repeat constructor].
    cbn. unfold hdr. by rewrite Hi, (u8_hid h Hh), uw_uw; destruct e.
  - apply Forall_cons_1 in Hq as [Hw _]. pose proof (waiter_excl w Hw) as Ew. destruct Hw as (_ & Hwh & Hwt).
    cbn [FISSLOCK_BMV2 System.cfg_of andb]. eexists. split; [reflexivity|].
    apply send_to; [|by repeat constructor].
    cbn. unfold hdr. rewrite Hi, (u8_hid h Hh), (u8_hid _ Hwh), (u32_tid _ Hwt), uw_uw, Ew. by destruct (wq_excl w), e.
Qed.

Lemma lock_ok_local h l : lock_ok l -> lock_ok (set_local_holders h l).
Proof using. by intros [? ? ? ? ?]. Qed.

Lemma lock_ok_remove lh l : lock_ok l -> lock_ok (lock_remove_holder lh l).
Proof using. by intros [? ? ? ? ?]. Qed.

Lemma releases_eq h t op l :
  key_ok (h, t) -> lock_ok l -> (l_is_agent l = true -> LOCK_HOLDER h t ∈ l_holders l) -> exists out,
  lock_release (cfg_of h) lid t op (mkhost l) = Ok (0, mkhost (releases h t l).1, out) /\
  sends h out = map msg_of (releases h t l).2.
Proof using Hn Hlid.
  intros [Hh Ht] Hl Hin. cbn [fst snd] in Hh, Ht. pose proof (lo_id _ Hl) as Hi. unfold lock_release.
  rewrite (bind_ok (lock_key_to_desc lid) _ (mkhost l) 0%nat (mkhost l) [])
    by (apply lock_key_to_desc_eq; apply lookup_insert_eq).
  assert (E0 : h_heap (mkhost l) !! 0%nat = Some l) by done.
  set (l0 := set_local_holders (l_local_holders l ∖ {[ t ]}) l). mstep.
  change (with_lock (mkhost l) 0 l0) with (mkhost l0).
  rewrite (bind_ok (lmeta 0) _ (mkhost l0) l0 (mkhost l0) []) by done.
  rewrite (in_range lid Hlid l0 Hi). cbn [TPCC_ENB_LOCAL System.cfg_of andb]. unfold releases. fold l0.
  destruct (l_is_agent l0) eqn:Ha.
  - unfold lock_has_holder. rewrite bool_decide_true by (by apply Hin). cbv beta zeta iota delta [negb].
    change (LOCALHOST_ID (cfg_of h)) with h. set (l1 := handle_release h t l0).
    assert (Hl1 : lock_ok l1) by (by apply lock_ok_remove, lock_ok_local).
    rewrite (bind_ok (store 0 l1) _ (mkhost l0) tt (mkhost l1) []) by done.
    destruct (lock_no_holders l1) eqn:E1; [|unfold given_up; rewrite E1; by eexists].
    destruct (last_eq h l1 Hh Hl1 Ha E1) as (out & -> & Eo). by eexists.
  - eexists. split; [reflexivity|]. apply send_to; [|by repeat constructor].
    cbn. unfold hdr. by rewrite Hi, (u8_hid h Hh), (u32_tid t Ht).
Qed.

(** ** Packets that arrive at a host *)

(** The waiters a transferred queue brings: none when its size field
    overflowed to zero. *)
Definition unmarshalled (wq : list wqe) : list wqe := if 0 <? u32 (Z.of_nat (length wq)) then wq else [].

Definition short_wq (wq : list wqe) : Prop := Z.of_nat (length wq) <= DPDK_TX_BURST_SIZE.

Lemma unmarshalled_all wq : short_wq wq -> unmarshalled wq = wq.
Proof using.
  unfold short_wq, DPDK_TX_BURST_SIZE, unmarshalled. intros Hs. rewrite (uw_small 32) by (unfold in_uw; lia).
  destruct wq as [|w wq]; [done|]. by rewrite (proj2 (Z.ltb_lt _ _)) by (cbn; lia).
Qed.

(** The queue a packet carries fits a burst of grants. *)
Definition fits (m : vmsg) : Prop :=
  match m with DTransfer _ _ _ wq _ | DAgent _ _ _ _ wq _ => short_wq wq | _ => True end.

Definition request_seen (k : req) (l : innet_lock) : innet_lock :=
  set_early_release (touch false (LOCK_HOLDER k.1 k.2) (l_early_release l)) l.

Definition request_arrived (h : Z) (e : bool) (k : req) (l : innet_lock) : innet_lock * list vmsg :=
  let lh := LOCK_HOLDER k.1 k.2 in
  let l := request_seen k l in
  if l_is_agent l then (handle_suspend_acquire k.1 k.2 (op_of e) l, [])
  else if e then
    let c := index 0 lh (l_fwd_back_cnt l) in
    let l := set_fwd_back_cnt (touch 0 lh (l_fwd_back_cnt l)) l in
    if 2 <? c then
      (set_fwd_back_cnt (delete lh (l_fwd_back_cnt l)) (handle_suspend_acquire k.1 k.2 LOCK_EXCL l), [])
    else (set_fwd_back_cnt (<[lh := i16 (c + 1)]> (l_fwd_back_cnt l)) l, [UAcq h true k])
  else (l, [UAcq h false k]).

Definition notified (k : req) (l : innet_lock) : innet_lock :=
  handle_granted_acquire k.1 k.2 (request_seen k (set_ncnt (l_ncnt l + 1) l)).

Definition release_arrived (h : Z) (k : req) (l : innet_lock) : innet_lock * list vmsg :=
  let l1 := lock_remove_holder (LOCK_HOLDER k.1 k.2) l in
  if l_is_agent l then given_up h l1 else (set_delayed_free true l1, []).

(** A free or a transfer ([q]: the queue) that the switch pushed back. *)
Definition pushed_back (c : Z) (q : list wqe) (l : innet_lock) : innet_lock :=
  set_wqueue (l_wqueue l ++ q)
    (set_ncnt (l_ncnt l + c) (set_is_agent true (set_mode LOCK_SHARED l))).

Definition retried (l : innet_lock) : bool := l_delayed_free l && lock_no_holders l.

Definition agent_granted (h : Z) (k : req) (e tr : bool) (wq : list wqe) (l : innet_lock) : innet_lock * list vmsg :=
  let l := set_mode (op_of e) (lock_add_holder (LOCK_HOLDER h k.2) (set_is_agent true l)) in
  let l := if tr then set_ncnt (l_ncnt l + 0) l
           else if e then set_ncnt 0 l else set_ncnt (l_ncnt l + 1) l in
  let q := if tr then unmarshalled wq else [] in
  if e then (lock_local_notify k.2 (lock_unmarshal_wq q l), [])
  else
    (lock_local_notify k.2
       (set_wqueue (l_wqueue l ++ filterb (fun w => negb (wq_shared w)) q)
         (set_holders (l_holders l ∪ list_to_set (map wqe_holder (filterb wq_shared q))) l)),
     map (fun w => UGrant h (wq_req w)) (filterb wq_shared q)).

Definition delivered (h : Z) (l : innet_lock) (m : vmsg) : innet_lock * list vmsg :=
  match m with
  | DAcq _ e k => request_arrived h e k l
  | DNotif _ k => (notified k l, [])
  | DRel _ k => release_arrived h k l
  | DFree _ c =>
      if retried l then (set_delayed_free false (set_ncnt 0 l), [UFree h false (u8 (c + l_ncnt l))])
      else (pushed_back c [] l, [])
  | DTransfer _ k e wq c =>
      if retried l then (set_delayed_free false (set_ncnt 0 l), [UTransfer h k e false wq (u8 (c + l_ncnt l))])
      else (pushed_back c (mk_wqe (op_of e) k.2 k.1 :: unmarshalled wq) l, [])
  | DGrant k _ => (lock_local_notify k.2 l, [])
  | DAgent k e _ tr wq _ => agent_granted h k e tr wq l
  | _ => (l, [])
  end.

(** What the equations rely on, besides [lock_ok]: a queue that is digested
    fits the array of packet buffers, and a release finds its holder. *)
Definition deliverable (l : innet_lock) (m : vmsg) : Prop :=
  match m with
  | DAcq _ _ k | DNotif _ k | DGrant k _ => True
  | DRel _ k => LOCK_HOLDER k.1 k.2 ∈ l_holders l
  | DFree _ _ => True
  | DTransfer _ k _ wq _ => Forall waiter_ok wq
  | DAgent k e oe tr wq _ => in_uw 30 k.2 /\ Forall waiter_ok wq /\ (tr = false -> wq = []) /\ short_wq wq
  | _ => False
  end.

(** A handler's answer: the packets it sent and the one it wants forwarded. *)
Definition answers (h : Z) (out : list sent) (p : packet) (ret : Z) : list msg :=
  sends h out ++ (if ret =? 0 then [] else [ToSwitch h p]).

Definition dispatched (h : Z) (l : innet_lock) (m : vmsg) : Prop :=
  exists p ret out,
    lock_packet_dispatch (cfg_of h) (packet_of m) (mkhost l) = Ok ((p, ret), mkhost (delivered h l m).1, out) /\
    answers h out p ret = map msg_of (delivered h l m).2.

Lemma dispatched_intro h l m o :
  lock_ok l -> lid_of (pk_hdr (packet_of m)) = lid ->
  lock_packet_process (cfg_of h) l (packet_of m) = Ok o ->
  o_lock o = (delivered h l m).1 ->
  answers h (o_sends o) (o_pkt o) (o_ret o) = map msg_of (delivered h l m).2 -> dispatched h l m.
Proof using.
  intros Hl El Eo E1 E2. exists (o_pkt o), (o_ret o), (o_sends o). split; [|done]. rewrite <- E1.
  apply (deliver_lock false lid h l); [apply Hl|done|done].
Qed.

Lemma cfg_wf h : host_ok h -> config_wf (cfg_of h).
Proof using Hn. by apply (Fission.cfg_of_wf false n Hn). Qed.

(** A packet sent back has this host as its other end. *)
Lemma answers_one h p m : link m = (false, h) -> packet_of m = p -> answers h [] p 1 = map msg_of [m].
Proof using. intros E <-. unfold answers, msg_of. cbn. by rewrite E. Qed.

Lemma dispatched_acquire h l e k : host_ok h -> lock_ok l -> dispatched h l (DAcq h e k).
Proof using Hn Hlid.
  intros Hh Hl. pose proof (lo_id _ Hl) as Hi. set (m := DAcq h e k).
  assert (Em : MODE (mode_old_mode (pk_hdr (packet_of m))) = op_of e) by (by destruct e).
  assert (Eg : GRANTED (pk_hdr (packet_of m)) = false) by (by destruct e).
  assert (Ep : lock_packet_process (cfg_of h) l (packet_of m) =
    if l_is_agent l then Ok (Outcome (handle_suspend_acquire k.1 k.2 (op_of e) (request_seen k l)) (packet_of m) [] 0)
    else Ok (Outcome (delivered h l m).1 (packet_of m) []
      (if e && (2 <? index 0 (LOCK_HOLDER k.1 k.2) (l_fwd_back_cnt l)) then 0 else 1))).
  { rewrite process_type_acquire by (done || by apply cfg_wf). unfold process_acquire.
    rewrite (in_range lid Hlid l Hi). cbv zeta. rewrite Em, Eg, andb_false_r. cbn [m packet_of hdr pk_hdr machine_id task_id].
    rewrite (lo_early _ Hl). subst m. cbn [delivered]. unfold request_arrived, request_seen.
    change (l_is_agent (set_early_release _ l)) with (l_is_agent l).
    change (l_fwd_back_cnt (set_early_release _ l)) with (l_fwd_back_cnt l).
    destruct (l_is_agent l); [reflexivity|]. destruct e; cbn [op_of]; [|reflexivity]. cbn [negb ls_eqb].
    change (ls_eqb LOCK_EXCL LOCK_SHARED) with false. cbv iota. by destruct (2 <? _). }
  assert (Ed : delivered h l m = (if l_is_agent l
    then handle_suspend_acquire k.1 k.2 (op_of e) (request_seen k l) else (delivered h l m).1,
    if l_is_agent l || e && (2 <? index 0 (LOCK_HOLDER k.1 k.2) (l_fwd_back_cnt l)) then [] else [UAcq h e k])).
  { subst m. cbn [delivered]. unfold request_arrived. change (l_is_agent (request_seen k l)) with (l_is_agent l).
    change (l_fwd_back_cnt (request_seen k l)) with (l_fwd_back_cnt l).
    destruct (l_is_agent l); [done|]. destruct e; [|done]. cbv zeta. by destruct (2 <? _). }
  destruct (l_is_agent l); cbn [orb] in *.
  - eapply dispatched_intro; [done|apply lid_of_hdr|apply Ep|by rewrite Ed|by rewrite Ed].
  - eapply dispatched_intro; [done|apply lid_of_hdr|apply Ep|done|].
    rewrite Ed. cbn [snd o_sends o_pkt o_ret]. destruct (e && _); [done|]. by apply answers_one.
Qed.

Lemma dispatched_notif h l k : host_ok h -> lock_ok l -> dispatched h l (DNotif h k).
Proof using Hn Hlid.
  intros Hh Hl. pose proof (lo_id _ Hl) as Hi.
  eapply (dispatched_intro h l _ (Outcome (notified k l) _ [] 0)); [done|apply lid_of_hdr| |done|done].
  rewrite process_type_acquire by (done || by apply cfg_wf). unfold process_acquire.
  rewrite (in_range lid Hlid l Hi).
  cbn [packet_of hdr pk_hdr machine_id task_id mode_old_mode]. change (MODE 64) with LOCK_SHARED.
  change (GRANTED (Hdr 64 _ _ _ _ _ _)) with true. change (ls_eqb LOCK_SHARED LOCK_SHARED && true) with true.
  cbv zeta iota. change (l_early_release (set_ncnt _ l)) with (l_early_release l). rewrite (lo_early _ Hl).
  unfold notified, request_seen. change (l_is_agent (set_early_release _ _)) with (l_is_agent l).
  by destruct (l_is_agent l).
Qed.

Lemma dispatched_grant h l k a : host_ok h -> lock_ok l -> dispatched h l (DGrant k a).
Proof using Hn Hlid.
  intros Hh Hl. eapply (dispatched_intro h l _ (Outcome _ _ [] 0)); [done|apply lid_of_hdr| |reflexivity|done].
  unfold lock_packet_process. by rewrite (proj2 (proj2 (cfg_wf h Hh))).
Qed.

(** The size in bytes of a queue that is not empty is not zero, even if it
    overflows. *)
Lemma queue_bytes x : - 2 ^ 31 <= x < 2 ^ 31 -> x <> 0 -> i32 (x * sizeof_wqe) <> 0.
Proof using.
  intros Hx Hx0. unfold sizeof_wqe, Prelude.sw. change (2 ^ (32 - 1)) with 2147483648. change (2 ^ 32) with 4294967296.
  change (2 ^ 31) with 2147483648 in Hx. intros H.
  pose proof (Z.div_mod (x * 5 + 2147483648) 4294967296 ltac:(lia)) as E.
  set (q := (x * 5 + 2147483648) / 4294967296) in E.
  assert (q = -2 \/ q = -1 \/ q = 0 \/ q = 1 \/ q = 2) by lia. lia.
Qed.

Lemma i32_range x : - 2 ^ 31 <= i32 x < 2 ^ 31.
Proof using. unfold Prelude.sw. change (2 ^ (32 - 1)) with (2 ^ 31). pose proof (Z.mod_pos_bound (x + 2 ^ 31) (2 ^ 32)). lia. Qed.

(** A release that leaves the lock without holders rewrites its packet. *)
Lemma tail_eq h l m :
  host_ok h -> lock_ok l -> l_is_agent l = true ->
  packet_of m = Packet POST_LOCK_RELEASE (pk_hdr (packet_of m)) [] [] -> lock_id (pk_hdr (packet_of m)) = htonl lid ->
  exists p ret, release_tail (cfg_of h) l (packet_of m) = Ok (Outcome (given_up h l).1 p [] ret) /\
    answers h [] p ret = map msg_of (given_up h l).2.
Proof using Hn Hlid.
  intros Hh Hl Ha Ep Eh. destruct (lo_mode _ Hl Ha) as [e Em]. unfold release_tail, given_up.
  destruct (lock_no_holders l); [|by exists (packet_of m), 0].
  pose proof (lo_wq _ Hl) as Hq. unfold lock_no_waiters. destruct (l_wqueue l) as [|w wq] eqn:Eq.
  - rewrite bool_decide_true by done. unfold lock_free_helper.
    do 2 eexists. split; [reflexivity|]. apply answers_one; [done|].
    rewrite Em, Ep. cbn. unfold hdr. rewrite Eh, (u8_hid h Hh). by destruct e.
  - rewrite bool_decide_false by done. unfold lock_transfer_helper. rewrite Eq. cbv zeta. cbn [mbind result_bind].
    apply Forall_cons_1 in Hq as [Hw _]. pose proof (waiter_excl w Hw) as Ew. destruct Hw as (_ & Hwh & Hwt).
    do 2 eexists. split; [reflexivity|].
    match goal with |- answers _ _ ?p ?r = _ => assert (Er : answers h [] p r = [ToSwitch h p]) end.
    { unfold answers. cbn [sends map app]. rewrite (proj2 (Z.eqb_neq _ 0)); [done|].
      destruct (i32 _ =? 0) eqn:E0; [done|]. apply queue_bytes; [apply i32_range|by apply Z.eqb_neq]. }
    rewrite Er. unfold msg_of. cbn [map]. do 2 f_equal. rewrite Em, Ep.
    cbn. unfold hdr. rewrite Eh, (u8_hid h Hh), (u8_hid _ Hwh), (u32_tid _ Hwt), Ew.
    rewrite drop_nil. by destruct (wq_excl w), e.
Qed.

Lemma dispatched_release h l k :
  host_ok h -> lock_ok l -> LOCK_HOLDER k.1 k.2 ∈ l_holders l -> dispatched h l (DRel h k).
Proof using Hn Hlid.
  intros Hh Hl Hin. pose proof (lo_id _ Hl) as Hi. set (l1 := lock_remove_holder (LOCK_HOLDER k.1 k.2) l).
  assert (Ep : lock_packet_process (cfg_of h) l (packet_of (DRel h k)) =
    if l_is_agent l then release_tail (cfg_of h) l1 (packet_of (DRel h k))
    else Ok (Outcome (set_delayed_free true l1) (packet_of (DRel h k)) [] 0)).
  { rewrite process_type_release by (done || by apply cfg_wf). unfold process_release.
    rewrite (in_range lid Hlid l Hi). cbn [packet_of hdr pk_hdr machine_id task_id].
    unfold lock_has_holder. rewrite bool_decide_true by done. cbn [negb]. by destruct (l_is_agent l). }
  unfold dispatched. cbn [delivered]. unfold release_arrived. fold l1.
  destruct (l_is_agent l) eqn:Ha.
  - destruct (tail_eq h l1 (DRel h k) Hh) as (p & ret & Et & Ea);
      [by apply lock_ok_remove|exact Ha|reflexivity|reflexivity|].
    rewrite Et in Ep. exists p, ret, []. split; [|done].
    apply (deliver_lock false lid h l _ _ Hi (packet_lid (DRel h k)) Ep).
  - exists (packet_of (DRel h k)), 0, []. split; [|done].
    apply (deliver_lock false lid h l _ _ Hi (packet_lid (DRel h k)) Ep).
Qed.

Lemma dispatched_free h l c : host_ok h -> lock_ok l -> dispatched h l (DFree h c).
Proof using Hn Hlid.
  intros Hh Hl.
  assert (Ep : lock_packet_process (cfg_of h) l (packet_of (DFree h c)) = process_pushback l (packet_of (DFree h c)))
    by (apply process_type_pushback; [by apply cfg_wf|by right]).
  unfold process_pushback in Ep. fold (retried l) in Ep.
  destruct (retried l) eqn:Er;
    (eapply dispatched_intro; [done|apply lid_of_hdr|exact Ep|..]); cbn [delivered]; rewrite Er.
  - done.
  - by apply answers_one.
  - cbn. unfold pushed_back, set_wqueue. cbn. by rewrite app_nil_r.
  - done.
Qed.

Lemma dispatched_transfer h l k e wq c : host_ok h -> lock_ok l -> dispatched h l (DTransfer h k e wq c).
Proof using Hn Hlid.
  intros Hh Hl. set (m := DTransfer h k e wq c).
  assert (Ep : lock_packet_process (cfg_of h) l (packet_of m) = process_pushback l (packet_of m))
    by (apply process_type_pushback; [by apply cfg_wf|by left]).
  unfold process_pushback in Ep. fold (retried l) in Ep.
  destruct (retried l) eqn:Er;
    (eapply dispatched_intro; [done|apply lid_of_hdr|exact Ep|..]); cbn [delivered m]; rewrite Er.
  - done.
  - apply answers_one; [done|]. by destruct e.
  - cbn. unfold pushed_back, unmarshalled, set_wqueue. cbn.
    destruct e, (0 <? _); cbn; by rewrite <- ?app_assoc.
  - done.
Qed.

(** The digested queue's grants. *)
Lemma digest_sends h l q :
  lock_ok l -> Forall waiter_ok q ->
  sends h (map (digest_grant (l_id l)) (filterb wq_shared q)) =
    map msg_of (map (fun w => UGrant h (wq_req w)) (filterb wq_shared q)).
Proof using Hn Hlid.
  intros Hl Hq. apply send_to.
  - rewrite !map_map. apply map_ext_in. intros w [Hw _]%List.filter_In.
    apply list.Forall_forall with (x := w) in Hq; [|by apply list_elem_of_In]. destruct Hq as (_ & Hwh & Hwt).
    cbn. unfold hdr, wq_req. by rewrite (lo_id _ Hl), (u8_hid _ Hwh), (u32_tid _ Hwt).
  - apply list.Forall_forall. intros m Hm%list_elem_of_fmap. by destruct Hm as (w & -> & _).
Qed.

Lemma dispatched_agent h l k e oe tr wq c :
  host_ok h -> h = k.1 -> lock_ok l -> deliverable l (DAgent k e oe tr wq c) -> dispatched h l (DAgent k e oe tr wq c).
Proof using Hn Hlid.
  intros Hh -> Hl (Ht & Hq & Htr & Hfit). set (m := DAgent k e oe tr wq c).
  assert (Ep : lock_packet_process (cfg_of k.1) l (packet_of m) = process_grant_with_agent (cfg_of k.1) l (packet_of m))
    by (apply process_type_grant; [by apply cfg_wf|done]).
  unfold process_grant_with_agent in Ep.
  assert (Er : (task_id (pk_hdr (packet_of m)) =? TASK_FOR_RESTORE) = false).
  { apply Z.eqb_neq. cbn. unfold in_uw in Ht. change TASK_FOR_RESTORE with 4294967295. lia. }
  rewrite Er in Ep. clear Er.
  assert (Em : MODE (mode_old_mode (pk_hdr (packet_of m))) = op_of e) by (by destruct e, oe, tr).
  assert (Et : TRANSFERRED (pk_hdr (packet_of m)) = tr) by (by destruct e, oe, tr).
  cbv zeta in Ep. rewrite Em, Et in Ep. clear Em Et.
  change (task_id (pk_hdr (packet_of m))) with k.2 in Ep. change (LOCALHOST_ID (cfg_of k.1)) with k.1 in Ep.
  change (wq_size (pk_hdr (packet_of m))) with (u32 (Z.of_nat (length wq))) in Ep.
  change (pk_wq (packet_of m)) with wq in Ep.
  set (l1 := set_mode (op_of e) (lock_add_holder (LOCK_HOLDER k.1 k.2) (set_is_agent true l))) in Ep.
  assert (Hl1 : l_id (set_ncnt (l_ncnt l1 + 0) l1) = l_id l) by done.
  destruct tr; [|specialize (Htr eq_refl); subst wq]; destruct e;
    change (ls_eqb (l_mode l1) LOCK_SHARED) with false in Ep || change (ls_eqb (l_mode l1) LOCK_SHARED) with true in Ep.
  - change (ls_eqb (l_mode (set_ncnt _ l1)) LOCK_SHARED) with false in Ep. cbv iota in Ep.
    assert (Ed : (if 0 <? u32 (Z.of_nat (length wq)) then Ok (lock_unmarshal_wq wq (set_ncnt (l_ncnt l1 + 0) l1), [])
      else Ok (set_ncnt (l_ncnt l1 + 0) l1, [])) =
      Ok (lock_unmarshal_wq (unmarshalled wq) (set_ncnt (l_ncnt l1 + 0) l1), [] : list sent)).
    { unfold unmarshalled. destruct (0 <? _); [done|]. unfold lock_unmarshal_wq, set_wqueue. cbn. by rewrite app_nil_r. }
    rewrite Ed in Ep. clear Ed. cbn [mbind result_bind] in Ep.
    eapply dispatched_intro; [done|apply packet_lid|exact Ep|reflexivity|done].
  - change (ls_eqb (l_mode (set_ncnt _ l1)) LOCK_SHARED) with true in Ep. cbv iota in Ep.
    assert (Ed : (if 0 <? u32 (Z.of_nat (length wq)) then lock_digest_wq wq (set_ncnt (l_ncnt l1 + 0) l1)
      else Ok (set_ncnt (l_ncnt l1 + 0) l1, [])) = lock_digest_wq (unmarshalled wq) (set_ncnt (l_ncnt l1 + 0) l1)).
    { unfold unmarshalled. by destruct (0 <? _). }
    rewrite Ed in Ep. clear Ed.
    assert (Hu : Forall waiter_ok (unmarshalled wq) /\ Z.of_nat (length (unmarshalled wq)) <= DPDK_TX_BURST_SIZE).
    { by rewrite unmarshalled_all. }
    rewrite lock_digest_wq_spec in Ep by apply Hu. cbn [mbind result_bind] in Ep.
    eapply dispatched_intro; [done|apply packet_lid|exact Ep|reflexivity|].
    cbn [o_sends o_pkt o_ret]. unfold answers. cbn [Z.eqb]. rewrite app_nil_r, Hl1. apply digest_sends; [done|apply Hu].
  - eapply dispatched_intro; [done|apply packet_lid|exact Ep| |done].
    cbn. unfold set_wqueue, lock_unmarshal_wq. cbn. by rewrite app_nil_r.
  - eapply dispatched_intro; [done|apply packet_lid|exact Ep| |done].
    cbn. unfold set_wqueue. cbn. by rewrite app_nil_r, union_empty_r_L.
Qed.

(** A message that arrives at its host. *)
Lemma deliver_message h l m :
  host_ok h -> lock_ok l -> link m = (true, h) -> deliverable l m -> dispatched h l m.
Proof using Hn Hlid.
  intros Hh Hl Hm Hd. destruct m; try done; injection Hm as <-.
  - by apply dispatched_acquire.
  - by apply dispatched_notif.
  - by apply dispatched_release.
  - by apply dispatched_free.
  - by apply dispatched_transfer.
  - by apply dispatched_grant.
  - by apply dispatched_agent.
Qed.
End messages.
