(* ===== verification/Readers.v ===== *)
(** * Readers: the invariant of readers and writers

    The distributed lock of [System] with the Tofino switch, for shared and
    exclusive requests.  The state is described by the messages in flight
    ([Messages.vmsg]), the switch's registers of the lock, the lock of every
    host and what every task does; the invariant says who owns the lock, where
    every request and every grant is, and that the holders recorded at the agent
    together with the notifications on their way to it are the grants that were
    made and not yet returned. *)

From S2P Require Import Prelude RwSpec Types Post Lock LockProofs LockApi Agent LockApiProofs Switch System Fission Messages.

(** ** What messages carry *)

(** The requests that are not granted, the grants on their way to a task, the
    grants with agency, the releases and the notifications. *)
Definition m_reqs (m : vmsg) : list req :=
  match m with
  | UAcq _ _ k | DAcq _ _ k => [k]
  | UTransfer _ k _ _ wq _ | DTransfer _ k _ wq _ => k :: map wq_req wq
  | DAgent _ _ _ _ wq _ => map wq_req wq
  | _ => []
  end.
Definition m_grants (m : vmsg) : list req := match m with UGrant _ k | DGrant k _ => [k] | _ => [] end.
Definition m_agents (m : vmsg) : list req := match m with DAgent k _ _ _ _ _ => [k] | _ => [] end.
Definition m_rels (m : vmsg) : list req := match m with URel k | DRel _ k => [k] | _ => [] end.
Definition m_notifs (m : vmsg) : list req := match m with DNotif _ k => [k] | _ => [] end.
(** The grants on the last link. *)
Definition m_dgrants (m : vmsg) : list req := match m with DGrant k _ => [k] | _ => [] end.

(** How often a request occurs. *)
Definition occ (f : vmsg -> list req) (V : list vmsg) (k : req) : nat := count k (concat (map f V)).

(** The notifications a packet accounts for. *)
Definition m_count (m : vmsg) : Z :=
  match m with
  | UFree _ _ c | UTransfer _ _ _ _ _ c | DFree _ c | DTransfer _ _ _ _ c => c
  | DAgent _ false _ false _ _ => 1
  | _ => 0
  end.
Definition accounted (V : list vmsg) : Z := foldr (fun m z => m_count m + z) 0 V.
Definition notifs (V : list vmsg) : nat := length (concat (map m_notifs V)).

(** The packets that own the lock. *)
Definition is_token (m : vmsg) : bool :=
  match m with
  | UFree _ _ _ | UTransfer _ _ _ _ _ _ | DFree _ _ | DTransfer _ _ _ _ _ | DAgent _ _ _ _ _ _ => true
  | _ => false
  end.
Definition tokens (V : list vmsg) : nat := length (filterb is_token V).

(** On the link to the agent a notification comes before what its requester does
    next: its release and, on the agent's own host, the news of the grant. *)
Definition behind (m m' : vmsg) : Prop :=
  match m', m with
  | DNotif h k, DRel h' k' => (h, k) <> (h', k')
  | DNotif h k, DGrant k' _ => k.1 = h -> k <> k'
  | _, _ => True
  end.

Abbreviation locks := (Z -> innet_lock).
Abbreviation task_map := (gmap req task_state).

(** ** What locks and tasks show *)

Definition lflag (l : innet_lock) (t : Z) : nat := one (bool_decide (l_task_granted l !! t = Some true)).
Definition flag (L : locks) (k : req) : nat := lflag (L k.1) k.2.
Definition holder (l : innet_lock) (k : req) : nat := one (bool_decide (LOCK_HOLDER k.1 k.2 ∈ l_holders l)).
Definition queue (l : innet_lock) (k : req) : nat := count k (map wq_req (l_wqueue l)).
Definition waits (T : task_map) (k : req) : nat := match T !! k with Some (Waiting _ _) => 1 | _ => 0 end.
Definition helds (T : task_map) (k : req) : nat := match T !! k with Some (Held _) => 1 | _ => 0 end.

Definition wants (T : task_map) (k : req) (e : bool) : Prop := exists r, T !! k = Some (Waiting r (op_of e)).

(** Where packets may be: tokens come from and go to the agent; notifications
    and releases go to it, and exist only while the lock is shared. *)
Definition placed (o : owner) (r : lock_regs) (m : vmsg) : Prop :=
  match m with
  | UFree h oe _ | UTransfer h _ _ oe _ _ => h = lock_agent r /\ oe = lock_rw_mode r
  | DFree h _ | DTransfer h _ _ _ _ => h = lock_agent r /\ lock_rw_mode r = false
  | DAgent k e _ _ _ _ => k.1 = lock_agent r /\ e = lock_rw_mode r
  | DNotif h _ | DRel h _ => o <> OSwitch /\ h = lock_agent r /\ lock_rw_mode r = false
  | URel _ | UGrant _ _ | DGrant _ _ => o <> OSwitch /\ lock_rw_mode r = false
  | UAcq _ _ _ | DAcq _ _ _ => True
  end.

Definition task_op (v : task_state) : lock_state := match v with Waiting _ op | Held op => op end.

Lemma placed_owner o o' r m : o' <> OSwitch -> placed o r m -> placed o' r m.
Proof. intros Ho. destruct m; cbn; tauto. Qed.

#[local] Arguments count : simpl never.

(** ** Counting *)

Lemma occ_app f V1 V2 k : occ f (V1 ++ V2) k = (occ f V1 k + occ f V2 k)%nat.
Proof. unfold occ. by rewrite map_app, concat_app, count_app. Qed.

Lemma occ_cons f m V k : occ f (m :: V) k = (count k (f m) + occ f V k)%nat.
Proof. unfold occ. cbn [map concat]. by rewrite count_app. Qed.

Lemma occ_nil f k : occ f [] k = 0%nat.
Proof. done. Qed.

Lemma occ_none f V k : Forall (fun m => f m = []) V -> occ f V k = 0%nat.
Proof. induction 1 as [|m V E _ IH]; [done|]. by rewrite occ_cons, E, IH. Qed.

Lemma occ_le f g V k : (forall m, count k (f m) <= count k (g m))%nat -> (occ f V k <= occ g V k)%nat.
Proof. intros H. induction V as [|m V IH]; [done|]. rewrite !occ_cons. specialize (H m). lia. Qed.

Lemma occ_pos f V m k : m ∈ V -> k ∈ f m -> (1 <= occ f V k)%nat.
Proof using.
  intros Hm Hk. apply list_elem_of_split in Hm as (V1 & V2 & ->). rewrite occ_app, occ_cons.
  assert (1 <= count k (f m))%nat; [|lia]. clear -Hk.
  induction Hk as [l|k x l _ IH]; rewrite count_cons; [rewrite bool_decide_true by done; cbn|]; lia.
Qed.

Lemma count_in k l : k ∈ l <-> (1 <= count k l)%nat.
Proof using.
  induction l as [|x l IH]; [rewrite count_nil; split; [by intros ?%elem_of_nil|lia]|].
  rewrite count_cons, elem_of_cons, IH. destruct (decide (x = k)) as [->|Hne].
  - rewrite bool_decide_true by done. cbn. split; [lia|by left].
  - rewrite bool_decide_false by done. cbn. split; [intros [?|?]; [congruence|done]|by right].
Qed.

Lemma notifs_app V1 V2 : notifs (V1 ++ V2) = (notifs V1 + notifs V2)%nat.
Proof. unfold notifs. by rewrite map_app, concat_app, length_app. Qed.

Lemma notifs_cons m V : notifs (m :: V) = (length (m_notifs m) + notifs V)%nat.
Proof. unfold notifs. cbn [map concat]. by rewrite length_app. Qed.

Lemma notifs_none V k : notifs V = 0%nat -> occ m_notifs V k = 0%nat.
Proof. unfold notifs, occ. intros H. by apply nil_length_inv in H as ->. Qed.

Lemma tokens_join V1 V2 : tokens (V1 ++ V2) = (tokens V1 + tokens V2)%nat.
Proof. unfold tokens. by rewrite List.filter_app, length_app. Qed.

Lemma tokens_cons m V : tokens (m :: V) = (one (is_token m) + tokens V)%nat.
Proof. unfold tokens. simpl. by destruct (is_token m). Qed.

Lemma accounted_app V1 V2 : accounted (V1 ++ V2) = accounted V1 + accounted V2.
Proof. unfold accounted. induction V1 as [|m V1 IH]; [done|]. cbn. rewrite IH. lia. Qed.

Lemma accounted_cons m V : accounted (m :: V) = m_count m + accounted V.
Proof. done. Qed.

(** A lock that is not shared: no notification, release or plain grant. *)
Lemma placed_none o r V f k :
  (f = m_notifs \/ f = m_rels \/ f = m_grants) -> o = OSwitch \/ lock_rw_mode r = true ->
  Forall (placed o r) V -> occ f V k = 0%nat.
Proof.
  intros Hf Hr HV. apply occ_none. eapply Forall_impl; [|exact HV]. intros m Hm.
  destruct Hf as [-> | [-> | ->]], m; try done; cbn in Hm; destruct Hr; destruct Hm; naive_solver congruence.
Qed.

(** The locks with another one at host [h]. *)
Definition upd (L : locks) (h : Z) (l : innet_lock) : locks := fun x => if decide (x = h) then l else L x.

Lemma upd_same L h l : upd L h l h = l.
Proof. unfold upd. by rewrite decide_True. Qed.

Lemma upd_other L h l x : x <> h -> upd L h l x = L x.
Proof. intros H. unfold upd. by rewrite decide_False. Qed.

Lemma flag_upd L h l k : flag (upd L h l) k = if decide (k.1 = h) then lflag l k.2 else flag L k.
Proof. unfold flag, upd. by case_decide. Qed.

(** ** A message is replaced by others *)

Lemma fop_app {A} (R : A -> A -> Prop) l1 l2 :
  ForallOrdPairs R (l1 ++ l2) <->
  ForallOrdPairs R l1 /\ ForallOrdPairs R l2 /\ Forall (fun x => Forall (R x) l2) l1.
Proof.
  induction l1 as [|x l1 IH]; cbn [app].
  - split; [intros H; split_and!; [constructor|done|constructor]|by intros (_ & ? & _)].
  - split.
    + intros H. inversion H as [|? ? Hx Hl]; subst. apply Forall_app in Hx as [Hx1 Hx2].
      apply IH in Hl as (? & ? & ?). split_and!; [by constructor|done|by constructor].
    + intros (H1 & H2 & H3). inversion H1 as [|? ? Hx Hl]; subst. apply Forall_cons_1 in H3 as [H3 H4].
      constructor; [by apply Forall_app|]. by apply IH.
Qed.

Lemma order_replace V1 m V2 ms :
  ForallOrdPairs behind (V1 ++ m :: V2) -> ForallOrdPairs behind ms ->
  Forall (fun x => Forall (behind x) ms) (V1 ++ V2) -> ForallOrdPairs behind (V1 ++ V2 ++ ms).
Proof.
  intros (H1 & H2 & H3)%fop_app Hm Hx. inversion H2 as [|? ? _ H2']; subst.
  rewrite app_assoc. apply fop_app. split_and!; [|done|done]. apply fop_app. split_and!; [done..|].
  eapply Forall_impl; [|exact H3]. intros x Hx'. by apply Forall_cons_1 in Hx' as [_ ?].
Qed.

Lemma behind_absent V h k :
  occ m_rels V k = 0%nat -> occ m_grants V k = 0%nat -> Forall (fun x => behind x (DNotif h k)) V.
Proof.
  induction V as [|m V IH]; [constructor|]. rewrite !occ_cons. intros H1 H2. constructor; [|apply IH; lia].
  destruct m; try done; cbn in H1, H2; rewrite count_cons in *.
  - intros [= _ ->]. rewrite bool_decide_true in H1 by done. cbn in H1. lia.
  - intros _ ->. rewrite bool_decide_true in H2 by done. cbn in H2. lia.
Qed.

(** Messages other than notifications may come at any time. *)
Lemma behind_any x m : m_notifs m = [] -> behind x m.
Proof. by destruct m. Qed.

Lemma order_any V ms : Forall (fun m => m_notifs m = []) ms ->
  ForallOrdPairs behind ms /\ Forall (fun x => Forall (behind x) ms) V.
Proof.
  intros Hm. assert (Hb : forall x, Forall (behind x) ms).
  { intros x. eapply Forall_impl; [|exact Hm]. intros m. apply behind_any. }
  split; [|apply list.Forall_forall; by intros x _].
  clear Hb. induction Hm as [|m ms E Hm IH]; constructor; [|done].
  eapply Forall_impl; [|exact Hm]. intros m'. apply behind_any.
Qed.

Lemma forall_replace {A} (P : A -> Prop) V1 m V2 ms :
  Forall P (V1 ++ m :: V2) -> Forall P ms -> Forall P (V1 ++ V2 ++ ms).
Proof. rewrite !Forall_app. intros [H1 [_ H2]%Forall_cons_1] H3. by split_and!. Qed.

Lemma forall_middle {A} (P : A -> Prop) V1 m V2 : Forall P (V1 ++ m :: V2) -> P m.
Proof. rewrite Forall_app. by intros [_ [? _]%Forall_cons_1]. Qed.

Lemma holder_iff l k : LOCK_HOLDER k.1 k.2 ∈ l_holders l <-> (1 <= holder l k)%nat.
Proof.
  unfold holder. case_bool_decide as Hd; cbn; split; intros H; [lia|exact Hd|by destruct Hd|lia].
Qed.

Lemma holder_in l k : (1 <= holder l k)%nat -> LOCK_HOLDER k.1 k.2 ∈ l_holders l.
Proof. apply holder_iff. Qed.

Lemma holder_le l k : (holder l k <= 1)%nat.
Proof. unfold holder, one. destruct (bool_decide _); lia. Qed.

Lemma holder_empty l k : l_holders l = ∅ -> holder l k = 0%nat.
Proof. unfold holder. intros ->. by rewrite bool_decide_false by set_solver. Qed.

Lemma holder_add l lh k :
  holder (lock_add_holder lh l) k = if bool_decide (LOCK_HOLDER k.1 k.2 = lh) then 1%nat else holder l k.
Proof.
  unfold holder. change (l_holders (lock_add_holder lh l)) with ({[ lh ]} ∪ l_holders l).
  case_bool_decide as Hu; rewrite elem_of_union, elem_of_singleton in Hu; case_bool_decide as Hd; try done.
  - by rewrite bool_decide_true by tauto.
  - tauto.
  - by rewrite bool_decide_false by tauto.
Qed.

Lemma holder_remove l lh k :
  holder (lock_remove_holder lh l) k = if bool_decide (LOCK_HOLDER k.1 k.2 = lh) then 0%nat else holder l k.
Proof.
  unfold holder. change (l_holders (lock_remove_holder lh l)) with (l_holders l ∖ {[ lh ]}).
  case_bool_decide as Hu; rewrite elem_of_difference, elem_of_singleton in Hu; case_bool_decide as Hd; try done.
  - tauto.
  - by rewrite bool_decide_true by tauto.
  - by rewrite bool_decide_false by tauto.
Qed.

Lemma held_once T k op : T !! k = Some (Held op) -> helds T k = 1%nat.
Proof. unfold helds. by intros ->. Qed.

Ltac occs := rewrite ?occ_app, ?occ_cons, ?occ_nil;
  cbn [m_reqs m_grants m_agents m_rels m_notifs m_dgrants]; rewrite ?count_cons, ?count_nil; lia.

Ltac totals := rewrite ?tokens_join, ?tokens_cons, ?notifs_app, ?notifs_cons, ?accounted_app, ?accounted_cons;
  change (tokens []) with 0%nat; change (notifs []) with 0%nat; change (accounted []) with 0;
  cbn [is_token one m_notifs length m_count].

(** The host numbers and the groups made of them fit the switch's tables. *)
Class few_hosts (n : Z) : Prop := few_hosts_bound : 1 <= n < 64.

Section readers.
Context {n lid : Z} `{Hn : few_hosts n}.

Abbreviation host_ok := (host_ok n).
Abbreviation key_ok := (key_ok n).
Abbreviation lock_ok := (lock_ok n lid).
(** The queues of all hosts. *)
Definition queued (L : locks) (k : req) : nat := list_sum (map (fun h => queue (L h) k) (seqZ 1 n)).

Lemma host_u8 h : host_ok h -> in_uw 8 h.
Proof using Hn. pose proof few_hosts_bound. unfold Fission.host_ok, in_uw. lia. Qed.

(** ** The invariant *)

Definition waiter_typed (T : task_map) (w : wqe) : Prop := waiter_ok n w /\ wants T (wq_req w) (wq_excl w).

Definition typed (T : task_map) (m : vmsg) : Prop :=
  match m with
  | UAcq h e k | DAcq h e k => host_ok h /\ key_ok k /\ wants T k e
  | URel k => key_ok k
  | UFree h _ c | DFree h c => host_ok h /\ in_uw 8 c
  | UTransfer h k e _ wq c | DTransfer h k e wq c =>
      host_ok h /\ key_ok k /\ in_uw 8 c /\ wants T k e /\ Forall (waiter_typed T) wq
  | UGrant h k | DNotif h k | DRel h k => host_ok h /\ key_ok k
  | DGrant k _ => key_ok k
  | DAgent k e _ tr wq _ => key_ok k /\ wants T k e /\ Forall (waiter_typed T) wq /\ (tr = false -> wq = [])
  end.

Definition lock_typed (T : task_map) (l : innet_lock) : Prop := lock_ok l /\ Forall (waiter_typed T) (l_wqueue l).

(** A task's key, its operation, and the handle and flag it waits with. *)
Definition task_ok (L : locks) (k : req) (v : task_state) : Prop :=
  key_ok k /\
  match v with
  | Waiting r op => r = ReqPtr 0 k.2 /\ (exists e, op = op_of e) /\ is_Some (l_task_granted (L k.1) !! k.2)
  | Held op => exists e, op = op_of e
  end.

Record rw_inv (o : owner) (V : list vmsg) (r : lock_regs) (L : locks) (T : task_map) : Prop := {
  (* where things are, and of which kind *)
  ri_typed : Forall (typed T) V;
  ri_placed : Forall (placed o r) V;
  ri_locks : forall h, host_ok h -> lock_typed T (L h);
  ri_tasks : forall k v, T !! k = Some v -> task_ok L k v;
  (* each request is in at most one place, each grant is recorded once *)
  ri_places : forall k,
    (occ m_reqs V k + queued L k + flag L k + occ m_grants V k + occ m_agents V k = waits T k)%nat;
  ri_once : forall k, (waits T k + helds T k + occ m_rels V k <= 1)%nat;
  ri_holders : forall k, key_ok k ->
    (holder (L (lock_agent r)) k + occ m_notifs V k =
     flag L k + occ m_grants V k + helds T k + occ m_rels V k)%nat;
  ri_order : ForallOrdPairs behind V;
  ri_follow : forall k, k.1 = lock_agent r -> (occ m_notifs V k <= occ m_dgrants V k)%nat;
  (* the owner *)
  ri_agent : forall h, l_is_agent (L h) = bool_decide (o = OHost h);
  ri_tokens : tokens V = match o with OPacket => 1%nat | _ => 0%nat end;
  ri_free : lock_free_mode r = negb (bool_decide (o = OSwitch));
  ri_reg : o <> OSwitch -> host_ok (lock_agent r);
  ri_mode : forall h, o = OHost h -> lock_agent r = h /\ l_mode (L h) = op_of (lock_rw_mode r);
  ri_live : forall k v, T !! k = Some v -> (1 <= flag L k + occ m_grants V k + helds T k)%nat ->
    o <> OSwitch /\ task_op v = op_of (lock_rw_mode r);
  (* the notifications *)
  ri_quiet : forall h, o = OSwitch \/ h <> lock_agent r -> l_ncnt (L h) = 0;
  ri_idle : forall h, l_is_agent (L h) = false -> l_ncnt (L h) = 0 -> l_holders (L h) = ∅;
  ri_unused : o = OSwitch -> notification_cnt r = 0;
  ri_shared : o <> OSwitch -> lock_rw_mode r = false ->
    notification_cnt r = (l_ncnt (L (lock_agent r)) + accounted V + Z.of_nat (notifs V)) mod 256;
  ri_excl : o <> OSwitch -> lock_rw_mode r = true -> l_ncnt (L (lock_agent r)) = 0 /\
    (o = OHost (lock_agent r) -> exists t, in_uw 30 t /\ l_holders (L (lock_agent r)) = {[ LOCK_HOLDER (lock_agent r) t ]});
}.

Lemma key_inj k1 k2 : key_ok k1 -> key_ok k2 -> LOCK_HOLDER k1.1 k1.2 = LOCK_HOLDER k2.1 k2.2 -> k1 = k2.
Proof using Hn.
  intros [_ H1] [_ H2] E. apply LOCK_HOLDER_inj in E as [? ?]; [|apply (in_uw_mono 30); [lia|done]..].
  destruct k1, k2; cbn in *; by subst.
Qed.

(** ** Readers and writers exclude each other *)

Lemma rw_compatible o V r L T k1 k2 op1 op2 :
  rw_inv o V r L T -> T !! k1 = Some (Held op1) -> T !! k2 = Some (Held op2) -> k1 <> k2 ->
  op1 = LOCK_SHARED /\ op2 = LOCK_SHARED.
Proof using Hn.
  intros HI H1 H2 Hne.
  destruct (ri_live _ _ _ _ _ HI k1 _ H1) as [Ho E1]; [rewrite (held_once _ _ _ H1); lia|].
  destruct (ri_live _ _ _ _ _ HI k2 _ H2) as [_ E2]; [rewrite (held_once _ _ _ H2); lia|].
  cbn in E1, E2. destruct (lock_rw_mode r) eqn:Erw; [|by subst].
  destruct (ri_excl _ _ _ _ _ HI Ho Erw) as [Hnc Hex].
  assert (Hin : forall k op, T !! k = Some (Held op) -> key_ok k /\
    LOCK_HOLDER k.1 k.2 ∈ l_holders (L (lock_agent r))).
  { intros k op Hk. destruct (ri_tasks _ _ _ _ _ HI k _ Hk) as [Hok _]. split; [done|]. apply holder_in.
    pose proof (ri_holders _ _ _ _ _ HI k Hok) as E. rewrite (held_once _ _ _ Hk) in E.
    rewrite (placed_none o r V m_notifs k) in E; [lia|auto..|apply HI]. }
  destruct (Hin _ _ H1) as [Hk1 Hin1], (Hin _ _ H2) as [Hk2 Hin2].
  destruct (decide (o = OHost (lock_agent r))) as [Eo|Eo].
  - destruct (Hex Eo) as (t & Ht & Es). rewrite Es in Hin1, Hin2. destruct Hne. apply key_inj; [done..|].
    by rewrite (proj1 (elem_of_singleton _ _) Hin1), (proj1 (elem_of_singleton _ _) Hin2).
  - pose proof (ri_agent _ _ _ _ _ HI (lock_agent r)) as Ha. rewrite bool_decide_false in Ha by done.
    rewrite (ri_idle _ _ _ _ _ HI _ Ha Hnc) in Hin1. set_solver.
Qed.

Lemma free_owner o V r L T : rw_inv o V r L T -> lock_free_mode r = false -> o = OSwitch.
Proof using Hn.
  intros HI E. rewrite (ri_free _ _ _ _ _ HI) in E. destruct (decide (o = OSwitch)); [done|].
  by rewrite bool_decide_false in E.
Qed.

Lemma taken_owner o V r L T : rw_inv o V r L T -> lock_free_mode r = true -> o <> OSwitch.
Proof using Hn. intros HI E ->. by rewrite (ri_free _ _ _ _ _ HI) in E. Qed.

(** What does not depend on the owner. *)
Record sound (V : list vmsg) (L : locks) (T : task_map) : Prop := {
  sd_typed : Forall (typed T) V;
  sd_locks : forall h, host_ok h -> lock_typed T (L h);
  sd_tasks : forall k v, T !! k = Some v -> task_ok L k v;
  sd_places : forall k,
    (occ m_reqs V k + queued L k + flag L k + occ m_grants V k + occ m_agents V k = waits T k)%nat;
  sd_once : forall k, (waits T k + helds T k + occ m_rels V k <= 1)%nat;
}.

Lemma rw_inv_sound o V r L T : rw_inv o V r L T -> sound V L T.
Proof using. by intros []. Qed.

Definition lag (V : list vmsg) (r : lock_regs) (L : locks) : Z :=
  l_ncnt (L (lock_agent r)) + Z.of_nat (notifs V).

(** A message of the state replaced by one: what does not depend on the
    owner. *)
Lemma sound_replace V1 m V2 L T ms :
  sound (V1 ++ m :: V2) L T -> Forall (typed T) ms ->
  (forall k, occ m_reqs ms k + occ m_grants ms k + occ m_agents ms k =
    count k (m_reqs m) + count k (m_grants m) + count k (m_agents m))%nat ->
  (forall k, occ m_rels ms k <= count k (m_rels m))%nat ->
  sound (V1 ++ V2 ++ ms) L T.
Proof using Hn.
  intros [Hty Hlo Hta Hpl Hon] Ht H1 H2. split; try done.
  - by apply (forall_replace _ _ _ _ _ Hty).
  - intros k. specialize (Hpl k). specialize (H1 k). revert Hpl. rewrite !occ_app, !occ_cons. lia.
  - intros k. specialize (Hon k). specialize (H2 k). revert Hon. rewrite !occ_app, !occ_cons. lia.
Qed.

Lemma token_is_owner o V1 m V2 r L T :
  rw_inv o (V1 ++ m :: V2) r L T -> is_token m = true -> o = OPacket.
Proof using Hn.
  intros HI Hm. pose proof (ri_tokens _ _ _ _ _ HI) as H. rewrite tokens_join, tokens_cons, Hm in H.
  destruct o; [cbn in H; lia..|done].
Qed.

(** ** One host changes *)

Lemma queued_upd L h l k :
  host_ok h -> (queued (upd L h l) k + queue (L h) k = queued L k + queue l k)%nat.
Proof using Hn.
  intros Hh. unfold queued. pose proof (sum_update n (fun h' => queue (L h') k) (fun h' => queue (upd L h l h') k) h Hh) as H.
  cbv beta in H. rewrite upd_same in H. rewrite H; [lia|]. intros h' Hne. by rewrite upd_other.
Qed.

Lemma queue_le L h k : host_ok h -> (queue (L h) k <= queued L k)%nat.
Proof using.
  intros Hh. unfold queued, Fission.host_ok in *. assert (Hin : h ∈ seqZ 1 n) by (apply elem_of_seqZ; lia).
  apply list_elem_of_split in Hin as (l1 & l2 & ->). rewrite map_app, list_sum_app. cbn. lia.
Qed.

(** The requests of one host's queue and flags, changed without touching the
    tasks. *)
Lemma sound_host V V' L T h l' :
  sound V L T -> host_ok h -> Forall (typed T) V' -> lock_typed T l' ->
  (forall t, is_Some (l_task_granted (L h) !! t) -> is_Some (l_task_granted l' !! t)) ->
  (forall k, occ m_reqs V' k + queue l' k + (if decide (k.1 = h) then lflag l' k.2 else 0) +
      occ m_grants V' k + occ m_agents V' k =
    occ m_reqs V k + queue (L h) k + (if decide (k.1 = h) then lflag (L h) k.2 else 0) +
      occ m_grants V k + occ m_agents V k)%nat ->
  (forall k, occ m_rels V' k <= occ m_rels V k)%nat ->
  sound V' (upd L h l') T.
Proof using Hn.
  intros [Hty Hlo Hta Hpl Hon] Hh Ht Hl Hg H1 H2. split; try done.
  - intros x Hx. destruct (decide (x = h)) as [->|Hne]; [by rewrite upd_same|].
    rewrite upd_other by done. by apply Hlo.
  - intros k v Hv. destruct (Hta k v Hv) as [Hk Hv']. split; [done|]. destruct v; [|done].
    destruct Hv' as (? & ? & Hs). split_and!; [done..|].
    unfold upd. case_decide as Hd; [|exact Hs]. rewrite Hd in Hs. by apply Hg.
  - intros k. specialize (Hpl k). specialize (H1 k). pose proof (queued_upd L h l' k Hh) as Hq.
    rewrite flag_upd. unfold flag in Hpl. case_decide as Hd; [rewrite Hd in Hpl|unfold flag]; lia.
  - intros k. specialize (Hon k). specialize (H2 k). lia.
Qed.

(** A host's step. *)
Lemma inv_host o o' V V' r L T T' h l' :
  rw_inv o V r L T -> sound V' (upd L h l') T' ->
  Forall (placed o' r) V' -> ForallOrdPairs behind V' ->
  (forall k, k.1 = lock_agent r -> (occ m_notifs V' k <= occ m_dgrants V' k)%nat) ->
  (forall k, key_ok k -> (holder (upd L h l' (lock_agent r)) k + occ m_notifs V' k =
     flag (upd L h l') k + occ m_grants V' k + helds T' k + occ m_rels V' k)%nat) ->
  (o' = OSwitch <-> o = OSwitch) -> (forall x, x <> h -> (o' = OHost x <-> o = OHost x)) ->
  l_is_agent l' = bool_decide (o' = OHost h) ->
  (o' = OHost h -> lock_agent r = h /\ l_mode l' = op_of (lock_rw_mode r)) ->
  tokens V' = match o' with OPacket => 1%nat | _ => 0%nat end ->
  (forall k v, T' !! k = Some v -> (1 <= flag (upd L h l') k + occ m_grants V' k + helds T' k)%nat ->
    o <> OSwitch /\ task_op v = op_of (lock_rw_mode r)) ->
  (o = OSwitch \/ h <> lock_agent r -> l_ncnt l' = 0) ->
  (l_is_agent l' = false -> l_ncnt l' = 0 -> l_holders l' = ∅) ->
  (o <> OSwitch -> lock_rw_mode r = false ->
    notification_cnt r = (l_ncnt (upd L h l' (lock_agent r)) + accounted V' + Z.of_nat (notifs V')) mod 256) ->
  (o <> OSwitch -> lock_rw_mode r = true -> h = lock_agent r -> l_ncnt l' = 0 /\
    (o' = OHost h -> exists t, in_uw 30 t /\ l_holders l' = {[ LOCK_HOLDER h t ]})) ->
  rw_inv o' V' r (upd L h l') T'.
Proof using Hn.
  intros HI [Hty Hlo Hta Hpl Hon] HP Hord Hfol Hhold Ho1 Ho2 Ha Hm Htok Hlive Hq Hid Hsh Hex. split; try done.
  - intros x. destruct (decide (x = h)) as [->|Hne]; [by rewrite upd_same|].
    rewrite upd_other by done. rewrite (bool_decide_ext _ _ (Ho2 x Hne)). apply (ri_agent _ _ _ _ _ HI).
  - rewrite (bool_decide_ext _ _ Ho1). apply (ri_free _ _ _ _ _ HI).
  - rewrite Ho1. apply (ri_reg _ _ _ _ _ HI).
  - intros x Hx. destruct (decide (x = h)) as [->|Hne]; [rewrite upd_same; by apply Hm|].
    rewrite upd_other by done. apply (ri_mode _ _ _ _ _ HI). by apply Ho2.
  - intros k v Hv H. rewrite Ho1. by apply (Hlive k).
  - intros x Hx. rewrite Ho1 in Hx. destruct (decide (x = h)) as [->|Hne]; [rewrite upd_same; by apply Hq|].
    rewrite upd_other by done. by apply (ri_quiet _ _ _ _ _ HI).
  - intros x. destruct (decide (x = h)) as [->|Hne]; [by rewrite upd_same|].
    rewrite upd_other by done. apply (ri_idle _ _ _ _ _ HI).
  - rewrite Ho1. apply (ri_unused _ _ _ _ _ HI).
  - by rewrite Ho1.
  - rewrite Ho1. intros Ho Erw. destruct (decide (lock_agent r = h)) as [<-|Hne]; [rewrite upd_same; by apply Hex|].
    rewrite upd_other by done. destruct (ri_excl _ _ _ _ _ HI Ho Erw) as [? H]. split; [done|].
    intros E. apply H. by apply Ho2.
Qed.

(** A step that leaves the agent's part of the lock as it is. *)
Lemma inv_steady o V V' r L T T' h l' :
  rw_inv o V r L T -> sound V' (upd L h l') T' ->
  l_is_agent l' = l_is_agent (L h) -> l_mode l' = l_mode (L h) -> l_ncnt l' = l_ncnt (L h) ->
  l_holders l' = l_holders (L h) ->
  (forall k, occ m_notifs V' k = occ m_notifs V k) ->
  (forall k, key_ok k -> (flag (upd L h l') k + occ m_grants V' k + helds T' k + occ m_rels V' k =
    flag L k + occ m_grants V k + helds T k + occ m_rels V k)%nat) ->
  (forall k v, T' !! k = Some v -> (1 <= flag (upd L h l') k + occ m_grants V' k + helds T' k)%nat ->
    exists v', T !! k = Some v' /\ task_op v' = task_op v /\ (1 <= flag L k + occ m_grants V k + helds T k)%nat) ->
  Forall (placed o r) V' -> ForallOrdPairs behind V' ->
  (forall k, k.1 = lock_agent r -> (occ m_notifs V' k <= occ m_dgrants V' k)%nat) ->
  tokens V' = tokens V -> notifs V' = notifs V -> accounted V' = accounted V ->
  rw_inv o V' r (upd L h l') T'.
Proof using Hn.
  intros HI Hs Ea Em Enc Eh Enot Elife Elive HP Hord Hfol Htok Hnot Hacc.
  assert (Eu : forall x, l_is_agent (upd L h l' x) = l_is_agent (L x) /\ l_mode (upd L h l' x) = l_mode (L x) /\
    l_ncnt (upd L h l' x) = l_ncnt (L x) /\ l_holders (upd L h l' x) = l_holders (L x)).
  { intros x. unfold upd. case_decide as Hd; [by subst x|done]. }
  assert (Ehold : forall x k, holder (upd L h l' x) k = holder (L x) k).
  { intros x k. unfold holder. by rewrite (proj2 (proj2 (proj2 (Eu x)))). }
  destruct HI, Hs. split; try done.
  - intros k Hk. rewrite Ehold, Enot, Elife by done. by apply ri_holders0.
  - intros x. by rewrite (proj1 (Eu x)).
  - congruence.
  - intros x Hx. rewrite (proj1 (proj2 (Eu x))). by apply ri_mode0.
  - intros k v Hv H. destruct (Elive k v Hv H) as (v' & Hv' & <- & H'). by apply (ri_live0 k v').
  - intros x Hx. rewrite (proj1 (proj2 (proj2 (Eu x)))). by apply ri_quiet0.
  - intros x. destruct (Eu x) as (-> & _ & -> & ->). apply ri_idle0.
  - intros Ho Erw. destruct (Eu (lock_agent r)) as (_ & _ & -> & _). rewrite Hacc, Hnot. by apply ri_shared0.
  - intros Ho Erw. destruct (Eu (lock_agent r)) as (_ & _ & -> & ->). by apply ri_excl0.
Qed.

Lemma flag_same L h l' : (forall t, lflag l' t = lflag (L h) t) -> forall k, flag (upd L h l') k = flag L k.
Proof using. intros E k. rewrite flag_upd. case_decide as Hd; [|done]. unfold flag. by rewrite E, Hd. Qed.

(** ** The lock of one host *)

Lemma waiter_mk T e k : key_ok k -> wants T k e -> waiter_typed T (mk_wqe (op_of e) k.2 k.1).
Proof using Hn.
  intros [Hh Ht] Hw. rewrite mk_wqe_exact; [|done|by apply host_u8].
  split; [split_and!; [by exists e|done..]|]. unfold wq_req, wq_excl. cbn. destruct k, e; exact Hw.
Qed.

Lemma req_mk k e : key_ok k -> wq_req (mk_wqe (op_of e) k.2 k.1) = k.
Proof using Hn.
  intros [Hh Ht]. rewrite mk_wqe_exact; [by destruct k|done|by apply host_u8].
Qed.

Lemma lock_typed_seen T k l : lock_typed T l -> lock_typed T (request_seen k l).
Proof using Hn.
  intros [[H1 H2 H3 H4 H5] Hq]. split; [|done]. split; try done.
  intros x. cbn. by rewrite index_touch.
Qed.

Lemma lock_typed_append T l e k :
  lock_typed T l -> key_ok k -> wants T k e -> lock_typed T (handle_suspend_acquire k.1 k.2 (op_of e) l).
Proof using Hn.
  intros [[H1 H2 H3 H4 H5] Hq] Hk Hw. pose proof (waiter_mk T e k Hk Hw) as Hm.
  split; [split; try done|]; cbn; (apply Forall_app; split; [done|]); apply Forall_singleton; [apply Hm|done].
Qed.

Lemma lock_typed_ncnt T z l : lock_typed T l -> lock_typed T (set_ncnt z l).
Proof using. intros [[H1 H2 H3 H4 H5] Hq]. split; [|done]. split; try done. by apply uw_range. Qed.

Lemma lock_typed_holders T hs l : lock_typed T l -> lock_typed T (set_holders hs l).
Proof using. by intros [[]]. Qed.

Lemma lock_typed_notify T t l : lock_typed T l -> lock_typed T (lock_local_notify t l).
Proof using. by intros [[]]. Qed.

Lemma lock_typed_fwd T f l : lock_typed T l -> lock_typed T (set_fwd_back_cnt f l).
Proof using. by intros [[]]. Qed.

(** A grant that was made and not returned is recorded once. *)
Lemma grant_once o V r L T k :
  rw_inv o V r L T -> key_ok k ->
  (flag L k + occ m_grants V k + helds T k + occ m_rels V k <= 1)%nat.
Proof using Hn.
  intros HI Hk. pose proof (ri_places _ _ _ _ _ HI k). pose proof (ri_once _ _ _ _ _ HI k). lia.
Qed.

Lemma key_holder k k' : key_ok k -> key_ok k' ->
  bool_decide (LOCK_HOLDER k'.1 k'.2 = LOCK_HOLDER k.1 k.2) = bool_decide (k = k').
Proof using Hn.
  intros H1 H2. apply bool_decide_ext. split; [|by intros ->]. intros E. symmetry. by apply key_inj.
Qed.

Lemma u32_mod z : (u32 z) mod 256 = z mod 256.
Proof using. apply (uw_narrow 8 32). lia. Qed.

(** ** Tasks *)

(** [k'] still waits. *)
Definition still (T T' : task_map) (k' : req) : Prop :=
  forall q op, T !! k' = Some (Waiting q op) -> T' !! k' = Some (Waiting q op).

Lemma wants_still T T' k e : still T T' k -> wants T k e -> wants T' k e.
Proof using. intros Hs [q E]. exists q. by apply Hs. Qed.

Lemma waiters_still T T' wq : (forall k, k ∈ map wq_req wq -> still T T' k) ->
  Forall (waiter_typed T) wq -> Forall (waiter_typed T') wq.
Proof using.
  intros Hs Hq. induction Hq as [|w wq [H1 H2] _ IH]; constructor.
  - split; [done|]. eapply wants_still; [|done]. apply Hs. by left.
  - apply IH. intros k Hk. apply Hs. by right.
Qed.

Lemma typed_still T T' m : (forall k, k ∈ m_reqs m ++ m_agents m -> still T T' k) -> typed T m -> typed T' m.
Proof using.
  intros Hs. assert (Hw : forall k e, k ∈ m_reqs m ++ m_agents m -> wants T k e -> wants T' k e)
    by (intros k e Hk; by apply wants_still, Hs).
  assert (Hq : forall wq, map wq_req wq ⊆ m_reqs m -> Forall (waiter_typed T) wq -> Forall (waiter_typed T') wq).
  { intros wq Hsub. apply waiters_still. intros k Hk. apply Hs, elem_of_app. left. by apply Hsub. }
  destruct m as [h e k| | |h k e oe wq c| |h e k| | | |h k e wq c| |k e oe tr wq c]; cbn [typed] in *; try done.
  - intros (? & ? & ?). split_and!; [done..|]. apply Hw; [by left|done].
  - intros (? & ? & ? & ? & ?). split_and!; [done..|apply Hw; [by left|done]|]. apply Hq; [|done]. intros x Hx. by right.
  - intros (? & ? & ?). split_and!; [done..|]. apply Hw; [by left|done].
  - intros (? & ? & ? & ? & ?). split_and!; [done..|apply Hw; [by left|done]|]. apply Hq; [|done]. intros x Hx. by right.
  - intros (? & ? & ? & ?). split_and!; [done|apply Hw; [apply elem_of_app; right; by left|done]| |done].
    by apply Hq.
Qed.

Lemma lock_typed_still T T' l : (forall k, k ∈ map wq_req (l_wqueue l) -> still T T' k) ->
  lock_typed T l -> lock_typed T' l.
Proof using. intros Hs [Hl Hq]. split; [done|]. by eapply waiters_still. Qed.

End readers.

#[global] Arguments queued : clear implicits.
#[global] Arguments waiter_typed : clear implicits.
#[global] Arguments typed : clear implicits.
#[global] Arguments lock_typed : clear implicits.
#[global] Arguments task_ok : clear implicits.
#[global] Arguments rw_inv : clear implicits.
#[global] Arguments sound : clear implicits.
