(* ===== verification/ReadersSwitch.v ===== *)
(** * ReadersSwitch: the switch preserves the invariant

    What the switch does with a packet: it grants, forwards or passes it on, or
    the lock changes hands, which is sound because a packet that gives the lock
    up is only accepted when all grants have been returned. *)

From S2P Require Import Prelude RwSpec Types Post Lock LockProofs LockApi Agent LockApiProofs Switch System Fission Messages Readers.

#[local] Arguments count : simpl never.

Section readers.
Context {n lid : Z} `{Hn : few_hosts n}.

Abbreviation host_ok := (host_ok n).
Abbreviation key_ok := (key_ok n).
Abbreviation lock_ok := (lock_ok n lid).
Abbreviation queued := (queued n).
Abbreviation waiter_typed := (waiter_typed n).
Abbreviation typed := (typed n).
Abbreviation lock_typed := (lock_typed n lid).
Abbreviation task_ok := (task_ok n).
Abbreviation rw_inv := (rw_inv n lid).
Abbreviation sound := (sound n lid).

(** ** Steps of the switch *)

(** The switch handles a message without a change of owner. *)
Lemma inv_messages o V r L T V' c :
  rw_inv o V r L T -> Forall (typed T) V' -> Forall (placed o r) V' ->
  (forall k, occ m_reqs V' k + occ m_grants V' k + occ m_agents V' k =
    occ m_reqs V k + occ m_grants V k + occ m_agents V k)%nat ->
  (forall k, occ m_rels V' k = occ m_rels V k) ->
  (forall k, occ m_notifs V' k + occ m_grants V k = occ m_grants V' k + occ m_notifs V k)%nat ->
  ForallOrdPairs behind V' ->
  (forall k, k.1 = lock_agent r -> (occ m_notifs V' k <= occ m_dgrants V' k)%nat) ->
  tokens V' = tokens V ->
  (forall k v, T !! k = Some v -> (occ m_grants V k < occ m_grants V' k)%nat ->
    o <> OSwitch /\ task_op v = op_of (lock_rw_mode r)) ->
  (o = OSwitch -> c = 0) ->
  (o <> OSwitch -> lock_rw_mode r = false ->
    c = (l_ncnt (L (lock_agent r)) + accounted V' + Z.of_nat (notifs V')) mod 256) ->
  rw_inv o V' (Regs (lock_free_mode r) (lock_rw_mode r) (lock_agent r) c) L T.
Proof using Hn.
  intros HI HT HP Hreq Hrel Hg Hord Hfol Htok Hlive Hc0 Hc. split; try done; try (by apply HI).
  - intros k. pose proof (ri_places _ _ _ _ _ HI k). specialize (Hreq k). lia.
  - intros k. rewrite Hrel. apply (ri_once _ _ _ _ _ HI).
  - intros k Hk. pose proof (ri_holders _ _ _ _ _ HI k Hk). specialize (Hg k). specialize (Hrel k). cbn [lock_agent]. lia.
  - rewrite Htok. apply (ri_tokens _ _ _ _ _ HI).
  - intros k v Hv H. destruct (decide (occ m_grants V k < occ m_grants V' k)%nat) as [Hl|Hl]; [by apply (Hlive k)|].
    apply (ri_live _ _ _ _ _ HI k v Hv). lia.
Qed.

Section replace.
Context (o : owner) (V1 V2 : list vmsg) (r : lock_regs) (L : locks) (T : task_map).

(** A request that is not granted goes to the agent. *)
Lemma switch_forwards h e k :
  rw_inv o (V1 ++ UAcq h e k :: V2) r L T -> lock_free_mode r = true -> e || lock_rw_mode r = true ->
  rw_inv o (V1 ++ V2 ++ [DAcq (lock_agent r) e k])
    (Regs (lock_free_mode r) (lock_rw_mode r) (lock_agent r)
      (if e then notification_cnt r else u8 (notification_cnt r + 1))) L T.
Proof using Hn.
  intros HI Ef Ee. pose proof (taken_owner _ _ _ _ _ HI Ef) as Ho.
  apply (inv_messages _ _ _ _ _ _ _ HI); try done.
  - apply (forall_replace _ _ _ _ _ (ri_typed _ _ _ _ _ HI)). apply Forall_singleton.
  pose proof (forall_middle _ _ _ _ (ri_typed _ _ _ _ _ HI)) as (_ & ? & ?). cbn.
    split_and!; [by apply (ri_reg _ _ _ _ _ HI)|done..].
  - by apply (forall_replace _ _ _ _ _ (ri_placed _ _ _ _ _ HI)), Forall_singleton.
  - intros k'. occs.
  - intros k'. occs.
  - intros k'. occs.
  - pose proof (order_any (V1 ++ V2) [DAcq (lock_agent r) e k]) as [? ?]; [by apply Forall_singleton|].
    by apply (order_replace _ _ _ _ (ri_order _ _ _ _ _ HI)).
  - intros k' Hk. pose proof (ri_follow _ _ _ _ _ HI k' Hk) as H. revert H. occs.
  - totals. lia.
  - intros k' v _. occs.
  - intros _ Erw. rewrite Erw, orb_false_r in Ee. subst e.
    rewrite (ri_shared _ _ _ _ _ HI Ho Erw). totals. f_equal. lia.
Qed.

(** A shared request joins a shared lock. *)
Lemma switch_grants h k :
  rw_inv o (V1 ++ UAcq h false k :: V2) r L T -> lock_free_mode r = true -> lock_rw_mode r = false ->
  rw_inv o (V1 ++ V2 ++ [DNotif (lock_agent r) k; DGrant k (lock_agent r)])
    (Regs (lock_free_mode r) (lock_rw_mode r) (lock_agent r) (u8 (notification_cnt r + 1))) L T.
Proof using Hn.
  intros HI Ef Erw. pose proof (taken_owner _ _ _ _ _ HI Ef) as Ho.
  pose proof (forall_middle _ _ _ _ (ri_typed _ _ _ _ _ HI)) as (_ & Hk & [q Ew]).
  assert (Hz : occ m_rels (V1 ++ V2) k = 0%nat /\ occ m_grants (V1 ++ V2) k = 0%nat).
  { pose proof (ri_places _ _ _ _ _ HI k) as H1. pose proof (ri_once _ _ _ _ _ HI k) as H2.
    revert H1 H2. unfold waits. rewrite Ew, !occ_app, !occ_cons. cbn [m_reqs m_rels m_grants].
    rewrite count_cons, bool_decide_true by done. cbn [one]. lia. }
  apply (inv_messages _ _ _ _ _ _ _ HI); try done.
  - apply (forall_replace _ _ _ _ _ (ri_typed _ _ _ _ _ HI)). repeat constructor; try apply Hk.
    all: by apply (ri_reg _ _ _ _ _ HI).
  - apply (forall_replace _ _ _ _ _ (ri_placed _ _ _ _ _ HI)). repeat constructor; done.
  - intros k'. occs.
  - intros k'. occs.
  - intros k'. occs.
  - apply (order_replace _ _ _ _ (ri_order _ _ _ _ _ HI)).
    + repeat constructor.
    + pose proof (behind_absent (V1 ++ V2) (lock_agent r) k (proj1 Hz) (proj2 Hz)) as Hb.
      eapply Forall_impl; [|exact Hb]. intros x Hx. constructor; [done|]. constructor; [by destruct x|constructor].
  - intros k' Hk'. pose proof (ri_follow _ _ _ _ _ HI k' Hk') as H. revert H. occs.
  - totals. lia.
  - intros k' v Hv Hlt. split; [done|]. destruct (decide (k = k')) as [<-|Hne].
    + rewrite Ew in Hv. injection Hv as <-. by rewrite Erw.
    + exfalso. revert Hlt. rewrite !occ_app, !occ_cons, occ_nil. cbn [m_grants].
      rewrite count_cons, bool_decide_false, !count_nil by done. cbn. lia.
  - intros _ _. rewrite (ri_shared _ _ _ _ _ HI Ho Erw). totals.
    change (u8 ?x) with (uw 8 x). unfold uw. change (2 ^ 8) with 256. rewrite Zplus_mod_idemp_l. f_equal. lia.
Qed.

Lemma regs_eta : Regs (lock_free_mode r) (lock_rw_mode r) (lock_agent r) (notification_cnt r) = r.
Proof using. by destruct r. Qed.

(** One message replaced by one that carries the same. *)
Lemma switch_passes m m' :
  rw_inv o (V1 ++ m :: V2) r L T -> typed T m' -> placed o r m' ->
  m_reqs m' = m_reqs m -> m_grants m' = m_grants m -> m_agents m' = m_agents m ->
  m_rels m' = m_rels m -> m_notifs m = [] -> m_notifs m' = [] -> (forall k, count k (m_dgrants m) <= count k (m_dgrants m'))%nat ->
  is_token m' = is_token m -> m_count m' = m_count m ->
  rw_inv o (V1 ++ V2 ++ [m']) r L T.
Proof using Hn.
  intros HI Ht Hp E1 E2 E3 E4 E5 E6 E7 E8 E9. rewrite <- regs_eta.
  assert (Hocc : forall f k, f m' = f m -> occ f (V1 ++ V2 ++ [m']) k = occ f (V1 ++ m :: V2) k).
  { intros f k Ef. rewrite !occ_app, !occ_cons, occ_nil, Ef. lia. }
  apply (inv_messages _ _ _ _ _ _ _ HI); try done.
  - by apply (forall_replace _ _ _ _ _ (ri_typed _ _ _ _ _ HI)), Forall_singleton.
  - by apply (forall_replace _ _ _ _ _ (ri_placed _ _ _ _ _ HI)), Forall_singleton.
  - intros k. rewrite !Hocc by done. lia.
  - intros k. by rewrite Hocc.
  - intros k. rewrite !Hocc by congruence. lia.
  - pose proof (order_any (V1 ++ V2) [m']) as [? ?]; [by apply Forall_singleton|].
    by apply (order_replace _ _ _ _ (ri_order _ _ _ _ _ HI)).
  - intros k Hk. rewrite Hocc by congruence. pose proof (ri_follow _ _ _ _ _ HI k Hk) as H. specialize (E7 k).
    revert H. rewrite !occ_app, !occ_cons, occ_nil. lia.
  - totals. rewrite E8. lia.
  - intros k v _. rewrite Hocc by done. lia.
  - by apply (ri_unused _ _ _ _ _ HI).
  - intros Ho Erw. rewrite (ri_shared _ _ _ _ _ HI Ho Erw). totals. rewrite E5, E6, E9. cbn [length]. f_equal. lia.
Qed.
End replace.

(** ** The lock changes hands at the switch *)

Definition bare (m : vmsg) : Prop := match m with UAcq _ _ _ | DAcq _ _ _ => True | _ => False end.

(** No host owns the lock, and nobody holds it. *)
Record resting (V : list vmsg) (L : locks) (T : task_map) : Prop := {
  rs_bare : Forall bare V;
  rs_locks : forall h, l_is_agent (L h) = false /\ l_ncnt (L h) = 0 /\ l_holders (L h) = ∅;
  rs_tasks : forall k, key_ok k -> flag L k = 0%nat /\ helds T k = 0%nat;
}.

Lemma bare_occ f V k : (f = m_grants \/ f = m_agents \/ f = m_rels \/ f = m_notifs \/ f = m_dgrants) ->
  Forall bare V -> occ f V k = 0%nat.
Proof using.
  intros Hf HV. apply occ_none. eapply Forall_impl; [|exact HV]. intros m Hm.
  by destruct m; try done; destruct Hf as [-> | [-> | [-> | [-> | ->]]]].
Qed.

Lemma bare_totals V : Forall bare V -> tokens V = 0%nat /\ notifs V = 0%nat /\ accounted V = 0.
Proof using.
  induction 1 as [|m V Hm _ IH]; [done|]. rewrite tokens_cons, notifs_cons, accounted_cons.
  destruct IH as (-> & -> & ->). by destruct m.
Qed.

Lemma bare_placed o r V : Forall bare V -> Forall (placed o r) V.
Proof using. intros HV. eapply Forall_impl; [|exact HV]. by intros []. Qed.

Lemma bare_order V m : Forall bare V -> m_notifs m = [] -> ForallOrdPairs behind (V ++ [m]).
Proof using.
  intros HV Hm. apply (order_any [] (V ++ [m])). apply Forall_app. split; [|by apply Forall_singleton].
  eapply Forall_impl; [|exact HV]. by intros [].
Qed.

Lemma inv_freed V L T : resting V L T -> sound V L T -> rw_inv OSwitch V (Regs false false 0 0) L T.
Proof using Hn.
  intros [Hb Hl Ht] Hs. destruct (bare_totals V Hb) as (E1 & E2 & E3). split; try done; try (by apply Hs).
  - by apply bare_placed.
  - intros k Hk. destruct (Ht k Hk) as [-> ->]. rewrite !(bare_occ _ V k) by auto.
    rewrite holder_empty; [done|apply Hl].
  - apply (order_any [] V). eapply Forall_impl; [|exact Hb]. by intros [].
  - intros k _. rewrite !(bare_occ _ V k) by auto. done.
  - intros h. rewrite bool_decide_false by done. apply Hl.
  - intros k v Hv H. destruct (sd_tasks _ _ _ Hs k v Hv) as [Hk _]. destruct (Ht k Hk) as [E4 E5].
    rewrite E4, E5, (bare_occ _ V k) in H by auto. lia.
  - intros h _. apply Hl.
  - intros h _ _. apply Hl.
Qed.

(** A grant with agency. *)
Lemma inv_agent_granted V L T k e oe tr wq c c0 :
  resting V L T -> sound (V ++ [DAgent k e oe tr wq c]) L T -> (e = false -> c0 = m_count (DAgent k e oe tr wq c)) ->
  rw_inv OPacket (V ++ [DAgent k e oe tr wq c]) (Regs true e k.1 c0) L T.
Proof using Hn.
  intros [Hb Hl Ht] Hs Hc. set (m := DAgent k e oe tr wq c) in *.
  destruct (bare_totals V Hb) as (E1 & E2 & E3).
  assert (Hocc : forall f k', f = m_grants \/ f = m_rels \/ f = m_notifs \/ f = m_dgrants ->
    occ f (V ++ [m]) k' = 0%nat).
  { intros f k' Hf. rewrite occ_app, occ_cons, occ_nil, (bare_occ f V k'); [|tauto|done].
    by destruct Hf as [-> | [-> | [-> | ->]]]. }
  assert (Hk : key_ok k).
  { pose proof (sd_typed _ _ _ Hs) as H. apply Forall_app in H as [_ H]. apply Forall_cons_1 in H as [[H _] _]. done. }
  destruct Hs as [Hty Hlo Hta Hpl Hon]. split; try done.
  - apply Forall_app. split; [by apply bare_placed|]. by apply Forall_singleton.
  - intros k' Hk'. destruct (Ht k' Hk') as [-> ->]. rewrite !Hocc by auto.
    rewrite holder_empty; [done|apply Hl].
  - by apply bare_order.
  - intros k' _. rewrite !Hocc by auto. done.
  - intros h. rewrite bool_decide_false by done. apply Hl.
  - totals. rewrite E1. done.
  - intros _. apply Hk.
  - intros k' v Hv H. destruct (Hta k' v Hv) as [Hk' _]. destruct (Ht k' Hk') as [E4 E5].
    rewrite E4, E5, Hocc in H by auto. lia.
  - intros h _. apply Hl.
  - intros h _ _. apply Hl.
  - intros _ He. cbn [lock_rw_mode notification_cnt lock_agent] in *. rewrite (proj1 (proj2 (Hl k.1))). totals.
    rewrite E2, E3, (Hc He). subst e. by destruct tr.
  - intros _ _. split; [apply Hl|done].
Qed.

Lemma tokens_none V m : tokens V = 0%nat -> m ∈ V -> is_token m = false.
Proof using.
  intros H Hm. apply list_elem_of_split in Hm as (V1 & V2 & ->). rewrite tokens_join, tokens_cons in H.
  destruct (is_token m); [cbn in H; lia|done].
Qed.

(** Only requests are in flight when no token is, nothing is to be notified and
    nobody holds the lock. *)
Lemma all_bare V T :
  Forall (typed T) V -> tokens V = 0%nat -> notifs V = 0%nat ->
  (forall k, key_ok k -> occ m_grants V k = 0%nat /\ occ m_rels V k = 0%nat) -> Forall bare V.
Proof using Hn.
  intros Ht H0 Hn0 Hk. apply list.Forall_forall. intros m Hm.
  pose proof (tokens_none V m H0 Hm) as Htok.
  pose proof (proj1 (list.Forall_forall _ _) Ht m Hm) as Hty.
  destruct m as [| | | | |h e k|h k|h k| | |k a|]; try done; cbn in Hty.
  - destruct (Hk _ Hty) as [_ E]. pose proof (occ_pos m_rels V _ k Hm) as H. cbn in H. set_solver by lia.
  - destruct Hty as [_ Hty]. destruct (Hk _ Hty) as [E _]. pose proof (occ_pos m_grants V _ k Hm) as H. set_solver by lia.
  - pose proof (notifs_none V k Hn0) as E. pose proof (occ_pos m_notifs V _ k Hm) as H. set_solver by lia.
  - destruct Hty as [_ Hty]. destruct (Hk _ Hty) as [_ E]. pose proof (occ_pos m_rels V _ k Hm) as H. set_solver by lia.
  - destruct (Hk _ Hty) as [E _]. pose proof (occ_pos m_grants V _ k Hm) as H. set_solver by lia.
Qed.

Lemma inv_resting o V r L T V' :
  rw_inv o V r L T -> Forall (typed T) V' -> tokens V' = 0%nat -> (forall h, o <> OHost h) ->
  (forall h, l_ncnt (L h) = 0) -> notifs V = 0%nat -> notifs V' = 0%nat ->
  (forall k, occ m_grants V' k <= occ m_grants V k /\ occ m_rels V' k <= occ m_rels V k)%nat ->
  resting V' L T.
Proof using Hn.
  intros HI Hty H0 Ho Hnc Hn0 Hn1 Hle.
  assert (Hl : forall h, l_is_agent (L h) = false /\ l_ncnt (L h) = 0 /\ l_holders (L h) = ∅).
  { intros h. pose proof (ri_agent _ _ _ _ _ HI h) as Ha. rewrite bool_decide_false in Ha by done.
    split_and!; [done..|]. by apply (ri_idle _ _ _ _ _ HI). }
  assert (Hz : forall k, key_ok k ->
    (flag L k = 0 /\ occ m_grants V k = 0 /\ helds T k = 0 /\ occ m_rels V k = 0)%nat).
  { intros k Hk. pose proof (ri_holders _ _ _ _ _ HI k Hk) as E.
    rewrite holder_empty, (notifs_none V k Hn0) in E by apply Hl. lia. }
  split; [|done|].
  - apply (all_bare V' T); [done..|]. intros k Hk. specialize (Hle k). specialize (Hz k Hk). lia.
  - intros k Hk. specialize (Hz k Hk). lia.
Qed.

Lemma free_notifs V r : Forall (placed OSwitch r) V -> notifs V = 0%nat.
Proof using.
  induction 1 as [|m V Hm _ IH]; [done|]. rewrite notifs_cons, IH. by destruct m; try done; destruct Hm as [Hm _].
Qed.

Lemma resting_free V r L T : rw_inv OSwitch V r L T -> resting V L T.
Proof using Hn.
  intros HI. pose proof (free_notifs V r (ri_placed _ _ _ _ _ HI)) as Hn0.
  apply (inv_resting _ _ _ _ _ V HI); try done.
  - apply (ri_typed _ _ _ _ _ HI).
  - apply (ri_tokens _ _ _ _ _ HI).
  - intros h. apply (ri_quiet _ _ _ _ _ HI). by left.
Qed.

Lemma accounted_none V : tokens V = 0%nat -> accounted V = 0.
Proof using.
  induction V as [|m V IH]; [done|]. rewrite tokens_cons, accounted_cons. intros H.
  destruct (is_token m) eqn:E; [cbn in H; lia|]. rewrite IH by (cbn in H; lia). by destruct m.
Qed.

(** The notifications the switch sent to an agent that has given the lock up, as
    far as the packet that says so does not account for them. *)

Lemma resting_token V1 m V2 r L T :
  rw_inv OPacket (V1 ++ m :: V2) r L T -> is_token m = true -> 0 <= m_count m < 256 ->
  lock_rw_mode r = true \/ notification_cnt r = m_count m ->
  lag (V1 ++ m :: V2) r L < 256 -> resting (V1 ++ V2) L T.
Proof using Hn.
  intros HI Hm Hcm Hacc Hlag.
  assert (Hnm : m_notifs m = []) by (by destruct m).
  assert (H0 : tokens (V1 ++ V2) = 0%nat).
  { pose proof (ri_tokens _ _ _ _ _ HI) as H. rewrite tokens_join, tokens_cons, Hm in H. rewrite tokens_join. cbn in H. lia. }
  assert (Hz : l_ncnt (L (lock_agent r)) = 0 /\ notifs (V1 ++ m :: V2) = 0%nat).
  { destruct (lock_rw_mode r) eqn:Erw.
    - split; [by apply (ri_excl _ _ _ _ _ HI)|]. pose proof (ri_placed _ _ _ _ _ HI) as HV. clear -HV Erw.
      induction HV as [|x V Hx _ IH]; [done|]. rewrite notifs_cons, IH.
      destruct x; try done. destruct Hx as (_ & _ & Hx). congruence.
    - destruct Hacc as [?|Hacc]; [done|]. pose proof (ri_shared _ _ _ _ _ HI ltac:(done) Erw) as E.
      pose proof (accounted_none _ H0) as Ea. rewrite accounted_app in Ea.
      rewrite accounted_app, accounted_cons, Hacc in E. unfold lag in Hlag.
      destruct (ri_locks _ _ _ _ _ HI (lock_agent r)) as [Hl _]; [by apply (ri_reg _ _ _ _ _ HI)|]. pose proof (lo_ncnt _ _ _ Hl) as Hnc.
      unfold in_uw in Hnc. pose proof (Z.div_mod (l_ncnt (L (lock_agent r)) + (accounted V1 + (m_count m + accounted V2)) +
        Z.of_nat (notifs (V1 ++ m :: V2))) 256 ltac:(lia)) as Ed.
      rewrite <- E in Ed. lia. }
  destruct Hz as [Hz1 Hz2].
  apply (inv_resting _ _ _ _ _ (V1 ++ V2) HI); try done.
  - pose proof (forall_replace _ _ _ _ [] (ri_typed _ _ _ _ _ HI)) as H. rewrite app_nil_r in H. apply H. constructor.
  - intros h. destruct (decide (h = lock_agent r)) as [->|Hne]; [done|].
    apply (ri_quiet _ _ _ _ _ HI). by right.
  - rewrite notifs_app, notifs_cons in Hz2. rewrite notifs_app. lia.
  - intros k. rewrite !occ_app, !occ_cons. lia.
Qed.

Lemma switch_gives o V1 V2 h e k r L T :
  rw_inv o (V1 ++ UAcq h e k :: V2) r L T -> lock_free_mode r = false ->
  rw_inv OPacket (V1 ++ V2 ++ [DAgent k e false false [] 0])
    (Regs true e k.1 (if e then notification_cnt r else u8 (notification_cnt r + 1))) L T.
Proof using Hn.
  intros HI Ef. pose proof (free_owner _ _ _ _ _ HI Ef) as ->.
  destruct (resting_free _ _ _ _ HI) as [Hb Hl Ht].
  pose proof (forall_middle _ _ _ _ (ri_typed _ _ _ _ _ HI)) as (_ & Hk & Hw).
  rewrite app_assoc. apply inv_agent_granted.
  - split; [|done..]. rewrite Forall_app in Hb |- *. destruct Hb as [? Hb%Forall_cons_1]. naive_solver.
  - rewrite <- app_assoc. apply (sound_replace _ _ _ _ _ _ (rw_inv_sound _ _ _ _ _ HI)).
    + apply Forall_singleton. cbn. split_and!; [done..|constructor|done].
    + intros k'. occs.
    + intros k'. occs.
  - intros ->. rewrite (ri_unused _ _ _ _ _ HI eq_refl). done.
Qed.

Lemma switch_frees V1 V2 h oe c o r L T :
  rw_inv o (V1 ++ UFree h oe c :: V2) r L T -> lag (V1 ++ UFree h oe c :: V2) r L < 256 ->
  oe || (notification_cnt r =? c) = true -> rw_inv OSwitch (V1 ++ V2) (Regs false false 0 0) L T.
Proof using Hn.
  intros HI Hlag Hacc. pose proof (token_is_owner _ _ _ _ _ _ _ HI eq_refl) as ->.
  pose proof (forall_middle _ _ _ _ (ri_typed _ _ _ _ _ HI)) as [_ Hc].
  pose proof (forall_middle _ _ _ _ (ri_placed _ _ _ _ _ HI)) as [_ ->].
  apply inv_freed.
  - apply (resting_token _ _ _ _ _ _ HI); [done|exact Hc| |done].
    apply orb_true_iff in Hacc as [?|?%Z.eqb_eq]; auto.
  - rewrite <- (app_nil_r V2). apply (sound_replace _ _ _ _ _ [] (rw_inv_sound _ _ _ _ _ HI)); [constructor|..];
      intros k'; occs.
Qed.

Lemma switch_transfers V1 V2 h k e oe wq c o r L T :
  rw_inv o (V1 ++ UTransfer h k e oe wq c :: V2) r L T -> lag (V1 ++ UTransfer h k e oe wq c :: V2) r L < 256 ->
  oe || (notification_cnt r =? c) = true ->
  rw_inv OPacket (V1 ++ V2 ++ [DAgent k e oe true wq c]) (Regs true e k.1 0) L T.
Proof using Hn.
  intros HI Hlag Hacc. pose proof (token_is_owner _ _ _ _ _ _ _ HI eq_refl) as ->.
  pose proof (forall_middle _ _ _ _ (ri_typed _ _ _ _ _ HI)) as (_ & Hk & Hc & Hw & Hq).
  pose proof (forall_middle _ _ _ _ (ri_placed _ _ _ _ _ HI)) as [_ ->].
  rewrite app_assoc. apply inv_agent_granted.
  - apply (resting_token _ _ _ _ _ _ HI); [done|exact Hc| |done].
    apply orb_true_iff in Hacc as [?|?%Z.eqb_eq]; auto.
  - rewrite <- app_assoc. apply (sound_replace _ _ _ _ _ _ (rw_inv_sound _ _ _ _ _ HI)).
    + apply Forall_singleton. cbn. by split_and!.
    + intros k'. occs.
    + intros k'. occs.
  - by intros ->.
Qed.

(** The switch preserves the invariant. *)
Lemma inv_switch o V1 m V2 r L T :
  rw_inv o (V1 ++ m :: V2) r L T -> (link m).1 = false ->
  (l_is_agent (L (lock_agent r)) = false -> lag (V1 ++ m :: V2) r L < 256) ->
  exists o', rw_inv o' (V1 ++ V2 ++ (at_switch r m).2) (at_switch r m).1 L T.
Proof using Hn.
  intros HI Hm Hlag'. pose proof (forall_middle _ _ _ _ (ri_typed _ _ _ _ _ HI)) as Hty.
  pose proof (forall_middle _ _ _ _ (ri_placed _ _ _ _ _ HI)) as Hpl.
  assert (Hlag : is_token m = true -> lag (V1 ++ m :: V2) r L < 256).
  { intros Htok. apply Hlag'. rewrite (ri_agent _ _ _ _ _ HI), (token_is_owner _ _ _ _ _ _ _ HI Htok).
    by apply bool_decide_false. }
  destruct m as [h e k|k|h oe c|h k e oe wq c|h k| | | | | | | ]; try done; cbn [at_switch].
  - destruct (lock_free_mode r) eqn:Ef; cbn [negb]; [|by exists OPacket; apply (switch_gives o _ _ h)].
    exists o. destruct (negb e && negb (lock_rw_mode r)) eqn:Es.
    + apply andb_true_iff in Es as [Ee%negb_true_iff Erw%negb_true_iff]. subst e.
      pose proof (switch_grants _ _ _ _ _ _ h k HI Ef Erw) as H. by rewrite Ef, Erw in H.
    + pose proof (switch_forwards _ _ _ _ _ _ h e k HI Ef) as H. rewrite Ef in H. apply H.
      by destruct e, (lock_rw_mode r).
  - destruct Hpl as [Ho Erw]. exists o. apply (switch_passes _ _ _ _ _ _ _ _ HI); try done.
    split; [by apply (ri_reg _ _ _ _ _ HI)|done].
  - destruct (oe || _) eqn:Eacc.
    + exists OSwitch. rewrite app_nil_r. by apply (switch_frees _ _ h oe c o r L T HI (Hlag eq_refl)).
    + apply orb_false_iff in Eacc as [-> _]. exists o. destruct Hpl as [Hh Erw].
      by apply (switch_passes _ _ _ _ _ _ _ _ HI).
  - destruct (oe || _) eqn:Eacc.
    + exists OPacket. by apply (switch_transfers _ _ h k e oe wq c o r L T HI (Hlag eq_refl)).
    + apply orb_false_iff in Eacc as [-> _]. exists o. destruct Hpl as [Hh Erw].
      by apply (switch_passes _ _ _ _ _ _ _ _ HI).
  - destruct Hpl as [Ho Erw]. exists o. apply (switch_passes _ _ _ _ _ _ _ _ HI); try done; [apply Hty|].
    intros k'. cbn. rewrite count_nil. lia.
Qed.

End readers.
