(* ===== verification/ReadersHost.v ===== *)
(** * ReadersHost: requests and notifications arrive

    A request is queued or sent back, a notification is recorded at the agent,
    and a requester learns of its grant. *)

From S2P Require Import Prelude RwSpec Types Post Lock LockProofs LockApi Agent LockApiProofs Switch System Fission Messages Readers.

#[local] Arguments count : simpl never.

Section readers.
Context {n lid : Z} `{Hn : few_hosts n}.

Abbreviation host_ok := (host_ok n).
Abbreviation key_ok := (key_ok n).
Abbreviation lock_ok := (lock_ok n lid).
Abbreviation queued := (queued n).
Abbreviation waiter_typed := (waiter_typed n).
Abbreviation typed := (typed n).
Abbreviation lock_typed := (lock_typed n lid).
Abbreviation task_ok := (task_ok n).
Abbreviation rw_inv := (rw_inv n lid).
Abbreviation sound := (sound n lid).

(** ** Steps of a host *)
(** What an arriving request leaves as it was. *)
Record same_state (l l' : innet_lock) : Prop := {
  ss_agent : l_is_agent l' = l_is_agent l;
  ss_mode : l_mode l' = l_mode l;
  ss_ncnt : l_ncnt l' = l_ncnt l;
  ss_holders : l_holders l' = l_holders l;
  ss_granted : l_task_granted l' = l_task_granted l;
}.

(** A request is queued or sent back. *)
Lemma request_arrived_cases h e k l :
  (let '(l', ms) := request_arrived h e k l in
   same_state l l' /\
   ((ms = [] /\ l_wqueue l' = l_wqueue l ++ [mk_wqe (op_of e) k.2 k.1]) \/
    (ms = [UAcq h e k] /\ l_wqueue l' = l_wqueue l))).
Proof using.
  unfold request_arrived. change (l_is_agent (request_seen k l)) with (l_is_agent l).
  destruct (l_is_agent l) eqn:Ea; [split; [by split|by left]|].
  destruct e; [|split; [by split|by right]]. cbv zeta. destruct (2 <? _); (split; [by split|]); [by left|by right].
Qed.

Lemma request_arrived_typed h e k l T :
  lock_typed T l -> key_ok k -> wants T k e -> lock_typed T (request_arrived h e k l).1.
Proof using Hn.
  intros Hl Hk Hw. pose proof (lock_typed_seen T k l Hl) as Hs. unfold request_arrived.
  destruct (l_is_agent _); [by apply lock_typed_append|]. destruct e; [|done]. cbv zeta.
  destruct (2 <? _); apply lock_typed_fwd; [|by apply lock_typed_fwd].
  apply (lock_typed_append T _ true k); [by apply lock_typed_fwd|done..].
Qed.

Lemma host_request o V1 V2 r L T h e k :
  rw_inv o (V1 ++ DAcq h e k :: V2) r L T ->
  rw_inv o (V1 ++ V2 ++ (request_arrived h e k (L h)).2) r (upd L h (request_arrived h e k (L h)).1) T.
Proof using Hn.
  intros HI. pose proof (forall_middle _ _ _ _ (ri_typed _ _ _ _ _ HI)) as (Hh & Hk & Hw).
  pose proof (request_arrived_typed h e k (L h) T (ri_locks _ _ _ _ _ HI h Hh) Hk Hw) as Hl.
  pose proof (request_arrived_cases h e k (L h)) as Hc. destruct (request_arrived h e k (L h)) as [l' ms].
  destruct Hc as [[E1 E2 E3 E4 E5] Hc]. cbn [fst snd] in *.
  assert (Hms : ms = [] \/ ms = [UAcq h e k]) by (destruct Hc as [[? _]|[? _]]; auto).
  assert (Hf : forall t, lflag l' t = lflag (L h) t) by (intros t; unfold lflag; by rewrite E5).
  assert (Hocc : forall f k', f (UAcq h e k) = [] -> f (DAcq h e k) = [] ->
    occ f (V1 ++ V2 ++ ms) k' = occ f (V1 ++ DAcq h e k :: V2) k').
  { intros f k' F1 F2. rewrite !occ_app, occ_cons, F2, count_nil.
    destruct Hms as [-> | ->]; rewrite ?occ_cons, ?occ_nil, ?F1, ?count_nil; lia. }
  pose proof (flag_same L h l' Hf) as Hfl.
  apply (inv_steady _ _ _ _ _ _ _ _ _ HI); try done.
  - apply (sound_host _ _ _ _ _ _ (rw_inv_sound _ _ _ _ _ HI)); try done.
    + apply (forall_replace _ _ _ _ _ (ri_typed _ _ _ _ _ HI)).
      destruct Hms as [-> | ->]; [constructor|by apply Forall_singleton].
    + intros t. by rewrite E5.
    + intros k'. rewrite !(Hocc m_grants), !(Hocc m_agents), Hf by done. unfold queue.
      destruct Hc as [[-> ->]|[-> ->]]; rewrite ?map_app, ?count_app; cbn [map];
        rewrite ?(req_mk k e Hk); rewrite !occ_app, occ_cons, ?occ_cons, occ_nil; cbn [m_reqs];
        rewrite ?count_cons, ?count_nil; lia.
    + intros k'. by rewrite Hocc.
  - intros k'. by apply Hocc.
  - intros k' _. by rewrite Hfl, !Hocc.
  - intros k' v Hv H. rewrite Hfl, Hocc in H by done. by exists v.
  - apply (forall_replace _ _ _ _ _ (ri_placed _ _ _ _ _ HI)).
    destruct Hms as [-> | ->]; [constructor|by apply Forall_singleton].
  - pose proof (order_any (V1 ++ V2) ms) as [? ?]; [destruct Hms as [-> | ->]; by repeat constructor|].
    by apply (order_replace _ _ _ _ (ri_order _ _ _ _ _ HI)).
  - intros k' Hk'. rewrite !Hocc by done. by apply (ri_follow _ _ _ _ _ HI).
  - destruct Hms as [-> | ->]; totals; lia.
  - destruct Hms as [-> | ->]; totals; lia.
  - destruct Hms as [-> | ->]; totals; lia.
Qed.

Lemma host_notif o V1 V2 r L T h k :
  rw_inv o (V1 ++ DNotif h k :: V2) r L T ->
  (l_is_agent (L (lock_agent r)) = false -> lag (V1 ++ DNotif h k :: V2) r L < 256) ->
  rw_inv o (V1 ++ V2 ++ []) r (upd L h (notified k (L h))) T.
Proof using Hn.
  intros HI Hlag. pose proof (forall_middle _ _ _ _ (ri_typed _ _ _ _ _ HI)) as (Hh & Hk).
  pose proof (forall_middle _ _ _ _ (ri_placed _ _ _ _ _ HI)) as (Ho & -> & Erw).
  set (a := lock_agent r) in *. set (V := V1 ++ DNotif a k :: V2) in *.
  assert (Hocc : forall f k', f (DNotif a k) = [] -> occ f (V1 ++ V2 ++ []) k' = occ f V k').
  { intros f k' F. unfold V. rewrite !occ_app, occ_cons, F, count_nil, occ_nil. lia. }
  assert (Hnot : forall k', occ m_notifs V k' = (one (bool_decide (k = k')) + occ m_notifs (V1 ++ V2 ++ []) k')%nat)
    by (intros k'; unfold V; occs).
  assert (Hty : forall T, Forall (typed T) V -> Forall (typed T) (V1 ++ V2 ++ []))
    by (intros T' H; by apply (forall_replace _ _ _ _ _ H)).
  assert (Eflag : forall k', flag (upd L a (notified k (L a))) k' = flag L k').
  { intros k'. rewrite flag_upd. case_decide as Hd; [|done]. unfold flag. by rewrite Hd. }
  assert (Hl : lock_typed T (notified k (L a))).
  { apply lock_typed_holders, lock_typed_seen, lock_typed_ncnt. by apply (ri_locks _ _ _ _ _ HI). }
  pose proof (ri_holders _ _ _ _ _ HI k Hk) as Hrec. pose proof (grant_once _ _ _ _ _ k HI Hk) as Hone.
  pose proof (Hnot k) as Hnk. rewrite bool_decide_true in Hnk by done. cbn [one] in Hnk.
  apply (inv_host _ _ _ _ _ _ _ _ _ _ HI); try done.
  - apply (sound_host _ _ _ _ _ _ (rw_inv_sound _ _ _ _ _ HI)); try done; [by apply Hty, HI|..].
    + intros k'. rewrite !Hocc by done. unfold lflag, queue. cbn. lia.
    + intros k'. by rewrite Hocc.
  - by apply (forall_replace _ _ _ _ _ (ri_placed _ _ _ _ _ HI)).
  - apply (order_replace _ _ _ _ (ri_order _ _ _ _ _ HI)); [constructor|by apply list.Forall_true].
  - intros k' Hk'. pose proof (ri_follow _ _ _ _ _ HI k' Hk') as H. rewrite (Hocc m_dgrants) by done.
    fold V in H. specialize (Hnot k'). lia.
  - intros k' Hk'. rewrite Eflag, (Hocc m_grants), (Hocc m_rels) by done. fold a. rewrite upd_same.
    rewrite <- (ri_holders _ _ _ _ _ HI k' Hk'). unfold notified, handle_granted_acquire.
    rewrite holder_add, key_holder by done. rewrite Hnot. fold a.
    destruct (decide (k = k')) as [<-|Hne]; [rewrite bool_decide_true by done|rewrite bool_decide_false by done; done].
    cbn [one]. fold a in Hrec. lia.
  - apply (ri_agent _ _ _ _ _ HI).
  - intros Eo. by apply (ri_mode _ _ _ _ _ HI).
  - pose proof (ri_tokens _ _ _ _ _ HI) as H. rewrite <- H. unfold V. totals. lia.
  - intros k' v Hv. rewrite Eflag, Hocc by done. by apply (ri_live _ _ _ _ _ HI).
  - naive_solver.
  - intros Ha. cbn. pose proof (Hlag Ha) as Hlt. unfold lag in Hlt. fold a V in Hlt.
    destruct (ri_locks _ _ _ _ _ HI a Hh) as [[_ _ _ _ Hnc] _]. unfold in_uw in Hnc.
    rewrite uw_small by (unfold in_uw; lia). lia.
  - intros _ _. fold a. rewrite upd_same. pose proof (ri_shared _ _ _ _ _ HI Ho Erw) as E.
    fold a V in E. rewrite E. cbn [l_ncnt notified handle_granted_acquire]. unfold V. totals.
    change (l_ncnt (notified k (L a))) with (u32 (l_ncnt (L a) + 1)).
    rewrite <- !Z.add_assoc, (Zplus_mod (u32 _)), u32_mod, <- Zplus_mod. f_equal. lia.
  - congruence.
Qed.

(** What is behind a notification on its link has not arrived before it. *)
Lemma no_notif_left o V1 x V2 r L T k :
  rw_inv o (V1 ++ x :: V2) r L T -> (x = DRel (lock_agent r) k \/ exists a, x = DGrant k a /\ k.1 = lock_agent r) ->
  Forall (fun m => link m <> (true, lock_agent r)) V1 -> occ m_notifs (V1 ++ x :: V2) k = 0%nat.
Proof using Hn.
  intros HI Hx Hl. rewrite occ_app, occ_cons.
  assert (Ex : count k (m_notifs x) = 0%nat) by (destruct Hx as [-> | (a & -> & _)]; done).
  pose proof (ri_placed _ _ _ _ _ HI) as HP. apply Forall_app in HP as [HP1 HP2]. apply Forall_cons_1 in HP2 as [_ HP2].
  pose proof (ri_order _ _ _ _ _ HI) as Hord. apply fop_app in Hord as (_ & Hord & _).
  inversion Hord as [|? ? Hb _]; subst.
  assert (H1 : occ m_notifs V1 k = 0%nat).
  { apply occ_none, list.Forall_forall. intros m Hm.
    pose proof (proj1 (list.Forall_forall _ _) Hl m Hm) as H1. pose proof (proj1 (list.Forall_forall _ _) HP1 m Hm) as H2.
    destruct m; try done. destruct H2 as (_ & -> & _). by destruct H1. }
  assert (H2 : occ m_notifs V2 k = 0%nat); [|lia].
  clear -Hb HP2 Hx. induction V2 as [|m V2 IH]; [done|]. apply Forall_cons_1 in Hb as [Hm Hb].
  apply Forall_cons_1 in HP2 as [HPm HP2]. rewrite occ_cons, IH by done. destruct m as [| | | | | |h' k'| | | | |]; try done.
  destruct HPm as (_ & -> & _). cbn. rewrite count_cons, count_nil, bool_decide_false; [done|]. intros ->.
  destruct Hx as [-> | (a & -> & Ek)]; cbn in Hm; [done|]. by apply Hm.
Qed.

(** The requester learns of its grant. *)
Lemma host_grant o V1 V2 r L T k a :
  rw_inv o (V1 ++ DGrant k a :: V2) r L T -> Forall (fun m => link m <> (true, k.1)) V1 ->
  rw_inv o (V1 ++ V2 ++ []) r (upd L k.1 (lock_local_notify k.2 (L k.1))) T.
Proof using Hn.
  intros HI Hord. pose proof (forall_middle _ _ _ _ (ri_typed _ _ _ _ _ HI)) as Hk. cbn in Hk.
  pose proof (forall_middle _ _ _ _ (ri_placed _ _ _ _ _ HI)) as (Ho & Erw).
  set (V := V1 ++ DGrant k a :: V2) in *. set (l' := lock_local_notify k.2 (L k.1)). pose proof (proj1 Hk) as Hh.
  assert (Hocc : forall f k', f (DGrant k a) = [] -> occ f (V1 ++ V2 ++ []) k' = occ f V k').
  { intros f k' F. unfold V. rewrite !occ_app, occ_cons, F, count_nil, occ_nil. lia. }
  assert (Hgr : forall k', occ m_grants V k' = (one (bool_decide (k = k')) + occ m_grants (V1 ++ V2 ++ []) k')%nat)
    by (intros k'; unfold V; occs).
  assert (Hdg : forall k', occ m_dgrants V k' = (one (bool_decide (k = k')) + occ m_dgrants (V1 ++ V2 ++ []) k')%nat)
    by (intros k'; unfold V; occs).
  pose proof (grant_once _ _ _ _ _ k HI Hk) as Hone.
  assert (Hgk : occ m_grants V k = S (occ m_grants (V1 ++ V2 ++ []) k)) by (rewrite Hgr, bool_decide_true by done; done).
  assert (Hlf : forall k', k'.1 = k.1 -> lflag l' k'.2 = (one (bool_decide (k = k')) + lflag (L k.1) k'.2)%nat).
  { intros k' E. unfold lflag, l'. cbn [lock_local_notify l_task_granted set_task_granted set_local_holders].
    destruct (decide (k = k')) as [<-|Hne].
    - rewrite lookup_insert_eq, !bool_decide_true by done. unfold flag, lflag in Hone. cbn [one] in *. lia.
    - rewrite (bool_decide_false (k = k')) by done. rewrite lookup_insert_ne; [done|].
      intros E2. by apply Hne, injective_projections. }
  assert (Hfl : forall k', flag (upd L k.1 l') k' = (one (bool_decide (k = k')) + flag L k')%nat).
  { intros k'. rewrite flag_upd. case_decide as Hd; [rewrite (Hlf k' Hd); unfold flag; by rewrite Hd|].
    rewrite bool_decide_false; [done|]. by intros <-. }
  pose proof (lock_typed_notify T k.2 _ (ri_locks _ _ _ _ _ HI k.1 Hh)) as Hl.
  apply (inv_steady _ _ _ _ _ _ _ _ _ HI); try done.
  - apply (sound_host _ _ _ _ _ _ (rw_inv_sound _ _ _ _ _ HI)); try done.
    + apply (forall_replace _ _ _ _ _ (ri_typed _ _ _ _ _ HI)). constructor.
    + intros t [b Hb]. unfold l'. cbn. destruct (decide (t = k.2)) as [->|Hne];
        [rewrite lookup_insert_eq|rewrite lookup_insert_ne by done]; eauto.
    + intros k'. rewrite (Hocc m_reqs), (Hocc m_agents), Hgr by done. unfold queue.
      case_decide as Hd; [rewrite (Hlf k' Hd)|rewrite bool_decide_false by (by intros <-)]; cbn; lia.
    + intros k'. by rewrite Hocc.
  - intros k'. by apply Hocc.
  - intros k' _. rewrite (Hocc m_rels), Hfl, Hgr by done. lia.
  - intros k' v Hv H. exists v. split_and!; [done..|]. rewrite Hgr. rewrite Hfl in H. lia.
  - by apply (forall_replace _ _ _ _ _ (ri_placed _ _ _ _ _ HI)).
  - apply (order_replace _ _ _ _ (ri_order _ _ _ _ _ HI)); [constructor|by apply list.Forall_true].
  - intros k' Hk'. rewrite (Hocc m_notifs) by done. pose proof (ri_follow _ _ _ _ _ HI k' Hk') as H.
    fold V in H. rewrite Hdg in H. destruct (decide (k = k')) as [<-|Hne].
    + rewrite (no_notif_left _ _ _ _ _ _ _ _ HI); [lia|by eauto|by rewrite <- Hk'].
    + rewrite bool_decide_false in H by done. exact H.
  - unfold V. totals. lia.
  - unfold V. totals. lia.
  - unfold V. totals. lia.
Qed.

End readers.
