(* ===== verification/ReadersReturn.v ===== *)
(** * ReadersReturn: releases and push-backs arrive

    A release that arrives at the agent, which keeps the lock, hands it over or
    frees it; and the packet that gave the lock up and that the switch has not
    accepted. *)

From S2P Require Import Prelude RwSpec Types Post Lock LockProofs LockApi Agent LockApiProofs Switch System Fission Messages Readers ReadersHost.

#[local] Arguments count : simpl never.

Section readers.
Context {n lid : Z} `{Hn : few_hosts n}.

Abbreviation host_ok := (host_ok n).
Abbreviation key_ok := (key_ok n).
Abbreviation lock_ok := (lock_ok n lid).
Abbreviation queued := (queued n).
Abbreviation waiter_typed := (waiter_typed n).
Abbreviation typed := (typed n).
Abbreviation lock_typed := (lock_typed n lid).
Abbreviation task_ok := (task_ok n).
Abbreviation rw_inv := (rw_inv n lid).
Abbreviation sound := (sound n lid).

(** ** A holder returns its grant *)

(** [V0], [T0]: the messages and tasks without requester [k]'s release or hold. *)
Record returned (o : owner) (r : lock_regs) (V V0 : list vmsg) (L : locks) (T T0 : task_map) (k : req) : Prop := {
  rt_sound : sound V0 L T0;
  rt_placed : Forall (placed o r) V0;
  rt_order : ForallOrdPairs behind V0;
  rt_occ : forall f k', f = m_notifs \/ f = m_grants \/ f = m_dgrants -> occ f V0 k' = occ f V k';
  rt_totals : tokens V0 = tokens V /\ notifs V0 = notifs V /\ accounted V0 = accounted V;
  rt_life : forall k', (helds T k' + occ m_rels V k' =
    one (bool_decide (k = k')) + helds T0 k' + occ m_rels V0 k')%nat;
  rt_tasks : forall k' v, T0 !! k' = Some v -> T !! k' = Some v;
}.

(** The lock [l1] after the holder was removed from [l]. *)
Record removed (T0 : task_map) (k : req) (l l1 : innet_lock) : Prop := {
  rm_typed : lock_typed T0 l1;
  rm_agent : l_is_agent l1 = l_is_agent l;
  rm_mode : l_mode l1 = l_mode l;
  rm_ncnt : l_ncnt l1 = l_ncnt l;
  rm_granted : l_task_granted l1 = l_task_granted l;
  rm_queue : l_wqueue l1 = l_wqueue l;
  rm_holders : l_holders l1 = l_holders l ∖ {[ LOCK_HOLDER k.1 k.2 ]};
}.

Section return_.
Context (o : owner) (r : lock_regs) (V V0 : list vmsg) (L : locks) (T T0 : task_map) (k : req) (l1 : innet_lock).
Abbreviation a := (lock_agent r).
Context (HI : rw_inv o V r L T) (HR : returned o r V V0 L T T0 k) (Hk : key_ok k) (Ho : o <> OSwitch).
Context (Hnk : occ m_notifs V k = 0%nat) (HM : removed T0 k (L a) l1).

Lemma return_holder k' : key_ok k' ->
  (holder (L a) k' = one (bool_decide (k = k')) + holder l1 k')%nat.
Proof using Hn HI HR Hk HM Hnk.
  intros Hk'. assert (E : holder l1 k' = holder (lock_remove_holder (LOCK_HOLDER k.1 k.2) (L a)) k')
    by (unfold holder; by rewrite (rm_holders _ _ _ _ HM)).
  rewrite E, holder_remove, key_holder by done. destruct (decide (k = k')) as [<-|Hne].
  - rewrite bool_decide_true by done. pose proof (ri_holders _ _ _ _ _ HI k Hk) as H.
    pose proof (rt_life _ _ _ _ _ _ _ _ HR k) as Hl. rewrite bool_decide_true in Hl by done. cbn [one] in *.
    pose proof (holder_le (L a) k). lia.
  - by rewrite bool_decide_false.
Qed.

(** The counting condition without requester [k]. *)
Lemma return_counts k' : key_ok k' ->
  (holder l1 k' + occ m_notifs V0 k' = flag L k' + occ m_grants V0 k' + helds T0 k' + occ m_rels V0 k')%nat.
Proof using Hn HI HR Hk HM Hnk.
  intros Hk'. pose proof (ri_holders _ _ _ _ _ HI k' Hk') as H. pose proof (return_holder k' Hk') as E.
  pose proof (rt_life _ _ _ _ _ _ _ _ HR k') as Hl. rewrite !(rt_occ _ _ _ _ _ _ _ _ HR) by auto. lia.
Qed.

Lemma return_live L' k' v : (forall x, flag L' x = flag L x) -> T0 !! k' = Some v ->
  (1 <= flag L' k' + occ m_grants V0 k' + helds T0 k')%nat -> task_op v = op_of (lock_rw_mode r).
Proof using Hn HI HR.
  intros E Hv H. pose proof (rt_tasks _ _ _ _ _ _ _ _ HR _ _ Hv) as Hv'.
  apply (ri_live _ _ _ _ _ HI k' v Hv'). rewrite E, (rt_occ _ _ _ _ _ _ _ _ HR) in H by auto.
  unfold helds in *. rewrite Hv in H. rewrite Hv'. exact H.
Qed.

Lemma return_follow k' : k'.1 = a -> (occ m_notifs V0 k' <= occ m_dgrants V0 k')%nat.
Proof using Hn HI HR.
  intros E. rewrite !(rt_occ _ _ _ _ _ _ _ _ HR) by auto. by apply (ri_follow _ _ _ _ _ HI).
Qed.

Lemma return_keeps l' :
  l_is_agent l' = l_is_agent l1 -> l_mode l' = l_mode l1 -> l_ncnt l' = l_ncnt l1 ->
  l_task_granted l' = l_task_granted l1 -> l_wqueue l' = l_wqueue l1 -> l_holders l' = l_holders l1 ->
  lock_typed T0 l' -> lock_rw_mode r = false -> rw_inv o V0 r (upd L a l') T0.
Proof using Hn HI HR Hk HM Hnk Ho.
  intros Ea Em Enc Eg Eq Eh Hl Erw. pose proof (ri_reg _ _ _ _ _ HI Ho) as Hh.
  destruct (rt_totals _ _ _ _ _ _ _ _ HR) as (E1 & E2 & E3).
  assert (Hfl : forall x, flag (upd L a l') x = flag L x).
  { apply flag_same. intros t. unfold lflag. by rewrite Eg, (rm_granted _ _ _ _ HM). }
  apply (inv_host _ _ _ _ _ _ _ _ _ _ HI); try done.
  - apply (sound_host _ _ _ _ _ _ (rt_sound _ _ _ _ _ _ _ _ HR)); try done; [apply HR|..].
    + intros t. by rewrite Eg, (rm_granted _ _ _ _ HM).
    + intros k'. unfold queue, lflag. by rewrite Eq, (rm_queue _ _ _ _ HM), Eg, (rm_granted _ _ _ _ HM).
  - apply HR.
  - apply HR.
  - intros k'. apply return_follow.
  - intros k' Hk'. rewrite upd_same, Hfl. rewrite <- (return_counts k' Hk'). unfold holder. by rewrite Eh.
  - rewrite Ea, (rm_agent _ _ _ _ HM). apply (ri_agent _ _ _ _ _ HI).
  - intros E. rewrite Em, (rm_mode _ _ _ _ HM). split; [done|]. by apply (ri_mode _ _ _ _ _ HI).
  - rewrite E1. apply (ri_tokens _ _ _ _ _ HI).
  - intros k' v Hv H. split; [done|]. by apply (return_live (upd L a l') k' v).
  - naive_solver.
  - intros Hag Hz. rewrite Eh, (rm_holders _ _ _ _ HM), (ri_idle _ _ _ _ _ HI a); [set_solver|..]; congruence || idtac.
    + rewrite <- (rm_agent _ _ _ _ HM). congruence.
    + rewrite <- (rm_ncnt _ _ _ _ HM). congruence.
  - intros _ _. rewrite upd_same, Enc, (rm_ncnt _ _ _ _ HM), E2, E3. by apply (ri_shared _ _ _ _ _ HI).
  - congruence.
Qed.

(** The packet of a lock that is given up, and what stays behind. *)
Lemma given_up_cases :
  l_is_agent (L a) = true -> lock_no_holders l1 = true ->
  exists m, (given_up a l1).2 = [m] /\ is_token m = true /\ m_notifs m = [] /\ m_grants m = [] /\
    m_agents m = [] /\ m_rels m = [] /\ m_dgrants m = [] /\ m_count m = u8 (l_ncnt l1) /\
    typed T0 m /\ placed OPacket r m /\ map wq_req (l_wqueue l1) = m_reqs m /\
    let l' := (given_up a l1).1 in
    l_wqueue l' = [] /\ l_is_agent l' = false /\ l_ncnt l' = 0 /\ l_holders l' = ∅ /\
    l_task_granted l' = l_task_granted l1 /\ lock_typed T0 l'.
Proof using Hn HI HM Ho.
  intros Ha Hno. pose proof (ri_reg _ _ _ _ _ HI Ho) as Hh.
  assert (Hm : l_mode l1 = op_of (lock_rw_mode r)).
  { rewrite (rm_mode _ _ _ _ HM). apply (ri_mode _ _ _ _ _ HI). rewrite (ri_agent _ _ _ _ _ HI) in Ha.
    by apply bool_decide_eq_true in Ha. }
  assert (He : is_excl (l_mode l1) = lock_rw_mode r) by (rewrite Hm; by destruct (lock_rw_mode r)).
  destruct (rm_typed _ _ _ _ HM) as [[H1 H2 H3 H4 H5] Hq].
  assert (Hholders : l_holders l1 = ∅) by (by apply bool_decide_eq_true in Hno).
  assert (Hc : in_uw 8 (u8 (l_ncnt l1))) by (by apply uw_range).
  unfold given_up. rewrite Hno. destruct (l_wqueue l1) as [|w wq] eqn:Eq.
  - eexists. split; [reflexivity|]. cbn. rewrite He, Eq. split_and!; try done.
    split; [split; try done; cbn; by rewrite Eq|cbn; by rewrite Eq].
  - apply Forall_cons_1 in Hq as [[Hw1 Hw2] Hq]. destruct Hw1 as (? & ? & ?).
    eexists. split; [reflexivity|]. cbn. rewrite He. split_and!; try done.
Qed.

Lemma return_gives :
  l_is_agent (L a) = true -> lock_no_holders l1 = true ->
  rw_inv OPacket (V0 ++ (given_up a l1).2) r (upd L a (given_up a l1).1) T0.
Proof using Hn HI HR Hk HM Hnk Ho.
  intros Ha Hno. pose proof (ri_reg _ _ _ _ _ HI Ho) as Hh.
  destruct (given_up_cases Ha Hno) as (m & Em & G1 & G2 & G3 & G4 & G5 & G6 & G7 & G8 & G9 & G10 & F1 & F2 & F3 & F4 & F5 & F6).
  rewrite Em. set (l' := (given_up a l1).1) in *.
  assert (Eo : o = OHost a) by (rewrite (ri_agent _ _ _ _ _ HI) in Ha; by apply bool_decide_eq_true in Ha).
  destruct (rt_totals _ _ _ _ _ _ _ _ HR) as (E1 & E2 & E3).
  assert (Hz : forall k', holder l1 k' = 0%nat).
  { intros k'. apply holder_empty. by apply bool_decide_eq_true in Hno. }
  assert (Hocc : forall f k', f m = [] -> occ f (V0 ++ [m]) k' = occ f V0 k').
  { intros f k' F. rewrite occ_app, occ_cons, F, count_nil, occ_nil. lia. }
  assert (Hfl : forall x, flag (upd L a l') x = flag L x).
  { apply flag_same. intros t. unfold lflag. by rewrite F5, (rm_granted _ _ _ _ HM). }
  apply (inv_host _ _ _ _ _ _ _ _ _ _ HI); try done.
  - apply (sound_host _ _ _ _ _ _ (rt_sound _ _ _ _ _ _ _ _ HR)); try done.
    + apply Forall_app. split; [apply (rt_sound _ _ _ _ _ _ _ _ HR)|by apply Forall_singleton].
    + intros t. by rewrite F5, (rm_granted _ _ _ _ HM).
    + intros k'. rewrite !(Hocc m_grants), !(Hocc m_agents), occ_app, occ_cons, occ_nil, <- G10 by done.
      unfold queue, lflag. rewrite F1, F5, (rm_granted _ _ _ _ HM), (rm_queue _ _ _ _ HM). cbn [map].
      rewrite count_nil. lia.
    + intros k'. by rewrite Hocc.
  - apply Forall_app. split; [|by apply Forall_singleton].
    eapply Forall_impl; [|apply (rt_placed _ _ _ _ _ _ _ _ HR)]. intros x. by apply placed_owner.
  - apply fop_app. split_and!; [apply HR|by repeat constructor|].
    apply list.Forall_forall. intros x _. apply Forall_singleton. by apply behind_any.
  - intros k' Hk'. rewrite !Hocc by done. by apply return_follow.
  - intros k' Hk'. rewrite upd_same, Hfl, !Hocc by done. rewrite <- (return_counts k' Hk'), Hz.
    by rewrite holder_empty.
  - intros x Hx. rewrite Eo. split; [done|]. intros [= <-]. done.
  - totals. rewrite G1, E1, (ri_tokens _ _ _ _ _ HI), Eo. done.
  - intros k' v Hv H. split; [done|]. rewrite Hocc in H by done. by apply (return_live (upd L a l') k' v).
  - intros _ Erw. rewrite upd_same, F3. pose proof (ri_shared _ _ _ _ _ HI Ho Erw) as E. rewrite E.
    rewrite accounted_app, notifs_app, E2, E3, accounted_cons, notifs_cons, G2, G7. change (accounted []) with 0.
    change (notifs []) with 0%nat. rewrite (rm_ncnt _ _ _ _ HM). cbn [length].
    replace (0 + (accounted V + (u8 (l_ncnt (L a)) + 0)) + Z.of_nat (notifs V + (0 + 0)))
      with (u8 (l_ncnt (L a)) + (accounted V + Z.of_nat (notifs V))) by lia.
    unfold uw. change (2 ^ 8) with 256. rewrite Zplus_mod_idemp_l. f_equal. lia.
Qed.

(** The agent keeps a lock with holders left and gives up one without. *)
Lemma return_to_agent :
  l_is_agent (L a) = true ->
  exists o', rw_inv o' (V0 ++ (given_up a l1).2) r (upd L a (given_up a l1).1) T0.
Proof using Hn HI HR Hk HM Hnk Ho.
  intros Ha. destruct (lock_no_holders l1) eqn:Hno; [exists OPacket; by apply return_gives|].
  unfold given_up. rewrite Hno, app_nil_r. exists o. apply return_keeps; try done; [apply HM|].
  destruct (lock_rw_mode r) eqn:Erw; [|done]. exfalso.
  assert (Eo : o = OHost a) by (rewrite (ri_agent _ _ _ _ _ HI) in Ha; by apply bool_decide_eq_true in Ha).
  destruct (ri_excl _ _ _ _ _ HI Ho Erw) as [_ H]. destruct (H Eo) as (t & _ & Es).
  pose proof (ri_holders _ _ _ _ _ HI k Hk) as Hc. pose proof (rt_life _ _ _ _ _ _ _ _ HR k) as Hl.
  rewrite bool_decide_true in Hl by done. cbn [one] in Hl.
  pose proof (holder_in (L a) k ltac:(lia)) as Hin. rewrite Es in Hin. apply elem_of_singleton in Hin.
  assert (Hne : l_holders l1 <> ∅) by (by apply bool_decide_eq_false in Hno).
  apply Hne. rewrite (rm_holders _ _ _ _ HM), Es, Hin. set_solver.
Qed.
End return_.

Lemma lock_typed_delayed T b l : lock_typed T l -> lock_typed T (set_delayed_free b l).
Proof using. by intros [[]]. Qed.

Lemma lock_typed_local T hs l : lock_typed T l -> lock_typed T (set_local_holders hs l).
Proof using. by intros [[]]. Qed.

(** A release that arrives. *)
Lemma host_release o V1 V2 r L T h k :
  rw_inv o (V1 ++ DRel h k :: V2) r L T -> Forall (fun m => link m <> (true, h)) V1 ->
  exists o', rw_inv o' ((V1 ++ V2) ++ (release_arrived h k (L h)).2) r (upd L h (release_arrived h k (L h)).1) T.
Proof using Hn.
  intros HI Hord. pose proof (forall_middle _ _ _ _ (ri_typed _ _ _ _ _ HI)) as (Hh & Hk).
  pose proof (forall_middle _ _ _ _ (ri_placed _ _ _ _ _ HI)) as (Ho & -> & Erw).
  set (a := lock_agent r) in *. set (l1 := lock_remove_holder (LOCK_HOLDER k.1 k.2) (L a)).
  assert (Hnk : occ m_notifs (V1 ++ DRel a k :: V2) k = 0%nat) by (apply (no_notif_left _ _ _ _ _ _ _ _ HI); auto).
  assert (HR : returned o r (V1 ++ DRel a k :: V2) (V1 ++ V2) L T T k).
  { split; try done.
    - rewrite <- (app_nil_r V2). apply (sound_replace _ _ _ _ _ [] (rw_inv_sound _ _ _ _ _ HI)); [constructor|..];
        intros k'; occs.
    - rewrite <- (app_nil_r V2). by apply (forall_replace _ _ _ _ _ (ri_placed _ _ _ _ _ HI)).
    - rewrite <- (app_nil_r V2). apply (order_replace _ _ _ _ (ri_order _ _ _ _ _ HI)); [constructor|].
      by apply list.Forall_true.
    - intros f k' Hf. rewrite !occ_app, occ_cons. destruct Hf as [-> | [-> | ->]]; cbn; rewrite count_nil; lia.
    - totals. split_and!; lia.
    - intros k'. occs. }
  assert (HM : removed T k (L a) l1).
  { split; try done. apply lock_typed_holders. by apply (ri_locks _ _ _ _ _ HI). }
  unfold release_arrived. fold l1. destruct (l_is_agent (L a)) eqn:Ha.
  - by apply (return_to_agent o r _ _ L T T k l1 HI HR).
  - rewrite app_nil_r. exists o. apply (return_keeps o r _ _ L T T k l1 HI HR); try done.
    apply lock_typed_delayed, HM.
Qed.

(** ** The agent gets its packet back *)

(** A free or a transfer [m] that was pushed back, with the waiters [q] it puts
    in the queue. *)
Record pushback (T : task_map) (m : vmsg) (c : Z) (q : list wqe) : Prop := {
  pb_token : is_token m = true;
  pb_none : m_notifs m = [] /\ m_grants m = [] /\ m_agents m = [] /\ m_rels m = [] /\ m_dgrants m = [];
  pb_count : m_count m = c;
  pb_queue : Forall (waiter_typed T) q;
  pb_reqs : forall k, count k (map wq_req q) = count k (m_reqs m);
}.

Lemma pushback_free T h c : pushback T (DFree h c) c [].
Proof using. by split. Qed.

Lemma pushback_transfer T h k e wq c :
  typed T (DTransfer h k e wq c) -> short_wq wq ->
  pushback T (DTransfer h k e wq c) c (mk_wqe (op_of e) k.2 k.1 :: unmarshalled wq).
Proof using Hn.
  intros (_ & Hk & _ & Hw & Hq) Hs. rewrite (unmarshalled_all wq Hs). split; try done.
  - constructor; [by apply waiter_mk|done].
  - intros k'. cbn [map m_reqs]. by rewrite (req_mk k e Hk), !count_cons.
Qed.

Section pushback_.
Context (o : owner) (V1 V2 : list vmsg) (r : lock_regs) (L : locks) (T : task_map).
Context (m : vmsg) (c : Z) (q : list wqe).
Abbreviation a := (lock_agent r).
Context (HI : rw_inv o (V1 ++ m :: V2) r L T) (HP : pushback T m c q) (Erw : lock_rw_mode r = false).

Lemma pushback_occ f ms k : f m = [] -> occ f (V1 ++ V2 ++ ms) k = (occ f (V1 ++ m :: V2) k + occ f ms k)%nat.
Proof using. intros F. rewrite !occ_app, occ_cons, F, count_nil. lia. Qed.

Lemma pushback_tokens : o = OPacket /\ tokens (V1 ++ V2) = 0%nat.
Proof using Hn HI HP.
  pose proof (token_is_owner _ _ _ _ _ _ _ HI (pb_token _ _ _ _ HP)) as Eo. split; [done|].
  pose proof (ri_tokens _ _ _ _ _ HI) as H. rewrite Eo, tokens_join, tokens_cons, (pb_token _ _ _ _ HP) in H.
  rewrite tokens_join. cbn in H. lia.
Qed.

Lemma host_adopts :
  rw_inv (OHost a) (V1 ++ V2 ++ []) r (upd L a (pushed_back c q (L a))) T.
Proof using Hn HI HP Erw.
  destruct pushback_tokens as [Eo Htok]. assert (Ho : o <> OSwitch) by (by rewrite Eo).
  pose proof (ri_reg _ _ _ _ _ HI Ho) as Hh. set (l' := pushed_back c q (L a)).
  destruct (pb_none _ _ _ _ HP) as (N1 & N2 & N3 & N4 & N5).
  assert (Hfl : forall k, flag (upd L a l') k = flag L k) by (by apply flag_same).
  apply (inv_host _ _ _ _ _ _ _ _ _ _ HI); try done.
  - apply (sound_host _ _ _ _ _ _ (rw_inv_sound _ _ _ _ _ HI)); try done.
    + by apply (forall_replace _ _ _ _ _ (ri_typed _ _ _ _ _ HI)).
    + destruct (ri_locks _ _ _ _ _ HI a Hh) as [[H1 H2 H3 H4 H5] Hq]. pose proof (pb_queue _ _ _ _ HP) as Hpq.
      split; [split; try done; cbn|].
      * intros _. by exists false.
      * apply Forall_app. split; [done|]. eapply Forall_impl; [|exact Hpq]. by intros w [? _].
      * by apply uw_range.
      * cbn. by apply Forall_app.
    + intros k. rewrite !(pushback_occ m_grants), !(pushback_occ m_agents), !occ_nil by done.
      pose proof (pb_reqs _ _ _ _ HP k). unfold queue, l', pushed_back. cbn [l_wqueue set_wqueue].
      rewrite map_app, count_app. rewrite !occ_app, !occ_cons, occ_nil. unfold lflag. cbn. lia.
    + intros k. rewrite pushback_occ, occ_nil by done. lia.
  - pose proof (forall_replace _ _ _ _ [] (ri_placed _ _ _ _ _ HI) ltac:(constructor)) as H.
    eapply Forall_impl; [|exact H]. intros x. by apply placed_owner.
  - apply (order_replace _ _ _ _ (ri_order _ _ _ _ _ HI)); [constructor|by apply list.Forall_true].
  - intros k Hk. rewrite !pushback_occ, !occ_nil, !Nat.add_0_r by done. by apply (ri_follow _ _ _ _ _ HI).
  - intros k Hk. rewrite upd_same, Hfl, !pushback_occ, !occ_nil, !Nat.add_0_r by done. by apply (ri_holders _ _ _ _ _ HI).
  - intros x Hx. rewrite Eo. split; [congruence|done].
  - cbn. by rewrite bool_decide_true.
  - intros _. split; [done|]. by rewrite Erw.
  - rewrite app_nil_r. done.
  - intros k v Hv. rewrite Hfl, pushback_occ, occ_nil, Nat.add_0_r by done. by apply (ri_live _ _ _ _ _ HI).
  - intros [?|?]; done.
  - intros _ _. rewrite upd_same, (ri_shared _ _ _ _ _ HI Ho Erw), app_nil_r.
    rewrite !accounted_app, !notifs_app, accounted_cons, notifs_cons, N1, (pb_count _ _ _ _ HP).
    change (l_ncnt l') with (u32 (l_ncnt (L a) + c)). rewrite <- !Z.add_assoc, (Zplus_mod (u32 _)), u32_mod, <- Zplus_mod.
    f_equal. cbn [length]. lia.
  - congruence.
Qed.

(** A host whose holders have all gone sends the packet again, with the
    notifications it received meanwhile. *)
Lemma host_retries m' :
  l_holders (L a) = ∅ -> is_token m' = true -> m_reqs m' = m_reqs m ->
  m_notifs m' = [] -> m_grants m' = [] -> m_agents m' = [] -> m_rels m' = [] -> m_dgrants m' = [] ->
  m_count m' = u8 (c + l_ncnt (L a)) -> typed T m' -> placed OPacket r m' ->
  rw_inv OPacket (V1 ++ V2 ++ [m']) r (upd L a (set_delayed_free false (set_ncnt 0 (L a)))) T.
Proof using Hn HI HP Erw.
  intros Hz G1 G2 G3 G4 G5 G6 G7 G8 G9 G10.
  destruct pushback_tokens as [Eo Htok]. assert (Ho : o <> OSwitch) by (by rewrite Eo).
  pose proof (ri_reg _ _ _ _ _ HI Ho) as Hh. set (l' := set_delayed_free false (set_ncnt 0 (L a))).
  destruct (pb_none _ _ _ _ HP) as (N1 & N2 & N3 & N4 & N5).
  assert (Hocc : forall f k, f m = [] -> f m' = [] -> occ f (V1 ++ V2 ++ [m']) k = occ f (V1 ++ m :: V2) k).
  { intros f k F1 F2. rewrite pushback_occ, occ_cons, occ_nil, F2, count_nil by done. lia. }
  assert (Hfl : forall k, flag (upd L a l') k = flag L k) by (by apply flag_same).
  pose proof (ri_agent _ _ _ _ _ HI a) as Ha. rewrite Eo in Ha.
  apply (inv_host _ _ _ _ _ _ _ _ _ _ HI); try done.
  - apply (sound_host _ _ _ _ _ _ (rw_inv_sound _ _ _ _ _ HI)); try done.
    + apply (forall_replace _ _ _ _ _ (ri_typed _ _ _ _ _ HI)). by apply Forall_singleton.
    + apply lock_typed_delayed, lock_typed_ncnt. by apply (ri_locks _ _ _ _ _ HI).
    + intros k. rewrite !(Hocc m_grants), !(Hocc m_agents) by done. unfold queue, lflag. cbn.
      rewrite !occ_app, !occ_cons, occ_nil, G2. lia.
    + intros k. by rewrite Hocc.
  - rewrite <- Eo in G10 |- *. apply (forall_replace _ _ _ _ _ (ri_placed _ _ _ _ _ HI)). by apply Forall_singleton.
  - pose proof (order_any (V1 ++ V2) [m']) as [? ?]; [by apply Forall_singleton|].
    by apply (order_replace _ _ _ _ (ri_order _ _ _ _ _ HI)).
  - intros k Hk. rewrite !Hocc by done. by apply (ri_follow _ _ _ _ _ HI).
  - intros k Hk. rewrite upd_same, Hfl, !Hocc by done. by apply (ri_holders _ _ _ _ _ HI).
  - by rewrite Eo.
  - rewrite app_assoc, tokens_join, Htok, tokens_cons, G1. done.
  - intros k v Hv. rewrite Hfl, Hocc by done. by apply (ri_live _ _ _ _ _ HI).
  - intros _ _. rewrite upd_same, (ri_shared _ _ _ _ _ HI Ho Erw).
    rewrite !accounted_app, !notifs_app, !accounted_cons, !notifs_cons, N1, G3, G8, (pb_count _ _ _ _ HP).
    change (l_ncnt l') with 0. change (accounted []) with 0. change (notifs []) with 0%nat. cbn [length].
    replace (0 + (accounted V1 + (accounted V2 + (u8 (c + l_ncnt (L a)) + 0))) + Z.of_nat (notifs V1 + (notifs V2 + (0 + 0))))
      with (u8 (c + l_ncnt (L a)) + (accounted V1 + accounted V2 + Z.of_nat (notifs V1 + notifs V2))) by lia.
    unfold uw. change (2 ^ 8) with 256. rewrite Zplus_mod_idemp_l. f_equal. lia.
Qed.
End pushback_.

(** A free or a transfer that arrives. *)
Lemma host_pushback o V1 V2 r L T m :
  rw_inv o (V1 ++ m :: V2) r L T -> fits m ->
  (exists h c, m = DFree h c) \/ (exists h k e wq c, m = DTransfer h k e wq c) -> exists h o', link m = (true, h) /\
    rw_inv o' (V1 ++ V2 ++ (delivered h (L h) m).2) r (upd L h (delivered h (L h) m).1) T.
Proof using Hn.
  intros HI Hfit Hm. pose proof (forall_middle _ _ _ _ (ri_typed _ _ _ _ _ HI)) as Hty.
  pose proof (forall_middle _ _ _ _ (ri_placed _ _ _ _ _ HI)) as Hpl.
  destruct Hm as [(h & c & ->)|(h & k & e & wq & c & ->)]; exists h; destruct Hpl as [-> Erw]; cbn [delivered];
    destruct (retried _) eqn:Er; try (apply andb_true_iff in Er as [_ Er]; apply bool_decide_eq_true in Er).
  - exists OPacket. split; [done|]. apply (host_retries o V1 V2 r L T _ _ _ HI (pushback_free T _ c)); try done.
    split; [apply Hty|by apply uw_range].
  - exists (OHost (lock_agent r)). split; [done|]. by apply (host_adopts o V1 V2 r L T _ _ _ HI (pushback_free T _ c)).
  - exists OPacket. split; [done|].
    apply (host_retries o V1 V2 r L T _ _ _ HI (pushback_transfer T _ k e wq c Hty Hfit)); try done.
    destruct Hty as (? & ? & ? & ? & ?). split_and!; try done. by apply uw_range.
  - exists (OHost (lock_agent r)). split; [done|].
    by apply (host_adopts o V1 V2 r L T _ _ _ HI (pushback_transfer T _ k e wq c Hty Hfit)).
Qed.

End readers.

#[global] Arguments returned : clear implicits.
#[global] Arguments removed : clear implicits.
