(* ===== verification/ReadersAgent.v ===== *)
(** * ReadersAgent: the agency arrives

    A grant with agency, with the waiters it carries and the shared ones among
    them that are granted at once; and with it every packet a host can get. *)

From S2P Require Import Prelude RwSpec Types Post Lock LockProofs LockApi Agent LockApiProofs Switch System Fission Messages Readers ReadersHost ReadersReturn.

#[local] Arguments count : simpl never.

Section readers.
Context {n lid : Z} `{Hn : few_hosts n}.

Abbreviation host_ok := (host_ok n).
Abbreviation key_ok := (key_ok n).
Abbreviation lock_ok := (lock_ok n lid).
Abbreviation queued := (queued n).
Abbreviation waiter_typed := (waiter_typed n).
Abbreviation typed := (typed n).
Abbreviation lock_typed := (lock_typed n lid).
Abbreviation task_ok := (task_ok n).
Abbreviation rw_inv := (rw_inv n lid).
Abbreviation sound := (sound n lid).

(** ** A grant with agency arrives *)

Definition digested (e : bool) (q : list wqe) : list wqe := if e then [] else filterb wq_shared q.
Definition kept_back (e : bool) (q : list wqe) : list wqe :=
  if e then q else filterb (fun w => negb (wq_shared w)) q.

Lemma digest_count e q k :
  (count k (map wq_req (digested e q)) + count k (map wq_req (kept_back e q)))%nat = count k (map wq_req q).
Proof using.
  destruct e; [done|]. induction q as [|w q IH]; [done|]. cbn in *.
  destruct (wq_shared w); cbn [map negb]; rewrite !count_cons; cbn [map] in IH; lia.
Qed.

Lemma digest_forall (P : wqe -> Prop) e q : Forall P q ->
  Forall P (kept_back e q) /\ Forall (fun w => P w /\ (e = false /\ wq_shared w = true)) (digested e q).
Proof using.
  intros Hq. destruct e; cbn; [by split; [|constructor]|].
  split; apply list.Forall_forall; intros w [Hw Hs]%list_elem_of_In%List.filter_In;
    apply list_elem_of_In in Hw; pose proof (proj1 (list.Forall_forall _ _) Hq w Hw); done.
Qed.

(** The lock after the grant. *)
Record agent_shape (h : Z) (k : req) (e tr : bool) (q : list wqe) (l l' : innet_lock) : Prop := {
  as_id : l_id l' = l_id l;
  as_agent : l_is_agent l' = true;
  as_mode : l_mode l' = op_of e;
  as_ncnt : l_ncnt l' = if tr then u32 (l_ncnt l + 0) else if e then 0 else u32 (l_ncnt l + 1);
  as_holders : l_holders l' = {[ LOCK_HOLDER h k.2 ]} ∪ l_holders l ∪ list_to_set (map wqe_holder (digested e q));
  as_queue : l_wqueue l' = l_wqueue l ++ kept_back e q;
  as_granted : l_task_granted l' = <[k.2 := true]> (l_task_granted l);
  as_early : l_early_release l' = l_early_release l;
}.

Lemma agent_granted_shape h k e (tr : bool) wq l :
  let q := if tr then unmarshalled wq else [] in
  agent_shape h k e tr q l (agent_granted h k e tr wq l).1 /\
  (agent_granted h k e tr wq l).2 = map (fun w => UGrant h (wq_req w)) (digested e q).
Proof using.
  unfold agent_granted, digested, kept_back. destruct e; (split; [|done]); split; try done;
    try (by destruct tr); cbn; destruct tr; cbn; rewrite ?union_empty_r_L; done.
Qed.

Lemma agent_typed T h k e tr q l l' :
  agent_shape h k e tr q l l' -> lock_typed T l -> Forall (waiter_typed T) q -> lock_typed T l'.
Proof using.
  intros [E1 E2 E3 E4 E5 E6 E7 E8] [[H1 H2 H3 H4 H5] Hq] Hw.
  destruct (digest_forall _ e q Hw) as [Hk _].
  split; [split|].
  - by rewrite E1.
  - intros _. by exists e.
  - by rewrite E8.
  - rewrite E6. apply Forall_app. split; [done|]. eapply Forall_impl; [|exact Hk]. by intros w [? _].
  - rewrite E4. destruct tr; [by apply uw_range|]. destruct e; [unfold in_uw; lia|by apply uw_range].
  - rewrite E6. by apply Forall_app.
Qed.

(** The holders after the grant, when no requester is counted twice. *)
Lemma agent_holder T k e tr q l l' x :
  agent_shape k.1 k e tr q l l' -> key_ok k -> Forall (waiter_typed T) q -> key_ok x ->
  (holder l x + one (bool_decide (k = x)) + count x (map wq_req (digested e q)) <= 1)%nat ->
  holder l' x = (holder l x + one (bool_decide (k = x)) + count x (map wq_req (digested e q)))%nat.
Proof using Hn.
  intros Hs Hk Hq Hx Hle.
  assert (Hin : LOCK_HOLDER x.1 x.2 ∈ l_holders l' <->
    (1 <= holder l x + one (bool_decide (k = x)) + count x (map wq_req (digested e q)))%nat).
  { rewrite (as_holders _ _ _ _ _ _ _ Hs), !elem_of_union, elem_of_singleton, elem_of_list_to_set.
    assert (H2 : LOCK_HOLDER x.1 x.2 = LOCK_HOLDER k.1 k.2 <-> (1 <= one (bool_decide (k = x)))%nat).
    { split; [intros E; rewrite (key_inj x k Hx Hk E), bool_decide_true; [done|done]|].
      case_bool_decide as Hd; [by subst x|cbn; lia]. }
    assert (H3 : LOCK_HOLDER x.1 x.2 ∈ map wqe_holder (digested e q) <-> (1 <= count x (map wq_req (digested e q)))%nat).
    { rewrite <- count_in. destruct (digest_forall _ e q Hq) as [_ Hd]. split.
      - intros (w & E & Hw)%list_elem_of_fmap. apply list_elem_of_fmap. exists w. split; [|done].
        pose proof (proj1 (list.Forall_forall _ _) Hd w Hw) as [[(_ & ? & ?) _] _].
        by apply key_inj; [|split|].
      - intros (w & -> & Hw)%list_elem_of_fmap. apply list_elem_of_fmap. by exists w. }
    rewrite holder_iff, H2, H3. lia. }
  rewrite holder_iff in Hin. pose proof (holder_le l' x). lia.
Qed.

Section agent_arrives.
Context (o : owner) (V1 V2 : list vmsg) (r : lock_regs) (L : locks) (T : task_map).
Context (k : req) (e oe tr : bool) (wq : list wqe) (c : Z).
Abbreviation a := (lock_agent r).
Let m := DAgent k e oe tr wq c.
Context (HI : rw_inv o (V1 ++ m :: V2) r L T) (Hfit : fits m).
Let q := if tr then unmarshalled wq else [].
Let l' := (agent_granted a k e tr wq (L a)).1.
Let ms := map (fun w => UGrant a (wq_req w)) (digested e q).

Lemma agent_facts :
  key_ok k /\ k.1 = a /\ e = lock_rw_mode r /\ wants T k e /\ Forall (waiter_typed T) q /\
  o = OPacket /\ tokens (V1 ++ V2) = 0%nat /\ l_is_agent (L a) = false /\
  (forall x, count x (map wq_req q) = count x (map wq_req wq)).
Proof using Hn HI Hfit.
  pose proof (forall_middle _ _ _ _ (ri_typed _ _ _ _ _ HI)) as (Hk & Hw & Hq & Htr).
  pose proof (forall_middle _ _ _ _ (ri_placed _ _ _ _ _ HI)) as (Ea & Ee).
  pose proof (token_is_owner _ _ _ _ _ _ _ HI eq_refl) as Eo.
  pose proof (ri_tokens _ _ _ _ _ HI) as Ht. rewrite Eo, tokens_join, tokens_cons in Ht. cbn in Ht.
  assert (Eq : q = wq) by (unfold q; destruct tr; [by apply unmarshalled_all|by rewrite Htr]).
  split_and!; try done.
  - by rewrite Eq.
  - rewrite tokens_join. lia.
  - rewrite (ri_agent _ _ _ _ _ HI), Eo. by apply bool_decide_false.
  - by rewrite Eq.
Qed.

Lemma agent_l' : agent_shape k.1 k e tr q (L a) l'.
Proof using Hn HI Hfit.
  destruct agent_facts as (_ & Ea & _). rewrite Ea. apply (agent_granted_shape a k e tr wq (L a)).
Qed.

(** The shared waiters that are granted. *)
Lemma agent_ms_grants x : occ m_grants ms x = count x (map wq_req (digested e q)).
Proof using.
  clear. unfold ms, occ. f_equal. induction (digested e q) as [|w ws IH]; [done|]. cbn. by rewrite IH.
Qed.

Lemma agent_ms_none f x : (forall h y, f (UGrant h y) = []) -> occ f ms x = 0%nat.
Proof using.
  intros F. apply occ_none, list.Forall_forall. intros y (w & -> & _)%list_elem_of_fmap. apply F.
Qed.

Lemma agent_ms_totals : tokens ms = 0%nat /\ notifs ms = 0%nat /\ accounted ms = 0.
Proof using. clear. unfold ms. by induction (digested e q) as [|w ws IH]. Qed.

(** Who is counted. *)
Lemma agent_once x : key_ok x ->
  (holder (L a) x + one (bool_decide (k = x)) + count x (map wq_req (digested e q)) <= 1)%nat.
Proof using Hn HI Hfit.
  intros Hx. destruct agent_facts as (_ & _ & _ & _ & _ & _ & _ & _ & Hsub).
  pose proof (ri_places _ _ _ _ _ HI x) as H1. pose proof (ri_once _ _ _ _ _ HI x) as H2.
  pose proof (ri_holders _ _ _ _ _ HI x Hx) as H3. specialize (Hsub x). pose proof (digest_count e q x) as H4.
  revert H1 H2 H3. rewrite !occ_app, !occ_cons. cbn [m m_reqs m_agents m_notifs m_grants m_rels].
  rewrite !count_cons, !count_nil. lia.
Qed.

Lemma agent_flag x : x.1 = a -> lflag l' x.2 = (one (bool_decide (k = x)) + lflag (L a) x.2)%nat.
Proof using Hn HI Hfit.
  intros Ex. destruct agent_facts as (_ & Ea & _).
  unfold lflag. rewrite (as_granted _ _ _ _ _ _ _ agent_l'). destruct (decide (k = x)) as [<-|Hne].
  - rewrite lookup_insert_eq, !bool_decide_true by done.
    pose proof (ri_places _ _ _ _ _ HI k) as H1. pose proof (ri_once _ _ _ _ _ HI k) as H2.
    revert H1 H2. rewrite !occ_app, !occ_cons. cbn [m m_reqs m_agents m_notifs m_grants m_rels].
    rewrite !count_cons, !count_nil, bool_decide_true by done. unfold flag, lflag. rewrite Ex. cbn [one]. lia.
  - rewrite (bool_decide_false (k = x)) by done. rewrite lookup_insert_ne; [done|].
    intros E. apply Hne, injective_projections; congruence.
Qed.

Lemma agent_flags x : flag (upd L a l') x = (one (bool_decide (k = x)) + flag L x)%nat.
Proof using Hn HI Hfit.
  rewrite flag_upd. case_decide as Hd; [rewrite (agent_flag x Hd); unfold flag; by rewrite Hd|].
  rewrite bool_decide_false; [done|]. intros <-. destruct agent_facts as (_ & Ea & _). done.
Qed.

Lemma agent_occ f x : (forall h y, f (UGrant h y) = []) ->
  (occ f (V1 ++ V2 ++ ms) x + count x (f m) = occ f (V1 ++ m :: V2) x)%nat.
Proof using. intros F. rewrite !occ_app, occ_cons, (agent_ms_none f x F). lia. Qed.

Lemma agent_grants x :
  occ m_grants (V1 ++ V2 ++ ms) x = (occ m_grants (V1 ++ m :: V2) x + count x (map wq_req (digested e q)))%nat.
Proof using. rewrite !occ_app, occ_cons, agent_ms_grants. cbn [m m_grants]. rewrite count_nil. lia. Qed.

Lemma agent_sound : sound (V1 ++ V2 ++ ms) (upd L a l') T.
Proof using Hn HI Hfit.
  destruct agent_facts as (Hk & Ea & Ee & Hw & Hq & Eo & Htok & Hag & Hsub).
  pose proof (ri_reg _ _ _ _ _ HI ltac:(by rewrite Eo)) as Hh. pose proof agent_l' as Hs.
  apply (sound_host _ _ _ _ _ _ (rw_inv_sound _ _ _ _ _ HI)); try done.
  - apply (forall_replace _ _ _ _ _ (ri_typed _ _ _ _ _ HI)).
    apply list.Forall_forall. intros x (w & -> & Hin)%list_elem_of_fmap.
    destruct (digest_forall _ e q Hq) as [_ Hd]. pose proof (proj1 (list.Forall_forall _ _) Hd w Hin) as [[(_ & ? & ?) _] _].
    by split.
  - apply (agent_typed _ _ _ _ _ _ _ _ Hs); [|done]. by apply (ri_locks _ _ _ _ _ HI).
  - intros t [b Hb]. rewrite (as_granted _ _ _ _ _ _ _ Hs).
    destruct (decide (t = k.2)) as [->|Hne]; [rewrite lookup_insert_eq|rewrite lookup_insert_ne by done]; eauto.
  - intros x. rewrite agent_grants. pose proof (agent_occ m_reqs x ltac:(done)) as H1.
    pose proof (agent_occ m_agents x ltac:(done)) as H2. cbn [m m_reqs m_agents] in H1, H2.
    rewrite count_cons, count_nil in H2. specialize (Hsub x). pose proof (digest_count e q x) as H4.
    unfold queue. rewrite (as_queue _ _ _ _ _ _ _ Hs), map_app, count_app.
    destruct (decide (x.1 = a)) as [Hd|Hd]; [rewrite (agent_flag x Hd)|rewrite bool_decide_false in H2 by congruence];
      cbn [one] in *; lia.
  - intros x. pose proof (agent_occ m_rels x ltac:(done)) as H1. cbn [m m_rels] in H1. rewrite count_nil in H1. lia.
Qed.

(** The tasks whose grants the packet brings. *)
Lemma agent_live x v : T !! x = Some v ->
  (1 <= flag (upd L a l') x + occ m_grants (V1 ++ V2 ++ ms) x + helds T x)%nat ->
  task_op v = op_of (lock_rw_mode r).
Proof using Hn HI Hfit.
  intros Hv H. destruct agent_facts as (Hk & Ea & Ee & [u Hw] & Hq & _). rewrite agent_flags, agent_grants in H.
  destruct (decide (k = x)) as [<-|Hne]; [rewrite Hw in Hv; injection Hv as <-; by rewrite <- Ee|].
  rewrite bool_decide_false in H by done. cbn [one] in H.
  destruct (decide (1 <= count x (map wq_req (digested e q)))%nat) as [Hc|Hc].
  - apply count_in, list_elem_of_fmap in Hc as (w & -> & Hin).
    destruct (digest_forall _ e q Hq) as [_ Hd].
    pose proof (proj1 (list.Forall_forall _ _) Hd w Hin) as [[_ [u' Hw']] [He Hsh]].
    rewrite Hw' in Hv. injection Hv as <-. rewrite <- Ee, He.
    unfold wq_excl. unfold wq_shared in Hsh. apply Z.eqb_eq in Hsh. by rewrite Hsh.
  - apply (ri_live _ _ _ _ _ HI x v Hv). lia.
Qed.

(** The host is the agent. *)
Lemma host_agent : rw_inv (OHost a) (V1 ++ V2 ++ ms) r (upd L a l') T.
Proof using Hn HI Hfit.
  destruct agent_facts as (Hk & Ea & Ee & Hw & Hq & Eo & Htok & Hag & Hsub).
  assert (Ho : o <> OSwitch) by (by rewrite Eo). pose proof agent_l' as Hs.
  destruct agent_ms_totals as (E1 & E2 & E3).
  assert (Hz : lock_rw_mode r = true -> l_ncnt (L a) = 0 /\ l_holders (L a) = ∅).
  { intros Erw. destruct (ri_excl _ _ _ _ _ HI Ho Erw) as [Hnc _]. split; [done|].
    by apply (ri_idle _ _ _ _ _ HI). }
  apply (inv_host _ _ _ _ _ _ _ _ _ _ HI); try done.
  - apply agent_sound.
  - apply (forall_replace _ _ m).
    + eapply Forall_impl; [|apply (ri_placed _ _ _ _ _ HI)]. intros x. by apply placed_owner.
    + apply list.Forall_forall. intros x (w & -> & Hin)%list_elem_of_fmap. split; [done|].
      destruct (digest_forall _ e q Hq) as [_ Hd]. rewrite <- Ee.
      by destruct (proj1 (list.Forall_forall _ _) Hd w Hin) as [_ [? _]].
  - pose proof (order_any (V1 ++ V2) ms) as [? ?];
      [apply list.Forall_forall; by intros x (w & -> & _)%list_elem_of_fmap|].
    by apply (order_replace _ _ _ _ (ri_order _ _ _ _ _ HI)).
  - intros x Hx. pose proof (ri_follow _ _ _ _ _ HI x Hx) as H.
    rewrite <- !agent_occ in H by done. cbn [m m_notifs m_dgrants] in H. rewrite count_nil in H. lia.
  - intros x Hx. rewrite upd_same, agent_flags, agent_grants.
    rewrite (agent_holder T k e tr q (L a) l' x) by (done || by apply agent_once).
    pose proof (ri_holders _ _ _ _ _ HI x Hx) as H.
    rewrite <- (agent_occ m_notifs), <- (agent_occ m_rels) in H by done. cbn [m m_notifs m_rels] in H.
    rewrite count_nil in H. lia.
  - intros x Hx. rewrite Eo. split; [congruence|done].
  - rewrite (as_agent _ _ _ _ _ _ _ Hs). by rewrite bool_decide_true.
  - intros _. split; [done|]. rewrite (as_mode _ _ _ _ _ _ _ Hs). by rewrite Ee.
  - rewrite app_assoc, tokens_join, Htok, E1. done.
  - intros x v Hv H. split; [done|]. by apply (agent_live x v).
  - intros [?|?]; done.
  - intros Hf. by rewrite (as_agent _ _ _ _ _ _ _ Hs) in Hf.
  - intros _ Erw. rewrite upd_same, (ri_shared _ _ _ _ _ HI Ho Erw), (as_ncnt _ _ _ _ _ _ _ Hs).
    rewrite Erw in Ee. rewrite Ee. rewrite !accounted_app, !notifs_app, accounted_cons, notifs_cons, E2, E3.
    cbn [m m_count m_notifs length]. rewrite Ee.
    destruct tr; rewrite <- !Z.add_assoc, (Zplus_mod (u32 _)), u32_mod, <- Zplus_mod; f_equal; lia.
  - intros _ Erw _. destruct (Hz Erw) as [Hnc Hh0]. rewrite (as_ncnt _ _ _ _ _ _ _ Hs), (as_holders _ _ _ _ _ _ _ Hs), Hnc, Hh0.
    split; [rewrite Ee, Erw; by destruct tr|]. intros _. exists k.2. split; [apply Hk|].
    unfold digested. rewrite Ee, Erw, Ea. cbn. by rewrite !union_empty_r_L.
Qed.
End agent_arrives.

(** A message that arrives at its host, first on its link. *)
Lemma inv_deliver o V1 m V2 r L T h :
  rw_inv o (V1 ++ m :: V2) r L T -> fits m -> link m = (true, h) -> Forall (fun x => link x <> (true, h)) V1 ->
  (l_is_agent (L (lock_agent r)) = false -> lag (V1 ++ m :: V2) r L < 256) ->
  exists o', rw_inv o' (V1 ++ V2 ++ (delivered h (L h) m).2) r (upd L h (delivered h (L h) m).1) T.
Proof using Hn.
  intros HI Hfit Hm Hord Hlag. destruct m as [| | | | |h' e k|h' k|h' k|h' c|h' k e wq c|k a|k e oe tr wq c]; try done;
    injection Hm as Eh; subst h; cbn [delivered].
  - exists o. by apply host_request.
  - exists o. by apply host_notif.
  - destruct (host_release o V1 V2 r L T h' k HI Hord) as (o' & H). exists o'. by rewrite app_assoc.
  - destruct (host_pushback o V1 V2 r L T _ HI Hfit) as (h & o' & [= <-] & H); [left; eauto|]. by exists o'.
  - destruct (host_pushback o V1 V2 r L T _ HI Hfit) as (h & o' & [= <-] & H); [right; eauto 10|]. by exists o'.
  - exists o. by eapply host_grant.
  - exists (OHost (lock_agent r)). pose proof (host_agent o V1 V2 r L T k e oe tr wq c HI Hfit) as H.
    destruct (agent_facts o V1 V2 r L T k e oe tr wq c HI Hfit) as (_ & Ea & _). rewrite Ea.
    by rewrite (proj2 (agent_granted_shape (lock_agent r) k e tr wq (L (lock_agent r)))).
Qed.

End readers.
