(* ===== verification/ReadersCalls.v ===== *)
(** * ReadersCalls: tasks request, poll and release

    The three calls a task makes, as steps of the invariant. *)

From S2P Require Import Prelude RwSpec Types Post Lock LockProofs LockApi Agent LockApiProofs Switch System Fission Messages Readers ReadersHost ReadersReturn.

#[local] Arguments count : simpl never.

Section readers.
Context {n lid : Z} `{Hn : few_hosts n}.

Abbreviation host_ok := (host_ok n).
Abbreviation key_ok := (key_ok n).
Abbreviation lock_ok := (lock_ok n lid).
Abbreviation queued := (queued n).
Abbreviation waiter_typed := (waiter_typed n).
Abbreviation typed := (typed n).
Abbreviation lock_typed := (lock_typed n lid).
Abbreviation task_ok := (task_ok n).
Abbreviation rw_inv := (rw_inv n lid).
Abbreviation sound := (sound n lid).
Abbreviation returned := (returned n lid).
Abbreviation removed := (removed n lid).

(** ** Calls *)

Lemma helds_insert T k v x : helds (<[k := v]> T) x =
  if decide (k = x) then match v with Held _ => 1%nat | _ => 0%nat end else helds T x.
Proof using. unfold helds. case_decide as Hd; [by subst x; rewrite lookup_insert_eq|by rewrite lookup_insert_ne]. Qed.

Lemma waits_insert T k v x : waits (<[k := v]> T) x =
  if decide (k = x) then match v with Waiting _ _ => 1%nat | _ => 0%nat end else waits T x.
Proof using. unfold waits. case_decide as Hd; [by subst x; rewrite lookup_insert_eq|by rewrite lookup_insert_ne]. Qed.

Lemma still_new T k v x : T !! k = None -> still T (<[k := v]> T) x.
Proof using. intros E q op H. rewrite lookup_insert_ne; [done|congruence]. Qed.

Lemma lflag_touch l t t' : lflag (lock_prepare_wait t l) t' = lflag l t'.
Proof using.
  unfold lflag. f_equal. apply bool_decide_ext. cbn. split; [|intros H].
  - intros [?|(_ & ? & _)]%lookup_touch_Some; done.
  - unfold touch. destruct (l_task_granted l !! t) eqn:E; [done|]. rewrite lookup_insert_ne; [done|congruence].
Qed.

Lemma lock_typed_prepare T t l : lock_typed T l -> lock_typed T (lock_prepare_wait t l).
Proof using. by intros [[]]. Qed.

Section acquire.
Context (o : owner) (V : list vmsg) (r : lock_regs) (L : locks) (T : task_map) (h t : Z) (e : bool).
Abbreviation k := (h, t).
Context (HI : rw_inv o V r L T) (Hk : key_ok k) (HT : T !! k = None) (Hrel : occ m_rels V k = 0%nat).

Lemma idle_requester :
  (occ m_reqs V k + queued L k + flag L k + occ m_grants V k + occ m_agents V k = 0)%nat /\
  holder (L (lock_agent r)) k = 0%nat.
Proof using Hn HI Hk HT Hrel.
  pose proof (ri_places _ _ _ _ _ HI k) as H1. pose proof (ri_holders _ _ _ _ _ HI k Hk) as H3.
  assert (Hz : waits T k = 0%nat /\ helds T k = 0%nat) by (unfold waits, helds; by rewrite HT).
  destruct Hz. lia.
Qed.

(** The new task and its messages, whatever the host did. *)
Lemma sound_acquire l' ms v :
  lock_typed (<[k := v]> T) l' -> Forall (typed (<[k := v]> T)) ms ->
  (match v with Waiting q op => q = ReqPtr 0 t /\ op = op_of e /\ is_Some (l_task_granted l' !! t) | Held op => op = op_of e end) ->
  (forall t', is_Some (l_task_granted (L h) !! t') -> is_Some (l_task_granted l' !! t')) ->
  (forall t', lflag l' t' = lflag (L h) t') ->
  (forall x, (occ m_reqs ms x + queue l' x + occ m_grants ms x + occ m_agents ms x =
    queue (L h) x + if decide (k = x) then match v with Waiting _ _ => 1 | _ => 0 end else 0)%nat) ->
  (forall x, occ m_rels ms x = 0%nat) ->
  sound (V ++ ms) (upd L h l') (<[k := v]> T).
Proof using Hn HI Hk HT Hrel.
  intros Hl Hms Hv Hg Hf Hc Hr. pose proof (flag_same L h l' Hf) as Hfl.
  split.
  - apply Forall_app. split; [|done]. eapply Forall_impl; [|apply (ri_typed _ _ _ _ _ HI)].
    intros m. apply typed_still. intros x _. by apply still_new.
  - intros x Hx. destruct (decide (x = h)) as [->|Hne]; [by rewrite upd_same|]. rewrite upd_other by done.
    eapply lock_typed_still; [|by apply (ri_locks _ _ _ _ _ HI)]. intros y _. by apply still_new.
  - intros x w Hx. destruct (decide (k = x)) as [<-|Hne].
    + rewrite lookup_insert_eq in Hx. injection Hx as ->. split; [done|]. cbn [fst snd].
      destruct w as [q op|op]; [|by exists e]. destruct Hv as (? & ? & ?). rewrite upd_same. eauto.
    + rewrite lookup_insert_ne in Hx by done. destruct (ri_tasks _ _ _ _ _ HI x w Hx) as [? Hw]. split; [done|].
      destruct w; [|done]. destruct Hw as (? & ? & ?). split_and!; [done..|]. unfold upd.
      case_decide as Hd; [|done]. apply Hg. by rewrite <- Hd.
  - intros x. pose proof (ri_places _ _ _ _ _ HI x) as H1. pose proof (queued_upd L h l' x (proj1 Hk)) as Hq.
    specialize (Hc x). rewrite Hfl, waits_insert, !occ_app. cbn [fst] in Hq.
    destruct (decide (k = x)) as [<-|Hne]; [|lia]. destruct idle_requester as [Hz _]. lia.
  - intros x. pose proof (ri_once _ _ _ _ _ HI x) as H1. specialize (Hr x).
    rewrite waits_insert, helds_insert, occ_app. destruct (decide (k = x)) as [<-|Hne]; [|lia].
    destruct v; lia.
Qed.

(** The agent grants a shared request on the spot. *)
Lemma acquire_granted :
  l_is_agent (L h) = true -> is_excl (l_mode (L h)) = false -> e = false ->
  rw_inv o V r (upd L h (handle_granted_acquire h t (L h))) (<[k := Held LOCK_SHARED]> T).
Proof using Hn HI Hk HT Hrel.
  intros Ha Hm He. set (l' := handle_granted_acquire h t (L h)).
  assert (Eo : o = OHost h) by (rewrite (ri_agent _ _ _ _ _ HI) in Ha; by apply bool_decide_eq_true in Ha).
  destruct (ri_mode _ _ _ _ _ HI h Eo) as [Ea Em].
  assert (Erw : lock_rw_mode r = false) by (rewrite Em in Hm; by destruct (lock_rw_mode r)).
  assert (Ho : o <> OSwitch) by (by rewrite Eo). destruct idle_requester as [Hz Hh0].
  assert (Hfl : forall x, flag (upd L h l') x = flag L x) by (by apply flag_same).
  assert (Hs : sound V (upd L h l') (<[k := Held LOCK_SHARED]> T)).
  { rewrite <- (app_nil_r V). apply sound_acquire; try done; [|by rewrite He|].
    - apply lock_typed_holders. eapply lock_typed_still; [|apply (ri_locks _ _ _ _ _ HI h), Hk].
      intros y _. by apply still_new.
    - intros x. rewrite !occ_nil. case_decide; unfold queue; cbn; lia. }
  apply (inv_host _ _ _ _ _ _ _ _ _ _ HI); try done; try apply HI.
  - intros x Hx. rewrite Ea, upd_same, Hfl, helds_insert. unfold l', handle_granted_acquire.
    change (LOCK_HOLDER h t) with (LOCK_HOLDER k.1 k.2). rewrite holder_add, key_holder by done.
    pose proof (ri_holders _ _ _ _ _ HI x Hx) as H. rewrite Ea in H, Hh0.
    destruct (decide (k = x)) as [<-|Hne]; [rewrite bool_decide_true by done|rewrite bool_decide_false by done; done].
    assert (helds T k = 0%nat) by (unfold helds; by rewrite HT). lia.
  - intros x v Hx H. split; [done|]. destruct (decide (k = x)) as [<-|Hne].
    + rewrite lookup_insert_eq in Hx. injection Hx as <-. by rewrite Erw.
    + rewrite lookup_insert_ne in Hx by done. rewrite Hfl, helds_insert, decide_False in H by done.
      by apply (ri_live _ _ _ _ _ HI x v).
  - intros Hf. cbn in Hf. congruence.
  - intros _ _. rewrite Ea, upd_same. change (l_ncnt l') with (l_ncnt (L h)). rewrite <- Ea. by apply (ri_shared _ _ _ _ _ HI).
  - congruence.
Qed.

(** The request waits, in the agent's queue or in a packet. *)
Lemma acquire_waits l' ms :
  (l' = lock_prepare_wait t (handle_suspend_acquire h t (op_of e) (L h)) /\ ms = [] \/
   l' = lock_prepare_wait t (L h) /\ ms = [UAcq h e k]) ->
  rw_inv o (V ++ ms) r (upd L h l') (<[k := Waiting (ReqPtr 0 t) (op_of e)]> T).
Proof using Hn HI Hk HT Hrel.
  intros Hc. set (v := Waiting (ReqPtr 0 t) (op_of e)). destruct idle_requester as [Hz _].
  assert (Hw : wants (<[k := v]> T) k e) by (exists (ReqPtr 0 t); apply lookup_insert_eq).
  assert (Hl : lock_typed (<[k := v]> T) (L h)).
  { eapply lock_typed_still; [|apply (ri_locks _ _ _ _ _ HI h), Hk]. intros y _. by apply still_new. }
  assert (Hf : forall t', lflag l' t' = lflag (L h) t').
  { intros t'. destruct Hc as [[-> _]|[-> _]]; by rewrite lflag_touch. }
  assert (Hms : ms = [] \/ ms = [UAcq h e k]) by (destruct Hc as [[_ ->]|[_ ->]]; auto).
  assert (Hocc : forall f x, f (UAcq h e k) = [] -> occ f ms x = 0%nat).
  { intros f x F. destruct Hms as [-> | ->]; [done|]. by rewrite occ_cons, F, occ_nil. }
  assert (Hs : sound (V ++ ms) (upd L h l') (<[k := v]> T)).
  { apply sound_acquire; try done.
    - destruct Hc as [[-> _]|[-> _]]; apply lock_typed_prepare; [|done]. by apply (lock_typed_append _ (L h) e k).
    - destruct Hms as [-> | ->]; [constructor|]. apply Forall_singleton. split_and!; [apply Hk|done..].
    - unfold v. split_and!; [done..|].
      destruct Hc as [[-> _]|[-> _]]; apply lookup_touch_is_Some; by left.
    - intros t' Ht'. destruct Hc as [[-> _]|[-> _]]; apply lookup_touch_is_Some; by right.
    - intros x. rewrite !(Hocc m_grants), !(Hocc m_agents) by done. unfold queue, v.
      destruct Hc as [[-> ->]|[-> ->]]; cbn [lock_prepare_wait set_task_granted handle_suspend_acquire lock_append_to_wq set_wqueue l_wqueue].
      + rewrite map_app, count_app, occ_nil. cbn [map]. change (mk_wqe _ t h) with (mk_wqe (op_of e) k.2 k.1).
        rewrite (req_mk k e Hk), count_cons, count_nil.
        destruct (decide (k = x)); [rewrite bool_decide_true by done|rewrite bool_decide_false by done]; cbn [one]; lia.
      + rewrite occ_cons, occ_nil. cbn [m_reqs]. rewrite count_cons, count_nil.
        destruct (decide (k = x)); [rewrite bool_decide_true by done|rewrite bool_decide_false by done]; cbn [one]; lia.
    - intros x. by apply Hocc. }
  assert (Hsame : l_is_agent l' = l_is_agent (L h) /\ l_mode l' = l_mode (L h) /\ l_ncnt l' = l_ncnt (L h) /\
    l_holders l' = l_holders (L h)) by (by destruct Hc as [[-> _]|[-> _]]).
  destruct Hsame as (E1 & E2 & E3 & E4).
  assert (Hheld : forall x, helds (<[k := v]> T) x = helds T x).
  { intros x. rewrite helds_insert. case_decide as Hd; [|done]. subst x. unfold helds. by rewrite HT. }
  pose proof (flag_same L h l' Hf) as Hfl.
  apply (inv_steady _ _ _ _ _ _ _ _ _ HI); try done.
  - intros x. rewrite occ_app, Hocc by done. lia.
  - intros x _. rewrite Hfl, Hheld, !occ_app, !Hocc by done. lia.
  - intros x w Hx H. rewrite Hfl, Hheld, occ_app, Hocc in H by done.
    destruct (decide (k = x)) as [<-|Hne].
    + assert (helds T k = 0%nat) by (unfold helds; by rewrite HT). lia.
    + rewrite lookup_insert_ne in Hx by done. exists w. split_and!; [done..|lia].
  - apply Forall_app. split; [apply HI|]. destruct Hms as [-> | ->]; by repeat constructor.
  - apply fop_app. destruct (order_any V ms) as [? ?]; [destruct Hms as [-> | ->]; by repeat constructor|].
    split_and!; [apply HI|done..].
  - intros x Hx. rewrite !occ_app, !Hocc by done. pose proof (ri_follow _ _ _ _ _ HI x Hx). lia.
  - rewrite tokens_join. destruct Hms as [-> | ->]; totals; lia.
  - rewrite notifs_app. destruct Hms as [-> | ->]; totals; lia.
  - rewrite accounted_app. destruct Hms as [-> | ->]; totals; lia.
Qed.

(** A task calls [lock_acquire_async]. *)
Lemma inv_acquire :
  let '(l', ms, b) := acquires h t e (L h) in
  rw_inv o (V ++ ms) r (upd L h l')
    (<[k := if b then Held (op_of e) else Waiting (ReqPtr 0 t) (op_of e)]> T).
Proof using Hn HI Hk HT Hrel.
  unfold acquires. destruct (l_is_agent (L h)) eqn:Ha; [|by apply acquire_waits; auto].
  destruct (negb (is_excl (l_mode (L h))) && negb e) eqn:Es; [|by apply acquire_waits; auto].
  apply andb_true_iff in Es as [Em%negb_true_iff Ee%negb_true_iff]. rewrite app_nil_r, Ee.
  by apply acquire_granted.
Qed.
End acquire.

(** ** A task sees its flag *)

Section poll.
Context (o : owner) (V : list vmsg) (r : lock_regs) (L : locks) (T : task_map) (h t : Z) (q : lock_req) (op : lock_state).
Abbreviation k := (h, t).
Abbreviation l' := (set_task_granted (<[t := false]> (l_task_granted (L h))) (L h)).
Abbreviation T' := (<[k := Held op]> T).
Context (HI : rw_inv o V r L T) (HT : T !! k = Some (Waiting q op)).
Context (Hg : l_task_granted (L h) !! t = Some true).

(** The poller waits for its flag only. *)
Lemma poller : key_ok k /\ (exists e, op = op_of e) /\ waits T k = 1%nat /\ helds T k = 0%nat /\ flag L k = 1%nat /\
  (occ m_reqs V k + queued L k + occ m_grants V k + occ m_agents V k)%nat = 0%nat /\ occ m_rels V k = 0%nat.
Proof using HI HT Hg.
  destruct (ri_tasks _ _ _ _ _ HI k _ HT) as [Hk (_ & He & _)].
  pose proof (ri_places _ _ _ _ _ HI k) as Hp. pose proof (ri_once _ _ _ _ _ HI k) as Hon.
  assert (Hw : waits T k = 1%nat /\ helds T k = 0%nat) by (unfold waits, helds; by rewrite HT). destruct Hw as [Hw Hh0].
  assert (Hfk : flag L k = 1%nat) by (unfold flag, lflag; by rewrite bool_decide_true).
  split_and!; (done || lia).
Qed.

Lemma poll_flags x : (flag (upd L h l') x + one (bool_decide (k = x)) = flag L x)%nat.
Proof using Hg.
  rewrite flag_upd. case_decide as Hd.
  - unfold flag, lflag. cbn. rewrite Hd. destruct (decide (k = x)) as [<-|Hne].
    + rewrite (bool_decide_true (k = k)) by done. cbn. rewrite lookup_insert_eq, Hg. done.
    + rewrite (bool_decide_false (k = x)), lookup_insert_ne; [cbn; lia| |done].
      intros E. apply Hne. destruct x as [x1 x2]. cbn in *. by subst x1 x2.
  - rewrite bool_decide_false; [cbn [one]; lia|]. by intros <-.
Qed.

Lemma poll_helds x : (helds T' x = helds T x + one (bool_decide (k = x)))%nat.
Proof using HI HT Hg.
  destruct poller as (_ & _ & _ & Hz & _). rewrite helds_insert. destruct (decide (k = x)) as [<-|Hne];
    [rewrite bool_decide_true by done|rewrite bool_decide_false by done]; cbn; lia.
Qed.

Lemma poll_sound : sound V (upd L h l') T'.
Proof using Hn HI HT Hg.
  destruct poller as (Hk & [e Ee] & Hw & Hz & Hfk & Hp & Hr).
  assert (Hstill : forall x, (1 <= occ m_reqs V x + queued L x + occ m_agents V x)%nat -> still T T' x).
  { intros x Hx u w Hu. rewrite lookup_insert_ne; [done|]. intros <-. lia. }
  split.
  - apply list.Forall_forall. intros m Hm.
    eapply typed_still; [|by apply (proj1 (list.Forall_forall _ _) (ri_typed _ _ _ _ _ HI))].
    intros x [Hx|Hx]%elem_of_app; apply Hstill; apply (occ_pos _ V) in Hx; (done || lia).
  - intros x Hx. assert (Hl : lock_typed T' (L x)).
    { eapply lock_typed_still; [|by apply (ri_locks _ _ _ _ _ HI)]. intros y Hy%count_in. apply Hstill.
      assert (queue (L x) y <= queued L y)%nat; [|unfold queue in *; lia]. by apply queue_le. }
    unfold upd. case_decide as Hd; [|done]. subst x. by destruct Hl as [[] ?].
  - intros x v Hx. destruct (decide (k = x)) as [<-|Hne].
    + rewrite lookup_insert_eq in Hx. injection Hx as <-. split; [done|]. by exists e.
    + rewrite lookup_insert_ne in Hx by done. destruct (ri_tasks _ _ _ _ _ HI x v Hx) as [? Hv]. split; [done|].
      destruct v; [|done]. destruct Hv as (? & ? & Hv). split_and!; [done..|]. unfold upd.
      case_decide as Hd; [|done]. rewrite Hd in Hv. cbn. destruct (decide (x.2 = t)) as [->|Ht];
        [rewrite lookup_insert_eq; eauto|by rewrite lookup_insert_ne].
  - intros x. pose proof (ri_places _ _ _ _ _ HI x) as H1. pose proof (poll_flags x) as Hfl. rewrite waits_insert.
    pose proof (queued_upd L h l' x (proj1 Hk)) as Eq. change (queue l' x) with (queue (L h) x) in Eq.
    destruct (decide (k = x)) as [<-|Hne];
      [rewrite bool_decide_true in Hfl by done|rewrite bool_decide_false in Hfl by done]; cbn [one] in Hfl; lia.
  - intros x. pose proof (ri_once _ _ _ _ _ HI x) as H1. rewrite waits_insert, poll_helds.
    destruct (decide (k = x)) as [<-|Hne]; [rewrite bool_decide_true by done|rewrite bool_decide_false by done];
      cbn [one]; lia.
Qed.

Lemma inv_poll : rw_inv o V r (upd L h l') T'.
Proof using Hn HI HT Hg.
  apply (inv_steady _ _ _ _ _ _ _ _ _ HI); try done; try apply HI; [by apply poll_sound|..].
  - intros x _. rewrite poll_helds. pose proof (poll_flags x). lia.
  - intros x v Hx H. pose proof (poll_flags x) as Hfl. rewrite poll_helds in H. destruct (decide (k = x)) as [<-|Hne].
    + rewrite lookup_insert_eq in Hx. injection Hx as <-. exists (Waiting q op).
      rewrite bool_decide_true in Hfl by done. split_and!; [done..|]. cbn [one] in Hfl. lia.
    + rewrite lookup_insert_ne in Hx by done. exists v. split_and!; [done..|]. lia.
Qed.
End poll.

Section release.
Context (o : owner) (V : list vmsg) (r : lock_regs) (L : locks) (T : task_map) (h t : Z) (op : lock_state).
Abbreviation k := (h, t).
Context (HI : rw_inv o V r L T) (HT : T !! k = Some (Held op)).

Lemma holding : key_ok k /\ o <> OSwitch /\ op = op_of (lock_rw_mode r) /\
  waits T k = 0%nat /\ helds T k = 1%nat /\ flag L k = 0%nat /\ occ m_grants V k = 0%nat /\ occ m_rels V k = 0%nat.
Proof using Hn HI HT.
  destruct (ri_tasks _ _ _ _ _ HI k _ HT) as [Hk _].
  pose proof (ri_places _ _ _ _ _ HI k) as H1. pose proof (ri_once _ _ _ _ _ HI k) as H2.
  assert (Hw : waits T k = 0%nat /\ helds T k = 1%nat) by (unfold waits, helds; by rewrite HT). destruct Hw as [Hw Hh].
  destruct (ri_live _ _ _ _ _ HI k _ HT) as [Ho E]; [lia|]. split_and!; try done; lia.
Qed.

Lemma m_dgrants_le x : (occ m_dgrants V x <= occ m_grants V x)%nat.
Proof using. apply occ_le. intros []; cbn; rewrite ?count_nil; lia. Qed.

(** The agent of a holder on its own host has it in its set. *)
Lemma holding_at_agent : l_is_agent (L h) = true ->
  o = OHost h /\ lock_agent r = h /\ occ m_notifs V k = 0%nat /\ LOCK_HOLDER h t ∈ l_holders (L h).
Proof using Hn HI HT.
  intros Ha. destruct holding as (Hk & Ho & _ & Hw & Hh & Hf & Hg & Hr).
  assert (Eo : o = OHost h) by (rewrite (ri_agent _ _ _ _ _ HI) in Ha; by apply bool_decide_eq_true in Ha).
  destruct (ri_mode _ _ _ _ _ HI h Eo) as [Ea _]. pose proof (ri_follow _ _ _ _ _ HI k (eq_sym Ea)) as Hfo.
  pose proof (m_dgrants_le k) as Hd. pose proof (ri_holders _ _ _ _ _ HI k Hk) as E. rewrite Ea in E.
  split_and!; [done..|lia|]. apply (holder_in (L h) k). lia.
Qed.

(** A holder elsewhere: the lock is shared. *)
Lemma holding_elsewhere : l_is_agent (L h) = false -> lock_rw_mode r = false.
Proof using Hn HI HT.
  intros Ha. destruct holding as (Hk & Ho & _ & Hw & Hh & Hf & Hg & Hr).
  destruct (lock_rw_mode r) eqn:Erw; [|done]. exfalso. destruct (ri_excl _ _ _ _ _ HI Ho Erw) as [Hnc Hex].
  pose proof (ri_holders _ _ _ _ _ HI k Hk) as E.
  rewrite (placed_none o r V m_notifs k) in E; [|auto..|apply HI].
  assert (Hin : LOCK_HOLDER h t ∈ l_holders (L (lock_agent r))) by (apply (holder_in _ k); lia).
  destruct (decide (o = OHost (lock_agent r))) as [Eo|Hne].
  - destruct (Hex Eo) as (t' & Ht' & Es). rewrite Es in Hin. apply elem_of_singleton in Hin.
    apply (key_inj k (lock_agent r, t')) in Hin; [|done|split; [by apply (ri_reg _ _ _ _ _ HI)|done]].
    injection Hin as Eh _. rewrite (ri_agent _ _ _ _ _ HI), Eh, bool_decide_true in Ha by done. done.
  - rewrite (ri_idle _ _ _ _ _ HI (lock_agent r)) in Hin; [by apply elem_of_empty in Hin| |done].
    rewrite (ri_agent _ _ _ _ _ HI). by apply bool_decide_false.
Qed.

Lemma helds_delete x : (helds T x = one (bool_decide (k = x)) + helds (delete k T) x)%nat.
Proof using HT.
  unfold helds. destruct (decide (k = x)) as [<-|Hne].
  - by rewrite lookup_delete_eq, bool_decide_true, HT.
  - by rewrite lookup_delete_ne, bool_decide_false.
Qed.

Lemma waits_delete x : waits (delete k T) x = waits T x.
Proof using HT.
  unfold waits. destruct (decide (k = x)) as [<-|Hne]; [by rewrite lookup_delete_eq, HT|by rewrite lookup_delete_ne].
Qed.

Lemma still_delete x : still T (delete k T) x.
Proof using HT. intros q w Hx. rewrite lookup_delete_ne; [done|congruence]. Qed.

Lemma sound_delete V' : Forall (typed (delete k T)) V' ->
  (forall f x, f = m_reqs \/ f = m_grants \/ f = m_agents -> occ f V' x = occ f V x) ->
  (forall x, occ m_rels V' x <= occ m_rels V x + one (bool_decide (k = x)))%nat ->
  sound V' L (delete k T).
Proof using Hn HI HT.
  intros Ht Hocc Hr. split; try done.
  - intros x Hx. eapply lock_typed_still; [|by apply (ri_locks _ _ _ _ _ HI)]. intros y _. apply still_delete.
  - intros x v [_ Hx]%lookup_delete_Some. by apply (ri_tasks _ _ _ _ _ HI).
  - intros x. rewrite waits_delete, !Hocc by auto. apply (ri_places _ _ _ _ _ HI).
  - intros x. rewrite waits_delete. specialize (Hr x). pose proof (helds_delete x). pose proof (ri_once _ _ _ _ _ HI x). lia.
Qed.

Lemma typed_delete : Forall (typed (delete k T)) V.
Proof using Hn HI HT.
  eapply Forall_impl; [|apply (ri_typed _ _ _ _ _ HI)]. intros m. apply typed_still. intros x _. apply still_delete.
Qed.

(** A task calls [lock_release]. *)
Lemma inv_release : exists o',
  rw_inv o' (V ++ (releases h t (L h)).2) r (upd L h (releases h t (L h)).1) (delete k T).
Proof using Hn HI HT.
  destruct holding as (Hk & Ho & _ & Hw & Hh & Hf & Hg & Hr). pose proof (proj1 Hk) as Hhok. cbn [fst] in Hhok.
  set (l0 := set_local_holders (l_local_holders (L h) ∖ {[ t ]}) (L h)).
  assert (Hl : lock_typed (delete k T) l0).
  { apply lock_typed_local. eapply lock_typed_still; [|by apply (ri_locks _ _ _ _ _ HI)]. intros y _. apply still_delete. }
  unfold releases. fold l0. change (l_is_agent l0) with (l_is_agent (L h)). destruct (l_is_agent (L h)) eqn:Ha.
  - destruct (holding_at_agent Ha) as (Eo & Ea & Hnk & _).
    assert (HR : returned o r V V L T (delete k T) k).
    { split; try done; try apply HI.
      - apply sound_delete; [apply typed_delete|done|lia].
      - intros x. pose proof (helds_delete x). lia.
      - by intros x v [_ Hx]%lookup_delete_Some. }
    assert (HM : removed (delete k T) k (L (lock_agent r)) (handle_release h t l0)).
    { rewrite Ea. split; try done. by apply lock_typed_holders. }
    pose proof (return_to_agent o r V V L T (delete k T) k _ HI HR Hk Ho Hnk HM) as H.
    rewrite Ea in H. by apply H.
  - exists o. pose proof (holding_elsewhere Ha) as Erw. cbn [fst snd].
    assert (Hfl : forall x, flag (upd L h l0) x = flag L x) by (by apply flag_same).
    assert (Hocc : forall f x, f (URel k) = [] -> occ f (V ++ [URel k]) x = occ f V x).
    { intros f x F. rewrite occ_app, occ_cons, F, count_nil, occ_nil. lia. }
    assert (Hrel : forall x, occ m_rels (V ++ [URel k]) x = (occ m_rels V x + one (bool_decide (k = x)))%nat) by (intros x; occs).
    assert (Hs : sound (V ++ [URel k]) (upd L h l0) (delete k T)).
    { apply (sound_host (V ++ [URel k]) _ L); try done.
      - apply sound_delete.
        + apply Forall_app. split; [apply typed_delete|by apply Forall_singleton].
        + intros f x [-> | [-> | ->]]; by apply Hocc.
        + intros x. rewrite Hrel. lia.
      - apply Forall_app. split; [apply typed_delete|by apply Forall_singleton]. }
    apply (inv_steady _ _ _ _ _ _ _ _ _ HI); try done.
    + intros x. by apply Hocc.
    + intros x _. rewrite Hfl, Hocc, Hrel, (helds_delete x) by done. lia.
    + intros x v [_ Hx]%lookup_delete_Some H. rewrite Hfl, Hocc in H by done. pose proof (helds_delete x).
      exists v. split_and!; [done..|lia].
    + apply Forall_app. split; [apply HI|by apply Forall_singleton].
    + apply fop_app. destruct (order_any V [URel k]) as [? ?]; [by apply Forall_singleton|]. split_and!; [apply HI|done..].
    + intros x Hx. rewrite !Hocc by done. by apply (ri_follow _ _ _ _ _ HI).
    + totals. lia.
    + totals. lia.
    + totals. lia.
Qed.
End release.

End readers.
