(* ===== verification/ReadersLive.v ===== *)
(** * ReadersLive: an agent has a holder or expects one

    A second invariant of systems of readers and writers, on top of that of
    [Readers]: a shared lock whose agent has no holder expects a notification,
    because the packet that gave the lock up was refused only for notifications
    that had not arrived.  [ReadWrite] concludes that a silent lock in use has a
    holder. *)

From S2P Require Import Prelude RwSpec Types Post Lock LockProofs LockApi Agent LockApiProofs Switch System Fission Messages Readers ReadersSwitch ReadersHost ReadersReturn ReadersAgent ReadersCalls.

#[local] Arguments count : simpl never.

(** A free or a transfer that the switch has refused. *)
Definition pushed (m : vmsg) : Prop := match m with DFree _ _ | DTransfer _ _ _ _ _ => True | _ => False end.

Section live.
Context {n lid : Z} `{Hn : few_hosts n}.

Abbreviation host_ok := (host_ok n).
Abbreviation key_ok := (key_ok n).
Abbreviation waiter_typed := (waiter_typed n).
Abbreviation typed := (typed n).
Abbreviation rw_inv := (rw_inv n lid).

Definition keyed (l : innet_lock) : Prop := forall x, x ∈ l_holders l -> exists k, key_ok k /\ x = LOCK_HOLDER k.1 k.2.

(** A host without agency that has neither holders nor a delayed free has seen
    no notification. *)
Definition unseen (l : innet_lock) : Prop :=
  l_is_agent l = false -> l_delayed_free l = false -> l_holders l = ∅ -> l_ncnt l = 0.

Record live (V : list vmsg) (r : lock_regs) (L : locks) : Prop := {
  lv_busy : forall h, l_is_agent (L h) = true -> lock_rw_mode r = false -> l_holders (L h) = ∅ -> (1 <= notifs V)%nat;
  lv_unseen : forall h, unseen (L h);
  lv_pushed : Exists pushed V -> 1 <= lag V r L;
  lv_keyed : forall h, keyed (L h);
}.

Lemma pushed_token V : Exists pushed V -> (1 <= tokens V)%nat.
Proof using.
  induction 1 as [m V Hm|m V _ IH]; rewrite tokens_cons; [|lia]. destruct m; try done; cbn; lia.
Qed.

Lemma pushed_join V1 V2 : Exists pushed (V1 ++ V2) <-> Exists pushed V1 \/ Exists pushed V2.
Proof using. apply Exists_app. Qed.

(** No packet owns the lock when its other owners do. *)
Lemma no_pushed o V r L T : rw_inv o V r L T -> o <> OPacket -> ~ Exists pushed V.
Proof using.
  intros HI Ho Hp%pushed_token. rewrite (ri_tokens _ _ _ _ _ HI) in Hp. destruct o; [lia..|done].
Qed.

(** Only one packet owns the lock. *)
Lemma no_other o V1 m V2 r L T : rw_inv o (V1 ++ m :: V2) r L T -> is_token m = true -> ~ Exists pushed (V1 ++ V2).
Proof using Hn.
  intros HI Hm Hp%pushed_token. pose proof (ri_tokens _ _ _ _ _ HI) as H. rewrite (token_is_owner _ _ _ _ _ _ _ HI Hm) in H.
  rewrite tokens_join, tokens_cons, Hm in H. rewrite tokens_join in Hp. cbn in H. lia.
Qed.

Lemma agent_owner o V r L T h : rw_inv o V r L T -> l_is_agent (L h) = true -> o = OHost h.
Proof using. intros HI Ha. rewrite (ri_agent _ _ _ _ _ HI) in Ha. by apply bool_decide_eq_true in Ha. Qed.

Lemma ncnt_nonneg o V r L T : rw_inv o V r L T -> o <> OSwitch -> 0 <= l_ncnt (L (lock_agent r)).
Proof using.
  intros HI Ho. destruct (ri_locks _ _ _ _ _ HI (lock_agent r)) as [[_ _ _ _ Hc] _]; [by apply (ri_reg _ _ _ _ _ HI)|].
  apply Hc.
Qed.

(** ** The switch *)

(** A message that neither owns the lock nor finds it free. *)
Lemma switch_keeps V1 m V2 r :
  (link m).1 = false -> is_token m = false -> lock_free_mode r = true ->
  let r' := (at_switch r m).1 in let V' := V1 ++ V2 ++ (at_switch r m).2 in
  lock_agent r' = lock_agent r /\ lock_rw_mode r' = lock_rw_mode r /\
  (notifs (V1 ++ m :: V2) <= notifs V')%nat /\ (Exists pushed V' -> Exists pushed (V1 ++ m :: V2)).
Proof using.
  intros Hm Ht Hf. destruct m as [h e k|k| | |h k| | | | | | |]; try done; cbn [at_switch fst snd].
  - rewrite Hf. cbn [negb]. destruct (negb e && negb (lock_rw_mode r)) eqn:E; cbn [lock_agent lock_rw_mode fst snd].
    + apply andb_true_iff in E as [_ E%negb_true_iff]. rewrite E. split_and!; [done..|totals; lia|].
      rewrite !pushed_join, !Exists_cons, Exists_nil. cbn. tauto.
    + split_and!; [done..|totals; lia|]. rewrite !pushed_join, !Exists_cons, Exists_nil. cbn. tauto.
  - split_and!; [done..|totals; lia|]. rewrite !pushed_join, !Exists_cons, Exists_nil. cbn. tauto.
  - split_and!; [done..|totals; lia|]. rewrite !pushed_join, !Exists_cons, Exists_nil. cbn. tauto.
Qed.

(** A refused packet: the counts differ by notifications that it does not know of. *)
Lemma refused o V1 m V2 r L T :
  rw_inv o (V1 ++ m :: V2) r L T -> is_token m = true -> m_notifs m = [] -> lock_rw_mode r = false ->
  in_uw 8 (m_count m) -> notification_cnt r <> m_count m -> 1 <= l_ncnt (L (lock_agent r)) + Z.of_nat (notifs (V1 ++ V2)).
Proof using Hn.
  intros HI Hm Hnm Erw Hc Hne. pose proof (token_is_owner _ _ _ _ _ _ _ HI Hm) as Eo.
  assert (Ho : o <> OSwitch) by (by rewrite Eo). pose proof (ncnt_nonneg _ _ _ _ _ HI Ho) as H0.
  pose proof (ri_shared _ _ _ _ _ HI Ho Erw) as E. pose proof (ri_tokens _ _ _ _ _ HI) as Ht.
  rewrite Eo, tokens_join, tokens_cons, Hm in Ht. cbn [one] in Ht.
  assert (Ha : accounted (V1 ++ V2) = 0) by (apply accounted_none; rewrite tokens_join; lia).
  rewrite accounted_app in Ha. rewrite accounted_app, accounted_cons, notifs_app, notifs_cons, Hnm in E. rewrite notifs_app.
  cbn [length] in E. destruct (decide (l_ncnt (L (lock_agent r)) + Z.of_nat (notifs V1 + notifs V2) = 0)) as [Hz|]; [|lia].
  exfalso. apply Hne. rewrite E. unfold in_uw in Hc. change (2 ^ 8) with 256 in Hc.
  rewrite Z.mod_small by lia. lia.
Qed.

Lemma live_switch o V1 m V2 r L T :
  rw_inv o (V1 ++ m :: V2) r L T -> (link m).1 = false -> live (V1 ++ m :: V2) r L ->
  live (V1 ++ V2 ++ (at_switch r m).2) (at_switch r m).1 L.
Proof using Hn.
  intros HI Hm [Hb Hu Hp Hk]. pose proof (forall_middle _ _ _ _ (ri_typed _ _ _ _ _ HI)) as Hty.
  pose proof (forall_middle _ _ _ _ (ri_placed _ _ _ _ _ HI)) as Hpl. split; try done.
  - intros h Ha Erw He. pose proof (agent_owner _ _ _ _ _ _ HI Ha) as Eo.
    assert (Hf : lock_free_mode r = true) by (by rewrite (ri_free _ _ _ _ _ HI), Eo, bool_decide_false).
    destruct (is_token m) eqn:Et; [by rewrite (token_is_owner _ _ _ _ _ _ _ HI Et) in Eo|].
    destruct (switch_keeps V1 m V2 r Hm Et Hf) as (_ & Erw' & Hle & _). rewrite Erw' in Erw. specialize (Hb h Ha Erw He). lia.
  - intros HV. destruct (is_token m) eqn:Et.
    + pose proof (no_other _ _ _ _ _ _ _ HI Et) as Hno. rewrite !pushed_join in HV, Hno.
      destruct m as [| |h oe c|h k e oe wq c| | | | | | | |]; try done; cbn [at_switch] in HV |- *; destruct Hpl as [_ ->].
      * destruct (lock_rw_mode r || (notification_cnt r =? c)) eqn:Ea; cbn [fst snd] in HV;
          [rewrite app_nil_r in HV; tauto|]. apply orb_false_iff in Ea as [Erw Ec%Z.eqb_neq].
        pose proof (refused _ _ _ _ _ _ _ HI Et eq_refl Erw (proj2 Hty) Ec) as H. unfold lag. cbn [fst snd].
        rewrite app_assoc, (notifs_app (V1 ++ V2)). lia.
      * destruct (lock_rw_mode r || (notification_cnt r =? c)) eqn:Ea; cbn [fst snd] in HV;
          [rewrite pushed_join, Exists_cons, Exists_nil in HV; cbn in HV; tauto|]. apply orb_false_iff in Ea as [Erw Ec%Z.eqb_neq].
        destruct Hty as (_ & _ & Hc & _). pose proof (refused _ _ _ _ _ _ _ HI Et eq_refl Erw Hc Ec) as H. unfold lag. cbn [fst snd].
        rewrite app_assoc, (notifs_app (V1 ++ V2)). lia.
    + destruct (lock_free_mode r) eqn:Ef.
      * destruct (switch_keeps V1 m V2 r Hm Et Ef) as (Ea & _ & Hle & Hex). specialize (Hp (Hex HV)).
        unfold lag in *. rewrite Ea. lia.
      * pose proof (free_owner _ _ _ _ _ HI Ef) as ->. exfalso. pose proof (no_pushed _ _ _ _ _ HI ltac:(done)) as Hno.
        apply Hno. rewrite !pushed_join in HV. rewrite pushed_join, Exists_cons.
        destruct m as [h e k|k| | |h k| | | | | | |]; try done; cbn [at_switch] in HV; [|by destruct Hpl..].
        rewrite Ef in HV. cbn [negb snd] in HV. rewrite ?pushed_join, Exists_cons, Exists_nil in HV. cbn in HV. tauto.
Qed.

(** ** One host changes *)

Lemma live_upd V V' r L h l' :
  live V r L -> unseen l' -> keyed l' ->
  (l_is_agent l' = true -> lock_rw_mode r = false -> l_holders l' = ∅ -> (1 <= notifs V')%nat) ->
  (forall x, x <> h -> l_is_agent (L x) = true -> (notifs V <= notifs V')%nat) ->
  (Exists pushed V' -> 1 <= lag V' r (upd L h l')) ->
  live V' r (upd L h l').
Proof using.
  intros [Hb Hu Hp Hk] Hu' Hk' Hb' Ho Hp'. split; [|unfold upd; intros x; by case_decide|done|unfold upd; intros x; by case_decide].
  intros x. unfold upd. case_decide as Hd; [apply Hb'|]. intros Ha Erw He. specialize (Ho x Hd Ha). specialize (Hb x Ha Erw He). lia.
Qed.

(** A step that leaves what matters here as it is. *)
Lemma live_same V V' r L h l' :
  live V r L -> l_is_agent l' = l_is_agent (L h) -> l_delayed_free l' = l_delayed_free (L h) ->
  l_holders l' = l_holders (L h) -> l_ncnt l' = l_ncnt (L h) -> notifs V' = notifs V ->
  (Exists pushed V' -> Exists pushed V) -> live V' r (upd L h l').
Proof using.
  intros HL Ea Ed Eh Ec En Hex. apply (live_upd V); [done|..].
  - unfold unseen. rewrite Ea, Ed, Eh, Ec. apply (lv_unseen _ _ _ HL).
  - unfold keyed. rewrite Eh. apply (lv_keyed _ _ _ HL).
  - rewrite Ea, Eh, En. apply (lv_busy _ _ _ HL).
  - intros. lia.
  - intros Hp%Hex. pose proof (lv_pushed _ _ _ HL Hp) as H. unfold lag, upd in *. rewrite En. case_decide as Hd; [|done].
    by rewrite Ec, <- Hd.
Qed.

(** The agent loses a holder. *)
Lemma live_given_up V V0 r L h l1 :
  live V r L -> l_is_agent l1 = true -> keyed l1 -> notifs V0 = notifs V -> ~ Exists pushed V0 ->
  live (V0 ++ (given_up h l1).2) r (upd L h (given_up h l1).1).
Proof using.
  intros HL Ha Hk En Hno. unfold given_up. destruct (lock_no_holders l1) eqn:E.
  - assert (He : l_holders l1 = ∅) by (by apply bool_decide_eq_true in E).
    destruct (l_wqueue l1) as [|w wq]; cbn [fst snd]; (apply (live_upd V); [done|done|by intros x; cbn; rewrite He|done| |]).
    + intros. rewrite notifs_app. lia.
    + rewrite pushed_join, Exists_cons, Exists_nil. cbn. tauto.
    + intros. rewrite notifs_app. lia.
    + rewrite pushed_join, Exists_cons, Exists_nil. cbn. tauto.
  - apply bool_decide_eq_false in E. cbn [fst snd]. rewrite app_nil_r. apply (live_upd V); try done.
    + unfold unseen. by rewrite Ha.
    + intros. lia.
Qed.

Lemma keyed_sub l l' : keyed l -> l_holders l' ⊆ l_holders l -> keyed l'.
Proof using. intros Hk Hs x Hx. apply Hk. by apply Hs. Qed.

Lemma request_arrived_delayed h e k l : l_delayed_free (request_arrived h e k l).1 = l_delayed_free l.
Proof using.
  unfold request_arrived. destruct (l_is_agent _); [done|]. destruct e; [|done]. cbv zeta. by destruct (2 <? _).
Qed.

(** ** Messages arrive *)

Section arrives.
Context (o : owner) (V1 V2 : list vmsg) (r : lock_regs) (L : locks) (T : task_map).

Lemma live_request h e k :
  rw_inv o (V1 ++ DAcq h e k :: V2) r L T -> live (V1 ++ DAcq h e k :: V2) r L ->
  live (V1 ++ V2 ++ (request_arrived h e k (L h)).2) r (upd L h (request_arrived h e k (L h)).1).
Proof using.
  intros HI HL. pose proof (request_arrived_cases h e k (L h)) as Hc. pose proof (request_arrived_delayed h e k (L h)) as Ed.
  destruct (request_arrived h e k (L h)) as [l' ms]. destruct Hc as [[E1 E2 E3 E4 E5] Hc]. cbn [fst snd] in *.
  apply (live_same (V1 ++ DAcq h e k :: V2)); try done;
    destruct Hc as [[-> _]|[-> _]]; rewrite ?pushed_join, ?Exists_cons, ?Exists_nil; cbn; try tauto; totals; lia.
Qed.

Lemma live_notif h k :
  rw_inv o (V1 ++ DNotif h k :: V2) r L T -> live (V1 ++ DNotif h k :: V2) r L ->
  (l_is_agent (L (lock_agent r)) = false -> lag (V1 ++ DNotif h k :: V2) r L < 256) ->
  live (V1 ++ V2 ++ []) r (upd L h (notified k (L h))).
Proof using Hn.
  intros HI HL Hlag. pose proof (forall_middle _ _ _ _ (ri_typed _ _ _ _ _ HI)) as (Hh & Hk).
  pose proof (forall_middle _ _ _ _ (ri_placed _ _ _ _ _ HI)) as (Ho & Eh & Erw).
  assert (Hne : l_holders (notified k (L h)) <> ∅) by (cbn; set_solver).
  apply (live_upd (V1 ++ DNotif h k :: V2)); [done|by unfold unseen| |done| |].
  - intros x Hx. change (x ∈ {[ LOCK_HOLDER k.1 k.2 ]} ∪ l_holders (L h)) in Hx. apply elem_of_union in Hx as [Hx|Hx].
    + apply elem_of_singleton in Hx as ->. by exists k.
    + by apply (lv_keyed _ _ _ HL h).
  - intros x Hx Ha. exfalso. pose proof (agent_owner _ _ _ _ _ _ HI Ha) as ->.
    destruct (ri_mode _ _ _ _ _ HI x eq_refl) as [? _]. congruence.
  - rewrite app_nil_r. intros Hp. assert (Hp' : Exists pushed (V1 ++ DNotif h k :: V2)).
    { rewrite pushed_join in Hp |- *. rewrite Exists_cons. tauto. }
    assert (Ea : l_is_agent (L (lock_agent r)) = false).
    { destruct (l_is_agent _) eqn:Ea; [|done]. apply (agent_owner _ _ _ _ _ _ HI) in Ea. exfalso.
      apply (no_pushed _ _ _ _ _ HI); [by rewrite Ea|done]. }
    pose proof (lv_pushed _ _ _ HL Hp') as H. specialize (Hlag Ea). pose proof (ncnt_nonneg _ _ _ _ _ HI Ho) as H0.
    unfold lag in *. rewrite Eh, upd_same. change (l_ncnt (notified k (L (lock_agent r)))) with (u32 (l_ncnt (L (lock_agent r)) + 1)).
    rewrite uw_small by (unfold in_uw; lia). revert H. rewrite !notifs_app, notifs_cons. cbn [m_notifs length]. lia.
Qed.

Lemma live_release h k :
  rw_inv o (V1 ++ DRel h k :: V2) r L T -> live (V1 ++ DRel h k :: V2) r L ->
  live ((V1 ++ V2) ++ (release_arrived h k (L h)).2) r (upd L h (release_arrived h k (L h)).1).
Proof using Hn.
  intros HI HL. assert (En : notifs (V1 ++ V2) = notifs (V1 ++ DRel h k :: V2)) by (totals; lia).
  assert (Hsub : keyed (lock_remove_holder (LOCK_HOLDER k.1 k.2) (L h))).
  { apply (keyed_sub (L h)); [apply (lv_keyed _ _ _ HL)|]. change (l_holders (L h) ∖ {[ LOCK_HOLDER k.1 k.2 ]} ⊆ l_holders (L h)). set_solver. }
  unfold release_arrived. destruct (l_is_agent (L h)) eqn:Ha.
  - apply (live_given_up (V1 ++ DRel h k :: V2)); [done..|]. pose proof (agent_owner _ _ _ _ _ _ HI Ha) as Eo.
    pose proof (no_pushed _ _ _ _ _ HI ltac:(by rewrite Eo)) as Hno. rewrite pushed_join, Exists_cons in Hno. rewrite pushed_join. tauto.
  - cbn [fst snd]. rewrite app_nil_r. apply (live_upd (V1 ++ DRel h k :: V2)); [done|done|exact Hsub| | |].
    + cbn. by rewrite Ha.
    + intros. lia.
    + intros Hp. unfold lag. rewrite En. replace (l_ncnt (upd L h _ (lock_agent r))) with (l_ncnt (L (lock_agent r))).
      * apply (lv_pushed _ _ _ HL). rewrite pushed_join in Hp |- *. rewrite Exists_cons. tauto.
      * unfold upd. case_decide as Hd; [by rewrite Hd|done].
Qed.

(** A refused packet comes back to a host that has seen nothing since. *)
Lemma live_adopts m h c q :
  rw_inv o (V1 ++ m :: V2) r L T -> live (V1 ++ m :: V2) r L -> is_token m = true -> pushed m -> m_notifs m = [] ->
  h = lock_agent r -> retried (L h) = false ->
  live (V1 ++ V2 ++ []) r (upd L h (pushed_back c q (L h))).
Proof using Hn.
  intros HI HL Ht Hm Hnm -> Hr. assert (En : notifs (V1 ++ V2 ++ []) = notifs (V1 ++ m :: V2)) by (totals; rewrite Hnm; cbn; lia).
  apply (live_upd (V1 ++ m :: V2)); [done|done|apply (lv_keyed _ _ _ HL)| | |].
  - intros _ _ He. rewrite En. pose proof (lv_pushed _ _ _ HL) as Hp.
    assert (Hex : Exists pushed (V1 ++ m :: V2)) by (rewrite pushed_join, Exists_cons; tauto). specialize (Hp Hex).
    change (l_holders (L (lock_agent r)) = ∅) in He. unfold retried, lock_no_holders in Hr.
    rewrite He, bool_decide_true, andb_true_r in Hr by done.
    assert (Ea : l_is_agent (L (lock_agent r)) = false).
    { rewrite (ri_agent _ _ _ _ _ HI), (token_is_owner _ _ _ _ _ _ _ HI Ht). by apply bool_decide_false. }
    unfold lag in Hp. rewrite (lv_unseen _ _ _ HL _ Ea Hr He) in Hp. lia.
  - intros. lia.
  - rewrite app_nil_r. intros Hp. by destruct (no_other _ _ _ _ _ _ _ HI Ht).
Qed.

Lemma live_retries m m' h :
  rw_inv o (V1 ++ m :: V2) r L T -> live (V1 ++ m :: V2) r L -> is_token m = true -> m_notifs m = [] -> m_notifs m' = [] ->
  ~ pushed m' -> l_is_agent (L h) = false -> live (V1 ++ V2 ++ [m']) r (upd L h (set_delayed_free false (set_ncnt 0 (L h)))).
Proof using Hn.
  intros HI HL Ht Hnm Hnm' Hm' Ha. assert (En : notifs (V1 ++ V2 ++ [m']) = notifs (V1 ++ m :: V2)) by (totals; rewrite Hnm, Hnm'; cbn; lia).
  apply (live_upd (V1 ++ m :: V2)); [done|done|apply (lv_keyed _ _ _ HL)| | |].
  - cbn. by rewrite Ha.
  - intros. lia.
  - rewrite app_assoc, pushed_join, Exists_cons, Exists_nil. pose proof (no_other _ _ _ _ _ _ _ HI Ht). tauto.
Qed.

Lemma live_grant k a :
  live (V1 ++ DGrant k a :: V2) r L -> live (V1 ++ V2 ++ []) r (upd L k.1 (lock_local_notify k.2 (L k.1))).
Proof using.
  intros HL. apply (live_same (V1 ++ DGrant k a :: V2)); try done; [totals; lia|].
  rewrite app_nil_r, !pushed_join, Exists_cons. tauto.
Qed.

Lemma live_agent k e oe tr wq c :
  rw_inv o (V1 ++ DAgent k e oe tr wq c :: V2) r L T -> live (V1 ++ DAgent k e oe tr wq c :: V2) r L ->
  fits (DAgent k e oe tr wq c) ->
  live (V1 ++ V2 ++ (agent_granted k.1 k e tr wq (L k.1)).2) r (upd L k.1 (agent_granted k.1 k e tr wq (L k.1)).1).
Proof using Hn.
  intros HI HL Hfit. destruct (agent_facts o V1 V2 r L T k e oe tr wq c HI Hfit) as (Hk & Ea & Ee & Hw & Hq & Eo & Htok & Hag & _).
  destruct (agent_granted_shape k.1 k e tr wq (L k.1)) as [Hs Hms]. cbv zeta in Hs, Hms. rewrite Hms.
  set (q := if tr then unmarshalled wq else []) in *. set (l' := (agent_granted k.1 k e tr wq (L k.1)).1) in *.
  pose proof (as_holders _ _ _ _ _ _ _ Hs) as Eh.
  assert (Hno : ~ Exists pushed (V1 ++ V2 ++ map (fun w => UGrant k.1 (wq_req w)) (digested e q))).
  { rewrite app_assoc, pushed_join. pose proof (no_other _ _ _ _ _ _ _ HI eq_refl) as H. intros [?|Hx]; [done|].
    apply list.Exists_exists in Hx as (x & Hx & Hp). apply list_elem_of_fmap in Hx as (w & -> & _). done. }
  apply (live_upd (V1 ++ DAgent k e oe tr wq c :: V2)); [done|..].
  - unfold unseen. by rewrite (as_agent _ _ _ _ _ _ _ Hs).
  - intros x. rewrite Eh, !elem_of_union, elem_of_singleton, elem_of_list_to_set. intros [[->|Hx]|Hx].
    + by exists k.
    + by apply (lv_keyed _ _ _ HL k.1).
    + apply list_elem_of_fmap in Hx as (w & -> & Hin). destruct (digest_forall _ e q Hq) as [_ Hd].
      pose proof (proj1 (list.Forall_forall _ _) Hd w Hin) as [[(_ & ? & ?) _] _]. by exists (wq_req w).
  - intros _ _ He. rewrite Eh in He. set_solver.
  - intros x Hx Ha. pose proof (agent_owner _ _ _ _ _ _ HI Ha) as E. by rewrite Eo in E.
  - done.
Qed.
End arrives.

(** A message that arrives at its host. *)
Lemma live_deliver o V1 m V2 r L T h :
  rw_inv o (V1 ++ m :: V2) r L T -> fits m -> link m = (true, h) ->
  (l_is_agent (L (lock_agent r)) = false -> lag (V1 ++ m :: V2) r L < 256) -> live (V1 ++ m :: V2) r L ->
  live (V1 ++ V2 ++ (delivered h (L h) m).2) r (upd L h (delivered h (L h) m).1).
Proof using Hn.
  intros HI Hfit Hm Hlag HL. pose proof (forall_middle _ _ _ _ (ri_placed _ _ _ _ _ HI)) as Hpl.
  assert (Hag : is_token m = true -> l_is_agent (L h) = false).
  { intros Ht. rewrite (ri_agent _ _ _ _ _ HI), (token_is_owner _ _ _ _ _ _ _ HI Ht). by apply bool_decide_false. }
  destruct m as [| | | | |h' e k|h' k|h' k|h' c|h' k e wq c|k a|k e oe tr wq c]; try done;
    injection Hm as Eh; subst h; cbn [delivered].
  - by apply (live_request o V1 V2 r L T).
  - by apply (live_notif o V1 V2 r L T).
  - rewrite app_assoc. by apply (live_release o V1 V2 r L T).
  - destruct (retried (L h')) eqn:Er; [by apply (live_retries o V1 V2 r L T (DFree h' c)); auto|].
    by apply (live_adopts o V1 V2 r L T (DFree h' c)); try apply Hpl.
  - destruct (retried (L h')) eqn:Er; [by apply (live_retries o V1 V2 r L T (DTransfer h' k e wq c)); auto|].
    by apply (live_adopts o V1 V2 r L T (DTransfer h' k e wq c)); try apply Hpl.
  - by apply (live_grant V1 V2 r L k a).
  - by apply (live_agent o V1 V2 r L T k e oe tr wq c).
Qed.

(** ** Calls *)

Lemma live_acquire o V r L T h t e :
  rw_inv o V r L T -> key_ok (h, t) -> live V r L ->
  let '(l', ms, _) := acquires h t e (L h) in live (V ++ ms) r (upd L h l').
Proof using Hn.
  intros HI Hk HL. unfold acquires. destruct (l_is_agent (L h)) eqn:Ha; [destruct (_ && _)|].
  - rewrite app_nil_r. apply (live_upd V); try done.
    + unfold unseen. cbn. by rewrite Ha.
    + intros x Hx. change (x ∈ {[ LOCK_HOLDER h t ]} ∪ l_holders (L h)) in Hx. apply elem_of_union in Hx as [Hx|Hx].
      * apply elem_of_singleton in Hx as ->. by exists (h, t).
      * by apply (lv_keyed _ _ _ HL h).
    + intros _ _ He. cbn in He. set_solver.
    + intros Hp. pose proof (agent_owner _ _ _ _ _ _ HI Ha) as Eo. by destruct (no_pushed _ _ _ _ _ HI ltac:(by rewrite Eo)).
  - rewrite app_nil_r. by apply (live_same V).
  - apply (live_same V); try done; [totals; lia|]. rewrite pushed_join, Exists_cons, Exists_nil. cbn. tauto.
Qed.

Lemma live_poll V r L h f : live V r L -> live V r (upd L h (set_task_granted f (L h))).
Proof using. intros HL. by apply (live_same V). Qed.

Lemma live_releases o V r L T h t :
  rw_inv o V r L T -> live V r L -> live (V ++ (releases h t (L h)).2) r (upd L h (releases h t (L h)).1).
Proof using Hn.
  intros HI HL. unfold releases. cbv zeta. change (l_is_agent (set_local_holders _ (L h))) with (l_is_agent (L h)).
  destruct (l_is_agent (L h)) eqn:Ha.
  - apply (live_given_up V); [done|done| |done|].
    + apply (keyed_sub (L h)); [apply (lv_keyed _ _ _ HL)|]. change (l_holders (L h) ∖ {[ LOCK_HOLDER h t ]} ⊆ l_holders (L h)). set_solver.
    + pose proof (agent_owner _ _ _ _ _ _ HI Ha) as Eo. apply (no_pushed _ _ _ _ _ HI). by rewrite Eo.
  - apply (live_same V); try done; [cbn [fst snd]; totals; lia|]. cbn [fst snd].
    rewrite pushed_join, Exists_cons, Exists_nil. cbn. tauto.
Qed.
End live.

#[global] Arguments live : clear implicits.
