(* ===== verification/ReadWrite.v ===== *)
(** * ReadWrite: readers and writers exclude each other across hosts

    The distributed lock of [System] with the Tofino switch and both kinds of
    requests.  Exclusion holds in the runs in which the links from the switch to
    the hosts keep the order, no task requests again while its release is on the
    way, and no host that gave the lock up is 256 notifications behind.  The
    first two conditions are needed ([Fission.shared_reuse_violation]); so is the
    third, since the counts that the switch compares have eight bits. *)

From S2P Require Import Prelude RwSpec Types Post Lock LockProofs LockApi Agent LockApiProofs Switch System Fission Messages Readers ReadersSwitch ReadersHost ReadersReturn ReadersAgent ReadersCalls ReadersLive.

#[local] Open Scope prog_scope.

(** ** The runs *)

(** The release of requester [k]; a notification to host [h]. *)
Definition release_of (k : req) (m : msg) : bool :=
  let p := match m with ToSwitch _ p | ToHost _ p => p end in
  (pk_type p =? POST_LOCK_RELEASE) && (machine_id (pk_hdr p) =? k.1) && (task_id (pk_hdr p) =? k.2).

Definition notification_to (h : Z) (m : msg) : bool :=
  match m with
  | ToHost h' p => (h' =? h) && (pk_type p =? POST_LOCK_ACQUIRE) && GRANTED (pk_hdr p)
  | ToSwitch _ _ => false
  end.

(** The notifications a host that is not the agent has received or will
    receive. *)
Definition unaccounted (s : system) (h : Z) : Z :=
  match hosts s !! h with
  | Some x =>
      match h_heap x with
      | l :: _ => if l_is_agent l then 0 else l_ncnt l + Z.of_nat (length (filterb (notification_to h) (net s)))
      | [] => 0
      end
  | None => 0
  end.

Section runs.
Context (n lid : Z).

Definition careful (e : label) (s : system) : bool :=
  match e with
  | LAcquire h t _ => forallb (fun m => negb (release_of (h, t) m)) (net s)
  | LNet k => match net s !! k with Some (ToHost _ _) => next_on_link k (net s) | _ => true end
  | LTimeout _ _ => false
  | LPoll _ _ | LRelease _ _ => true
  end && forallb (fun h => unaccounted s h <? 256) (seqZ 1 n).

Fixpoint careful_run (es : list label) (s : system) : bool :=
  match es with
  | [] => true
  | e :: es' =>
      careful e s &&
      match sys_step (tofino n) false true lid e s with Ok s' => careful_run es' s' | Fault _ => true end
  end.
End runs.

Definition request_ok (e : label) : Prop :=
  match e with LAcquire _ t op => in_uw 30 t /\ exists x, op = op_of x | _ => True end.

(** ** A state and its description *)

Section rw.
Context (n lid : Z) (Hn : few_hosts n) (Hlid : 0 <= lid < SWITCH_LOCK_NUM).

Abbreviation rw_inv := (rw_inv n lid).
Abbreviation msg_of := (msg_of lid).
Abbreviation mkhost := (mkhost lid).
Abbreviation host_ok := (host_ok n).
Abbreviation step := (sys_step (tofino n) false true lid).
Abbreviation cfg_of := (cfg_of false).

Definition describes (V : list vmsg) (L : Z -> innet_lock) (s : system) : Prop :=
  net s = map msg_of V /\
  (forall h, hosts s !! h = if decide (host_ok h) then Some (mkhost (L h)) else None) /\
  live n V (regs_at (sw s) lid) L /\ exists o, rw_inv o V (regs_at (sw s) lid) L (tasks s).

Lemma host_in V L s h x : describes V L s -> hosts s !! h = Some x -> host_ok h /\ x = mkhost (L h).
Proof using. intros (_ & Hh & _). rewrite Hh. case_decide; [by intros [= <-]|done]. Qed.

(** A step of host [h]. *)
Lemma describes_host V V' L s h l' out tk o :
  describes V L s -> host_ok h -> net s ++ out = map msg_of V' ->
  live n V' (regs_at (sw s) lid) (upd L h l') -> rw_inv o V' (regs_at (sw s) lid) (upd L h l') tk ->
  describes V' (upd L h l') (System (<[h := mkhost l']> (hosts s)) (net s ++ out) (sw s) tk).
Proof using.
  intros (_ & Hh & _) Hok En HL HI. split_and!; [done| |done|by exists o]. intros x. cbn [hosts].
  destruct (decide (x = h)) as [->|Hne].
  - by rewrite lookup_insert_eq, upd_same, decide_True.
  - by rewrite lookup_insert_ne, upd_other.
Qed.

(** The lag of the invariant is what [careful] bounds. *)
Lemma notifs_counted V a o r :
  Forall (placed o r) V -> lock_agent r = a -> (notifs V <= length (filterb (notification_to a) (map msg_of V)))%nat.
Proof using.
  intros HV Ea. induction HV as [|m V Hm _ IH]; [done|]. rewrite notifs_cons. cbn [map List.filter].
  destruct m as [| | | | | |h k| | | | |]; try (cbn [m_notifs length]; destruct (notification_to a _); cbn [length]; lia).
  destruct Hm as (_ & Eh & _). assert (E : notification_to a (msg_of (DNotif h k)) = true).
  { cbn. rewrite Eh, Ea. by rewrite Z.eqb_refl. }
  rewrite E. cbn [m_notifs length]. lia.
Qed.

Lemma lag_bound V L s o e :
  describes V L s -> rw_inv o V (regs_at (sw s) lid) L (tasks s) -> careful n e s = true ->
  let r := regs_at (sw s) lid in l_is_agent (L (lock_agent r)) = false -> lag V r L < 256.
Proof using Hn Hlid.
  intros (En & Hh & _) HI Hc r Ha. unfold lag. destruct (decide (o = OSwitch)) as [->|Ho].
  - rewrite (ri_quiet _ _ _ _ _ HI) by (by left). rewrite (free_notifs V r) by apply HI. done.
  - apply andb_true_iff in Hc as [_ Hc]. rewrite forallb_forall in Hc.
    pose proof (ri_reg _ _ _ _ _ HI Ho) as Hok. set (a := lock_agent r) in *.
    specialize (Hc a). rewrite <- list_elem_of_In, elem_of_seqZ in Hc. unfold Fission.host_ok in Hok.
    change (1 <= a <= n) in Hok. specialize (Hc ltac:(lia)). apply Z.ltb_lt in Hc. unfold unaccounted in Hc.
    rewrite Hh, decide_True in Hc by done. cbn in Hc. rewrite Ha in Hc.
    pose proof (notifs_counted V a o r (ri_placed _ _ _ _ _ HI) eq_refl) as Hle. rewrite <- En in Hle. lia.
Qed.

Lemma describes_init : describes [] (fun _ => new_innet_lock lid lid) (sys_init n lid).
Proof using Hn Hlid.
  split_and!; [done| | |].
  - intros h. case_decide as Hd.
    + by apply (init_lookup n lid Hlid).
    + destruct (hosts (sys_init n lid) !! h) as [x|] eqn:Ex; [|done].
      by apply (init_lookup n lid Hlid) in Ex as [? _].
  - split; [done|done|by intros ?%Exists_nil|by intros h x ?%elem_of_empty].
  - exists OSwitch. apply inv_freed.
    + split; [constructor|done|]. intros k _. unfold flag, lflag, helds. cbn. rewrite !lookup_empty. done.
    + split; try done.
      * intros k. assert (E : queued n (fun _ => new_innet_lock lid lid) k = 0%nat).
        { unfold queued. induction (seqZ 1 n) as [|x l IH]; [done|exact IH]. }
        rewrite E. unfold flag, lflag, waits. cbn. by rewrite !lookup_empty.
      * intros k. unfold waits, helds. cbn. rewrite lookup_empty. cbn. lia.
Qed.

(** ** Every careful step preserves the description *)

(** The requesters of a run fit the array of a digested queue. *)
Context (R : gset req) (HR : Z.of_nat (size R) <= DPDK_TX_BURST_SIZE).

Definition kept (e : label) (s : system) : Prop :=
  exists s' V' L', step e s = Ok s' /\ describes V' L' s'.

Lemma kept_same V L e s : describes V L s -> step e s = Ok s -> kept e s.
Proof using. intros HD E. by exists s, V, L. Qed.

Lemma no_release V k : forallb (fun m => negb (release_of k m)) (map msg_of V) = true -> occ m_rels V k = 0%nat.
Proof using.
  intros H. induction V as [|m V IH]; [done|]. cbn [map forallb] in H. apply andb_true_iff in H as [H1 H2].
  rewrite occ_cons, (IH H2). apply negb_true_iff in H1.
  assert (Hk : forall k', k' <> k \/ k' = k) by (intros k'; destruct (decide (k' = k)); auto).
  destruct m as [|k'| | | | | |h k'| | | |]; try done; cbn [m_rels]; rewrite count_cons.
  all: destruct (Hk k') as [Hne|E]; [by rewrite bool_decide_false|exfalso; subst k'].
  all: change (true && (k.1 =? k.1) && (k.2 =? k.2) = false) in H1; by rewrite !Z.eqb_refl in H1.
Qed.

Lemma kept_acquire h t op s V L :
  request_ok (LAcquire h t op) -> careful n (LAcquire h t op) s = true -> describes V L s -> kept (LAcquire h t op) s.
Proof using Hn Hlid.
  intros [Ht [e ->]] Hc HD. pose proof HD as (En & Hh & HL & o & HI).
  destruct (hosts s !! h) as [x|] eqn:Ex; [|apply (kept_same V L); [done|cbn; by rewrite Ex]].
  destruct (tasks s !! (h, t)) as [v|] eqn:Et; [apply (kept_same V L); [done|cbn; by rewrite Ex, Et]|].
  destruct (host_in V L s h x HD Ex) as [Hok ->].
  assert (Hk : key_ok n (h, t)) by done.
  apply andb_true_iff in Hc as [Hc _]. rewrite En in Hc. apply no_release in Hc.
  pose proof (inv_acquire o V _ L (tasks s) h t e HI Hk Et Hc) as HI'.
  pose proof (live_acquire o V _ L (tasks s) h t e HI Hk HL) as HL'.
  destruct (ri_locks _ _ _ _ _ HI h Hok) as [Hl _].
  destruct (acquires_eq n lid Hn Hlid h t e (L h) Hk Hl) as (out & E & Eo).
  unfold kept. cbn [System.sys_step]. rewrite Ex, Et, E. cbn [mbind result_bind].
  destruct (acquires h t e (L h)) as [[l' ms] b]. cbn [fst snd] in *.
  eexists _, (V ++ ms), (upd L h l'). split; [reflexivity|]. rewrite Eo.
  apply (describes_host V _ L s h l' (map msg_of ms) _ o HD Hok); [by rewrite map_app, En|done|].
  by destruct b.
Qed.

Lemma kept_poll h t s V L : describes V L s -> kept (LPoll h t) s.
Proof using Hn Hlid.
  intros HD. pose proof HD as (En & Hh & HL & o & HI).
  destruct (hosts s !! h) as [x|] eqn:Ex; [|apply (kept_same V L); [done|cbn; by rewrite Ex]].
  destruct (tasks s !! (h, t)) as [[q op|op]|] eqn:Et;
    [|apply (kept_same V L); [done|cbn; by rewrite Ex, Et]..].
  destruct (host_in V L s h x HD Ex) as [Hok ->].
  destruct (ri_tasks _ _ _ _ _ HI _ _ Et) as [_ (-> & _ & b & Eb)]. cbn [fst snd] in Eb.
  unfold kept. cbn [System.sys_step]. rewrite Ex, Et. cbn [snd]. rewrite (poll_excl lid (L h) t b Eb). cbn [mbind result_bind].
  destruct b; cbn [Z.eqb].
  - pose proof (inv_poll o V _ L (tasks s) h t _ op HI Et Eb) as HI'.
    eexists _, V, _. split; [reflexivity|]. cbn [sends map].
    by apply (describes_host V _ L s h _ [] _ o HD Hok); [rewrite app_nil_r|apply live_poll|].
  - eexists _, V, L. split; [reflexivity|]. cbn [sends map]. rewrite app_nil_r.
    split_and!; [done| |done|by exists o]. cbn [hosts]. intros x. destruct (decide (x = h)) as [->|Hne].
    + by rewrite lookup_insert_eq, decide_True.
    + by rewrite lookup_insert_ne.
Qed.

Lemma kept_release h t s V L : describes V L s -> kept (LRelease h t) s.
Proof using Hn Hlid.
  intros HD. pose proof HD as (En & Hh & HL & o & HI).
  destruct (hosts s !! h) as [x|] eqn:Ex; [|apply (kept_same V L); [done|cbn; by rewrite Ex]].
  destruct (tasks s !! (h, t)) as [[q op|op]|] eqn:Et;
    [apply (kept_same V L); [done|cbn; by rewrite Ex, Et]| |apply (kept_same V L); [done|cbn; by rewrite Ex, Et]].
  destruct (host_in V L s h x HD Ex) as [Hok ->].
  destruct (inv_release o V _ L (tasks s) h t op HI Et) as [o' HI'].
  destruct (ri_tasks _ _ _ _ _ HI _ _ Et) as [Hk _].
  destruct (ri_locks _ _ _ _ _ HI h Hok) as [Hl _].
  destruct (releases_eq n lid Hn Hlid h t op (L h) Hk Hl) as (out & E & Eo).
  { intros Ha. by apply (holding_at_agent o V _ L (tasks s) h t op HI Et). }
  unfold kept. cbn [System.sys_step]. rewrite Ex, Et, E. cbn [mbind result_bind].
  eexists _, (V ++ (releases h t (L h)).2), _. split; [reflexivity|]. rewrite Eo.
  apply (describes_host V _ L s h _ _ _ o' HD Hok); [by rewrite map_app, En| |done].
  exact (live_releases o V _ L (tasks s) h t HI HL).
Qed.

(** A message of the description at a position of the network. *)
Lemma net_split V L s i x :
  describes V L s -> net s !! i = Some x ->
  exists V1 m V2, V = V1 ++ m :: V2 /\ x = msg_of m /\ delete i (net s) = map msg_of (V1 ++ V2) /\
    take i (net s) = map msg_of V1.
Proof using.
  intros (En & _) E. rewrite En in E. apply list_lookup_fmap_Some in E as (m & -> & Em).
  exists (take i V), m, (drop (S i) V). split_and!.
  - symmetry. by apply take_drop_middle.
  - done.
  - rewrite En, <- delete_take_drop. symmetry. apply list_fmap_delete.
  - rewrite En. symmetry. apply fmap_take.
Qed.

Lemma at_switch_down r m : Forall (fun x => (link x).1 = true) (at_switch r m).2.
Proof using.
  destruct m as [h e k|k|h oe c|h k e oe wq c|h k| | | | | | | ]; cbn [at_switch]; repeat case_match; by repeat constructor.
Qed.

Lemma deliveries_msgs ms : Forall (fun x => (link x).1 = true) ms ->
  map (fun '(h, q) => ToHost h q) (deliveries lid ms) = map msg_of ms.
Proof using.
  intros H. unfold deliveries. rewrite map_map. induction H as [|m ms Hm _ IH]; [done|]. cbn [map].
  rewrite IH. f_equal. unfold Messages.msg_of. by rewrite Hm.
Qed.

Lemma switch_ready o V1 m V2 r L T :
  rw_inv o (V1 ++ m :: V2) r L T -> (link m).1 = false -> hosts_ok n m /\ regs_ok n r m.
Proof using Hn Hlid.
  intros HI Hm. pose proof (forall_middle _ _ _ _ (ri_typed _ _ _ _ _ HI)) as Hty.
  pose proof (forall_middle _ _ _ _ (ri_placed _ _ _ _ _ HI)) as Hpl.
  assert (Hf : o <> OSwitch -> lock_free_mode r = true).
  { intros Ho. rewrite (ri_free _ _ _ _ _ HI). by rewrite bool_decide_false. }
  assert (Ha : lock_free_mode r = true -> host_ok (lock_agent r)).
  { intros Et. apply (ri_reg _ _ _ _ _ HI). by apply (taken_owner o _ r L T HI). }
  assert (Htok : is_token m = true -> lock_free_mode r = true).
  { intros Ht. apply Hf. by rewrite (token_is_owner o V1 m V2 r L T HI Ht). }
  destruct m; try done; cbn in Hty.
  - destruct Hty as (? & [? ?] & _). by split.
  - destruct Hty. destruct Hpl. split; [done|]. split; [done|]. by apply Hf.
  - destruct Hty. split; [done|]. split; [done|]. by apply Htok.
  - destruct Hty as (? & [? ?] & _). split; [done|]. split; [done|]. by apply Htok.
  - destruct Hty as [? [? ?]]. by split.
Qed.

Lemma kept_switch i h p s V L e :
  net s !! i = Some (ToSwitch h p) -> careful n e s = true -> describes V L s -> kept (LNet i) s.
Proof using Hn Hlid.
  intros E Hc HD. destruct (net_split V L s i _ HD E) as (V1 & m & V2 & EV & Em & Ed & _).
  pose proof HD as (En & Hh & HL & o & HI).
  assert (Hm : (link m).1 = false).
  { unfold Messages.msg_of in Em. by destruct ((link m).1). }
  assert (Ep : p = packet_of lid m) by (unfold Messages.msg_of in Em; rewrite Hm in Em; by injection Em).
  pose proof (lag_bound V L s o e HD HI Hc) as Hlag. cbv zeta in Hlag. subst V.
  destruct (switch_ready o V1 m V2 _ L _ HI Hm) as [Hho Hro].
  pose proof (switch_message n lid Hn Hlid (sw s) m Hm Hho Hro) as Esw. rewrite <- Ep in Esw.
  destruct (inv_switch o V1 m V2 _ L _ HI Hm Hlag) as [o' HI'].
  pose proof (live_switch o V1 m V2 _ L _ HI Hm HL) as HL'.
  unfold kept. cbn [System.sys_step]. rewrite E, Esw.
  eexists _, (V1 ++ V2 ++ (at_switch (regs_at (sw s) lid) m).2), L. split; [reflexivity|].
  assert (Er : regs_at (<[lid := (at_switch (regs_at (sw s) lid) m).1]> (sw s)) lid = (at_switch (regs_at (sw s) lid) m).1)
    by (unfold regs_at at 1; by rewrite lookup_insert_eq).
  split_and!; [|done|cbn [sw]; by rewrite Er|].
  - cbn [net]. rewrite Ed, deliveries_msgs by apply at_switch_down. by rewrite app_assoc, (map_app _ (V1 ++ V2)).
  - exists o'. cbn [sw tasks]. by rewrite Er.
Qed.

(** The waiters of a packet are requesters of the run. *)
Lemma reqs_fit o V1 m V2 r L T :
  rw_inv o (V1 ++ m :: V2) r L T -> (forall x v, T !! x = Some v -> x ∈ R) ->
  Z.of_nat (length (m_reqs m)) <= DPDK_TX_BURST_SIZE.
Proof using Hn Hlid HR.
  intros HI HT.
  assert (H1 : forall x, (count x (m_reqs m) <= waits T x)%nat).
  { intros x. pose proof (ri_places _ _ _ _ _ HI x) as H. rewrite occ_app, occ_cons in H. lia. }
  assert (Hnd : NoDup (m_reqs m)).
  { apply (count_nodup n lid Hn Hlid). intros x. specialize (H1 x). unfold waits in H1. destruct (T !! x) as [[]|]; lia. }
  assert (Hsub : (list_to_set (m_reqs m) : gset req) ⊆ R).
  { intros x Hx%elem_of_list_to_set%(count_elem n lid Hn Hlid). specialize (H1 x). unfold waits in H1.
    destruct (T !! x) as [[]|] eqn:Ex; [by apply HT in Ex|lia|lia]. }
  apply subseteq_size in Hsub. rewrite size_list_to_set in Hsub by done. lia.
Qed.

Lemma queue_fits o V1 m V2 r L T : rw_inv o (V1 ++ m :: V2) r L T -> (forall x v, T !! x = Some v -> x ∈ R) -> fits m.
Proof using Hn Hlid HR.
  intros HI HT. pose proof (reqs_fit o V1 m V2 r L T HI HT) as H. destruct m; try done; cbn [m_reqs fits length] in *;
    rewrite length_map in H; unfold short_wq; lia.
Qed.

Lemma waiters_ok T wq : Forall (waiter_typed n T) wq -> Forall (waiter_ok n) wq.
Proof using. apply Forall_impl. by intros w [? _]. Qed.

Lemma deliver_ready o V1 m V2 r L T h :
  rw_inv o (V1 ++ m :: V2) r L T -> link m = (true, h) -> Forall (fun x => link x <> (true, h)) V1 ->
  (forall x v, T !! x = Some v -> x ∈ R) -> host_ok h /\ deliverable n (L h) m.
Proof using Hn Hlid HR.
  intros HI Hm Hord HT. pose proof (queue_fits o V1 m V2 r L T HI HT) as Hfit.
  pose proof (forall_middle _ _ _ _ (ri_typed _ _ _ _ _ HI)) as Hty.
  pose proof (forall_middle _ _ _ _ (ri_placed _ _ _ _ _ HI)) as Hpl.
  destruct m as [| | | | |h' e k|h' k|h' k|h' c|h' k e wq c|k a|k e oe tr wq c]; try done;
    injection Hm as Eh; subst h; cbn [typed deliverable] in *.
  - split; [apply Hty|done].
  - split; [apply Hty|done].
  - destruct Hty as [Hok Hk]. destruct Hpl as (Ho & -> & Erw). split; [done|].
    pose proof (no_notif_left o V1 _ V2 r L T k HI (or_introl eq_refl) Hord) as Hz.
    pose proof (ri_holders _ _ _ _ _ HI k Hk) as H. rewrite Hz, (occ_app m_rels), occ_cons in H.
    cbn [m_rels] in H. rewrite count_cons, bool_decide_true in H by done. cbn [one] in H. apply holder_in. lia.
  - split; [apply Hty|done].
  - destruct Hty as (? & ? & ? & ? & ?). split; [done|]. by apply (waiters_ok T).
  - split; [apply Hty|done].
  - destruct Hty as (Hk & ? & Hq & Htr). split; [apply Hk|]. split_and!; [apply Hk|by apply (waiters_ok T)|done|exact Hfit].
Qed.

Lemma link_first i s V1 h p :
  take i (net s) = map msg_of V1 -> next_on_link i (net s) = true -> net s !! i = Some (ToHost h p) ->
  Forall (fun x => link x <> (true, h)) V1.
Proof using.
  intros Et Hnx E. unfold next_on_link in Hnx. rewrite E, Et in Hnx. clear -Hnx.
  induction V1 as [|m V1 IH]; constructor; cbn [map forallb] in Hnx; apply andb_true_iff in Hnx as [H1 H2].
  - intros El. unfold Messages.msg_of in H1. rewrite El in H1. cbn in H1. by rewrite Z.eqb_refl in H1.
  - by apply IH.
Qed.

Lemma kept_deliver i h p s V L :
  net s !! i = Some (ToHost h p) -> careful n (LNet i) s = true -> describes V L s -> tasks_in R s -> kept (LNet i) s.
Proof using Hn Hlid HR.
  intros E Hc HD HT. destruct (net_split V L s i _ HD E) as (V1 & m & V2 & EV & Em & Ed & Et).
  pose proof HD as (En & Hh & HL & o & HI). pose proof (lag_bound V L s o _ HD HI Hc) as Hlag. cbv zeta in Hlag.
  apply andb_true_iff in Hc as [Hc _]. rewrite E in Hc.
  assert (Hm : link m = (true, h)).
  { unfold Messages.msg_of in Em. destruct (link m) as [b x]. cbn in Em. destruct b; [by injection Em as <- _|done]. }
  assert (Ep : p = packet_of lid m) by (unfold Messages.msg_of in Em; rewrite Hm in Em; by injection Em).
  pose proof (link_first i s V1 h p Et Hc E) as Hord. subst V.
  destruct (deliver_ready o V1 m V2 _ L _ h HI Hm Hord HT) as [Hok Hdel].
  destruct (ri_locks _ _ _ _ _ HI h Hok) as [Hl _].
  destruct (deliver_message n lid Hn Hlid h (L h) m Hok Hl Hm Hdel) as (q & ret & out & Eq & Ea).
  destruct (inv_deliver o V1 m V2 _ L _ h HI (queue_fits o V1 m V2 _ L _ HI HT) Hm Hord Hlag) as [o' HI'].
  unfold kept. cbn [System.sys_step]. rewrite E, Hh, decide_True, Ep, Eq by done. cbn [mbind result_bind fst snd].
  eexists _, (V1 ++ V2 ++ (delivered h (L h) m).2), _. split; [reflexivity|].
  assert (En' : delete i (net s) ++ sends h out ++ (if (ret =? 0) || negb true then [] else [ToSwitch h q]) =
    map msg_of (V1 ++ V2 ++ (delivered h (L h) m).2)).
  { rewrite (app_assoc V1), (map_app _ (V1 ++ V2)), <- Ea, Ed. unfold answers. by rewrite orb_false_r. }
  pose proof (live_deliver o V1 m V2 _ L _ h HI (queue_fits o V1 m V2 _ L _ HI HT) Hm Hlag HL) as HL'.
  rewrite En'. split_and!; [done| |done|by exists o']. cbn [hosts]. intros x. destruct (decide (x = h)) as [->|Hne].
  - by rewrite lookup_insert_eq, upd_same, decide_True.
  - by rewrite lookup_insert_ne, upd_other.
Qed.

Lemma kept_step e s V L :
  request_ok e -> careful n e s = true -> describes V L s -> tasks_in R s -> kept e s.
Proof using Hn Hlid HR.
  intros He Hc HD HT. destruct e as [h t op|h t|h t|h t|i].
  - by apply (kept_acquire h t op s V L).
  - by apply (kept_poll h t s V L).
  - by apply (kept_release h t s V L).
  - done.
  - destruct (net s !! i) as [[h p|h p]|] eqn:E.
    + by apply (kept_switch i h p s V L (LNet i)).
    + by apply (kept_deliver i h p s V L).
    + apply (kept_same V L); [done|cbn; by rewrite E].
Qed.

Lemma run_describes es s V L :
  Forall request_ok es -> Forall (label_in R) es -> careful_run n lid es s = true -> describes V L s -> tasks_in R s ->
  exists s' V' L', sys_run (tofino n) false true lid es s = Ok s' /\ describes V' L' s'.
Proof using Hn Hlid HR.
  intros Hes. revert s V L. induction Hes as [|e es He _ IH]; intros s V L Hin Hc HD HT; [by exists s, V, L|].
  apply Forall_cons_1 in Hin as [Hin1 Hin]. cbn [careful_run] in Hc. apply andb_true_iff in Hc as [Hc1 Hc].
  destruct (kept_step e s V L He Hc1 HD HT) as (s1 & V1 & L1 & E & HD1). rewrite E in Hc.
  destruct (IH s1 V1 L1 Hin Hc HD1) as (s' & V' & L' & E' & HD').
  - by apply (tasks_in_step false n lid R e s s1).
  - exists s', V', L'. split; [|done]. cbn [System.sys_run]. by rewrite E.
Qed.

End rw.

(** ** Readers and writers exclude each other *)


Definition rw_labels0 : list label :=
  [LAcquire 1 1 LOCK_SHARED; LAcquire 2 1 LOCK_SHARED; LNet 0; LNet 1; LPoll 1 1; LNet 0; LNet 0; LNet 0; LPoll 2 1;
   LAcquire 3 1 LOCK_EXCL; LNet 0; LNet 0; LRelease 1 1; LRelease 2 1; LNet 0; LNet 0; LNet 0; LNet 0; LPoll 3 1].


(** ** A count that wraps around *)

(** The reader of host 1 leaves and its host frees the lock.  While the FREE is
    on its way, 256 tasks of host 2 become readers and the switch counts them
    modulo 256, so that it accepts the FREE, and then a writer. *)
Definition overtaken : list label :=
  [LAcquire 1 1 LOCK_SHARED; LNet 0; LNet 0; LPoll 1 1; LRelease 1 1] ++
  flat_map (fun k => [LAcquire 2 (Z.of_nat k) LOCK_SHARED; LNet (2 * k + 1)]) (seq 0 256) ++
  [LNet 2; LPoll 2 0; LNet 0; LAcquire 3 1 LOCK_EXCL; LNet 511; LNet 511; LPoll 3 1].

(** A reader and a writer hold the lock. *)
Definition both_hold (s : system) (k1 k2 : req) : bool :=
  match tasks s !! k1, tasks s !! k2 with Some (Held LOCK_SHARED), Some (Held LOCK_EXCL) => true | _, _ => false end.

Lemma both_hold_incompatible s k1 k2 :
  both_hold s k1 k2 = true -> holds s k1 LOCK_SHARED /\ holds s k2 LOCK_EXCL /\ ~ compatible s.
Proof.
  unfold both_hold. destruct (tasks s !! k1) as [[|[]]|] eqn:E1; try done.
  destruct (tasks s !! k2) as [[|[]]|] eqn:E2; try done. intros _. split_and!; [done..|].
  intros Hc. assert (k1 <> k2) by congruence. by destruct (Hc _ _ _ _ E1 E2).
Qed.

(** C37: the eight bits of the notification count are too few. With links in
    order, a FREE that 256 shared grants overtake is accepted as if there had
    been none: the switch frees the lock under its 256 readers and grants it to a
    writer. *)
Theorem notification_wrap_violation :
  in_order (tofino 8) false true 5 overtaken (sys_init 8 5) = true /\
  exists s, sys_run (tofino 8) false true 5 overtaken (sys_init 8 5) = Ok s /\
    holds s (2, 0) LOCK_SHARED /\ holds s (3, 1) LOCK_EXCL /\ ~ compatible s.
Proof.
  split; [vm_compute; reflexivity|].
  assert (H : match sys_run (tofino 8) false true 5 overtaken (sys_init 8 5) with
              | Ok s => both_hold s (2, 0) (3, 1) | Fault _ => false end = true) by (vm_compute; reflexivity).
  destruct (sys_run _ _ _ _ _ _) as [s|]; [|done]. exists s. split; [done|]. by apply both_hold_incompatible.
Qed.
