(* ===== verification/ReadersProgress.v ===== *)
(** * ReadersProgress: requests are kept, and a silent lock is in use

    What [Fission.requests_conserved] and [Progress.no_deadlock] say of exclusive
    requests holds for readers and writers as well, in the runs of [ReadWrite]:
    no request is lost, and when no packet is in flight a task waits only for one
    that has the lock, unless its request was suspended by a host without agency. *)

From S2P Require Import Prelude RwSpec Types Post Lock LockProofs LockApi Agent LockApiProofs Switch System Fission Progress Messages Readers ReadersLive ReadWrite.

(** ** Where requests are *)

(** The requests a packet carries: a release and the notification of a grant
    carry none, nor does a free. *)
Definition rw_carried (m : msg) : list req :=
  let p := match m with ToSwitch _ p | ToHost _ p => p end in
  if (pk_type p =? POST_LOCK_RELEASE) || ((pk_type p =? POST_LOCK_ACQUIRE) && GRANTED (pk_hdr p)) then [] else carried m.

Definition rw_places (n : Z) (s : system) (k : req) : nat :=
  (count k (concat (map rw_carried (net s))) + list_sum (map (at_host s k) (seqZ 1 n)))%nat.

Lemma carried_message lid m k :
  count k (rw_carried (msg_of lid m)) = (count k (m_reqs m) + count k (m_grants m) + count k (m_agents m))%nat.
Proof.
  destruct m as [h e k'|k'|h oe c|h k' e oe wq c|h k'|h e k'|h k'|h k'|h c|h k' e wq c|k' a|k' e oe tr wq c];
    try destruct e; unfold rw_carried; cbn -[count GRANTED]; try change (GRANTED _) with false; cbn -[count]; rewrite <- ?(surjective_pairing k'), ?count_cons, ?count_nil; lia.
Qed.

Lemma carried_messages lid V k :
  count k (concat (map rw_carried (map (msg_of lid) V))) = (occ m_reqs V k + occ m_grants V k + occ m_agents V k)%nat.
Proof.
  induction V as [|m V IH]; [done|]. cbn [map concat]. rewrite count_app, IH, carried_message, !occ_cons. lia.
Qed.

Section silent.
Context (n lid : Z) (Hn : few_hosts n) (Hlid : 0 <= lid < SWITCH_LOCK_NUM).

Abbreviation describes := (describes n lid).
Abbreviation rw_inv := (rw_inv n lid).
Abbreviation host_ok := (host_ok n).
Abbreviation obtains := (obtains false n lid).

Lemma silent_describes V L s : describes V L s -> net s = [] -> describes [] L s.
Proof using. intros HD En. pose proof (proj1 HD) as H. rewrite En in H. symmetry in H. apply map_eq_nil in H. by subst V. Qed.

(** The flag of a requester is at its own host. *)
Lemma flags_sum L k l : NoDup l ->
  list_sum (map (fun h => one (bool_decide (k.1 = h /\ l_task_granted (L h) !! k.2 = Some true))) l) =
    if decide (k.1 ∈ l) then flag L k else 0%nat.
Proof using.
  clear Hn Hlid. intros Hnd. induction Hnd as [|h l Hh _ IH]; [done|]. cbn [map]. rewrite list_sum_cons, IH. unfold flag, lflag.
  destruct (decide (k.1 = h)) as [<-|Hne].
  - rewrite decide_False, decide_True by (done || by left). rewrite Nat.add_0_r. f_equal. apply bool_decide_ext. tauto.
  - rewrite bool_decide_false by tauto. destruct (decide (k.1 ∈ l)) as [Hin|Hin].
    + by rewrite decide_True by by right.
    + rewrite decide_False; [done|]. by intros [?|?]%elem_of_cons.
Qed.

Lemma describes_places V L s k : describes V L s -> rw_places n s k = waiting s k.
Proof using Hn Hlid.
  intros (En & Hh & _ & o & HI). unfold rw_places. rewrite En, carried_messages.
  assert (Hsum : list_sum (map (at_host s k) (seqZ 1 n)) = (queued n L k + if decide (host_ok k.1) then flag L k else 0)%nat).
  { rewrite (decide_ext (host_ok k.1) (k.1 ∈ seqZ 1 n)) by (rewrite elem_of_seqZ; unfold Fission.host_ok; lia).
    rewrite <- flags_sum by apply NoDup_seqZ. unfold queued.
    assert (Hl : Forall host_ok (seqZ 1 n)) by (apply list.Forall_forall; intros x Hx%elem_of_seqZ; unfold Fission.host_ok; lia).
    induction Hl as [|h l Hok _ IH]; [done|]. cbn [map]. rewrite !list_sum_cons, IH. unfold at_host. rewrite Hh, decide_True by done.
    cbn [mkhost h_heap]. unfold at_lock, queue. lia. }
  rewrite Hsum. pose proof (ri_places _ _ _ _ _ HI k) as Hp. unfold waiting, is_waiting. unfold waits in Hp.
  case_decide as Hk; [destruct (tasks s !! k) as [[]|]; lia|].
  assert (Hf : flag L k = 0%nat); [|destruct (tasks s !! k) as [[]|]; lia].
  destruct (tasks s !! k) as [v|] eqn:Ev; [|lia]. by destruct (ri_tasks _ _ _ _ _ HI k v Ev) as [[? _] _].
Qed.

(** A grant that is in nobody's way. *)
Lemma flag_obtains V L s k : describes V L s -> host_ok k.1 -> flag L k = 1%nat -> obtains s k.
Proof using Hn Hlid.
  intros (_ & Hh & _ & o & HI) Hk Hf. pose proof (ri_places _ _ _ _ _ HI k) as Hp.
  assert (Hg : l_task_granted (L k.1) !! k.2 = Some true).
  { unfold flag, lflag in Hf. by case_bool_decide. }
  assert (Hw : exists r op, tasks s !! k = Some (Waiting r op)).
  { unfold waits in Hp. destruct (tasks s !! k) as [[r op|op]|]; [eauto|lia..]. }
  destruct Hw as (r & op & Ew). destruct (ri_tasks _ _ _ _ _ HI k _ Ew) as [_ (-> & _)].
  unfold Progress.obtains. cbn [sys_step]. rewrite Hh, decide_True by done. rewrite <- surjective_pairing, Ew.
  cbn [snd]. rewrite (poll_excl lid (L k.1) k.2 true Hg). cbn [mbind result_bind]. eexists _, op. split; [reflexivity|].
  unfold holds. cbn. apply lookup_insert_eq.
Qed.

Lemma held_obtains V L s k op : describes V L s -> tasks s !! k = Some (Held op) -> obtains s k.
Proof using Hn Hlid.
  intros (_ & Hh & _ & o & HI) E. destruct (ri_tasks _ _ _ _ _ HI k _ E) as [[Hk _] _].
  unfold Progress.obtains. cbn [sys_step]. rewrite Hh, decide_True by done. rewrite <- surjective_pairing, E. by eexists s, op.
Qed.

Lemma silent_holder o r L T : rw_inv o [] r L T -> live n [] r L -> o <> OSwitch ->
  exists k, key_ok n k /\ holder (L (lock_agent r)) k = 1%nat.
Proof using Hn.
  intros HI HL Ho. assert (Eo : o = OHost (lock_agent r)).
  { pose proof (ri_tokens _ _ _ _ _ HI) as Ht. destruct o as [|h|]; [done| |done].
    f_equal. symmetry. by apply (ri_mode _ _ _ _ _ HI). }
  pose proof (ri_reg _ _ _ _ _ HI Ho) as Hok.
  assert (Hk : exists k, key_ok n k /\ LOCK_HOLDER k.1 k.2 ∈ l_holders (L (lock_agent r))).
  { destruct (lock_rw_mode r) eqn:Erw.
    - destruct (ri_excl _ _ _ _ _ HI Ho Erw) as [_ H]. destruct (H Eo) as (t & Ht & ->).
      exists (lock_agent r, t). split; [done|]. by apply elem_of_singleton.
    - destruct (decide (l_holders (L (lock_agent r)) = ∅)) as [E|E].
      + assert (Ha : l_is_agent (L (lock_agent r)) = true) by (rewrite (ri_agent _ _ _ _ _ HI); by apply bool_decide_true).
        pose proof (lv_busy _ _ _ HL _ Ha Erw E) as H. change (notifs []) with 0%nat in H. lia.
      + apply set_choose_L in E as [x Hx]. destruct (lv_keyed _ _ _ HL _ x Hx) as (k & Hk & ->). by exists k. }
  destruct Hk as (k & Hk & Hin). exists k. split; [done|]. apply holder_iff in Hin.
  pose proof (holder_le (L (lock_agent r)) k). lia.
Qed.

Lemma silent_in_use L s k :
  describes [] L s -> waits (tasks s) k = 1%nat -> (exists k', obtains s k') \/ suspended lid s k.
Proof using Hn Hlid.
  intros HD Hw. pose proof HD as (_ & Hh & HL & o & HI). set (r := regs_at (sw s) lid) in *.
  destruct (decide (o = OSwitch)) as [->|Ho].
  - right. pose proof (ri_places _ _ _ _ _ HI k) as Hp. rewrite Hw in Hp.
    rewrite !occ_nil in Hp.
    destruct (decide (flag L k = 0%nat)) as [Hf|Hf].
    + unfold queued in Hp. destruct (sum_positive (fun h => queue (L h) k) (seqZ 1 n)) as (h & Hin & Hq); [lia|].
      assert (Hok : host_ok h) by (apply elem_of_seqZ in Hin; unfold Fission.host_ok; lia).
      exists h, (L h). rewrite Hh, decide_True by done. split_and!; [done| |by apply count_in].
      rewrite (ri_agent _ _ _ _ _ HI). by apply bool_decide_false.
    + exfalso. unfold waits in Hw. destruct (tasks s !! k) as [v|] eqn:Ev; [|done].
      destruct (ri_live _ _ _ _ _ HI k v Ev) as [Ho _]; [lia|done].
  - left. destruct (silent_holder o r L (tasks s) HI HL Ho) as (k' & Hk' & Hone). exists k'.
    pose proof (ri_holders _ _ _ _ _ HI k' Hk') as E. rewrite !occ_nil, Hone in E.
    destruct (decide (flag L k' = 1%nat)) as [Hf|Hf]; [by apply (flag_obtains [] L); [|apply Hk'|]|].
    assert (Hheld : exists op, tasks s !! k' = Some (Held op)).
    { unfold helds in E. destruct (tasks s !! k') as [[?|op]|]; [lia|by exists op|lia]. }
    destruct Hheld as [op Eop]. by apply (held_obtains [] L s k' op).
Qed.
End silent.



(** Two readers hold the lock and a writer waits in the agent's queue. *)
Definition rw_silent0 : list label :=
  [LAcquire 1 1 LOCK_SHARED; LNet 0; LNet 0; LPoll 1 1; LAcquire 2 1 LOCK_SHARED; LNet 0; LNet 0; LNet 0; LPoll 2 1;
   LAcquire 3 1 LOCK_EXCL; LNet 0; LNet 0].


