(* ===== verification/Bmv2.v ===== *)
(** * Bmv2: the BMv2 port of the network module

    Models lib/bmv2: bmv2_net.cc replaces lib/net.cc when the library is built
    for BMv2 (frames are injected with libpcap and received by rereading the
    capture files the switch writes), bmv2_mbuf.cc its buffers, bmv2_conf.c the
    configuration, fisslock_host_api.cc the functions the JNI layer calls.

    A frame is a list of bytes.  A capture file is the list of its frames: its
    size in bytes is a parameter, since the format is libpcap's, and all the
    module relies on is that appending a frame makes the file larger.  Opening
    an interface and injecting are taken to succeed. *)

From stdpp Require Import strings.
From S2P Require Import Prelude Types Post Lock LockApi.

#[local] Open Scope prog_scope.

Abbreviation frame := (list Z).

(** ** Dispatchers *)

Definition dispatcher := list Z -> H Z.
Abbreviation dispatchers := (gmap Z dispatcher).

Definition register_packet_dispatcher (t : Z) (f : dispatcher) (ds : dispatchers) : dispatchers :=
  if (0 <=? t) && (t <? NUM_POST_TYPES) then <[t := f]> ds else ds.

Definition packet_dispatch (ds : dispatchers) (t : Z) (buf : list Z) : H Z :=
  if (t <? 0) || (NUM_POST_TYPES <=? t) then ret 0
  else match ds !! t with None => ret 0 | Some d => d buf end.

(** The dispatcher [lock_setup] registers reads the header at the start of the
    buffer and the wait queue behind it; what it leaves in the buffer goes with
    the buffer.  A packet that claims more wait-queue entries than it has faults
    whatever its type. *)
Definition lock_dispatcher (cfg : config) : dispatcher := fun buf =>
  match decode_post buf with
  | None => fail FaultBounds
  | Some p => r <- lock_packet_dispatch cfg p ;; ret r.2
  end.

Definition lock_dispatchers (cfg : config) : dispatchers :=
  foldr (fun t => register_packet_dispatcher t (lock_dispatcher cfg)) ∅
    [POST_LOCK_FREE; POST_LOCK_TRANSFER; POST_LOCK_RELEASE; POST_LOCK_GRANT_WO_AGENT;
     POST_LOCK_GRANT_WITH_AGENT; POST_LOCK_ACQUIRE].

(** ** Checksums *)

(** [while (sum >> 16) sum = (sum & 0xffff) + (sum >> 16)], at most n rounds. *)
Fixpoint checksum_fold (n : nat) (sum : Z) : Z :=
  match n with
  | O => sum
  | S n' =>
      if Z.shiftr sum 16 =? 0 then sum
      else checksum_fold n' (u32 (Z.land sum 0xffff + Z.shiftr sum 16))
  end.

(** Three rounds fold 32 bits. *)
Abbreviation fold := (checksum_fold 3).

(** The loops over the 16-bit words of a buffer; an odd last byte counts as the
    upper half of a word. *)
Fixpoint sum_words (sum : Z) (bs : list Z) : Z :=
  match bs with
  | [] => sum
  | [a] => u32 (sum + Z.shiftl a 8)
  | a :: b :: bs' => sum_words (u32 (sum + Z.lor (Z.shiftl a 8) b)) bs'
  end.

Definition hi (v : Z) : Z := u8 (Z.shiftr v 8).
Definition lo (v : Z) : Z := Z.land v 0xff.

Definition eth_size : nat := 14.
Definition udp_off : nat := 34.

Definition fix_ipv4_udp_checksums (post_size : nat) (f : frame) : frame :=
  let udp_len := (8 + post_size)%nat in
  let f := <[(eth_size + 11)%nat := 0]> (<[(eth_size + 10)%nat := 0]> f) in
  let ip_csum := u16 (Z.lnot (fold (sum_words 0 (slice eth_size 20 f)))) in
  let f := <[(eth_size + 11)%nat := lo ip_csum]> (<[(eth_size + 10)%nat := hi ip_csum]> f) in
  let f := <[(udp_off + 7)%nat := 0]> (<[(udp_off + 6)%nat := 0]> f) in
  let sum := sum_words 0 (slice (eth_size + 12) 8 f) in
  let sum := u32 (u32 (sum + 17) + u32 (Z.of_nat udp_len)) in
  let udp_csum := u16 (Z.lnot (fold (sum_words sum (slice udp_off udp_len f)))) in
  let udp_csum := if udp_csum =? 0 then 0xffff else udp_csum in
  <[(udp_off + 7)%nat := lo udp_csum]> (<[(udp_off + 6)%nat := hi udp_csum]> f).

(** ** Sending *)

Definition SERVER_POST_TYPE : Z := 20001.
Definition CLIENT_POST_TYPE : Z := 20002.

(** [init_header_template]: Ethernet, IPv4 from 10.0.0.1 to 10.0.0.2, UDP from
    port 30000 to the server port; the lengths and checksums are zero. *)
Definition g_eth_template : frame :=
  [0; 0; 0; 0; 1; 0; 0; 0; 0; 0; 0; 1; 8; 0;
   0x45; 0; 0; 0; 0; 0; 0; 0; 0; 17; 0; 0; 10; 0; 0; 1; 10; 0; 0; 2;
   0x75; 0x30; hi SERVER_POST_TYPE; lo SERVER_POST_TYPE; 0; 0; 0; 0].

Definition hdr_size : nat := 42.

(** [Bmv2PacketBuf]: 2048 zeroed bytes, the packet behind the header. *)
Definition sendbuf (p : packet) : list Z :=
  encode_post p ++ repeat 0 (2048 - hdr_size - length (encode_post p)).

Definition build_frame_from_post (post : list Z) (post_size : nat) : frame :=
  let out := g_eth_template ++ take post_size post in
  let ip_len := u16 (Z.of_nat (20 + 8 + post_size)) in
  let out := <[17%nat := lo ip_len]> (<[16%nat := hi ip_len]> out) in
  let udp_len := u16 (Z.of_nat (8 + post_size)) in
  let out := <[39%nat := lo udp_len]> (<[38%nat := hi udp_len]> out) in
  fix_ipv4_udp_checksums post_size out.

(** The frame on the stack has 512 bytes. *)
Definition net_send (s : sent) : result frame :=
  let size := Z.to_nat (s_size s) in
  if (512 <? hdr_size + size)%nat then Fault FaultBounds
  else Ok (build_frame_from_post (sendbuf (s_pkt s)) size).

Fixpoint net_send_batch (ss : list sent) : result (list frame) :=
  match ss with
  | [] => Ok []
  | s :: ss' => f ← net_send s; fs ← net_send_batch ss'; Ok (f :: fs)
  end.

(** ** Receiving *)

Definition dispatch_udp_payload (ds : dispatchers) (payload : list Z) : H unit :=
  match payload with
  | [] => ret tt
  | b :: _ =>
      let t := Z.land b 0xff in
      if (t <=? 0) || (NUM_POST_TYPES <=? t) then ret tt
      else packet_dispatch ds t payload ;; ret tt
  end.

(** Reading a byte of a captured frame. *)
Definition byte_at (f : frame) (i : nat) : result Z :=
  match f !! i with Some b => Ok b | None => Fault FaultBounds end.

(** The tests of [scan_pcap_file] on one frame: the UDP payload of a frame to
    dispatch. *)
Definition udp_payload (f : frame) : result (option (list Z)) :=
  if (length f <? 14 + 20 + 8 + 1)%nat then Ok None
  else
    ip0 ← byte_at f 14;
    if negb (Z.shiftr ip0 4 =? 4) then Ok None
    else
      let ihl := Z.to_nat (Z.land ip0 0xf * 4) in
      if (length f <? 14 + ihl + 8 + 1)%nat then Ok None
      else
        b2 ← byte_at f (14 + ihl + 2);
        b3 ← byte_at f (14 + ihl + 3);
        let dport := u16 (Z.lor (Z.shiftl b2 8) b3) in
        if negb (dport =? SERVER_POST_TYPE) && negb (dport =? CLIENT_POST_TYPE) then Ok None
        else Ok (Some (drop (14 + ihl + 8) f)).

(** The loop over a capture file, from frame number [index]; the frames before
    [skip] were dispatched by an earlier scan.  Returns the number of frames. *)
Fixpoint scan_frames (ds : dispatchers) (skip index : Z) (fs : list frame) : H Z :=
  match fs with
  | [] => ret index
  | f :: fs' =>
      if index <? skip then scan_frames ds skip (index + 1) fs'
      else
        match udp_payload f with
        | Fault e => fail e
        | Ok None => scan_frames ds skip (index + 1) fs'
        | Ok (Some payload) =>
            dispatch_udp_payload ds payload ;;
            scan_frames ds skip (index + 1) fs'
        end
  end.

(** The capture files by path; a path without a file cannot be opened. *)
Abbreviation captures := (gmap string (list frame)).

Record net_state := NetState {
  g_pcap_dir : string;
  g_pcap_bytes_before : Z;
  g_pcap_packets_done : gmap string Z;
}.

Definition names : list string :=
  ["veth-switch_out.pcap"; "veth-h1_out.pcap"; "veth-h2_out.pcap"]%string.

Definition path (dir name : string) : string := (dir ++ "/" ++ name)%string.

Definition scan_pcap_file (ds : dispatchers) (fs : captures) (key : string)
    (done : gmap string Z) : H (gmap string Z) :=
  match fs !! key with
  | None => ret done
  | Some frames =>
      index <- scan_frames ds (default 0 (done !! key)) 0 frames ;;
      ret (<[key := index]> done)
  end.

Fixpoint scan_all (ds : dispatchers) (fs : captures) (dir : string) (ns : list string)
    (done : gmap string Z) : H (gmap string Z) :=
  match ns with
  | [] => ret done
  | n :: ns' => done <- scan_pcap_file ds fs (path dir n) done ;; scan_all ds fs dir ns' done
  end.

Section polling.
(** The size of a capture file. *)
Context (pcap_size : list frame -> Z).

Definition total_pcap_bytes (fs : captures) (dir : string) : Z :=
  foldr (fun n sum => match fs !! path dir n with Some f => pcap_size f + sum | None => sum end) 0 names.

Definition bmv2_net_configure (fs : captures) (pcap_dir : string) (s : net_state) : net_state :=
  let dir := if bool_decide (pcap_dir = ""%string) then g_pcap_dir s else pcap_dir in
  NetState dir (total_pcap_bytes fs dir) ∅.

Definition net_poll_packets (ds : dispatchers) (fs : captures) (s : net_state) : H (net_state * Z) :=
  if bool_decide (g_pcap_dir s = ""%string) then ret (s, 0)
  else
    let now := total_pcap_bytes fs (g_pcap_dir s) in
    if now <=? g_pcap_bytes_before s then ret (s, 0)
    else
      done <- scan_all ds fs (g_pcap_dir s) names (g_pcap_packets_done s) ;;
      ret (NetState (g_pcap_dir s) now done, 1).
End polling.

(** ** The host API *)

Definition bmv2_env_setup (host_id : Z) : config :=
  Config (if (0 <? host_id) && (host_id <? 256) then host_id else 1) None None true false.

Definition fl_bmv2_init (pcap_size : list frame -> Z) (fs : captures) (host_id : Z) (pcap_dir : string) :
    config * net_state * host :=
  (bmv2_env_setup host_id, bmv2_net_configure pcap_size fs pcap_dir (NetState "" 0 ∅),
   lock_setup FLAG_ENB_LOCAL_GRANT).

Definition fl_bmv2_register_lock (lid : Z) : H Z := lock_local_init lid ;; ret 0.

(** The polls until the deadline; between them the polling thread runs. *)
Fixpoint wait_granted (cfg : config) (lid task : Z) (req : lock_req) (polls : list (H unit)) : H Z :=
  match polls with
  | [] => lock_release cfg lid task LOCK_EXCL ;; ret 0
  | poll :: polls' =>
      g <- lock_req_granted req ;;
      if negb (g =? 0) then ret 1
      else poll ;; wait_granted cfg lid task req polls'
  end.

Definition fl_bmv2_try_acquire_excl (cfg : config) (lid task : Z) (polls : list (H unit)) : H Z :=
  req <- lock_acquire_async cfg lid task LOCK_EXCL ;;
  if bool_decide (req = ReqNull) then ret 1
  else wait_granted cfg lid task req polls.

Definition fl_bmv2_release_excl (cfg : config) (lid task : Z) : H Z :=
  r <- lock_release cfg lid task LOCK_EXCL ;; ret (if r =? 0 then 0 else -1).

(** ** Checksum arithmetic *)

Definition is_byte (b : Z) : Prop := 0 <= b < 256.

Lemma fold_round s : 0 <= s -> Z.land s 0xffff + Z.shiftr s 16 = s - 65535 * (s / 65536).
Proof.
  intros Hs. change 0xffff with (Z.ones 16) at 1. rewrite Z.land_ones, Z.shiftr_div_pow2 by lia.
  change (2 ^ 16) with 65536. pose proof (Z.div_mod s 65536). lia.
Qed.

Lemma shiftr16_eqb s : 0 <= s -> (Z.shiftr s 16 =? 0) = (s <? 65536).
Proof.
  intros Hs. rewrite Z.shiftr_div_pow2 by lia. change (2 ^ 16) with 65536.
  destruct (Z.ltb_spec s 65536); [rewrite Z.div_small by lia; done|]. apply Z.eqb_neq.
  pose proof (Z.div_le_lower_bound s 65536 1 ltac:(lia)). lia.
Qed.

(** Folding keeps the residue modulo 65535 and reaches 16 bits after at most two
    rounds: the loop stops, and more rounds change nothing. *)
Lemma checksum_fold_spec n s :
  (2 <= n)%nat -> 0 <= s < 2 ^ 32 ->
  0 <= checksum_fold n s < 65536 /\ checksum_fold n s mod 65535 = s mod 65535 /\
  (checksum_fold n s = 0 -> s = 0).
Proof.
  intros Hn Hs. destruct n as [|[|n]]; [lia|lia|].
  assert (Hdone : forall k t, 0 <= t < 65536 -> checksum_fold k t = t).
  { intros [|k] t Ht; [done|]. cbn [checksum_fold]. rewrite shiftr16_eqb by lia.
    by rewrite (proj2 (Z.ltb_lt _ _)) by lia. }
  assert (Hround : forall t, 65536 <= t < 2 ^ 32 -> t mod 65535 = (t - 65535 * (t / 65536)) mod 65535 /\
    0 < t - 65535 * (t / 65536) <= 131070 /\ (t <= 131070 -> t - 65535 * (t / 65536) < 65536)).
  { intros t Ht. split; [|pose proof (Z.div_mod t 65536); pose proof (Z.mod_pos_bound t 65536); lia].
    replace (t - 65535 * (t / 65536)) with (t + - (t / 65536) * 65535) by lia. by rewrite Z.mod_add by lia. }
  destruct (Z.lt_ge_cases s 65536) as [H1|H1]; [rewrite Hdone by lia; auto with lia|].
  cbn [checksum_fold]. rewrite shiftr16_eqb, (proj2 (Z.ltb_ge s 65536)), fold_round by lia. cbv iota.
  destruct (Hround s) as (E1 & B1 & _); [lia|]. rewrite (uw_small 32) by (unfold in_uw; lia).
  set (t := s - 65535 * (s / 65536)) in *. rewrite shiftr16_eqb by lia.
  destruct (Z.ltb_spec t 65536); [rewrite E1; lia|]. rewrite fold_round by lia.
  destruct (Hround t) as (E2 & B2 & B3); [lia|]. rewrite (uw_small 32) by (unfold in_uw; lia).
  rewrite Hdone by lia. rewrite E1, E2. lia.
Qed.

(** The sum of the words without the 32-bit accumulator. *)
Fixpoint wsum (bs : list Z) : Z :=
  match bs with
  | [] => 0
  | [a] => 256 * a
  | a :: b :: bs' => 256 * a + b + wsum bs'
  end.

(** Induction over the words of a buffer. *)
Lemma words_ind (P : list Z -> Prop) :
  P [] -> (forall a, P [a]) -> (forall a b l, P l -> P (a :: b :: l)) -> forall l, P l.
Proof.
  intros H0 H1 H2 l. assert (H : P l /\ forall a, P (a :: l)); [|apply H].
  induction l as [|b l [IH1 IH2]]; auto.
Qed.

Lemma wsum_bound l : Forall is_byte l -> 0 <= wsum l <= 65535 * Z.of_nat (length l).
Proof.
  induction l as [|a|a b l IH] using words_ind; intros Hl; [simpl; lia| |].
  - apply Forall_cons_1 in Hl as [Ha _]. unfold is_byte in Ha. cbn [wsum length]. lia.
  - apply Forall_cons_1 in Hl as [Ha Hl]. apply Forall_cons_1 in Hl as [Hb Hl]. unfold is_byte in *.
    cbn [wsum length]. specialize (IH Hl). rewrite !Nat2Z.inj_succ. lia.
Qed.

Lemma lor_word a b : is_byte a -> is_byte b -> Z.lor (Z.shiftl a 8) b = 256 * a + b.
Proof.
  unfold is_byte. intros Ha Hb. rewrite Z.shiftl_mul_pow2 by lia. pose proof (Z.add_lor_land (a * 2 ^ 8) b) as Hadd.
  assert (E : Z.land (a * 2 ^ 8) b = 0); [|lia].
  apply Z.bits_inj'. intros i Hi. rewrite Z.land_spec, Z.bits_0.
  destruct (Z.lt_ge_cases i 8); [by rewrite Z.mul_pow2_bits_low by lia|].
  rewrite (Z.bits_above_log2 b i); [apply andb_false_r|lia|].
  destruct (Z.eq_dec b 0) as [->|]; [simpl; lia|]. apply Z.log2_lt_pow2; [lia|].
  apply Z.lt_le_trans with (2 ^ 8); [lia|]. apply Z.pow_le_mono_r; lia.
Qed.

(** The accumulator does not wrap. *)
Lemma sum_words_eq l s :
  Forall is_byte l -> 0 <= s -> s + 65535 * Z.of_nat (length l) < 2 ^ 32 -> sum_words s l = s + wsum l.
Proof.
  revert s. induction l as [|a|a b l IH] using words_ind; intros s Hl Hs Hb; [simpl; lia| |].
  - apply Forall_cons_1 in Hl as [Ha _]. unfold is_byte in Ha. cbn [sum_words wsum length] in *.
    rewrite Z.shiftl_mul_pow2 by lia. rewrite uw_small; [lia|]. unfold in_uw. lia.
  - apply Forall_cons_1 in Hl as [Ha Hl]. apply Forall_cons_1 in Hl as [Hb' Hl].
    cbn [sum_words wsum length] in *. rewrite lor_word by done. unfold is_byte in *.
    rewrite (uw_small 32) by (unfold in_uw; lia). rewrite IH; [lia|done|lia|lia].
Qed.

Lemma hi_lo v : 0 <= v < 65536 -> is_byte (hi v) /\ is_byte (lo v) /\ 256 * hi v + lo v = v.
Proof.
  intros Hv. unfold hi, lo, is_byte. change 0xff with (Z.ones 8). rewrite Z.land_ones, Z.shiftr_div_pow2 by lia.
  change (2 ^ 8) with 256. pose proof (Z.div_mod v 256). pose proof (Z.mod_pos_bound v 256).
  pose proof (Z.div_lt_upper_bound v 256 256). pose proof (Z.div_pos v 256).
  rewrite uw_small by (unfold in_uw; lia). lia.
Qed.

Definition csum (s : Z) : Z := u16 (Z.lnot (fold s)).

Lemma csum_eq s : 0 <= s < 2 ^ 32 -> csum s = 65535 - fold s.
Proof.
  intros Hs. destruct (checksum_fold_spec 3 s) as (Hb & _); [lia|done|]. unfold csum. set (x := fold s) in *.
  unfold uw. replace (Z.lnot x) with (65535 - x + (-1) * 2 ^ 16) by (unfold Z.lnot; lia).
  rewrite Z.mod_add by lia. apply Z.mod_small. lia.
Qed.

(** A buffer whose checksum field held zero verifies once the checksum, or its
    other form when it is zero, is stored. *)
Lemma csum_verifies s c :
  0 <= s -> s + 65535 < 2 ^ 32 -> c = csum s \/ csum s = 0 /\ c = 65535 -> fold (s + c) = 0xffff.
Proof.
  intros Hs Hb Hc. rewrite csum_eq in Hc by lia.
  destruct (checksum_fold_spec 3 s) as (B1 & E1 & Z1); [lia|lia|].
  destruct (checksum_fold_spec 3 (s + c)) as (B2 & E2 & Z2); [lia|lia|].
  assert (E : (s + c) mod 65535 = 0).
  { rewrite <- Z.add_mod_idemp_l, <- E1, Z.add_mod_idemp_l by lia. destruct Hc as [->|[Hf ->]].
    - by replace (fold s + (65535 - fold s)) with 65535 by lia.
    - by replace (fold s + 65535) with (2 * 65535) by lia. }
  rewrite E in E2. apply Z.mod_divide in E2 as [q Eq]; [|lia].
  assert (fold (s + c) <> 0); [|lia]. intros H%Z2. destruct (Z.eq_dec s 0) as [->|]; [|lia].
  change (fold 0) with 0 in Hc. lia.
Qed.

(** ** Frames that leave the host *)

Definition ip_header (a b c d : Z) : list Z :=
  [0x45; 0; a; b; 0; 0; 0; 0; 0; 17; c; d; 10; 0; 0; 1; 10; 0; 0; 2].

Definition udp_header (a b c d : Z) : list Z :=
  [0x75; 0x30; hi SERVER_POST_TYPE; lo SERVER_POST_TYPE; a; b; c; d].

Definition eth_header : list Z := take 14 g_eth_template.

(** The sum over the pseudo header: the addresses, the protocol and the
    length. *)
Definition pseudo_sum (udp_len : nat) : Z :=
  u32 (u32 (sum_words 0 [10; 0; 0; 1; 10; 0; 0; 2] + 17) + u32 (Z.of_nat udp_len)).

Definition udp_checksum (s : Z) : Z := if csum s =? 0 then 0xffff else csum s.

(** The frame, header by header. *)
Definition framed (L U c u : Z) (P : list Z) : frame :=
  eth_header ++ ip_header (hi L) (lo L) (hi c) (lo c) ++ udp_header (hi U) (lo U) (hi u) (lo u) ++ P.

Lemma framed_ip L U c u c' P :
  <[(eth_size + 11)%nat := lo c']> (<[(eth_size + 10)%nat := hi c']> (framed L U c u P)) = framed L U c' u P.
Proof. reflexivity. Qed.

Lemma framed_udp L U c u u' P :
  <[(udp_off + 7)%nat := lo u']> (<[(udp_off + 6)%nat := hi u']> (framed L U c u P)) = framed L U c u' P.
Proof. reflexivity. Qed.

Lemma framed_slice_ip L U c u P : slice eth_size 20 (framed L U c u P) = ip_header (hi L) (lo L) (hi c) (lo c).
Proof. reflexivity. Qed.

Lemma framed_slice_addrs L U c u P : slice (eth_size + 12) 8 (framed L U c u P) = [10; 0; 0; 1; 10; 0; 0; 2].
Proof. reflexivity. Qed.

Lemma framed_slice_udp L U c u P n :
  take n P = P -> slice udp_off (8 + n) (framed L U c u P) = udp_header (hi U) (lo U) (hi u) (lo u) ++ P.
Proof.
  intros E. transitivity (udp_header (hi U) (lo U) (hi u) (lo u) ++ take n P); [reflexivity|by rewrite E].
Qed.

Lemma fix_framed L U c u P n :
  take n P = P ->
  fix_ipv4_udp_checksums n (framed L U c u P) =
    framed L U (csum (sum_words 0 (ip_header (hi L) (lo L) 0 0)))
      (udp_checksum (sum_words (pseudo_sum (8 + n)) (udp_header (hi U) (lo U) 0 0 ++ P))) P.
Proof.
  intros E. unfold fix_ipv4_udp_checksums.
  assert (E0 : forall c u, <[(eth_size + 11)%nat := 0]> (<[(eth_size + 10)%nat := 0]> (framed L U c u P)) =
    framed L U 0 u P) by reflexivity.
  assert (E1 : forall c u, <[(udp_off + 7)%nat := 0]> (<[(udp_off + 6)%nat := 0]> (framed L U c u P)) =
    framed L U c 0 P) by reflexivity.
  rewrite E0, framed_ip, framed_slice_ip, E1, framed_slice_addrs, framed_udp, (framed_slice_udp _ _ _ _ _ _ E).
  change (hi 0) with 0. change (lo 0) with 0. unfold udp_checksum, csum, pseudo_sum. done.
Qed.

Lemma build_frame_eq post size :
  let L := u16 (Z.of_nat (28 + size)) in
  let U := u16 (Z.of_nat (8 + size)) in
  build_frame_from_post post size =
    framed L U (csum (sum_words 0 (ip_header (hi L) (lo L) 0 0)))
      (udp_checksum (sum_words (pseudo_sum (8 + size)) (udp_header (hi U) (lo U) 0 0 ++ take size post)))
      (take size post).
Proof.
  cbv zeta. unfold build_frame_from_post. rewrite <- (fix_framed _ _ 0 0).
  - by f_equal.
  - rewrite take_take. f_equal. lia.
Qed.

Lemma framed_payload L U c u P : drop hdr_size (framed L U c u P) = P.
Proof. reflexivity. Qed.

(** The checks of a receiver. *)
Definition ip_verifies (f : frame) : Prop := fold (sum_words 0 (slice eth_size 20 f)) = 0xffff.

Definition udp_verifies (f : frame) : Prop :=
  let udp := drop udp_off f in
  fold (sum_words (sum_words 0 (slice (eth_size + 12) 8 f) + 17 + Z.of_nat (length udp)) udp) = 0xffff.

(** A 16-bit field in network order. *)
Definition word_at (f : frame) (i : nat) : Z := wsum (slice i 2 f).

Lemma wsum_ip a b c d : wsum (ip_header a b c d) = wsum (ip_header a b 0 0) + (256 * c + d).
Proof. cbn [wsum ip_header]. lia. Qed.

Lemma wsum_udp a b c d P :
  wsum (udp_header a b c d ++ P) = wsum (udp_header a b 0 0 ++ P) + (256 * c + d).
Proof. cbn [wsum udp_header app]. lia. Qed.

Lemma ip_header_bytes a b c d :
  is_byte a -> is_byte b -> is_byte c -> is_byte d -> Forall is_byte (ip_header a b c d).
Proof. unfold is_byte. intros. repeat (apply Forall_cons_2; [lia|]). by apply Forall_nil_2. Qed.

Lemma udp_header_bytes a b c d P :
  is_byte a -> is_byte b -> is_byte c -> is_byte d -> Forall is_byte P -> Forall is_byte (udp_header a b c d ++ P).
Proof.
  intros. repeat (apply Forall_cons_2; [by (done || by (vm_compute; split))|]). done.
Qed.

(** Storing a checksum, high byte first, makes a buffer verify. *)
Lemma stored_verifies l s c B S :
  0 <= s -> Forall is_byte l -> s + 65535 * Z.of_nat (length l) < 2 ^ 32 - 65536 ->
  wsum l = B + (256 * hi c + lo c) -> Forall is_byte S -> wsum S = B -> length S = length l ->
  c = csum (sum_words s S) \/ csum (sum_words s S) = 0 /\ c = 65535 -> fold (sum_words s l) = 0xffff.
Proof.
  intros Hs Hl Hlen Hw HS EB EL Hc.
  pose proof (wsum_bound S HS) as Hb. rewrite EL, EB in Hb.
  rewrite sum_words_eq in Hc by (done || (rewrite EL; lia)). rewrite EB in Hc.
  assert (Hr : 0 <= c < 65536).
  { destruct Hc as [-> | [_ ->]]; [|lia]. rewrite csum_eq by lia.
    destruct (checksum_fold_spec 3 (s + B)) as (? & _); lia. }
  rewrite sum_words_eq by (done || lia). rewrite Hw, (proj2 (proj2 (hi_lo c Hr))).
  replace (s + (B + c)) with (s + B + c) by lia. apply csum_verifies; [lia|lia|done].
Qed.

Lemma csum_range s : 0 <= s < 2 ^ 32 -> 0 <= csum s < 65536.
Proof. intros Hs. rewrite csum_eq by done. destruct (checksum_fold_spec 3 s) as (? & _); lia. Qed.

Lemma framed_verifies L U P :
  0 <= L < 65536 -> 0 <= U < 65536 -> Forall is_byte P -> (length P <= 2000)%nat ->
  let f := framed L U (csum (sum_words 0 (ip_header (hi L) (lo L) 0 0)))
      (udp_checksum (sum_words (pseudo_sum (8 + length P)) (udp_header (hi U) (lo U) 0 0 ++ P))) P in
  ip_verifies f /\ udp_verifies f /\ word_at f 40 <> 0.
Proof.
  intros HL HU HP Hn. cbv zeta.
  destruct (hi_lo L HL) as (HL1 & HL2 & _). destruct (hi_lo U HU) as (HU1 & HU2 & _).
  assert (H0 : is_byte 0) by (unfold is_byte; lia).
  pose proof (ip_header_bytes _ _ _ _ HL1 HL2 H0 H0) as Hi.
  pose proof (udp_header_bytes _ _ _ _ P HU1 HU2 H0 H0 HP) as Hu.
  set (Si := ip_header (hi L) (lo L) 0 0) in *. set (Su := udp_header (hi U) (lo U) 0 0 ++ P) in *.
  set (ps := pseudo_sum (8 + length P)).
  assert (Eps : ps = 5123 + 17 + Z.of_nat (8 + length P)).
  { unfold ps, pseudo_sum. change (sum_words 0 _) with 5123. rewrite (uw_small 32 (Z.of_nat _)) by (unfold in_uw; lia).
    change (u32 (5123 + 17)) with 5140. rewrite uw_small; unfold in_uw; lia. }
  assert (Bi : 0 <= sum_words 0 Si < 2 ^ 32).
  { rewrite sum_words_eq by (done || (simpl; lia)). pose proof (wsum_bound Si Hi). simpl in *. lia. }
  assert (Bu : 0 <= sum_words ps Su < 2 ^ 32).
  { assert (length Su = 8 + length P)%nat as El by (unfold Su; by rewrite length_app).
    pose proof (wsum_bound Su Hu). rewrite sum_words_eq by (done || lia). lia. }
  set (c := csum (sum_words 0 Si)). set (u := udp_checksum (sum_words ps Su)).
  assert (Hc : 0 <= c < 65536) by (by apply csum_range).
  assert (Hu' : 0 < u < 65536).
  { pose proof (csum_range _ Bu). unfold u, udp_checksum. destruct (Z.eqb_spec (csum (sum_words ps Su)) 0); lia. }
  destruct (hi_lo c Hc) as (Hc1 & Hc2 & _). destruct (hi_lo u) as (Hu1 & Hu2 & Eu); [lia|]. split_and!.
  - unfold ip_verifies. rewrite framed_slice_ip.
    apply (stored_verifies _ 0 c (wsum Si) Si); try done; [by apply ip_header_bytes|apply wsum_ip|by left].
  - unfold udp_verifies. rewrite framed_slice_addrs. change (sum_words 0 [10; 0; 0; 1; 10; 0; 0; 2]) with 5123.
    change (drop udp_off (framed L U c u P)) with (udp_header (hi U) (lo U) (hi u) (lo u) ++ P).
    rewrite length_app. change (length (udp_header _ _ _ _)) with 8%nat. rewrite <- Eps.
    apply (stored_verifies _ ps u (wsum Su) Su); try done.
    + lia.
    + by apply udp_header_bytes.
    + rewrite length_app. change (length (udp_header _ _ _ _)) with 8%nat. lia.
    + apply wsum_udp.
    + unfold u, udp_checksum. destruct (Z.eqb_spec (csum (sum_words ps Su)) 0); [by right|by left].
  - change (word_at (framed L U c u P) 40) with (256 * hi u + lo u + 0). lia.
Qed.

Lemma encode_post_bytes p : Forall is_byte (pk_extra p) -> Forall is_byte (encode_post p).
Proof.
  intros He. unfold encode_post, encode_hdr. rewrite !Forall_app. split_and!; try apply le_bytes_range; [|done].
  induction (pk_wq p) as [|w ws IH]; [by apply Forall_nil_2|].
  cbn [map concat]. apply Forall_app. split; [apply le_bytes_range|done].
Qed.

Lemma sendbuf_post p : take (length (encode_post p)) (sendbuf p) = encode_post p.
Proof. unfold sendbuf. by rewrite take_app_length. Qed.

(** A send whose size is that of its packet. *)
Definition sized (s : sent) : Prop := s_size s = Z.of_nat (length (encode_post (s_pkt s))).

Lemma net_send_frame s f :
  sized s -> net_send s = Ok f ->
  let n := length (encode_post (s_pkt s)) in
  (n <= 470)%nat /\
  f = framed (Z.of_nat (28 + n)) (Z.of_nat (8 + n))
        (csum (sum_words 0 (ip_header (hi (Z.of_nat (28 + n))) (lo (Z.of_nat (28 + n))) 0 0)))
        (udp_checksum (sum_words (pseudo_sum (8 + n))
           (udp_header (hi (Z.of_nat (8 + n))) (lo (Z.of_nat (8 + n))) 0 0 ++ encode_post (s_pkt s))))
        (encode_post (s_pkt s)).
Proof.
  unfold sized, net_send. intros ->. rewrite Nat2Z.id. cbv zeta. set (n := length (encode_post (s_pkt s))).
  destruct (Nat.ltb_spec 512 (hdr_size + n)); [done|]. intros [= <-]. unfold hdr_size in *.
  split; [lia|]. rewrite build_frame_eq. unfold n. rewrite sendbuf_post. fold n.
  rewrite !(uw_small 16) by (unfold in_uw; lia). done.
Qed.

(** C25: frames the host injects are well formed. Whatever lock packet is sent,
    when [net_send] does not overrun its 512-byte frame the frame is the packet
    behind headers whose IP and UDP lengths are the packet's, both checksums
    verify at a receiver that sums in 16-bit ones' complement, and the UDP
    checksum is not the zero that means absent. *)
Theorem injected_frame_valid s f :
  sized s -> Forall is_byte (pk_extra (s_pkt s)) -> net_send s = Ok f ->
  let n := Z.of_nat (length (encode_post (s_pkt s))) in
  Z.of_nat (length f) = 42 + n /\ drop hdr_size f = encode_post (s_pkt s) /\
  word_at f 16 = 28 + n /\ word_at f 38 = 8 + n /\ ip_verifies f /\ udp_verifies f /\ word_at f 40 <> 0.
Proof.
  intros Hs He Hf. destruct (net_send_frame s f Hs Hf) as (Hn & Ef). pose proof (encode_post_bytes _ He) as Hb.
  revert Hn Ef Hb. generalize (encode_post (s_pkt s)) as P. intros P. cbv zeta. intros Hn Ef Hb.
  destruct (framed_verifies (Z.of_nat (28 + length P)) (Z.of_nat (8 + length P)) P) as (V1 & V2 & V3);
    [lia|lia|done|lia|]. rewrite <- Ef in V1, V2, V3.
  destruct (hi_lo (Z.of_nat (28 + length P))) as (_ & _ & EL); [lia|].
  destruct (hi_lo (Z.of_nat (8 + length P))) as (_ & _ & EU); [lia|]. split_and!; try done; rewrite Ef.
  - unfold framed. rewrite !length_app. change (length eth_header) with 14%nat.
    change (length (ip_header _ _ _ _)) with 20%nat. change (length (udp_header _ _ _ _)) with 8%nat. lia.
  - apply framed_payload.
  - transitivity (256 * hi (Z.of_nat (28 + length P)) + lo (Z.of_nat (28 + length P)) + 0); [reflexivity|lia].
  - transitivity (256 * hi (Z.of_nat (8 + length P)) + lo (Z.of_nat (8 + length P)) + 0); [reflexivity|lia].
Qed.

Definition sent0 : sent := send_post_transfer None 1 LOCK_EXCL 700 2 40000 [mk_wqe LOCK_SHARED 9 2] 3 LOCK_SHARED.

Lemma injected_frame_valid_witness :
  let f := build_frame_from_post (sendbuf (s_pkt sent0)) 22 in
  net_send sent0 = Ok f /\
  Z.of_nat (length f) = 42 + 22 /\ drop hdr_size f = encode_post (s_pkt sent0) /\
  word_at f 16 = 28 + 22 /\ word_at f 38 = 8 + 22 /\ ip_verifies f /\ udp_verifies f /\ word_at f 40 <> 0.
Proof.
  cbv zeta. split; [reflexivity|].
  apply (injected_frame_valid sent0); [reflexivity|by apply Forall_nil_2|reflexivity].
Defined.

(** ** Captured frames *)

Lemma byte_at_lt f i : (i < length f)%nat -> exists b, byte_at f i = Ok b.
Proof. intros [b E]%lookup_lt_is_Some. exists b. unfold byte_at. by rewrite E. Qed.

(** No byte outside the captured part of a frame is read. *)
Lemma udp_payload_safe f : exists o, udp_payload f = Ok o.
Proof.
  unfold udp_payload. destruct (Nat.ltb_spec (length f) (14 + 20 + 8 + 1)); [by eexists|].
  destruct (byte_at_lt f 14) as [ip0 ->]; [lia|]. cbn [mbind result_bind]. case_if; [by eexists|]. cbv zeta.
  set (ihl := Z.to_nat (Z.land ip0 15 * 4)). destruct (Nat.ltb_spec (length f) (14 + ihl + 8 + 1)); [by eexists|].
  destruct (byte_at_lt f (14 + ihl + 2)) as [b2 ->]; [lia|].
  destruct (byte_at_lt f (14 + ihl + 3)) as [b3 ->]; [lia|]. cbn [mbind result_bind]. case_if; by eexists.
Qed.

Definition payload_of (f : frame) : option (list Z) :=
  match udp_payload f with Ok o => o | Fault _ => None end.

Lemma framed_payload_of L U c u P : P <> [] -> payload_of (framed L U c u P) = Some P.
Proof.
  intros HP. destruct P as [|b P]; [done|]. unfold payload_of, udp_payload.
  destruct (Nat.ltb_spec (length (framed L U c u (b :: P))) (14 + 20 + 8 + 1)) as [Hl|_]; [simpl in Hl; lia|].
  change (byte_at _ 14) with (Ok 0x45). cbn [mbind result_bind]. change (negb (Z.shiftr 0x45 4 =? 4)) with false. cbv iota zeta.
  change (Z.to_nat (Z.land 0x45 15 * 4)) with 20%nat.
  destruct (Nat.ltb_spec (length (framed L U c u (b :: P))) (14 + 20 + 8 + 1)) as [Hl|_]; [simpl in Hl; lia|].
  change (byte_at _ (14 + 20 + 2)) with (Ok (hi SERVER_POST_TYPE)).
  change (byte_at _ (14 + 20 + 3)) with (Ok (lo SERVER_POST_TYPE)). reflexivity.
Qed.

Lemma scan_frames_eq ds skip index fs h :
  scan_frames ds skip index fs h =
    (for_each (omap payload_of (drop (Z.to_nat (skip - index)) fs)) (dispatch_udp_payload ds) ;;
     ret (index + Z.of_nat (length fs))) h.
Proof.
  revert index h. induction fs as [|f fs IH]; intros index h.
  - rewrite drop_nil. cbn. unfold bind, ret. by rewrite Z.add_0_r.
  - cbn [scan_frames]. replace (index + Z.of_nat (length (f :: fs))) with (index + 1 + Z.of_nat (length fs))
      by (cbn [length]; lia).
    destruct (Z.ltb_spec index skip) as [Hs|Hs].
    + rewrite IH. replace (Z.to_nat (skip - index)) with (S (Z.to_nat (skip - (index + 1)))) by lia. done.
    + replace (Z.to_nat (skip - index)) with 0%nat by lia.
      assert (E0 : forall h', scan_frames ds skip (index + 1) fs h' =
        (for_each (omap payload_of fs) (dispatch_udp_payload ds) ;; ret (index + 1 + Z.of_nat (length fs))) h').
      { intros h'. rewrite IH. by replace (Z.to_nat (skip - (index + 1))) with 0%nat by lia. }
      destruct (udp_payload_safe f) as [o Eo]. rewrite Eo. cbn [drop omap list_omap].
      unfold payload_of at 1. rewrite Eo. destruct o as [pl|]; [|apply E0].
      cbn [for_each]. rewrite bind_assoc. apply bind_ext. intros [] h'. apply E0.
Qed.

Lemma packet_dispatch_lock cfg t buf :
  POST_LOCK_ACQUIRE <= t <= POST_LOCK_FREE ->
  packet_dispatch (lock_dispatchers cfg) t buf = lock_dispatcher cfg buf.
Proof.
  unfold POST_LOCK_ACQUIRE, POST_LOCK_FREE. intros Ht.
  assert (t = 1 \/ t = 2 \/ t = 3 \/ t = 4 \/ t = 5 \/ t = 6) as Hc by lia.
  destruct Hc as [->|[->|[->|[->|[->| ->]]]]]; reflexivity.
Qed.

(** C26: a lock packet survives the wire. A well-formed lock packet that is sent
    by a host and captured is dispatched by a host that scans the capture as the
    packet that was sent, whatever its wait queue, and no byte outside the
    captured frame is read. *)
Theorem inject_capture_roundtrip s f cfg h :
  packet_wf (s_pkt s) -> sized s -> POST_LOCK_ACQUIRE <= pk_type (s_pkt s) <= POST_LOCK_FREE ->
  net_send s = Ok f ->
  scan_frames (lock_dispatchers cfg) 0 0 [f] h = (lock_packet_dispatch cfg (s_pkt s) ;; ret 1) h.
Proof.
  intros Hw Hs Ht Hf. destruct (net_send_frame s f Hs Hf) as (_ & Ef). rewrite scan_frames_eq.
  pose proof (decode_encode_post _ Hw) as Ed. unfold POST_LOCK_ACQUIRE, POST_LOCK_FREE in Ht.
  assert (Eh : exists bs, encode_post (s_pkt s) = pk_type (s_pkt s) :: bs).
  { eexists. unfold encode_post. cbn [app]. unfold le_bytes at 1. rewrite Z.mod_small by lia. reflexivity. }
  destruct Eh as [bs Eb]. rewrite Eb in Ed.
  assert (Ep : omap payload_of [f] = [pk_type (s_pkt s) :: bs]).
  { change (omap payload_of [f]) with (match payload_of f with Some y => [y] | None => [] end).
    by rewrite Ef, framed_payload_of, Eb by (by rewrite Eb). }
  change (drop (Z.to_nat (0 - 0)) [f]) with [f]. rewrite Ep.
  cbn [for_each]. rewrite !bind_assoc. cbn [length]. unfold dispatch_udp_payload. set (t := pk_type (s_pkt s)) in *.
  assert (E8 : Z.land t 255 = t).
  { change 255 with (Z.ones 8). rewrite Z.land_ones by lia. apply Z.mod_small. lia. }
  rewrite E8. destruct (Z.leb_spec t 0); [lia|]. destruct (Z.leb_spec NUM_POST_TYPES t); [unfold NUM_POST_TYPES in *; lia|].
  cbn [orb]. rewrite packet_dispatch_lock by (unfold POST_LOCK_ACQUIRE, POST_LOCK_FREE; lia).
  unfold lock_dispatcher. rewrite Ed, !bind_assoc. apply bind_ext. intros [q r] h'.
  repeat (rewrite bind_ret_l || cbn beta). done.
Qed.

Definition host0 : host := lock_setup FLAG_ENB_LOCAL_GRANT.

Lemma inject_capture_roundtrip_witness :
  scan_frames (lock_dispatchers (bmv2_env_setup 2)) 0 0 [build_frame_from_post (sendbuf (s_pkt sent0)) 22] host0 =
    (lock_packet_dispatch (bmv2_env_setup 2) (s_pkt sent0) ;; ret 1) host0.
Proof.
  apply (inject_capture_roundtrip sent0); [|reflexivity|vm_compute; split; discriminate|reflexivity].
  apply send_post_lock_generic_wf; [by apply Forall_singleton, mk_wqe_wf|reflexivity].
Defined.
