(* ===== verification/Bmv2Capture.v ===== *)
(** * Bmv2Capture: what the polling loop of the BMv2 port dispatches

    The captures grow while they are reread: every captured lock packet is
    dispatched exactly once, in the order of its file. *)

From stdpp Require Import strings.
From S2P Require Import Prelude Types Post Lock LockApi Bmv2.

#[local] Open Scope prog_scope.

(** ** Captures that grow *)

Section captures.
(** libpcap appends to a capture file, and a file with more frames is larger. *)
Context (pcap_size : list frame -> Z).
Context (pcap_size_0 : 0 <= pcap_size []).
Context (pcap_size_app : forall fs more, more <> [] -> pcap_size fs < pcap_size (fs ++ more)).
Context (dir : string).

Definition frames (fs : captures) (n : string) : list frame := default [] (fs !! path dir n).

(** Every payload captured on an interface, in order. *)
Definition payloads (fs : captures) (n : string) : list (list Z) := omap payload_of (frames fs n).

(** Files are created and appended to, never removed or truncated. *)
Definition grows (fs fs' : captures) : Prop :=
  forall k l, fs !! k = Some l -> exists more, fs' !! k = Some (l ++ more).

(** The captures at successive polls. *)
Fixpoint chain (fs : captures) (fss : list captures) : Prop :=
  match fss with [] => True | fs' :: fss' => grows fs fs' /\ chain fs' fss' end.

Fixpoint polls (ds : dispatchers) (fss : list captures) (s : net_state) : H net_state :=
  match fss with
  | [] => ret s
  | fs :: fss' => r <- net_poll_packets pcap_size ds fs s ;; polls ds fss' r.1
  end.

Lemma path_inj n n' : path dir n = path dir n' -> n = n'.
Proof using.
  unfold path. intros H. by apply (inj (String.append dir)), (inj (String.append "/")) in H.
Qed.

(** What one scan dispatches from a file, given how much earlier ones did. *)
Definition due (fs : captures) (done : gmap string Z) (n : string) : list (list Z) :=
  omap payload_of (drop (Z.to_nat (default 0 (done !! path dir n))) (frames fs n)).

Definition schedule (fs : captures) (done : gmap string Z) (ns : list string) : list (string * list Z) :=
  concat (map (fun n => map (pair n) (due fs done n)) ns).

Definition mark (fs : captures) (n : string) (done : gmap string Z) : gmap string Z :=
  match fs !! path dir n with
  | None => done
  | Some f => <[path dir n := Z.of_nat (length f)]> done
  end.

Lemma scan_pcap_file_eq ds fs n done h :
  scan_pcap_file ds fs (path dir n) done h =
    (for_each (due fs done n) (dispatch_udp_payload ds) ;; ret (mark fs n done)) h.
Proof using.
  unfold scan_pcap_file, due, mark, frames. destruct (fs !! path dir n) as [f|]; cbn [default from_option].
  - unfold bind at 1. rewrite scan_frames_eq. rewrite Z.sub_0_r. unfold bind, ret. cbn [id].
    destruct (for_each _ _ h) as [[[[] h'] out]|]; [|done]. by rewrite app_nil_r.
  - rewrite drop_nil. symmetry. apply (bind_ret_l tt).
Qed.

Lemma due_mark fs n n' done : n <> n' -> due fs (mark fs n done) n' = due fs done n'.
Proof using.
  intros Hn. unfold due, mark. destruct (fs !! path dir n); [|done].
  by rewrite lookup_insert_ne by (intros E%path_inj; congruence).
Qed.

Lemma scan_all_eq ds fs ns done h :
  NoDup ns ->
  scan_all ds fs dir ns done h =
    (for_each (map snd (schedule fs done ns)) (dispatch_udp_payload ds) ;;
     ret (foldl (fun d n => mark fs n d) done ns)) h.
Proof using.
  intros Hnd. revert done h. induction Hnd as [|n ns Hn Hnd IH]; intros done h; [symmetry; apply (bind_ret_l tt)|].
  cbn [scan_all]. unfold bind at 1. rewrite scan_pcap_file_eq.
  assert (Es : map snd (schedule fs done (n :: ns)) = due fs done n ++ map snd (schedule fs (mark fs n done) ns)).
  { unfold schedule. cbn [map concat]. rewrite map_app, map_map, map_id. f_equal. f_equal. f_equal.
    apply map_ext_in. intros n' Hn'%list_elem_of_In. rewrite due_mark; [done|]. by intros ->. }
  rewrite Es. unfold bind at 2. rewrite for_each_app. unfold bind at 1 2.
  destruct (for_each (due fs done n) _ h) as [[[[] h1] out1]|]; [|done].
  unfold ret at 1. rewrite IH. unfold bind at 1. rewrite app_nil_r.
  destruct (for_each _ _ h1) as [[[[] h2] out2]|]; [|done]. cbn. by rewrite !app_nil_r.
Qed.

(** The part of a schedule that comes from one file. *)
Definition of_file (n : string) (sched : list (string * list Z)) : list (list Z) :=
  map snd (filterb (fun x => bool_decide (x.1 = n)) sched).

Lemma of_file_app n l1 l2 : of_file n (l1 ++ l2) = of_file n l1 ++ of_file n l2.
Proof using. unfold of_file. by rewrite List.filter_app, map_app. Qed.

Lemma of_file_pair n n' (l : list (list Z)) : of_file n (map (pair n') l) = if bool_decide (n' = n) then l else [].
Proof using.
  unfold of_file. rewrite filterb_map. cbn [fst]. case_bool_decide; [|by rewrite filterb_none by (by apply list.Forall_true)].
  rewrite filterb_all by (by apply list.Forall_true). by rewrite map_map, map_id.
Qed.

Lemma of_file_schedule fs done ns n :
  NoDup ns -> of_file n (schedule fs done ns) = if bool_decide (n ∈ ns) then due fs done n else [].
Proof using.
  induction 1 as [|n' ns Hn' Hnd IH]; [done|]. unfold schedule in *. cbn [map concat].
  rewrite of_file_app, of_file_pair, IH. destruct (decide (n' = n)) as [->|Hne].
  - rewrite (bool_decide_true (n = n)), (bool_decide_false (n ∈ ns)), (bool_decide_true (n ∈ n :: ns)) by (done || by left).
    by rewrite app_nil_r.
  - rewrite (bool_decide_false (n' = n)) by done. cbn [app]. apply (f_equal (fun b : bool => if b then _ else _)).
    apply bool_decide_ext. rewrite elem_of_cons. naive_solver.
Qed.

Definition size_of (fs : captures) (n : string) : Z :=
  match fs !! path dir n with Some f => pcap_size f | None => 0 end.

Lemma total_sizes fs : total_pcap_bytes pcap_size fs dir = foldr (fun n sum => size_of fs n + sum) 0 names.
Proof using.
  unfold total_pcap_bytes. induction names as [|n ns IH]; [done|]. cbn [foldr]. rewrite IH. unfold size_of.
  by destruct (fs !! path dir n).
Qed.

Lemma pcap_size_pos f : 0 <= pcap_size f.
Proof using pcap_size_0 pcap_size_app.
  destruct f as [|x f]; [done|]. pose proof (pcap_size_app [] (x :: f) ltac:(done)). simpl in *. lia.
Qed.

(** A file's size tells whether it grew. *)
Lemma size_grows fs fs' n :
  grows fs fs' -> size_of fs n <= size_of fs' n /\ (size_of fs n = size_of fs' n -> frames fs n = frames fs' n).
Proof using pcap_size_0 pcap_size_app.
  intros Hg. unfold size_of, frames. destruct (fs !! path dir n) as [f|] eqn:E.
  - destruct (Hg _ _ E) as [more ->]. destruct (decide (more = [])) as [->|Hm]; [by rewrite app_nil_r|].
    pose proof (pcap_size_app f more Hm). lia.
  - destruct (fs' !! path dir n) as [f'|]; [|done]. pose proof (pcap_size_pos f'). split; [lia|]. intros E'.
    destruct (decide (f' = [])) as [->|Hf]; [done|]. pose proof (pcap_size_app [] f' Hf). simpl in *. lia.
Qed.

Lemma total_grows fs fs' :
  grows fs fs' ->
  total_pcap_bytes pcap_size fs dir <= total_pcap_bytes pcap_size fs' dir /\
  (total_pcap_bytes pcap_size fs dir = total_pcap_bytes pcap_size fs' dir ->
   forall n, n ∈ names -> frames fs n = frames fs' n).
Proof using pcap_size_0 pcap_size_app.
  intros Hg. rewrite !total_sizes. induction names as [|n ns IH]; [split; [done|set_solver]|]. cbn [foldr].
  destruct (size_grows fs fs' n Hg) as [H1 H2]. destruct IH as [H3 H4]. split; [lia|].
  intros E n' [->|Hn]%elem_of_cons; [apply H2; lia|]. apply H4; [lia|done].
Qed.

Lemma names_nodup : NoDup names.
Proof using. by apply (bool_decide_unpack _). Qed.

(** ** Every captured packet is dispatched once *)

Lemma marked fs ns done n :
  NoDup ns -> n ∈ ns -> default 0 (done !! path dir n) <= Z.of_nat (length (frames fs n)) ->
  (fs !! path dir n = None -> default 0 (done !! path dir n) = 0) ->
  default 0 (foldl (fun d n => mark fs n d) done ns !! path dir n) = Z.of_nat (length (frames fs n)).
Proof using.
  clear pcap_size pcap_size_0 pcap_size_app. intros Hnd. revert done. induction Hnd as [|n' ns Hn' Hnd IH]; intros done Hn Hle H0; [set_solver|].
  assert (Hsame : forall d, n ∉ ns -> foldl (fun d n => mark fs n d) d ns !! path dir n = d !! path dir n).
  { clear IH Hn' Hnd Hn. induction ns as [|m ns IH]; intros d Hm; [done|]. cbn [foldl].
    rewrite IH by set_solver. unfold mark. destruct (fs !! path dir m); [|done].
    apply lookup_insert_ne. intros E%path_inj. set_solver. }
  cbn [foldl]. destruct (decide (n = n')) as [->|Hne].
  - rewrite Hsame by done. unfold mark, frames in *. destruct (fs !! path dir n') as [f|]; [by rewrite lookup_insert_eq|].
    by rewrite H0.
  - assert (En : mark fs n' done !! path dir n = done !! path dir n).
    { unfold mark. destruct (fs !! path dir n'); [|done]. apply lookup_insert_ne. intros E%path_inj. congruence. }
    apply IH; rewrite ?En; [set_solver|done..].
Qed.

Lemma payloads_split fs n k :
  payloads fs n = omap payload_of (take k (frames fs n)) ++ omap payload_of (drop k (frames fs n)).
Proof using. unfold payloads. by rewrite <- omap_app, take_drop. Qed.

Context (Hdir : dir <> ""%string) (fs0 : captures).

Abbreviation total fs := (total_pcap_bytes pcap_size fs dir).

(** The state after polls up to the captures [fs], which dispatched [sched]. *)
Definition polled (fs : captures) (s : net_state) (sched : list (string * list Z)) : Prop :=
  g_pcap_dir s = dir /\ g_pcap_bytes_before s = total fs /\
  (total fs = total fs0 /\ sched = [] /\ g_pcap_packets_done s = ∅ \/
   total fs0 < total fs /\
   forall n, n ∈ names -> of_file n sched = payloads fs n /\
     default 0 (g_pcap_packets_done s !! path dir n) = Z.of_nat (length (frames fs n))).

Lemma poll_step fs fs1 s sched :
  grows fs fs1 -> polled fs s sched ->
  exists more s1 r,
    (forall ds h, net_poll_packets pcap_size ds fs1 s h =
      (for_each (map snd more) (dispatch_udp_payload ds) ;; ret (s1, r)) h) /\
    polled fs1 s1 (sched ++ more).
Proof using pcap_size_0 pcap_size_app Hdir.
  intros Hg (Ed & Eb & Hs). destruct (total_grows _ _ Hg) as [Hle Heq]. unfold net_poll_packets.
  rewrite Ed, Eb, bool_decide_false by done. cbv zeta. destruct (Z.leb_spec (total fs1) (total fs)) as [H|H].
  - assert (E : total fs = total fs1) by lia. specialize (Heq E). exists [], s, 0. rewrite app_nil_r. split.
    { intros ds h. symmetry. apply (bind_ret_l tt). }
    split; [done|]. split; [by rewrite Eb|]. rewrite <- E. destruct Hs as [Hs|[Ht Hs]]; [by left|]. right. split; [done|].
    intros n Hn. unfold payloads. rewrite <- (Heq n Hn). by apply Hs.
  - set (done := g_pcap_packets_done s) in *. set (done1 := foldl (fun d n => mark fs1 n d) done names).
    exists (schedule fs1 done names), (NetState dir (total fs1) done1), 1. split.
    { intros ds h. unfold bind at 1. rewrite scan_all_eq by apply names_nodup. unfold bind, ret.
      destruct (for_each _ _ h) as [[[[] h'] out]|]; [|done]. by rewrite !app_nil_r. }
    split; [done|]. split; [done|]. right. split; [destruct Hs as [[? _]|[? _]]; lia|].
    assert (Hlen : forall n, (length (frames fs n) <= length (frames fs1 n))%nat /\
      take (length (frames fs n)) (frames fs1 n) = frames fs n /\
      (fs1 !! path dir n = None -> frames fs n = [])).
    { intros n. unfold frames. destruct (fs !! path dir n) as [f|] eqn:E; [|cbn; split; [lia|done]].
      destruct (Hg _ _ E) as [m ->]. cbn. rewrite length_app, take_app_length. split_and!; [lia|done|done]. }
    intros n Hn. destruct (Hlen n) as (Hl & Ht & Hnone). rewrite of_file_app, of_file_schedule by apply names_nodup.
    rewrite bool_decide_true by done. destruct Hs as [(_ & -> & E0)|[_ Hs]].
    + rewrite E0. unfold due. rewrite lookup_empty. split; [done|]. unfold done1. rewrite E0.
      apply marked; [apply names_nodup|done|rewrite lookup_empty; cbn; lia|done].
    + destruct (Hs n Hn) as [-> E0]. unfold due. rewrite E0, Nat2Z.id. split.
      * by rewrite (payloads_split fs1 n (length (frames fs n))), Ht.
      * unfold done1. apply marked; [apply names_nodup|done|rewrite E0; lia|]. intros Hf. by rewrite E0, (Hnone Hf).
Qed.

Lemma last_cons_default {A} (l : list A) x d : List.last (x :: l) d = List.last l x.
Proof using. revert x d. induction l as [|y l IH]; intros x d; [done|]. change (List.last (y :: l) d = List.last (y :: l) x). by rewrite !IH. Qed.

Lemma polls_polled fss fs s sched :
  chain fs fss -> polled fs s sched ->
  exists more s',
    (forall ds h, polls ds fss s h = (for_each (map snd more) (dispatch_udp_payload ds) ;; ret s') h) /\
    polled (List.last fss fs) s' (sched ++ more).
Proof using pcap_size_0 pcap_size_app Hdir.
  revert fs s sched. induction fss as [|fs1 fss IH]; intros fs s sched Hc HP.
  { exists [], s. rewrite app_nil_r. split; [|done]. intros ds h. symmetry. apply (bind_ret_l tt). }
  destruct Hc as [Hg Hc]. destruct (poll_step fs fs1 s sched Hg HP) as (m1 & s1 & r & E1 & HP1).
  destruct (IH fs1 s1 _ Hc HP1) as (m2 & s' & E2 & HP2). exists (m1 ++ m2), s'. split.
  - intros ds h. cbn [polls]. unfold bind at 1. rewrite E1, map_app. unfold bind at 2. rewrite for_each_app.
    unfold bind at 1 2. destruct (for_each (map snd m1) _ h) as [[[[] h1] out1]|]; [|done].
    unfold ret at 1. cbn [fst]. rewrite E2. unfold bind at 1. rewrite app_nil_r.
    destruct (for_each _ _ h1) as [[[[] h2] out2]|]; [|done]. cbn. by rewrite !app_nil_r.
  - by rewrite last_cons_default, app_assoc.
Qed.

(** C24: every captured packet is dispatched exactly once. While the switch
    appends to the capture files and the polling thread rereads them, whatever
    the polls and however many packets arrive between them, the dispatched
    payloads of each interface are all the payloads its file holds in the end,
    once each and in the order of the file - those captured before the module
    was configured included - as soon as any file has grown since; nothing is
    dispatched before that. *)
Theorem captured_dispatched_once fss s0 :
  chain fs0 fss ->
  let fs := List.last fss fs0 in
  exists sched s',
    (forall ds h, polls ds fss (bmv2_net_configure pcap_size fs0 dir s0) h =
      (for_each (map snd sched) (dispatch_udp_payload ds) ;; ret s') h) /\
    forall n, n ∈ names -> of_file n sched = if total fs0 <? total fs then payloads fs n else [].
Proof using pcap_size_0 pcap_size_app Hdir.
  intros Hc. cbv zeta.
  assert (HP : polled fs0 (bmv2_net_configure pcap_size fs0 dir s0) []).
  { unfold bmv2_net_configure. rewrite bool_decide_false by done. split; [done|]. split; [done|by left]. }
  destruct (polls_polled fss fs0 _ [] Hc HP) as (sched & s' & E & _ & _ & Hs). exists sched, s'. split; [done|].
  intros n Hn. destruct Hs as [(Et & Es & _)|[Ht Hs]].
  - cbn [app] in Es. rewrite Es, Et, Z.ltb_irrefl. done.
  - rewrite (proj2 (Z.ltb_lt _ _)) by done. by apply Hs.
Qed.
End captures.

(** The size of a pcap file: a 24-byte file header and 16 bytes per frame. *)
Definition pcap_size0 (fs : list frame) : Z := foldr (fun f sum => 16 + Z.of_nat (length f) + sum) 24 fs.

Lemma pcap_size0_app fs more : more <> [] -> pcap_size0 fs < pcap_size0 (fs ++ more).
Proof.
  intros Hm. assert (Hpos : forall l, 24 <= pcap_size0 l).
  { induction l as [|f l IH]; [done|]. change (24 <= 16 + Z.of_nat (length f) + pcap_size0 l). lia. }
  induction fs as [|f fs IH].
  - destruct more as [|f l]; [done|]. change (24 < 16 + Z.of_nat (length f) + pcap_size0 l). specialize (Hpos l). lia.
  - change (16 + Z.of_nat (length f) + pcap_size0 fs < 16 + Z.of_nat (length f) + pcap_size0 (fs ++ more)). lia.
Qed.

Definition frame0 : frame := build_frame_from_post (sendbuf (s_pkt sent0)) 22.
Definition capture0 : captures := <[path "pcap" "veth-h1_out.pcap" := [frame0]]> ∅.
Definition capture1 : captures := <[path "pcap" "veth-h1_out.pcap" := [frame0; frame0]]> ∅.

Lemma captured_dispatched_once_witness :
  exists sched s',
    (forall ds h, polls pcap_size0 ds [capture0; capture1; capture1]
        (bmv2_net_configure pcap_size0 ∅ "pcap" (NetState "" 0 ∅)) h =
      (for_each (map snd sched) (dispatch_udp_payload ds) ;; ret s') h) /\
    forall n, n ∈ names -> of_file n sched = payloads "pcap" capture1 n.
Proof.
  assert (Hc : chain ∅ [capture0; capture1; capture1]).
  { unfold capture0, capture1. repeat split; intros k l; rewrite ?lookup_empty; [done|..];
      intros [[<- <-]|[Hk H]]%lookup_insert_Some; try done; rewrite lookup_insert_eq.
    - by exists [frame0].
    - by exists []. }
  exact (captured_dispatched_once pcap_size0 ltac:(done) pcap_size0_app "pcap" ltac:(done) ∅
    [capture0; capture1; capture1] (NetState "" 0 ∅) Hc).
Defined.
