(* ===== verification/Bmv2Sys.v ===== *)
(** * Bmv2Sys: exclusive locks on the BMv2 build

    The system of [System] as it is deployed for BMv2: the switch program
    fisslock_bmv2.p4, lib/lock.cc compiled with FISSLOCK_BMV2, the polling loop
    that ignores the handlers' answers, and tasks that give up waiting
    (fl_bmv2_try_acquire_excl).  On every host the packets are those the switch
    sends to its port. *)

From S2P Require Import Prelude Types Post Lock LockProofs Agent LockApi LockApiProofs Switch System Fission Bmv2.

Section bmv2.
Context (lid : Z) (Hlid : 0 <= lid < 1024).

Abbreviation step := (sys_step bmv2 true false lid).
Abbreviation run := (sys_run bmv2 true false lid).
Abbreviation mkhost := (Fission.mkhost lid).
Abbreviation acq_pkt := (Fission.acq_pkt lid).
Abbreviation free_pkt := (Fission.free_pkt lid).
Abbreviation grant_pkt := (Fission.grant_pkt lid).

Let Hn : 1 <= 1 < 64 := conj (Z.le_refl 1) eq_refl.

Lemma lid_switch : 0 <= lid < SWITCH_LOCK_NUM.
Proof using Hlid. unfold SWITCH_LOCK_NUM. lia. Qed.

(** ** The switch *)

Lemma lid_slice : Z.land lid SLICE_HIGH_MASK = 0 /\ Z.land lid SLICE_MASK = lid.
Proof using Hlid.
  split.
  - apply Z.bits_inj'. intros i Hi. rewrite Z.land_spec, Z.bits_0.
    destruct (Z.lt_ge_cases i 10) as [H|H].
    + assert (i = 0 \/ i = 1 \/ i = 2 \/ i = 3 \/ i = 4 \/ i = 5 \/ i = 6 \/ i = 7 \/ i = 8 \/ i = 9) as Hc by lia.
      repeat destruct Hc as [->|Hc]; try (subst i); apply andb_false_r.
    + destruct (Z.eq_dec lid 0) as [->|]; [by rewrite Z.bits_0|].
      rewrite (Z.bits_above_log2 lid i); [done|lia|]. apply Z.log2_lt_pow2; [lia|].
      apply Z.lt_le_trans with (2 ^ 10); [simpl; lia|]. apply Z.pow_le_mono_r; lia.
  - change SLICE_MASK with (Z.ones 10). rewrite Z.land_ones by lia. apply Z.mod_small. simpl. lia.
Qed.

Ltac switch_step :=
  unfold bmv2; cbn [Fission.acq_pkt Fission.free_pkt pk_hdr]; rewrite (Fission.lid_hdr lid lid_switch);
  rewrite (proj1 lid_slice), (proj2 lid_slice), Z.eqb_refl; cbv zeta.

Lemma bmv2_acquire_free s m t a :
  lock_free_mode (regs_at s lid) = false -> 1 <= m ->
  bmv2 s (acq_pkt m t a) =
    (<[lid := Regs true true m (notification_cnt (regs_at s lid))]> s, [(m, grant_pkt 1 m t [])]).
Proof using Hlid.
  intros E Hm. switch_step. unfold fission. cbn. rewrite E. cbn. by rewrite (proj2 (Z.eqb_neq m 0)) by lia.
Qed.

(** The accepted FREE leaves through the port of the host that sent it. *)
Lemma bmv2_free s h :
  lock_free_mode (regs_at s lid) = true ->
  exists p, bmv2 s (free_pkt h) = (<[lid := Regs false false 0 0]> s, [(h, p)]) /\
    pk_type p = POST_LOCK_FREE /\ lid_of (pk_hdr p) = lid /\ mode_old_mode (pk_hdr p) = 2 /\ ncnt (pk_hdr p) = 0.
Proof using Hlid.
  intros E. eexists. split.
  - switch_step. unfold fission. cbn. rewrite E. cbn. reflexivity.
  - cbn. split_and!; try done. apply (Fission.lid_hdr lid lid_switch).
Qed.

(** ** A host that believes it is the agent of a free lock *)

Definition waits (x : task_state) : Prop := exists t, x = Waiting (ReqPtr 0 t) LOCK_EXCL.

Record stranded (s : system) (l : innet_lock) : Prop := {
  st_hosts : hosts s = {[ 1 := mkhost l ]};
  st_net : net s = [];
  st_id : l_id l = lid;
  st_agent : l_is_agent l = true;
  st_holders : l_holders l = ∅;
  st_flags : forall t b, l_task_granted l !! t = Some b -> b = false;
  st_tasks : forall k x, tasks s !! k = Some x ->
    exists t, x = Waiting (ReqPtr 0 t) LOCK_EXCL /\ l_task_granted l !! t = Some false;
}.

Definition patient (e : label) : Prop :=
  match e with LAcquire _ t op => in_uw 30 t /\ op = LOCK_EXCL | LTimeout _ _ => False | _ => True end.

(** A request is queued: the host believes it is the agent. *)
Lemma stranded_acquire t s l :
  in_uw 30 t -> stranded s l -> tasks s !! (1, t) = None ->
  exists s' l', step (LAcquire 1 t LOCK_EXCL) s = Ok s' /\ stranded s' l'.
Proof using Hlid.
  intros Hb Hs Et. pose proof Hs as [Eh En Ei Ea Ehold Hf Ht]. cbn [System.sys_step].
  rewrite Eh, En, lookup_singleton_eq, Et.
  destruct (Fission.acquire_excl true 1 lid Hn lid_switch 1 l t) as (out & E & Eo); [split; lia|done|done|done|].
  rewrite Ea in Eo. apply map_eq_nil in Eo as ->. rewrite E. cbn [mbind result_bind].
  rewrite bool_decide_false by done. eexists _, (Fission.acquired 1 t l). split; [reflexivity|].
  assert (Eg : forall t', l_task_granted (Fission.acquired 1 t l) !! t' = touch false t (l_task_granted l) !! t').
  { intros t'. unfold Fission.acquired. by destruct (l_is_agent l). }
  split; cbn [hosts net tasks].
  + apply insert_singleton_eq.
  + done.
  + unfold Fission.acquired. by rewrite Ea.
  + unfold Fission.acquired. by rewrite Ea.
  + unfold Fission.acquired. by rewrite Ea.
  + intros t' b. rewrite Eg. intros [Hb'|(-> & -> & _)]%lookup_touch_Some; [by apply Hf in Hb'|done].
  + assert (Hkeep : forall t', t' = t \/ l_task_granted l !! t' = Some false ->
      l_task_granted (Fission.acquired 1 t l) !! t' = Some false).
    { intros t' Ht'. rewrite Eg.
      destruct (lookup_touch_is_Some false t t' (l_task_granted l)) as [b Eb].
      { destruct Ht' as [->|Ht']; [by left|right; eauto]. }
      rewrite Eb. apply lookup_touch_Some in Eb as [Eb|(_ & -> & _)]; [|done]. by rewrite (Hf _ _ Eb). }
    intros k x [[<- <-]|[_ Hk]]%lookup_insert_Some; [exists t; auto|].
    destruct (Ht k x Hk) as (t' & -> & Ht'). exists t'. auto.
Qed.

Lemma stranded_step e s l : patient e -> stranded s l -> exists s' l', step e s = Ok s' /\ stranded s' l'.
Proof using Hlid.
  intros He Hs. pose proof Hs as [Eh En Ei Ea Ehold Hf Ht].
  destruct e as [h t op|h t|h t|h t|k]; cbn [System.sys_step]; rewrite ?Eh, ?En.
  - destruct He as [Hb ->]. destruct (decide (h = 1)) as [->|Hne].
    2: { rewrite lookup_singleton_ne by done. by exists s, l. }
    rewrite lookup_singleton_eq. destruct (tasks s !! (1, t)) eqn:Et; [by exists s, l|].
    pose proof (stranded_acquire t s l Hb Hs Et) as Hacq. cbn [System.sys_step] in Hacq.
    by rewrite Eh, En, lookup_singleton_eq, Et in Hacq.
  - destruct ({[1 := mkhost l]} !! h) as [x|] eqn:Ex; [|by exists s, l].
    apply lookup_singleton_Some in Ex as [<- <-].
    destruct (tasks s !! (1, t)) as [x|] eqn:Et; [|by exists s, l].
    destruct (Ht _ _ Et) as (t' & -> & Hg). rewrite (Fission.poll_excl lid l t' false Hg). cbn [mbind result_bind].
    rewrite Z.eqb_refl. eexists _, l. split; [reflexivity|]. split; cbn [hosts net tasks]; done.
  - destruct ({[1 := mkhost l]} !! h) as [x|]; [|by exists s, l].
    destruct (tasks s !! (h, t)) as [x'|] eqn:Et; [|by exists s, l].
    destruct (Ht _ _ Et) as (t' & -> & _). by exists s, l.
  - done.
  - rewrite lookup_nil. by exists s, l.
Qed.

Lemma stranded_run es s l : Forall patient es -> stranded s l -> exists s' l', run es s = Ok s' /\ stranded s' l'.
Proof using Hlid.
  intros Hes. revert s l. induction Hes as [|e es He _ IH]; intros s l Hs; [by exists s, l|].
  destruct (stranded_step e s l He Hs) as (s1 & l1 & E & Hs1). destruct (IH s1 l1 Hs1) as (s' & l' & E' & Hs').
  exists s', l'. split; [|done]. cbn [System.sys_run]. by rewrite E.
Qed.

(** ** The first use of a lock *)

Definition first_use (t : Z) : list label := [LAcquire 1 t LOCK_EXCL; LNet 0; LNet 0; LPoll 1 t].
Definition give_back (t : Z) : list label := [LRelease 1 t; LNet 0; LNet 0].

(** The lock while the task holds it. *)
Definition held (t : Z) : innet_lock :=
  let l := Fission.granted 1 t [] (Fission.acquired 1 t (new_innet_lock lid lid)) in
  set_task_granted (<[t := false]> (l_task_granted l)) l.

Definition sw_acquired : switch := <[lid := Regs true true 1 0]> ∅.

Lemma first_use_eq t :
  in_uw 30 t ->
  run (first_use t) (sys_init 1 lid) =
    Ok (System {[ 1 := mkhost (held t) ]} [] sw_acquired {[ (1, t) := Held LOCK_EXCL ]}).
Proof using Hlid.
  intros Ht. assert (Hh : Fission.host_ok 1 1) by (split; lia). set (l0 := new_innet_lock lid lid).
  assert (E0 : sys_init 1 lid = System {[ 1 := mkhost l0 ]} [] ∅ ∅).
  { unfold sys_init. change (seqZ 1 1) with [1]. cbn [map list_to_map foldr fst snd].
    by rewrite (Fission.host_init_eq lid lid_switch). }
  destruct (Fission.acquire_excl true 1 lid Hn lid_switch 1 l0 t) as (out & E1 & Eo); [done..|].
  change (l_is_agent l0) with false in Eo. cbv iota in Eo.
  rewrite E0. unfold first_use. cbn [System.sys_run System.sys_step hosts tasks net sw].
  rewrite lookup_singleton_eq, lookup_empty, E1. cbn [mbind result_bind hosts net sw tasks].
  rewrite bool_decide_false, insert_singleton_eq by done. cbn [app].
  rewrite Fission.sends_eq, Eo. cbn [map lookup list_lookup delete list_delete app].
  rewrite bmv2_acquire_free by (done || (unfold regs_at; by rewrite lookup_empty)).
  cbn [map hosts net sw tasks lookup list_lookup delete list_delete app mbind result_bind].
  rewrite lookup_singleton_eq.
  destruct (Fission.deliver_grant_with_agent true 1 lid Hn lid_switch 1 (Fission.acquired 1 t l0) t 1 [])
    as (wq & _ & Ewq & E2); [done|done|done|done|by right|]. rewrite (Ewq eq_refl) in E2. rewrite E2.
  cbn [mbind result_bind hosts net sw tasks fst snd sends map app Z.eqb orb].
  rewrite insert_singleton_eq, !lookup_singleton_eq, lookup_insert_eq.
  rewrite (Fission.poll_excl lid _ t true) by (cbn; apply lookup_insert_eq).
  cbn [mbind result_bind Z.eqb sends map app]. rewrite insert_singleton_eq. f_equal. f_equal.
  by rewrite insert_insert_eq.
Qed.

Lemma give_back_eq t :
  in_uw 30 t ->
  exists s l, run (give_back t) (System {[ 1 := mkhost (held t) ]} [] sw_acquired {[ (1, t) := Held LOCK_EXCL ]}) = Ok s /\
    tasks s = ∅ /\ lock_free_mode (regs_at (sw s) lid) = false /\ stranded s l.
Proof using Hlid.
  intros Ht. assert (Hh : Fission.host_ok 1 1) by (split; lia).
  destruct (Fission.release_excl true 1 lid Hn lid_switch 1 (held t) t) as (out & E1 & Eo); try done.
  { cbn. by rewrite union_empty_r_L. }
  change (Fission.release_pkts true lid 1 (held t)) with [free_pkt 1] in Eo.
  unfold give_back. cbn [System.sys_run System.sys_step hosts tasks net sw].
  rewrite !lookup_singleton_eq, E1. cbn [mbind result_bind hosts net sw tasks]. rewrite insert_singleton_eq.
  rewrite Fission.sends_eq, Eo. cbn [map lookup list_lookup delete list_delete app].
  destruct (bmv2_free sw_acquired 1) as (p & E2 & Ept & Epl & Epm & Epn).
  { unfold regs_at, sw_acquired. by rewrite lookup_insert_eq. }
  rewrite E2. cbn [map hosts net sw tasks lookup list_lookup delete list_delete app mbind result_bind].
  rewrite lookup_singleton_eq. set (l := Fission.released true 1 t (held t)).
  assert (E3 : lock_packet_process (cfg_of true 1) l p =
    Ok (Outcome (set_ncnt 0 (set_is_agent true (set_mode LOCK_EXCL l))) p [] 0)).
  { rewrite process_type_pushback by ((by apply (Fission.cfg_of_wf true 1 Hn)) || by right).
    unfold process_pushback. rewrite Ept, Epm, Epn. reflexivity. }
  rewrite (Fission.deliver_lock true lid 1 l p _ eq_refl Epl E3).
  cbn [mbind result_bind o_pkt o_ret o_lock o_sends fst snd sends map app Z.eqb orb].
  rewrite insert_singleton_eq. eexists _, _. split; [reflexivity|].
  cbn [tasks sw]. split; [apply delete_singleton_eq|]. split; [unfold regs_at; by rewrite lookup_insert_eq|].
  split; cbn [hosts net tasks]; try done.
  - unfold l, held, Fission.released. cbn. rewrite union_empty_r_L. set_solver.
  - unfold l, held, Fission.released. cbn. intros t' b.
    intros [[_ <-]|[Hne H]]%lookup_insert_Some; [done|]. rewrite lookup_insert_ne in H by done.
    apply lookup_touch_Some in H as [H|(-> & _ & _)]; [by rewrite lookup_empty in H|done].
  - rewrite delete_singleton_eq. intros k x. by rewrite lookup_empty.
Qed.
End bmv2.

(** C34: a lock of a BMv2 host can be used once. A task that requests a lock
    exclusively, learns of the grant and releases it leaves the lock free at the
    switch with nothing in flight; but the switch has sent the release back to
    the host, which then takes itself for the agent, so that every later request
    is queued there and, as long as no task gives up, none is ever granted,
    however often they poll. *)
Theorem bmv2_lock_used_once lid t es :
  0 <= lid < 1024 -> in_uw 30 t -> Forall patient es ->
  exists s1 s2 s3,
    sys_run bmv2 true false lid (first_use t) (sys_init 1 lid) = Ok s1 /\ holds s1 (1, t) LOCK_EXCL /\
    sys_run bmv2 true false lid (give_back t) s1 = Ok s2 /\
      tasks s2 = ∅ /\ net s2 = [] /\ lock_free_mode (regs_at (sw s2) lid) = false /\
    sys_run bmv2 true false lid es s2 = Ok s3 /\ forall k op, ~ holds s3 k op.
Proof.
  intros Hlid Ht Hes. destruct (give_back_eq lid Hlid t Ht) as (s2 & l2 & E2 & Et & Ef & Hs).
  destruct (stranded_run lid Hlid es s2 l2 Hes Hs) as (s3 & l3 & E3 & Hs3).
  exists (System {[ 1 := mkhost lid (held lid t) ]} [] (sw_acquired lid) {[ (1, t) := Held LOCK_EXCL ]}), s2, s3.
  split; [by apply first_use_eq|]. split; [apply lookup_singleton_eq|]. split; [done|]. split; [done|].
  split; [by apply st_net in Hs|]. split; [done|]. split; [done|]. intros k op Hk.
  apply (st_tasks _ _ _ Hs3) in Hk as (t' & [=] & _).
Qed.

Definition patient0 : list label :=
  [LAcquire 1 8 LOCK_EXCL; LPoll 1 8; LAcquire 1 7 LOCK_EXCL; LNet 0; LPoll 1 7; LPoll 1 8].

Lemma bmv2_lock_used_once_witness :
  exists s1 s2 s3,
    sys_run bmv2 true false 5 (first_use 7) (sys_init 1 5) = Ok s1 /\ holds s1 (1, 7) LOCK_EXCL /\
    sys_run bmv2 true false 5 (give_back 7) s1 = Ok s2 /\
      tasks s2 = ∅ /\ net s2 = [] /\ lock_free_mode (regs_at (sw s2) 5) = false /\
    sys_run bmv2 true false 5 patient0 s2 = Ok s3 /\ forall k op, ~ holds s3 k op.
Proof.
  apply (bmv2_lock_used_once 5 7 patient0); [lia|unfold in_uw; lia|].
  unfold patient0. repeat (apply Forall_cons_2; [by (exact I || (split; [unfold in_uw; lia|reflexivity]))|]).
  by apply Forall_nil_2.
Defined.

(** Two hosts; the second takes over a lock the first has used and released. On
    the first host a task gives up twice, which grants the lock there. *)
Definition timeouts : list label :=
  first_use 1 ++ give_back 1 ++
  [LAcquire 2 1 LOCK_EXCL; LNet 0; LNet 0; LPoll 2 1;
   LAcquire 1 1 LOCK_EXCL; LTimeout 1 1;
   LAcquire 1 2 LOCK_EXCL; LAcquire 1 1 LOCK_EXCL; LTimeout 1 1; LPoll 1 2].

(** On BMv2 giving up can grant the lock a second time. Links in order, no
    packet lost, exclusive requests: a host that was sent back its release
    queues the requests of its tasks; a task that gives up releases the lock,
    which hands it to the head of that queue without asking the switch, so that
    in the end tasks of two hosts hold the lock exclusively. *)
Theorem bmv2_timeout_violation :
  in_order bmv2 true false 5 timeouts (sys_init 2 5) = true /\
  exists s, sys_run bmv2 true false 5 timeouts (sys_init 2 5) = Ok s /\
    holds s (2, 1) LOCK_EXCL /\ holds s (1, 2) LOCK_EXCL /\ ~ compatible s.
Proof.
  split; [vm_compute; reflexivity|].
  destruct (sys_run bmv2 true false 5 timeouts (sys_init 2 5)) as [s|] eqn:E; [|by vm_compute in E].
  exists s. split; [done|].
  assert (H : tasks s !! (2, 1) = Some (Held LOCK_EXCL) /\ tasks s !! (1, 2) = Some (Held LOCK_EXCL)).
  { vm_compute in E. injection E as <-. by split. }
  destruct H as [H1 H2]. split; [exact H1|]. split; [exact H2|]. intros Hc.
  destruct (Hc _ _ _ _ H1 H2) as [[=] _]. congruence.
Qed.
