(* ===== verification/Recovery.v ===== *)
(** * Recovery: failure recovery on the hosts

    Models lib/lock.cc, lines 1128-1252 ([integrity_check]) and lib/fault.cc
    ([check_error]): when a fault is signalled every living host submits what it
    holds to the coordinator (module [RpcServer]), waits until the others have
    done so, adds holders it missed, restores agents that were lost and
    announces its agents to the restarted switch.

    A host's side is a program of remote procedure calls: a tree whose nodes are
    calls and whose branches are the replies.  Hosts run concurrently, one call
    at a time being served; a host changes its own lock table only in its own
    run.  The coordinator's ready signal, which the switch's controller writes,
    is part of the schedule. *)


From S2P Require Import Prelude Types Post RpcServer Lock LockApi.

(** ** Programs *)

Inductive rpc_req :=
  | CollectHoldersReq (lid holder : Z)
  | CollectWaitersReq (lid waiter : Z)
  | CheckWaiterReq (lid waiter : Z)
  | CheckHolderReq (is_agent : bool) (lid holder_num : Z)
  | RecoveryReadyReq (mid fault_code : Z).

(** The number of a reply, and the holders a holder check returned. *)
Record rpc_reply := Reply { r_num : Z; r_holders : list Z }.

(** The coordinator serves a call. *)
Definition rpc_call (ready_signal : Z) (q : rpc_req) (s : rpc_server) : result (rpc_reply * rpc_server) :=
  match q with
  | CollectHoldersReq lid holder => let '(n, s') := collect_holders lid holder s in Ok (Reply n [], s')
  | CollectWaitersReq lid waiter => let '(n, s') := collect_waiters lid waiter s in Ok (Reply n [], s')
  | CheckWaiterReq lid waiter => let '(n, s') := check_waiter lid waiter s in Ok (Reply n [], s')
  | CheckHolderReq ag lid num => '(n, hs, s') ← check_holder ag lid num s; Ok (Reply n hs, s')
  | RecoveryReadyReq mid code => let '(n, s') := recovery_ready ready_signal mid code s in Ok (Reply n [], s')
  end.

(** [Until q ok k]: the call is repeated until its reply is [ok]. *)
Inductive prog (A : Type) :=
  | Done (a : A)
  | Crash (f : fault)
  | Call (q : rpc_req) (k : rpc_reply -> prog A)
  | Until (q : rpc_req) (ok : rpc_reply -> bool) (k : rpc_reply -> prog A).
Arguments Done {A} a.
Arguments Crash {A} f.
Arguments Call {A} q k.
Arguments Until {A} q ok k.

Fixpoint pbind {A B} (p : prog A) (k : A -> prog B) : prog B :=
  match p with
  | Done a => k a
  | Crash f => Crash f
  | Call q k' => Call q (fun r => pbind (k' r) k)
  | Until q ok k' => Until q ok (fun r => pbind (k' r) k)
  end.

Declare Scope rpc_scope.
Notation "x <~ m ;; k" := (pbind m (fun x => k))
  (at level 100, m at next level, k at level 200, right associativity) : rpc_scope.
#[local] Open Scope rpc_scope.

(** A loop that calls for its effect at the coordinator only. *)
Fixpoint call_each {A} (l : list rpc_req) (p : prog A) : prog A :=
  match l with [] => p | q :: l' => Call q (fun _ => call_each l' p) end.

(** A loop over a vector that changes a state. *)
Fixpoint pfold {A S} (l : list A) (body : A -> S -> prog S) (s : S) : prog S :=
  match l with [] => Done s | x :: l' => s' <~ body x s ;; pfold l' body s' end.

Definition pcheck {A} (r : result A) : prog A := match r with Ok a => Done a | Fault f => Crash f end.

(** ** Removing the failed hosts *)

(** Bit [mid] of the fault code is set while machine [mid] is alive. *)
Definition SERVER_FAILED (code mid : Z) : bool := Z.land code (u64 (i32 (Z.shiftl 1 mid))) =? 0.

(** The loop erases the element it stands on from the hash set and goes on from
    that element. *)
Definition purge_holders (i : Z) (hs : gset Z) : result (gset Z) :=
  if existsb (fun h => LOCK_HOLDER_HOST h =? i) (elements hs) then Fault FaultDangling else Ok hs.

(** The iterator of a vector is a position: after [erase] it is that of the next
    element, which the increment of the loop then passes over. *)
Fixpoint purge_wqueue (i : Z) (wq : list wqe) : list wqe :=
  match wq with
  | [] => []
  | w :: wq' =>
      if wq_host w =? i then
        match wq' with [] => [] | w' :: wq'' => w' :: purge_wqueue i wq'' end
      else w :: purge_wqueue i wq'
  end.

Definition purge_host (i : Z) (l : innet_lock) : result innet_lock :=
  hs ← purge_holders i (l_holders l);
  Ok (set_wqueue (purge_wqueue i (l_wqueue l)) (set_holders hs l)).

Fixpoint purge_hosts (code : Z) (ids : list Z) (l : innet_lock) : result innet_lock :=
  match ids with
  | [] => Ok l
  | i :: ids' =>
      if SERVER_FAILED code i then l' ← purge_host i l; purge_hosts code ids' l'
      else purge_hosts code ids' l
  end.

(** [for (int i = 0; i < HOST_NUM; i++)] *)
Definition purge (code : Z) (l : innet_lock) : result innet_lock := purge_hosts code (seqZ 0 HOST_NUM) l.

(** ** The integrity check *)

Definition set_lock (h : host) (a : nat) (l : innet_lock) : host :=
  Host (<[a := l]> (h_heap h)) (lock_tbl h) (lock_id_map h) (enb_local_grants h).

(** The pointers of the lock table. *)
Definition table_locks (h : host) : list nat := map snd (map_to_list (lock_tbl h)).

Definition lock_of (h : host) (a : nat) : result innet_lock :=
  match h_heap h !! a with Some l => Ok l | None => Fault FaultNull end.

Section check.
Context (cfg : config) (fault_code : Z).

Definition holder_reqs (l : innet_lock) : list rpc_req :=
  map (fun t => CollectHoldersReq (l_id l) (LOCK_HOLDER (LOCALHOST_ID cfg) t)) (elements (l_local_holders l)).

Definition waiter_reqs (l : innet_lock) : list rpc_req :=
  map (fun w => CollectWaitersReq (l_id l) (LOCK_HOLDER (wq_host w) (wq_task w))) (l_wqueue l).

(** The first scan, for one lock. *)
Definition submit_lock (a : nat) (h : host) : prog host :=
  l <~ pcheck (lock_of h a) ;;
  call_each (holder_reqs l)
    (if l_is_agent l then
       l' <~ pcheck (purge fault_code l) ;;
       call_each (waiter_reqs l') (Done (set_lock h a l'))
     else Done h).

Definition wait_ready : prog unit :=
  Until (RecoveryReadyReq (LOCALHOST_ID cfg) fault_code) (fun r => negb (r_num r =? 0)) (fun _ => Done tt).

(** The holders of a reply, whose array is read up to [extra_num]. *)
Definition extra_holders (r : rpc_reply) : prog (gset Z) :=
  if Z.of_nat (length (r_holders r)) <? r_num r then Crash FaultBounds
  else Done (list_to_set (take (Z.to_nat (r_num r)) (r_holders r))).

(** The second scan, for one lock; the locks this host is the agent of are
    collected. *)
Definition check_lock (a : nat) (s : host * list nat) : prog (host * list nat) :=
  let '(h, lks_w_agt) := s in
  l <~ pcheck (lock_of h a) ;;
  if l_is_agent l then
    Call (CheckHolderReq true (l_id l) (u32 (Z.of_nat (size (l_holders l))))) (fun r =>
      if 0 <? r_num r then
        hs <~ extra_holders r ;;
        Done (set_lock h a (set_holders (l_holders l ∪ hs) l), lks_w_agt ++ [a])
      else Done (h, lks_w_agt ++ [a]))
  else if bool_decide (l_local_holders l = ∅) then Done (h, lks_w_agt)
  else
    Call (CheckHolderReq false (l_id l) 0) (fun r =>
      if 0 <? r_num r then
        hs <~ extra_holders r ;;
        let mode := if 1 <? r_num r then LOCK_SHARED else LOCK_EXCL in
        Done (set_lock h a (set_holders (l_holders l ∪ hs) (set_mode mode (set_is_agent true l))),
              lks_w_agt ++ [a])
      else Done (h, lks_w_agt)).

(** The packets that tell the switch this host's agents. *)
Definition restore_packet (h : host) (a : nat) : prog sent :=
  l <~ pcheck (lock_of h a) ;;
  Done (send_post_acquire (packet_modify cfg) (LOCALHOST_ID cfg) (l_mode l) (l_id l) (LOCALHOST_ID cfg) TASK_FOR_RESTORE).

Definition integrity_check (h : host) : prog (host * list sent) :=
  h1 <~ pfold (table_locks h) submit_lock h ;;
  _ <~ wait_ready ;;
  s <~ pfold (table_locks h) check_lock (h1, []) ;;
  out <~ pfold s.2 (fun a out => m <~ restore_packet s.1 a ;; Done (out ++ [m])) [] ;;
  Done (s.1, out).
End check.

(** ** Detecting a fault *)

Definition CALLER_ACQUIRE_OR_RELEASE : Z := 1.
Definition CALLER_WAIT_FOR_GRANT : Z := 2.

(** Returns 1 when the waiting task has to abort, the fault signal, and what the
    integrity check did. *)
Definition check_error (cfg : config) (caller lid task fault_signal : Z) (h : host) :
    prog (Z * Z * host * list sent) :=
  if fault_signal =? 0 then Done (0, fault_signal, h, [])
  else
    s <~ integrity_check cfg fault_signal h ;;
    if caller =? CALLER_WAIT_FOR_GRANT then
      Until (CheckWaiterReq lid (LOCK_HOLDER (LOCALHOST_ID cfg) task)) (fun r => negb (r_num r =? 2))
        (fun r => Done ((if r_num r =? 1 then 0 else 1), 0, s.1, s.2))
    else Done (0, 0, s.1, s.2).

(** ** The recovery of a cluster *)

Record cluster := Cluster {
  procs : gmap Z (prog (host * list sent));
  coordinator : rpc_server;
}.

(** A step serves the next call of host [h]; the trace records the calls and
    their replies. *)
Definition event : Type := Z * rpc_req * rpc_reply.

Definition rstep (ready_signal h : Z) (s : cluster) : result (cluster * list event) :=
  match procs s !! h with
  | Some (Crash f) => Fault f
  | Some (Call q k) =>
      '(r, c) ← rpc_call ready_signal q (coordinator s);
      Ok (Cluster (<[h := k r]> (procs s)) c, [(h, q, r)])
  | Some (Until q ok k) =>
      '(r, c) ← rpc_call ready_signal q (coordinator s);
      Ok (Cluster (if ok r then <[h := k r]> (procs s) else procs s) c, [(h, q, r)])
  | _ => Ok (s, [])
  end.

Fixpoint rrun (es : list (Z * Z)) (s : cluster) : result (cluster * list event) :=
  match es with
  | [] => Ok (s, [])
  | (ready, h) :: es' =>
      '(s1, t1) ← rstep ready h s;
      '(s2, t2) ← rrun es' s1;
      Ok (s2, t1 ++ t2)
  end.

(** All hosts start their check together. *)
Definition recovering (cfg : Z -> config) (code : Z) (hs : gmap Z host) (c : rpc_server) : cluster :=
  Cluster (map_imap (fun i h => Some (integrity_check (cfg i) code h)) hs) c.
