(* ===== verification/RecoveryProofs.v ===== *)
(** * RecoveryProofs: what a recovery restores, and what it gets wrong

    A host's run is traced as the calls it makes and their replies; from the
    trace follow what the integrity check does to a lock, and from the trace of
    the whole cluster what the coordinator told whom. *)

From stdpp Require Import sorting.
From S2P Require Import Prelude Types Post RpcServer Lock LockApi Recovery.

#[local] Open Scope rpc_scope.

(** ** What a program asks and returns *)

Inductive ptrace {A} : prog A -> list (rpc_req * rpc_reply) -> prog A -> Prop :=
  | pt_nil p : ptrace p [] p
  | pt_call q k r tr p : ptrace (k r) tr p -> ptrace (Call q k) ((q, r) :: tr) p
  | pt_until q (ok : rpc_reply -> bool) k r tr p :
      ptrace (if ok r then k r else Until q ok k) tr p -> ptrace (Until q ok k) ((q, r) :: tr) p.

Abbreviation yields p tr a := (ptrace p tr (Done a)).

Lemma ptrace_app {A} (p q r : prog A) t1 t2 : ptrace p t1 q -> ptrace q t2 r -> ptrace p (t1 ++ t2) r.
Proof. induction 1; intros Hq; [done|constructor; auto..]. Qed.

Lemma yields_bind {A B} (p : prog A) (k : A -> prog B) tr b :
  yields (pbind p k) tr b -> exists t1 t2 a, tr = t1 ++ t2 /\ yields p t1 a /\ yields (k a) t2 b.
Proof.
  revert p. induction tr as [|[q r] tr IH]; intros p.
  - destruct p as [a| | |]; cbn [pbind]; try (intros H; inversion H; fail).
    intros H. exists [], [], a. repeat split; [constructor|done].
  - destruct p as [a| |q' k'|q' ok k']; cbn [pbind]; intros H.
    + exists [], ((q, r) :: tr), a. repeat split; [constructor|done].
    + inversion H.
    + inversion H as [|? ? ? ? ? H'|]; subst. destruct (IH _ H') as (t1 & t2 & a & -> & H1 & H2).
      exists ((q, r) :: t1), t2, a. repeat split; [by constructor|done].
    + inversion H as [| |? ? ? ? ? ? H']; subst.
      assert (H'' : ptrace (pbind (if ok r then k' r else Until q ok k') k) tr (Done b)) by (by destruct (ok r)).
      destruct (IH _ H'') as (t1 & t2 & a & -> & H1 & H2).
      exists ((q, r) :: t1), t2, a. repeat split; [by constructor|done].
Qed.

Lemma yields_done {A} (a b : A) tr : yields (Done a) tr b -> tr = [] /\ b = a.
Proof. intros H. inversion H. by subst. Qed.

Lemma yields_pcheck {A} (r : result A) tr a : yields (pcheck r) tr a -> tr = [] /\ r = Ok a.
Proof. destruct r; cbn; [by intros [-> ->]%yields_done|intros H; inversion H]. Qed.

Lemma yields_call {A} q (k : rpc_reply -> prog A) tr a :
  yields (Call q k) tr a -> exists r tr', tr = (q, r) :: tr' /\ yields (k r) tr' a.
Proof. intros H. inversion H; subst. eauto. Qed.

Lemma yields_call_each {A} l (p : prog A) tr a :
  yields (call_each l p) tr a -> exists t1 t2, tr = t1 ++ t2 /\ yields p t2 a.
Proof.
  revert tr. induction l as [|q l IH]; intros tr H; [by exists [], tr|].
  apply yields_call in H as (r & tr' & -> & H). destruct (IH _ H) as (t1 & t2 & -> & H2).
  by exists ((q, r) :: t1), t2.
Qed.

(** ** What the integrity check does to a lock *)

Section results.
Context (cfg : config) (fault_code : Z).

(** The lock after its agent is restored from a reply. *)
Definition restored (l : innet_lock) (r : rpc_reply) : innet_lock :=
  set_holders (l_holders l ∪ list_to_set (take (Z.to_nat (r_num r)) (r_holders r)))
    (set_mode (if 1 <? r_num r then LOCK_SHARED else LOCK_EXCL) (set_is_agent true l)).

Definition restoring (lid : Z) (r : rpc_reply) (tr : list (rpc_req * rpc_reply)) : Prop :=
  (CheckHolderReq false lid 0, r) ∈ tr /\ 0 < r_num r <= Z.of_nat (length (r_holders r)).

(** A lock that is not this host's: it is left alone or its agent restored. *)
Definition unmanaged_post (h h' : host) (tr : list (rpc_req * rpc_reply)) : Prop :=
  forall a l, h_heap h !! a = Some l -> l_is_agent l = false ->
    exists l', h_heap h' !! a = Some l' /\ (l' = l \/ exists r, restoring (l_id l) r tr /\ l' = restored l r).

Lemma lock_of_eq h a l : lock_of h a = Ok l -> h_heap h !! a = Some l.
Proof using. unfold lock_of. destruct (h_heap h !! a); [by intros [= ->]|done]. Qed.

Lemma set_lock_same h a l l' : h_heap h !! a = Some l' -> h_heap (set_lock h a l) !! a = Some l.
Proof using. intros E. apply list_lookup_insert_eq. by eapply lookup_lt_Some. Qed.

Lemma set_lock_other h a b l : a <> b -> h_heap (set_lock h a l) !! b = h_heap h !! b.
Proof using. intros Hne. by apply list_lookup_insert_ne. Qed.

(** Locks that are not this host's are not changed by the first scan. *)
Lemma submit_lock_post a h tr h' :
  yields (submit_lock cfg fault_code a h) tr h' ->
  forall b l, h_heap h !! b = Some l -> l_is_agent l = false -> h_heap h' !! b = Some l.
Proof using.
  unfold submit_lock. intros (t1 & t2 & l & -> & [-> El%lock_of_eq]%yields_pcheck & H)%yields_bind.
  apply yields_call_each in H as (t3 & t4 & -> & H). intros b lb Eb Hb.
  destruct (l_is_agent l) eqn:Ea; [|by apply yields_done in H as [_ ->]].
  apply yields_bind in H as (t5 & t6 & l' & -> & [-> _]%yields_pcheck & H).
  apply yields_call_each in H as (t7 & t8 & -> & [_ ->]%yields_done).
  destruct (decide (a = b)) as [->|Hne]; [congruence|]. by rewrite set_lock_other.
Qed.

Lemma submit_all_post as_ h tr h' :
  yields (pfold as_ (submit_lock cfg fault_code) h) tr h' ->
  forall b l, h_heap h !! b = Some l -> l_is_agent l = false -> h_heap h' !! b = Some l.
Proof using.
  revert h tr. induction as_ as [|a as_ IH]; intros h tr; cbn [pfold]; [by intros [_ ->]%yields_done|].
  intros (t1 & t2 & h1 & -> & H1 & H2)%yields_bind b l Eb Hb.
  by apply (IH _ _ H2 b l (submit_lock_post _ _ _ _ H1 b l Eb Hb)).
Qed.

Lemma yields_extra r tr hs :
  yields (extra_holders r) tr hs ->
  tr = [] /\ r_num r <= Z.of_nat (length (r_holders r)) /\ hs = list_to_set (take (Z.to_nat (r_num r)) (r_holders r)).
Proof using.
  unfold extra_holders. destruct (Z.ltb_spec (Z.of_nat (length (r_holders r))) (r_num r)); intros H'; [inversion H'|].
  by apply yields_done in H' as [-> ->].
Qed.

Lemma check_lock_post a h acc tr s :
  yields (check_lock a (h, acc)) tr s ->
  (forall b, b <> a -> h_heap s.1 !! b = h_heap h !! b) /\
  (forall l, h_heap h !! a = Some l -> l_is_agent l = false ->
    exists l', h_heap s.1 !! a = Some l' /\ (l' = l \/ exists r, restoring (l_id l) r tr /\ l' = restored l r)).
Proof using.
  unfold check_lock. intros (t1 & t2 & l & -> & [-> El%lock_of_eq]%yields_pcheck & H)%yields_bind. cbn [app].
  destruct (l_is_agent l) eqn:Ea.
  - apply yields_call in H as (r & t3 & -> & H). split; [|intros; congruence].
    destruct (0 <? r_num r); [|by apply yields_done in H as [_ ->]].
    apply yields_bind in H as (t4 & t5 & hs & -> & _ & [_ ->]%yields_done). intros b Hb.
    by apply set_lock_other.
  - case_bool_decide.
    { apply yields_done in H as [_ ->]. split; [done|]. intros l' El' _. exists l. split; [done|]. left. congruence. }
    apply yields_call in H as (r & t3 & -> & H). destruct (Z.ltb_spec 0 (r_num r)).
    + apply yields_bind in H as (t4 & t5 & hs & -> & (-> & Hlen & ->)%yields_extra & [-> ->]%yields_done).
      split; [intros b Hb; by apply set_lock_other|]. intros l' El' _. assert (l' = l) as -> by congruence.
      exists (restored l r). split; [by eapply set_lock_same|]. right. exists r. split; [|done].
      split; [by left|done].
    + apply yields_done in H as [_ ->]. split; [done|]. intros l' El' _. exists l. split; [done|]. left. congruence.
Qed.

Lemma restoring_app lid r t1 t2 : restoring lid r t1 \/ restoring lid r t2 -> restoring lid r (t1 ++ t2).
Proof using. unfold restoring. rewrite elem_of_app. tauto. Qed.

Lemma check_all_post as_ h acc tr s :
  NoDup as_ -> yields (pfold as_ check_lock (h, acc)) tr s ->
  (forall b, b ∉ as_ -> h_heap s.1 !! b = h_heap h !! b) /\ unmanaged_post h s.1 tr.
Proof using.
  intros Hnd. revert h acc tr. induction Hnd as [|a as_ Ha Hnd IH]; intros h acc tr; cbn [pfold].
  { intros [_ ->]%yields_done. split; [done|]. intros a l El _. exists l. auto. }
  intros (t1 & t2 & [h1 acc1] & -> & H1 & H2)%yields_bind.
  destruct (check_lock_post _ _ _ _ _ H1) as [Ho Hs]. destruct (IH _ _ _ H2) as [Ho2 Hp]. cbn [fst] in *. split.
  - intros b Hb. rewrite Ho2 by set_solver. apply Ho. set_solver.
  - intros b l Eb Hl. destruct (decide (b = a)) as [->|Hne].
    + destruct (Hs l Eb Hl) as (l' & El' & Hc). exists l'. split; [by rewrite Ho2|].
      destruct Hc as [->|(r & Hr & ->)]; [by left|right]. exists r. split; [|done]. apply restoring_app. by left.
    + destruct (Hp b l) as (l' & El' & Hc); [by rewrite Ho|done|]. exists l'. split; [done|].
      destruct Hc as [->|(r & Hr & ->)]; [by left|right]. exists r. split; [|done]. apply restoring_app. by right.
Qed.

Lemma integrity_check_post h tr h' out :
  NoDup (table_locks h) -> yields (integrity_check cfg fault_code h) tr (h', out) -> unmanaged_post h h' tr.
Proof using.
  intros Hnd. unfold integrity_check.
  intros (t1 & t2 & h1 & -> & H1 & H)%yields_bind. apply yields_bind in H as (t3 & t4 & [] & -> & H3 & H).
  apply yields_bind in H as (t5 & t6 & s & -> & H5 & H). apply yields_bind in H as (t7 & t8 & out' & -> & _ & H).
  apply yields_done in H as [-> [= -> ->]]. destruct (check_all_post _ _ _ _ _ Hnd H5) as [_ Hp].
  intros a l El Hl. pose proof (submit_all_post _ _ _ _ H1 a l El Hl) as El1.
  destruct (Hp a l El1 Hl) as (l' & El' & Hc). exists l'. split; [done|].
  destruct Hc as [->|(r & Hr & ->)]; [by left|right]. exists r. split; [|done].
  do 2 (apply restoring_app; right). apply restoring_app. by left.
Qed.
End results.

(** The pointers of a well-formed table are distinct. *)
Lemma table_locks_nodup h :
  map_Forall (fun k a => exists l, h_heap h !! a = Some l /\ l_key l = k) (lock_tbl h) -> NoDup (table_locks h).
Proof.
  intros Hw. unfold table_locks. apply (NoDup_fmap_2_strong snd); [|apply NoDup_map_to_list].
  intros [k1 a1] [k2 a2] H1%elem_of_map_to_list H2%elem_of_map_to_list. cbn [snd]. intros ->.
  destruct (Hw _ _ H1) as (l1 & E1 & <-). destruct (Hw _ _ H2) as (l2 & E2 & <-). congruence.
Qed.

(** ** The coordinator's side of a run *)

(** The lock whose agent a reply restores. *)
Definition restore_of (e : event) : option Z :=
  match e with
  | (_, CheckHolderReq false lid _, r) => if 0 <? r_num r then Some lid else None
  | _ => None
  end.

Definition op_of (ready_signal : Z) (q : rpc_req) : rpc_op :=
  match q with
  | CollectHoldersReq lid h => CollectHolders lid h
  | CollectWaitersReq lid w => CollectWaiters lid w
  | CheckWaiterReq lid w => CheckWaiter lid w
  | CheckHolderReq ag lid n => CheckHolder ag lid n
  | RecoveryReadyReq mid code => RecoveryReady ready_signal mid code
  end.

Lemma rpc_call_handle ready h q c r c' :
  rpc_call ready q c = Ok (r, c') ->
  handle (op_of ready q) c = Ok (match restore_of (h, q, r) with Some lid => [lid] | None => [] end, c').
Proof.
  destruct q as [lid x|lid x|lid x|ag lid n|mid code]; cbn [rpc_call op_of handle restore_of].
  - destruct (collect_holders lid x c); by intros [= <- <-].
  - destruct (collect_waiters lid x c); by intros [= <- <-].
  - destruct (check_waiter lid x c); by intros [= <- <-].
  - unfold mbind, result_bind. destruct (check_holder ag lid n c) as [[[k hs] s']|]; [|done]. intros [= <- <-].
    destruct ag; cbn [negb andb r_num]; [done|]. by destruct (0 <? k).
  - destruct (recovery_ready ready mid code c); by intros [= <- <-].
Qed.

Lemma rstep_event ready h s s' t :
  rstep ready h s = Ok (s', t) ->
  t = [] /\ s' = s \/
  exists q r, t = [(h, q, r)] /\ rpc_call ready q (coordinator s) = Ok (r, coordinator s') /\
    (forall h', h' <> h -> procs s' !! h' = procs s !! h') /\
    exists p p', procs s !! h = Some p /\ procs s' !! h = Some p' /\ ptrace p [(q, r)] p'.
Proof.
  unfold rstep, mbind, result_bind. destruct (procs s !! h) as [[x|f|q k|q ok k]|] eqn:E; try done;
    try (intros [= <- <-]; by left); intros H; right.
  - destruct (rpc_call ready q (coordinator s)) as [[r c]|] eqn:Ec; [|done]. injection H as <- <-.
    exists q, r. cbn [coordinator procs]. split_and!; [done|done|intros h' Hne; by apply lookup_insert_ne|].
    exists (Call q k), (k r). rewrite lookup_insert_eq. split_and!; [done|done|]. constructor. constructor.
  - destruct (rpc_call ready q (coordinator s)) as [[r c]|] eqn:Ec; [|done]. injection H as <- <-.
    exists q, r. cbn [coordinator procs]. split; [done|]. split; [done|].
    assert (Hp : forall p', p' = (if ok r then k r else Until q ok k) -> ptrace (Until q ok k) [(q, r)] p').
    { intros p' ->. constructor. constructor. }
    split; [intros h' Hne; destruct (ok r); [by apply lookup_insert_ne|done]|].
    exists (Until q ok k), (if ok r then k r else Until q ok k). split; [done|]. split; [|by apply Hp].
    destruct (ok r); [by rewrite lookup_insert_eq|done].
Qed.

(** The calls of one host in a run. *)
Definition calls_of (h : Z) (tr : list event) : list (rpc_req * rpc_reply) :=
  omap (fun e : event => let '(i, q, r) := e in if i =? h then Some (q, r) else None) tr.

Lemma elem_of_calls h q r tr : (q, r) ∈ calls_of h tr -> (h, q, r) ∈ tr.
Proof.
  unfold calls_of. rewrite list_elem_of_omap. intros ([[i q'] r'] & Hin & E).
  destruct (Z.eqb_spec i h) as [->|]; [by injection E as -> ->|done].
Qed.

Lemma rrun_calls es s s' tr h p :
  rrun es s = Ok (s', tr) -> procs s !! h = Some p ->
  exists p', procs s' !! h = Some p' /\ ptrace p (calls_of h tr) p'.
Proof.
  revert s tr p. induction es as [|[ready i] es IH]; intros s tr p; cbn [rrun].
  { intros [= <- <-] E. exists p. split; [done|constructor]. }
  unfold mbind, result_bind. destruct (rstep ready i s) as [[s1 t1]|] eqn:E1; [|done].
  destruct (rrun es s1) as [[s2 t2]|] eqn:E2; [|done]. intros [= <- <-] E.
  destruct (rstep_event _ _ _ _ _ E1) as [[-> ->]|(q & r & -> & _ & Ho & p0 & p1 & H0 & H1 & Hp)].
  - apply (IH s t2 p E2 E).
  - unfold calls_of. rewrite omap_app. cbn [omap list_omap]. destruct (Z.eqb_spec i h) as [->|Hne].
    + assert (p0 = p) as -> by congruence. destruct (IH _ _ _ E2 H1) as (p' & Ep & Hp').
      exists p'. split; [done|]. by apply (ptrace_app _ _ _ [(q, r)] _ Hp).
    + apply (IH _ _ _ E2). by rewrite Ho.
Qed.

Lemma rrun_handle es s s' tr :
  rrun es s = Ok (s', tr) ->
  exists os, handle_all os (coordinator s) = Ok (omap restore_of tr, coordinator s').
Proof.
  revert s tr. induction es as [|[ready i] es IH]; intros s tr; cbn [rrun].
  { intros [= <- <-]. by exists []. }
  unfold mbind, result_bind. destruct (rstep ready i s) as [[s1 t1]|] eqn:E1; [|done].
  destruct (rrun es s1) as [[s2 t2]|] eqn:E2; [|done]. intros [= <- <-].
  destruct (IH _ _ E2) as (os & Eos).
  destruct (rstep_event _ _ _ _ _ E1) as [[-> ->]|(q & r & -> & Ec & _)]; [by exists os|].
  exists (op_of ready q :: os). cbn [handle_all]. rewrite (rpc_call_handle ready i q _ _ _ Ec).
  cbn [mbind result_bind]. rewrite Eos. cbn [omap list_omap app]. by destruct (restore_of (i, q, r)).
Qed.

(** The holders of a lock submitted in a run. *)
Definition submitted (lid : Z) (tr : list event) : gset Z :=
  list_to_set (omap (fun e : event =>
    match e with (_, CollectHoldersReq l h, _) => if l =? lid then Some h else None | _ => None end) tr).

Definition collected (lid : Z) (c : rpc_server) : gset Z := holders (lm_at lid c).

Lemma submitted_app lid t1 t2 : submitted lid (t1 ++ t2) = submitted lid t1 ∪ submitted lid t2.
Proof. unfold submitted. by rewrite omap_app, list_to_set_app_L. Qed.

Lemma collected_set lid lid' d c : holders d = collected lid' c -> collected lid (set_lm lid' d c) = collected lid c.
Proof. intros E. unfold collected. rewrite lm_at_set. case_decide; [subst lid'; by rewrite E|done]. Qed.

Lemma in_order_set (X : gset Z) : list_to_set (in_order X) = X.
Proof. unfold in_order. apply set_eq. intros x. rewrite elem_of_list_to_set, (merge_sort_Permutation Z.le). set_solver. Qed.

Lemma check_holder_reply ag lid n c k hs c' :
  check_holder ag lid n c = Ok (k, hs, c') ->
  (forall l, collected l c' = collected l c) /\
  (ag = false -> 0 < k -> hs = in_order (collected lid c) /\ k = Z.of_nat (length hs)).
Proof.
  unfold check_holder. set (d := lm_at lid c). set (c1 := set_lm lid d c).
  assert (H1 : forall l, collected l c1 = collected l c) by (intros l; by apply collected_set).
  destruct ag.
  - destruct (n <? _); [|intros [= _ _ <-]; split; [done|done]].
    destruct (MAX_HOLDERS <? _); [intros [= _ _ <-]; by split|].
    unfold mbind, result_bind. destruct (fill_holders _) as [[fk fh]|]; [intros [= _ _ <-]; by split|done].
  - destruct (has_agent d); cbn [negb]; [intros [= <- _ <-]; split; [done|intros _ Hk; exfalso; lia]|].
    destruct (0 <? _); [|intros [= <- _ <-]; split; [done|intros _ Hk; exfalso; lia]].
    unfold mbind, result_bind. destruct (fill_holders (in_order (holders d))) as [[fk fh]|] eqn:Ef; [|done].
    intros [= <- <- <-]. apply fill_holders_ok in Ef as [-> Hl]. split.
    + intros l. rewrite collected_set; [apply H1|]. cbn [holders]. symmetry. apply H1.
    + intros _ _. split; [done|]. unfold in_order in *. rewrite (merge_sort_Permutation Z.le) in Hl.
      rewrite (merge_sort_Permutation Z.le). change (length (elements (holders d))) with (size (holders d)) in *.
      apply sw_small; lia.
Qed.

Lemma rpc_call_collected ready h q c r c' lid :
  rpc_call ready q c = Ok (r, c') ->
  collected lid c' = collected lid c ∪ submitted lid [(h, q, r)] /\
  (forall n, q = CheckHolderReq false lid n -> 0 < r_num r ->
    r_holders r = in_order (collected lid c) /\ r_num r = Z.of_nat (length (r_holders r))).
Proof.
  unfold submitted. destruct q as [l x|l x|l x|ag l n|mid code]; cbn [rpc_call omap list_omap].
  - unfold collect_holders. intros [= <- <-]. split; [|done]. unfold collected. rewrite lm_at_set.
    destruct (Z.eqb_spec l lid) as [->|Hne]; case_decide; try congruence; cbn [holders]; set_solver.
  - unfold collect_waiters. intros [= <- <-]. split; [|done]. rewrite collected_set by done. set_solver.
  - unfold check_waiter. destruct (_ || _); [intros [= <- <-]; split; [set_solver|done]|]. cbv zeta.
    assert (E : collected lid (set_lm l (lm_at l c) c) = collected lid c) by (by apply collected_set).
    destruct (has_agent _); intros [= <- <-]; (split; [rewrite E; set_solver|done]).
  - unfold mbind, result_bind. destruct (check_holder ag l n c) as [[[k hs] s']|] eqn:E; [|done].
    intros [= <- <-]. destruct (check_holder_reply _ _ _ _ _ _ _ E) as [H1 H2]. split; [rewrite H1; set_solver|].
    intros n' [= -> -> ->]. cbn [r_num r_holders]. by apply H2.
  - unfold recovery_ready. intros [= <- <-]. split; [|done]. unfold collected, lm_at. cbn [lm_state]. set_solver.
Qed.

(** A reply that restores an agent has the holders submitted so far. *)
Lemma rrun_restore_holders es s s' tr i lid n r :
  rrun es s = Ok (s', tr) -> (i, CheckHolderReq false lid n, r) ∈ tr -> 0 < r_num r ->
  exists t1 t2, tr = t1 ++ (i, CheckHolderReq false lid n, r) :: t2 /\
    r_holders r = in_order (collected lid (coordinator s) ∪ submitted lid t1) /\
    r_num r = Z.of_nat (length (r_holders r)).
Proof.
  revert s tr. induction es as [|[ready j] es IH]; intros s tr; cbn [rrun].
  { intros [= <- <-] H. by apply elem_of_nil in H. }
  unfold mbind, result_bind. destruct (rstep ready j s) as [[s1 t1]|] eqn:E1; [|done].
  destruct (rrun es s1) as [[s2 t2]|] eqn:E2; [|done]. intros [= <- <-] Hin Hr.
  destruct (rstep_event _ _ _ _ _ E1) as [[-> ->]|(q & r1 & -> & Ec & _)]; [by apply (IH s t2 E2)|].
  apply elem_of_app in Hin as [Hin|Hin].
  - apply list_elem_of_singleton in Hin as [= <- <- <-]. exists [], t2. split; [done|].
    destruct (rpc_call_collected _ i _ _ _ _ lid Ec) as [_ H]. destruct (H n eq_refl Hr) as [H1 H2]. split; [|done].
    rewrite H1. f_equal. unfold submitted. set_solver.
  - destruct (IH _ _ E2 Hin Hr) as (u1 & u2 & -> & Eh & En). exists ([(j, q, r1)] ++ u1), u2.
    split; [done|]. split; [|done]. destruct (rpc_call_collected _ j _ _ _ _ lid Ec) as [H _].
    rewrite Eh, H, submitted_app. f_equal. set_solver.
Qed.

Lemma omap_nodup_inj {A B} (f : A -> option B) l x y b :
  NoDup (omap f l) -> x ∈ l -> y ∈ l -> f x = Some b -> f y = Some b -> x = y.
Proof.
  intros Hnd Hx Hy Ex Ey. induction l as [|z l IH]; [by apply elem_of_nil in Hx|].
  cbn [omap list_omap] in Hnd. rewrite elem_of_cons in Hx, Hy.
  assert (Hb : forall w, w ∈ l -> f w = Some b -> b ∈ omap f l) by (intros w Hw Ew; apply list_elem_of_omap; eauto).
  destruct (f z) as [b'|] eqn:Ez; [apply list.NoDup_cons in Hnd as [Hn Hnd]|].
  - destruct Hx as [->|Hx], Hy as [->|Hy]; auto.
    + assert (b' = b) as -> by congruence. by destruct Hn; apply (Hb y).
    + assert (b' = b) as -> by congruence. by destruct Hn; apply (Hb x).
  - destruct Hx as [->|Hx]; [congruence|]. destruct Hy as [->|Hy]; [congruence|auto].
Qed.

(** ** Restored agents *)

(** Host [i] restored the agent of the lock object [l], now [l']. *)
Definition restored_at (hs : gmap Z host) (s : cluster) (i : Z) (l l' : innet_lock) : Prop :=
  exists h h' out a, hs !! i = Some h /\ h_heap h !! a = Some l /\ l_is_agent l = false /\
    procs s !! i = Some (Done (h', out)) /\ h_heap h' !! a = Some l' /\ l_is_agent l' = true.

Definition tables_wf (hs : gmap Z host) : Prop :=
  map_Forall (fun _ h => map_Forall (fun k a => exists l, h_heap h !! a = Some l /\ l_key l = k) (lock_tbl h)) hs.

Lemma restored_at_event cfg code hs c es s tr i l l' :
  tables_wf hs -> rrun es (recovering cfg code hs c) = Ok (s, tr) -> restored_at hs s i l l' ->
  exists r, (i, CheckHolderReq false (l_id l) 0, r) ∈ tr /\ 0 < r_num r /\ l' = restored l r.
Proof.
  intros Hw Hr (h & h' & out & a & Eh & El & Hl & Ep & El' & Hl').
  assert (Ep0 : procs (recovering cfg code hs c) !! i = Some (integrity_check (cfg i) code h)).
  { cbn [recovering procs]. rewrite map_lookup_imap, Eh. done. }
  destruct (rrun_calls _ _ _ _ _ _ Hr Ep0) as (p & Ep' & Hp). rewrite Ep in Ep'. injection Ep' as <-.
  destruct (integrity_check_post _ _ _ _ _ _ (table_locks_nodup _ (Hw _ _ Eh)) Hp a l El Hl) as (l1 & El1 & Hc).
  assert (l1 = l') as -> by congruence. destruct Hc as [->|(r & [Hin Hn] & ->)]; [congruence|].
  exists r. split; [by apply elem_of_calls|]. split; [lia|done].
Qed.

(** C19: what a recovery restores. However the calls of the recovering hosts
    interleave, each lock's agent is restored by at most one host, and the
    restored agent's holders are those it knew and exactly the holders that any
    host had submitted to the coordinator before it asked; its mode is shared
    when these are several. *)
Theorem restored_agents cfg code hs c es s tr :
  tables_wf hs -> rrun es (recovering cfg code hs c) = Ok (s, tr) ->
  (forall i j l1 l1' l2 l2', restored_at hs s i l1 l1' -> restored_at hs s j l2 l2' -> l_id l1 = l_id l2 -> i = j) /\
  (forall i l l', restored_at hs s i l l' ->
    exists t1 t2 r, tr = t1 ++ (i, CheckHolderReq false (l_id l) 0, r) :: t2 /\
      let X := collected (l_id l) c ∪ submitted (l_id l) t1 in
      l_holders l' = l_holders l ∪ X /\ l_mode l' = if 1 <? Z.of_nat (size X) then LOCK_SHARED else LOCK_EXCL).
Proof.
  intros Hw Hr. split.
  - intros i j l1 l1' l2 l2' H1 H2 E. destruct (restored_at_event _ _ _ _ _ _ _ _ _ _ Hw Hr H1) as (r1 & Hin1 & Hn1 & _).
    destruct (restored_at_event _ _ _ _ _ _ _ _ _ _ Hw Hr H2) as (r2 & Hin2 & Hn2 & _).
    destruct (rrun_handle _ _ _ _ Hr) as (os & Eos). destruct (handle_all_agents _ _ _ _ Eos) as (Hnd & _).
    assert (Heq : (i, CheckHolderReq false (l_id l1) 0, r1) = (j, CheckHolderReq false (l_id l2) 0, r2)).
    { apply (omap_nodup_inj restore_of tr _ _ (l_id l1) Hnd Hin1 Hin2); cbn [restore_of].
      - by rewrite (proj2 (Z.ltb_lt _ _) Hn1).
      - by rewrite (proj2 (Z.ltb_lt _ _) Hn2), E. }
    by injection Heq.
  - intros i l l' H. destruct (restored_at_event _ _ _ _ _ _ _ _ _ _ Hw Hr H) as (r & Hin & Hn & ->).
    destruct (rrun_restore_holders _ _ _ _ _ _ _ _ Hr Hin Hn) as (t1 & t2 & -> & Eh & En).
    exists t1, t2, r. split; [done|]. cbn [recovering coordinator] in Eh. cbv zeta. unfold restored.
    cbn [l_holders set_holders l_mode set_mode set_is_agent].
    rewrite En, Nat2Z.id, take_ge, Eh, in_order_set by done. split; [done|].
    unfold in_order. by rewrite (merge_sort_Permutation Z.le).
Qed.

(** Hosts 2 and 3 hold a lock in shared mode whose agent was on the failed
    host 1. *)
Definition lost_lock (t : Z) : innet_lock :=
  set_local_holders {[ t ]} (new_innet_lock 5 5).
Definition lone_host (l : innet_lock) : host := Host [l] {[ 5 := 0%nat ]} {[ 5 := 0%nat ]} true.

Definition cfg0 (i : Z) : config := Config i None None false false.
Definition survivors : gmap Z host := {[ 2 := lone_host (lost_lock 10); 3 := lone_host (lost_lock 11) ]}.

(** Machine 1 is dead, the switch and the others are alive. *)
Definition code0 : Z := 509.
Definition schedule0 : list (Z * Z) := [(1, 2); (1, 3); (1, 2); (1, 3); (1, 3); (1, 2)].

Lemma survivors_wf : tables_wf survivors.
Proof.
  intros i h Hi. unfold survivors in Hi.
  apply lookup_insert_Some in Hi as [[_ <-]|[_ [_ <-]%lookup_singleton_Some]];
    intros k a Hk; cbn [lone_host lock_tbl] in Hk; apply lookup_singleton_Some in Hk as [<- <-];
    eexists; split; reflexivity.
Qed.

Lemma restored_agents_witness :
  exists s tr, rrun schedule0 (recovering cfg0 code0 survivors rpc_server_init) = Ok (s, tr) /\
  (forall i j l1 l1' l2 l2', restored_at survivors s i l1 l1' -> restored_at survivors s j l2 l2' ->
    l_id l1 = l_id l2 -> i = j) /\
  (forall i l l', restored_at survivors s i l l' ->
    exists t1 t2 r, tr = t1 ++ (i, CheckHolderReq false (l_id l) 0, r) :: t2 /\
      let X := collected (l_id l) rpc_server_init ∪ submitted (l_id l) t1 in
      l_holders l' = l_holders l ∪ X /\ l_mode l' = if 1 <? Z.of_nat (size X) then LOCK_SHARED else LOCK_EXCL).
Proof.
  destruct (rrun schedule0 (recovering cfg0 code0 survivors rpc_server_init)) as [[s tr]|] eqn:E; [|by vm_compute in E].
  exists s, tr. split; [done|].
  exact (restored_agents cfg0 code0 survivors rpc_server_init schedule0 s tr survivors_wf E).
Defined.

(** ** Where the recovery goes wrong *)

(** The agent of the lock is alive on host 2 and knows both holders; nobody
    waits. *)
Definition alive_agent : innet_lock :=
  set_is_agent true (set_mode LOCK_SHARED
    (set_holders {[ LOCK_HOLDER 2 10; LOCK_HOLDER 3 11 ]} (lost_lock 10))).
Definition agent_survives : gmap Z host := {[ 2 := lone_host alive_agent; 3 := lone_host (lost_lock 11) ]}.

(** The lock object of a host that has finished. *)
Definition final_lock (s : cluster) (i : Z) : option innet_lock :=
  match procs s !! i with Some (Done (h, _)) => h_heap h !! 0%nat | _ => None end.

(** C35: the recovery can give a lock two agents. The coordinator learns that a
    lock has an agent from the waiters the agent submits, so for a lock without
    waiters whose agent is alive a host that holds it is told to restore the
    agent: both hosts end as agents with the same holders. *)
Theorem recovery_two_agents :
  exists s tr l2 l3,
    rrun schedule0 (recovering cfg0 code0 agent_survives rpc_server_init) = Ok (s, tr) /\
    final_lock s 2 = Some l2 /\ final_lock s 3 = Some l3 /\
    l_is_agent l2 = true /\ l_is_agent l3 = true /\ l_holders l2 = l_holders l3.
Proof.
  assert (H : match rrun schedule0 (recovering cfg0 code0 agent_survives rpc_server_init) with
    | Ok (s, _) => match final_lock s 2, final_lock s 3 with
        | Some l2, Some l3 => l_is_agent l2 && l_is_agent l3 && bool_decide (l_holders l2 = l_holders l3)
        | _, _ => false end
    | Fault _ => false end = true) by (vm_compute; reflexivity).
  destruct (rrun schedule0 _) as [[s tr]|]; [|done]. exists s, tr.
  destruct (final_lock s 2) as [l2|]; [|done]. destruct (final_lock s 3) as [l3|]; [|done].
  exists l2, l3. bprop. by split_and!.
Qed.

(** Host 2 runs before host 3 has submitted anything. *)
Definition schedule1 : list (Z * Z) := [(1, 2); (1, 2); (1, 2); (1, 3); (1, 3); (1, 3)].

(** The recovery can lose a holder. The barrier does not wait for the other
    machines, so a host that is ahead restores the agent from its own holders
    alone: two hosts hold the lock in shared mode, and the agent takes the lock
    for exclusive with one holder. *)
Theorem recovery_misses_holder :
  exists s tr l2,
    rrun schedule1 (recovering cfg0 code0 survivors rpc_server_init) = Ok (s, tr) /\
    final_lock s 2 = Some l2 /\ l_is_agent l2 = true /\ l_mode l2 = LOCK_EXCL /\
    l_holders l2 = {[ LOCK_HOLDER 2 10 ]} /\
    exists l3, final_lock s 3 = Some l3 /\ l_is_agent l3 = false /\ l_local_holders l3 = {[ 11 ]}.
Proof.
  assert (H : match rrun schedule1 (recovering cfg0 code0 survivors rpc_server_init) with
    | Ok (s, _) => match final_lock s 2, final_lock s 3 with
        | Some l2, Some l3 => l_is_agent l2 && ls_eqb (l_mode l2) LOCK_EXCL &&
            bool_decide (l_holders l2 = {[ LOCK_HOLDER 2 10 ]}) && negb (l_is_agent l3) &&
            bool_decide (l_local_holders l3 = {[ 11 ]})
        | _, _ => false end
    | Fault _ => false end = true) by (vm_compute; reflexivity).
  destruct (rrun schedule1 _) as [[s tr]|]; [|done]. exists s, tr.
  destruct (final_lock s 2) as [l2|]; [|done]. destruct (final_lock s 3) as [l3|]; [|done]. bprop.
  assert (l_mode l2 = LOCK_EXCL) by (by destruct (l_mode l2)). exists l2. split_and!; try done. by exists l3.
Qed.

(** An agent that has a holder on a failed host cannot purge it: the loop goes on
    from an erased element. *)
Theorem purge_faults code l i x :
  0 <= i < HOST_NUM -> SERVER_FAILED code i = true -> x ∈ l_holders l -> LOCK_HOLDER_HOST x = i ->
  purge code l = Fault FaultDangling.
Proof.
  intros Hi Hf Hx Ei. unfold purge. assert (Hin : i ∈ seqZ 0 HOST_NUM) by (apply elem_of_seqZ; lia).
  clear Hi. revert l Hx. generalize dependent (seqZ 0 HOST_NUM). intros js Hin. induction js as [|j js IH]; intros l Hx; [by apply elem_of_nil in Hin|].
  cbn [purge_hosts]. rewrite elem_of_cons in Hin.
  assert (Hp : forall k, purge_host k l = Fault FaultDangling /\ True \/
    existsb (fun h => LOCK_HOLDER_HOST h =? k) (elements (l_holders l)) = false /\
    exists l', purge_host k l = Ok l' /\ l_holders l' = l_holders l).
  { intros k. unfold purge_host, purge_holders. destruct (existsb _ _) eqn:E; [by left|right]. split; [done|].
    eexists. by split. }
  destruct Hin as [<-|Hin].
  - rewrite Hf. destruct (Hp i) as [[-> _]|[E _]]; [done|]. exfalso.
    assert (Ht : existsb (fun h => LOCK_HOLDER_HOST h =? i) (elements (l_holders l)) = true); [|congruence].
    apply existsb_exists. exists x. split; [by apply list_elem_of_In, elem_of_elements|by apply Z.eqb_eq].
  - destruct (SERVER_FAILED code j); [|by apply IH]. destruct (Hp j) as [[-> _]|(_ & l' & -> & E)]; [done|].
    cbn [mbind result_bind]. apply IH; [done|]. by rewrite E.
Qed.

(** Of two successive waiters of a failed host the second stays. *)
Lemma purge_skips i w1 w2 wq :
  wq_host w1 = i -> purge_wqueue i (w1 :: w2 :: wq) = w2 :: purge_wqueue i wq.
Proof. intros E. cbn [purge_wqueue]. by rewrite E, Z.eqb_refl. Qed.
