(* ===== verification/Tpcc.v ===== *)
(** * Tpcc: the generator of TPC-C lock traces

    Models experiments/trace_gen/tpcc_trace_gen.  A transaction draws random
    numbers and appends its lock requests to a vector; here the requests are the
    events of a monad whose state is the generator's seed and the four static
    counters.  The C function rand_r is a parameter.  The two operands of the
    bitwise or in NURAND are drawn from left to right.  The loops that draw until
    a number is new have a bound, the index [fuel]. *)

From S2P Require Import Prelude Types LockApi Lock.

#[local] Open Scope prog_scope.

(** ** Constants (tpcc_lock_gen.h) *)

Definition MACHINE_NUM : Z := 8.
Definition WPM : Z := 1200.

Definition NUM_DISTRICT : Z := 10.
Definition NUM_CUSTOMER : Z := 30000.
Definition NUM_STOCK : Z := 100000.
Definition NUM_ITEM : Z := 100000.
Definition CPD : Z := NUM_CUSTOMER / NUM_DISTRICT.

Definition NUM_WAREHOUSE_LOCK : Z := 1.
Definition NUM_DISTRICT_LOCK : Z := 10.
Definition NUM_ORDER_LOCK : Z := 10.
Definition NUM_NEW_ORDER_LOCK : Z := 10.
Definition NUM_HISTORY_LOCK : Z := 10.
Definition NUM_ORDER_LINE_LOCK : Z := 10.
Definition NUM_ITEM_LOCK : Z := 10.
Definition NUM_CUSTOMER_LOCK : Z := 30.
Definition NUM_STOCK_LOCK : Z := 30.

Definition LOCK_PER_WAREHOUSE : Z :=
  NUM_WAREHOUSE_LOCK + NUM_DISTRICT_LOCK + NUM_CUSTOMER_LOCK + NUM_ORDER_LINE_LOCK + NUM_HISTORY_LOCK +
  NUM_NEW_ORDER_LOCK + NUM_STOCK_LOCK + NUM_ITEM_LOCK + NUM_ORDER_LOCK.

Definition NUM_ORDER_LINE_PER_ORDER : nat := 10.

Inductive txn_type := NEW_ORDER | PAYMENT | ORDER_STATUS | DELIVERY | STOCK_LEVEL.

(** The member [seq_no] is never assigned; [task] is always [LOCK]. *)
Record LockRequest := LR {
  user_id : Z;
  lm_id : Z;
  txn : txn_type;
  lock_type : lock_state;
  obj_index : Z;
}.

(** ** The arrays of first lock numbers, as the constructor fills them *)

Definition WAREHOUSE_START_IDX (i : Z) : Z := i * LOCK_PER_WAREHOUSE.
Definition DISTRICT_START_IDX (i : Z) : Z := WAREHOUSE_START_IDX i + NUM_WAREHOUSE_LOCK.
Definition CUSTOMER_START_IDX (i : Z) : Z := DISTRICT_START_IDX i + NUM_DISTRICT_LOCK.
Definition ORDER_START_IDX (i : Z) : Z := CUSTOMER_START_IDX i + NUM_CUSTOMER_LOCK.
Definition HISTORY_START_IDX (i : Z) : Z := ORDER_START_IDX i + NUM_ORDER_LOCK.
Definition NEW_ORDER_START_IDX (i : Z) : Z := HISTORY_START_IDX i + NUM_HISTORY_LOCK.
Definition ORDER_LINE_START_IDX (i : Z) : Z := NEW_ORDER_START_IDX i + NUM_NEW_ORDER_LOCK.
Definition STOCK_START_IDX (i : Z) : Z := ORDER_LINE_START_IDX i + NUM_ORDER_LINE_LOCK.
Definition ITEM_START_IDX (i : Z) : Z := STOCK_START_IDX i + NUM_STOCK_LOCK.

(** ** State and random numbers *)

Record gen := Gen {
  tpcc_rand_seed : Z;
  ORDER_NUM : Z;
  NEW_ORDER_NUM : Z;
  HISTORY_NUM : Z;
  ORDER_LINE_NUM : Z;
}.

Abbreviation T := (M gen LockRequest).

Section generator.
(** [rand_r]: the value and the new seed. *)
Context (rand_r : Z -> Z * Z).

Definition urand (range seed : Z) : Z * Z := let '(v, seed) := rand_r seed in (Z.rem v range, seed).

Definition nurand (A range seed : Z) : Z * Z :=
  let '(a, seed) := urand A seed in
  let '(b, seed) := urand range seed in (Z.rem (Z.lor a b) range, seed).

Definition draw (f : Z -> Z * Z) : T Z :=
  s <- get ;;
  let '(v, seed) := f (tpcc_rand_seed s) in
  put (Gen seed (ORDER_NUM s) (NEW_ORDER_NUM s) (HISTORY_NUM s) (ORDER_LINE_NUM s)) ;; ret v.

Definition URAND (range : Z) : T Z := draw (urand range).
Definition NURAND (A range : Z) : T Z := draw (nurand A range).

(** [x++] of a static counter; an overflow of [int] is undefined. *)
Definition post_inc (get_c : gen -> Z) (set_c : Z -> gen -> gen) : T Z :=
  s <- get ;;
  let c := get_c s in
  if c =? 2 ^ 31 - 1 then fail FaultOverflow else put (set_c (c + 1) s) ;; ret c.

Definition next_order : T Z :=
  post_inc ORDER_NUM (fun c s => Gen (tpcc_rand_seed s) c (NEW_ORDER_NUM s) (HISTORY_NUM s) (ORDER_LINE_NUM s)).
Definition next_new_order : T Z :=
  post_inc NEW_ORDER_NUM (fun c s => Gen (tpcc_rand_seed s) (ORDER_NUM s) c (HISTORY_NUM s) (ORDER_LINE_NUM s)).
Definition next_history : T Z :=
  post_inc HISTORY_NUM (fun c s => Gen (tpcc_rand_seed s) (ORDER_NUM s) (NEW_ORDER_NUM s) c (ORDER_LINE_NUM s)).
Definition next_order_line : T Z :=
  post_inc ORDER_LINE_NUM (fun c s => Gen (tpcc_rand_seed s) (ORDER_NUM s) (NEW_ORDER_NUM s) (HISTORY_NUM s) c).

(** Reading an array at a warehouse. *)
Definition start_of (idx : Z -> Z) (wid : Z) : T Z :=
  if (0 <=? wid) && (wid <? WPM * MACHINE_NUM) then ret (idx wid) else fail FaultBounds.

Section transaction.
Context (tpcc_machine_id tpcc_txn_id : Z).

Definition GEN_REQUEST (wid : Z) (tt : txn_type) (lt : lock_state) (lid : Z) : T unit :=
  emit (LR (u32 tpcc_txn_id) (u32 wid) tt lt lid).

(** A request for the [off]-th lock of a table. *)
Definition request (wid : Z) (tt : txn_type) (lt : lock_state) (idx : Z -> Z) (at_wid off : Z) : T unit :=
  i <- start_of idx at_wid ;; GEN_REQUEST wid tt lt (i + off).

(** Draw until the number is another one than [mid]. *)
Fixpoint other_machine (fuel : nat) (mid smid : Z) : T Z :=
  if negb (smid =? mid) then ret smid
  else match fuel with O => fail FaultFuel | S n => smid <- URAND MACHINE_NUM ;; other_machine n mid smid end.

Definition REMOTE_WID (fuel : nat) (mid : Z) : T Z :=
  smid <- URAND MACHINE_NUM ;;
  smid <- other_machine fuel mid smid ;;
  w <- URAND WPM ;; ret (smid * WPM + w).

Definition draw_item : T Z := iid <- NURAND 8192 NUM_ITEM ;; ret (Z.rem iid NUM_ITEM_LOCK).

(** Draw until the item is not used yet. *)
Fixpoint new_item (fuel : nat) (iid_used : gset Z) (iid : Z) : T Z :=
  if negb (bool_decide (iid ∈ iid_used)) then ret iid
  else match fuel with O => fail FaultFuel | S n => iid <- draw_item ;; new_item n iid_used iid end.

(** The loop over the order lines, [k] of them. *)
Fixpoint order_lines (fuel k : nat) (wid : Z) (iid_used sid_used : gset Z) : T unit :=
  match k with
  | O => ret tt
  | S k =>
      iid <- draw_item ;;
      iid <- new_item fuel iid_used iid ;;
      sid <- URAND NUM_STOCK ;;
      let sid := Z.rem sid NUM_STOCK_LOCK in
      if negb (bool_decide (sid ∈ sid_used)) then
        request wid NEW_ORDER LOCK_EXCL STOCK_START_IDX wid sid ;;
        order_lines fuel k wid ({[ iid ]} ∪ iid_used) ({[ sid ]} ∪ sid_used)
      else order_lines fuel k wid ({[ iid ]} ∪ iid_used) sid_used
  end.

Definition home_wid : T Z := w <- URAND WPM ;; ret (tpcc_machine_id * WPM + w).

Definition GenerateNewOrder (fuel : nat) : T unit :=
  wid <- home_wid ;;
  request wid NEW_ORDER LOCK_SHARED WAREHOUSE_START_IDX wid 0 ;;
  did <- URAND NUM_DISTRICT_LOCK ;;
  request wid NEW_ORDER LOCK_EXCL DISTRICT_START_IDX wid did ;;
  c <- NURAND 1024 CPD ;;
  let cid := Z.quot (c + did * CPD) (NUM_CUSTOMER / NUM_CUSTOMER_LOCK) in
  request wid NEW_ORDER LOCK_SHARED CUSTOMER_START_IDX wid cid ;;
  o <- next_order ;;
  request wid NEW_ORDER LOCK_EXCL ORDER_START_IDX wid (Z.rem o NUM_ORDER_LOCK) ;;
  no <- next_new_order ;;
  request wid NEW_ORDER LOCK_EXCL NEW_ORDER_START_IDX wid (Z.rem no NUM_NEW_ORDER_LOCK) ;;
  order_lines fuel NUM_ORDER_LINE_PER_ORDER wid ∅ ∅ ;;
  ol <- next_order_line ;;
  request wid NEW_ORDER LOCK_EXCL ORDER_LINE_START_IDX wid (Z.rem ol NUM_ORDER_LINE_LOCK).

(** The customer's lock, at home or at a remote warehouse. *)
Definition pay_customer (fuel : nat) (wid x cid : Z) : T unit :=
  if x <? 85 then request wid PAYMENT LOCK_EXCL CUSTOMER_START_IDX wid cid
  else swid <- REMOTE_WID fuel tpcc_machine_id ;; request wid PAYMENT LOCK_EXCL CUSTOMER_START_IDX swid cid.

Definition GeneratePayment (fuel : nat) : T unit :=
  wid <- home_wid ;;
  x <- URAND 100 ;;
  y <- URAND 100 ;;
  request wid PAYMENT LOCK_EXCL WAREHOUSE_START_IDX wid 0 ;;
  did <- URAND NUM_DISTRICT_LOCK ;;
  request wid PAYMENT LOCK_EXCL DISTRICT_START_IDX wid did ;;
  (if y <? 60 then c <- NURAND 256 1000 ;; pay_customer fuel wid x (Z.rem c NUM_CUSTOMER_LOCK)
   else c <- NURAND 1024 3000 ;; pay_customer fuel wid x (Z.rem c NUM_CUSTOMER_LOCK)) ;;
  h <- next_history ;;
  request wid PAYMENT LOCK_EXCL HISTORY_START_IDX wid (Z.rem h NUM_HISTORY_LOCK).

Definition GenerateOrderStatus : T unit :=
  wid <- home_wid ;;
  y <- URAND 100 ;;
  c <- (if y <? 60 then NURAND 256 1000 else NURAND 1024 3000) ;;
  request wid ORDER_STATUS LOCK_SHARED CUSTOMER_START_IDX wid (Z.rem c NUM_CUSTOMER_LOCK) ;;
  olk <- URAND NUM_ORDER_LOCK ;;
  request wid ORDER_STATUS LOCK_SHARED ORDER_START_IDX wid olk ;;
  ollk <- URAND NUM_ORDER_LINE_LOCK ;;
  request wid ORDER_STATUS LOCK_SHARED ORDER_LINE_START_IDX wid ollk.

Definition GenerateDelivery : T unit :=
  wid <- home_wid ;;
  nolk <- URAND NUM_NEW_ORDER_LOCK ;;
  request wid DELIVERY LOCK_EXCL NEW_ORDER_START_IDX wid nolk ;;
  olk <- URAND NUM_ORDER_LOCK ;;
  request wid DELIVERY LOCK_EXCL ORDER_START_IDX wid olk ;;
  ollk <- URAND NUM_ORDER_LINE_LOCK ;;
  request wid DELIVERY LOCK_SHARED ORDER_LINE_START_IDX wid ollk ;;
  c <- NURAND 1024 3000 ;;
  request wid DELIVERY LOCK_EXCL CUSTOMER_START_IDX wid (Z.rem c NUM_CUSTOMER_LOCK).

Definition GenerateStockLevel : T unit :=
  wid <- home_wid ;;
  did <- URAND NUM_DISTRICT_LOCK ;;
  request wid STOCK_LEVEL LOCK_SHARED DISTRICT_START_IDX wid did ;;
  ollk <- URAND NUM_ORDER_LINE_LOCK ;;
  request wid STOCK_LEVEL LOCK_SHARED ORDER_LINE_START_IDX wid ollk ;;
  sid <- URAND NUM_STOCK_LOCK ;;
  request wid STOCK_LEVEL LOCK_SHARED STOCK_START_IDX wid sid.

(** [tpcc_txn_mix] in percent, cumulative. *)
Definition Generate (fuel : nat) : T unit :=
  val <- URAND 100 ;;
  if val <? 45 then GenerateNewOrder fuel
  else if val <? 88 then GeneratePayment fuel
  else if val <? 92 then GenerateOrderStatus
  else if val <? 96 then GenerateDelivery
  else if val <? 100 then GenerateStockLevel
  else ret tt.
End transaction.

(** [main]: the transactions of a host, one after another.  The program's arguments
    are [int]s, and it is modelled where [txn_start + txn_count] does not overflow. *)
Definition tpcc_main (fuel : nat) (txn_start txn_count machine_id : Z) : T unit :=
  for_each (seqZ txn_start txn_count) (fun i => Generate (machine_id - 1) i fuel).
End generator.
