(* ===== verification/TpccProofs.v ===== *)
(** * TpccProofs: the locks of a TPC-C trace

    [settles]: a program with fuel that returns, with the same result for every
    larger fuel.  For a random-number generator that eventually draws what the
    loops wait for, the generator of a transaction settles on requests for
    distinct locks, and locks that two machines use are the ones that the
    TPC-C shortcut of lib/lock.cc sends to the switch. *)

From S2P Require Import Prelude Types LockApi Lock Tpcc.

#[local] Open Scope prog_scope.

(** ** Programs with fuel *)

Section settles.
Context {S E : Type}.

(** From some fuel on [m] returns from [s] after the events [o], always with the
    same value, state and events, which satisfy [Q]. *)
Definition settles {A} (m : nat -> M S E A) (Q : A -> S -> list E -> Prop) (s : S) (o : list E) : Prop :=
  exists n a s' o', (forall fuel, (n <= fuel)%nat -> m fuel s = Ok (a, s', o')) /\ Q a s' (o ++ o').

Lemma settles_then {A B} (m : nat -> M S E A) (k : nat -> A -> M S E B) Q s o :
  settles m (fun a s' o' => settles (fun fuel => k fuel a) Q s' o') s o ->
  settles (fun fuel => bind (m fuel) (k fuel)) Q s o.
Proof.
  intros (n & a & s' & o' & Hm & n' & b & s'' & o'' & Hk & HQ).
  exists (n `max` n')%nat, b, s'', (o' ++ o''). split; [|by rewrite app_assoc].
  intros fuel Hf. eapply bind_ok_ok; [apply Hm|apply Hk]; lia.
Qed.

Lemma settles_mono {A} (m : nat -> M S E A) (P Q : A -> S -> list E -> Prop) s o :
  settles m P s o -> (forall a s' o', P a s' o' -> Q a s' o') -> settles m Q s o.
Proof. intros (n & a & s' & o' & Hm & HP) HQ. exists n, a, s', o'. auto. Qed.

Lemma settles_eq {A} (m : nat -> M S E A) (Q : A -> S -> list E -> Prop) s o a s' o' :
  (forall fuel, m fuel s = Ok (a, s', o')) -> Q a s' (o ++ o') -> settles m Q s o.
Proof. intros Hm HQ. exists 0%nat, a, s', o'. auto. Qed.

Lemma settles_ret {A} (a : A) (Q : A -> S -> list E -> Prop) s o : Q a s o -> settles (fun _ => ret a) Q s o.
Proof. intros HQ. eapply settles_eq; [done|]. by rewrite app_nil_r. Qed.

Lemma settles_emit e (Q : unit -> S -> list E -> Prop) s o : Q tt s (o ++ [e]) -> settles (fun _ => emit e) Q s o.
Proof. intros HQ. by eapply settles_eq. Qed.

(** Earlier events do not matter. *)
Lemma settles_frame {A} (m : nat -> M S E A) (Q : A -> S -> list E -> Prop) s o :
  settles m Q s [] -> settles m (fun a s' o' => exists o1, o' = o ++ o1 /\ Q a s' o1) s o.
Proof. intros (n & a & s' & o' & Hm & HQ). exists n, a, s', o'. eauto. Qed.

(** A program that takes one step, after which it is [m]. *)
Lemma settles_step {A} (m m' : nat -> M S E A) Q s o :
  (forall fuel, m' (Datatypes.S fuel) s = m fuel s) -> settles m Q s o -> settles m' Q s o.
Proof.
  intros Hm (n & a & s' & o' & Hn & HQ). exists (Datatypes.S n), a, s', o'. split; [|done].
  intros [|fuel] Hf; [lia|]. rewrite Hm. apply Hn. lia.
Qed.

(** A loop settles when its body keeps an invariant of the items left. *)
Lemma settles_for_each {A} (body : nat -> A -> M S E unit) (I : list A -> S -> list E -> Prop) l s o :
  I l s o ->
  (forall x l s o, I (x :: l) s o -> settles (fun fuel => body fuel x) (fun _ s' o' => I l s' o') s o) ->
  settles (fun fuel => for_each l (body fuel)) (fun _ s' o' => I [] s' o') s o.
Proof.
  intros HI Hb. revert s o HI. induction l as [|x l IH]; intros s o HI; cbn [for_each].
  - by apply settles_ret.
  - apply (settles_then (fun fuel => body fuel x) (fun fuel _ => for_each l (body fuel))).
    eapply settles_mono; [by apply Hb|]. auto.
Qed.
End settles.

(** ** Draws *)

Definition reseed (seed : Z) (s : gen) : gen :=
  Gen seed (ORDER_NUM s) (NEW_ORDER_NUM s) (HISTORY_NUM s) (ORDER_LINE_NUM s).

(** Drawing with [f] from a seed on, a value that satisfies [P] comes. *)
Definition eventually (f : Z -> Z * Z) (P : Z -> Prop) : Prop :=
  forall seed, exists n, P (f (Nat.iter n (fun x => (f x).2) seed)).1.

(** What the generator relies on: [rand_r] is not negative, and the loops that
    wait for an unused item or another machine see one. *)
Record fair (rand_r : Z -> Z * Z) : Prop := {
  rand_r_nonneg : forall seed, 0 <= (rand_r seed).1;
  item_drawn : forall d, 0 <= d < NUM_ITEM_LOCK ->
    eventually (nurand rand_r 8192 NUM_ITEM) (fun v => Z.rem v NUM_ITEM_LOCK = d);
  machine_drawn : forall mid, eventually (urand rand_r MACHINE_NUM) (fun v => v <> mid);
}.

(** ** Tables *)

Inductive table :=
  | Warehouse | District | Customer | Order | History | NewOrder | OrderLine | Stock | Item.

Definition first_lock (t : table) : Z -> Z :=
  match t with
  | Warehouse => WAREHOUSE_START_IDX | District => DISTRICT_START_IDX | Customer => CUSTOMER_START_IDX
  | Order => ORDER_START_IDX | History => HISTORY_START_IDX | NewOrder => NEW_ORDER_START_IDX
  | OrderLine => ORDER_LINE_START_IDX | Stock => STOCK_START_IDX | Item => ITEM_START_IDX
  end.

Definition locks (t : table) : Z :=
  match t with
  | Warehouse => NUM_WAREHOUSE_LOCK | District => NUM_DISTRICT_LOCK | Customer => NUM_CUSTOMER_LOCK
  | Order => NUM_ORDER_LOCK | History => NUM_HISTORY_LOCK | NewOrder => NUM_NEW_ORDER_LOCK
  | OrderLine => NUM_ORDER_LINE_LOCK | Stock => NUM_STOCK_LOCK | Item => NUM_ITEM_LOCK
  end.

(** Lock [i] is one of table [t] in warehouse [w]. *)
Definition lock_of (t : table) (w i : Z) : Prop := first_lock t w <= i < first_lock t w + locks t.

(** A lock belongs to one table of one warehouse. *)
Lemma lock_inj t w off t' w' off' :
  0 <= off < locks t -> 0 <= off' < locks t' -> first_lock t w + off = first_lock t' w' + off' ->
  t = t' /\ w = w' /\ off = off'.
Proof.
  intros Ho Ho' He.
  assert (w = w') by (destruct t, t'; cbv -[Z.add Z.mul Z.le Z.lt] in *; lia). subst w'.
  destruct t, t'; cbv -[Z.add Z.mul Z.le Z.lt] in *; first [exfalso; lia|split_and!; [done|done|lia]].
Qed.

(** A request of machine [mid]: for a lock of one of its warehouses, or for a
    customer of any warehouse. *)
Definition req_ok (mid txn_id : Z) (r : LockRequest) : Prop :=
  user_id r = u32 txn_id /\ (lock_type r = LOCK_SHARED \/ lock_type r = LOCK_EXCL) /\
  exists t w, lock_of t w (obj_index r) /\ 0 <= w < WPM * MACHINE_NUM /\ (w / WPM = mid \/ t = Customer).

Definition txn_ok (mid txn_id : Z) (rs : list LockRequest) : Prop :=
  rs <> [] /\ NoDup (map obj_index rs) /\ Forall (req_ok mid txn_id) rs.

(** [n] transactions fit the counters. *)
Definition room (n : Z) (s : gen) : Prop :=
  Forall (fun c => 0 <= c /\ c + n < 2 ^ 31) [ORDER_NUM s; NEW_ORDER_NUM s; HISTORY_NUM s; ORDER_LINE_NUM s].

Lemma room_iff n s :
  room n s <->
  (0 <= ORDER_NUM s /\ ORDER_NUM s + n < 2 ^ 31) /\ (0 <= NEW_ORDER_NUM s /\ NEW_ORDER_NUM s + n < 2 ^ 31) /\
  (0 <= HISTORY_NUM s /\ HISTORY_NUM s + n < 2 ^ 31) /\ (0 <= ORDER_LINE_NUM s /\ ORDER_LINE_NUM s + n < 2 ^ 31).
Proof. unfold room. rewrite !list.Forall_cons. pose proof (Forall_nil_2 (fun c => 0 <= c /\ c + n < 2 ^ 31)). tauto. Qed.

(** A lock that two machines request is a customer's. *)
Lemma shared_lock_remote m1 m2 t1 t2 r1 r2 :
  m1 <> m2 -> obj_index r1 = obj_index r2 -> req_ok m1 t1 r1 -> req_ok m2 t2 r2 ->
  tpcc_local (new_innet_lock (obj_index r1) (u32 (obj_index r1))) = false.
Proof.
  intros Hm He (_ & _ & a & w & Ha & Hw & Hma) (_ & _ & b & w' & Hb & Hw' & Hmb). rewrite <- He in Hb.
  destruct (lock_inj a w (obj_index r1 - first_lock a w) b w' (obj_index r1 - first_lock b w')) as (-> & -> & _);
    [unfold lock_of in *; lia..|].
  assert (b = Customer) as -> by (destruct Hma as [<-|], Hmb as [<-|]; done).
  unfold tpcc_local, new_innet_lock, lock_of in *. cbn [l_id]. clear -Ha Hw.
  cbv [first_lock locks CUSTOMER_START_IDX DISTRICT_START_IDX WAREHOUSE_START_IDX NUM_WAREHOUSE_LOCK
    NUM_DISTRICT_LOCK NUM_CUSTOMER_LOCK WPM MACHINE_NUM] in Ha, Hw.
  change LOCK_PER_WAREHOUSE with 121 in Ha. rewrite uw_small by (unfold in_uw; lia).
  replace (obj_index r1) with (obj_index r1 - w' * 121 + w' * TPCC_WAREHOUSE_LOCK_NUM) by (unfold TPCC_WAREHOUSE_LOCK_NUM; lia).
  rewrite Z.mod_add, Z.mod_small by (unfold TPCC_WAREHOUSE_LOCK_NUM; lia).
  rewrite (proj2 (Z.leb_le 11 _)), (proj2 (Z.ltb_lt _ 41)) by lia. done.
Qed.

Ltac settles_seq :=
  lazymatch goal with
  | |- settles (fun fuel => bind (@?m fuel) (@?k fuel)) _ _ _ => apply (settles_then m k)
  end.

Section proofs.
Context (rand_r : Z -> Z * Z) (Hfair : fair rand_r).

Abbreviation settles_g := (@settles gen LockRequest _).

Lemma urand_range r seed : 0 < r -> 0 <= (urand rand_r r seed).1 < r.
Proof using Hfair.
  intros Hr. unfold urand. pose proof (rand_r_nonneg _ Hfair seed) as Hv. destruct (rand_r seed) as [v s'].
  cbn [fst] in *. by apply Z.rem_bound_pos.
Qed.

Lemma nurand_range A r seed : 0 < A -> 0 < r -> 0 <= (nurand rand_r A r seed).1 < r.
Proof using Hfair.
  intros HA Hr. unfold nurand. pose proof (urand_range A seed HA) as Ha. destruct (urand rand_r A seed) as [a s1].
  pose proof (urand_range r s1 Hr) as Hb. destruct (urand rand_r r s1) as [b s2]. cbn [fst] in *.
  apply Z.rem_bound_pos; [|done]. apply Z.lor_nonneg; lia.
Qed.

Lemma settles_draw f (Q : Z -> gen -> list LockRequest -> Prop) s o :
  Q (f (tpcc_rand_seed s)).1 (reseed (f (tpcc_rand_seed s)).2 s) o -> settles (fun _ => draw f) Q s o.
Proof using.
  intros HQ. eapply (settles_eq _ _ _ _ (f (tpcc_rand_seed s)).1 _ []); [|by rewrite app_nil_r].
  intros _. unfold draw, bind, get, put, ret. by destruct (f (tpcc_rand_seed s)).
Qed.

Lemma settles_URAND r (Q : Z -> gen -> list LockRequest -> Prop) s o :
  0 < r -> (forall v seed, 0 <= v < r -> Q v (reseed seed s) o) -> settles (fun _ => URAND rand_r r) Q s o.
Proof using Hfair. intros Hr HQ. apply settles_draw, HQ. by apply urand_range. Qed.

Lemma settles_NURAND A r (Q : Z -> gen -> list LockRequest -> Prop) s o :
  0 < A -> 0 < r -> (forall v seed, 0 <= v < r -> Q v (reseed seed s) o) -> settles (fun _ => NURAND rand_r A r) Q s o.
Proof using Hfair. intros HA Hr HQ. apply settles_draw, HQ. by apply nurand_range. Qed.

(** Drawing until [stop] holds. *)
Fixpoint draw_until (f : Z -> Z * Z) (stop : Z -> bool) (fuel : nat) (v : Z) : T Z :=
  if stop v then ret v
  else match fuel with O => fail FaultFuel | S n => v <- draw f ;; draw_until f stop n v end.

Lemma settles_draw_until f (stop : Z -> bool) (R : Z -> Prop) v (Q : Z -> gen -> list LockRequest -> Prop) s o :
  eventually f (fun v => stop v = true) -> R v -> (forall seed, R (f seed).1) ->
  (forall v seed, R v -> stop v = true -> Q v (reseed seed s) o) -> settles (fun fuel => draw_until f stop fuel v) Q s o.
Proof using.
  intros Hev Hr HR HQ. destruct (Hev (tpcc_rand_seed s)) as [n Hn].
  assert (Hs : reseed (tpcc_rand_seed s) s = s) by by destruct s.
  revert Hn. rewrite <- Hs at 2. generalize (tpcc_rand_seed s). revert v Hr. induction n as [|n IH]; intros v Hr seed Hn.
  all: destruct (stop v) eqn:Hv;
    [eapply (settles_eq _ _ _ _ v _ []); [by intros []; cbn; rewrite Hv|by rewrite app_nil_r; apply HQ]|].
  all: eapply (settles_step (fun fuel => v <- draw f ;; draw_until f stop fuel v)); [intros fuel; cbn; by rewrite Hv|].
  all: apply (settles_then (fun _ => draw f) (draw_until f stop)), settles_draw; cbn [tpcc_rand_seed reseed].
  - cbn in Hn. eapply (settles_eq _ _ _ _ _ _ []); [|rewrite app_nil_r; apply HQ; [apply HR|apply Hn]].
    intros []; cbn; by destruct (stop _).
  - apply IH; [apply HR|]. rewrite Nat.iter_succ_r in Hn. exact Hn.
Qed.

Definition item (seed : Z) : Z * Z := let '(v, seed) := nurand rand_r 8192 NUM_ITEM seed in (Z.rem v NUM_ITEM_LOCK, seed).

Lemma draw_item_draws : forall s, draw_item rand_r s = draw item s.
Proof using.
  intros s. unfold draw_item, NURAND, draw, item, bind, get, put, ret.
  by destruct (nurand rand_r 8192 NUM_ITEM (tpcc_rand_seed s)).
Qed.

Lemma item_range seed : 0 <= (item seed).1 < NUM_ITEM_LOCK.
Proof using Hfair.
  unfold item. pose proof (nurand_range 8192 NUM_ITEM seed eq_refl eq_refl) as Hv.
  destruct (nurand _ _ _ _) as [v s']. cbn [fst] in *. apply Z.rem_bound_pos; [apply Hv|done].
Qed.

Lemma settles_draw_item (Q : Z -> gen -> list LockRequest -> Prop) s o :
  (forall v seed, 0 <= v < NUM_ITEM_LOCK -> Q v (reseed seed s) o) -> settles (fun _ => draw_item rand_r) Q s o.
Proof using Hfair.
  intros HQ. destruct (settles_draw item Q s o) as (n & a & s' & o' & Hm & H); [apply HQ, item_range|].
  exists n, a, s', o'. split; [|done]. intros fuel Hf. rewrite draw_item_draws. exact (Hm fuel Hf).
Qed.

Lemma item_iter n seed :
  Nat.iter n (fun x => (item x).2) seed = Nat.iter n (fun x => (nurand rand_r 8192 NUM_ITEM x).2) seed.
Proof using.
  induction n as [|n IH]; [done|]. rewrite !Nat.iter_succ, IH. unfold item. by destruct (nurand _ _ _ _).
Qed.

Lemma item_eventually d : 0 <= d < NUM_ITEM_LOCK -> eventually item (fun v => v = d).
Proof using Hfair.
  intros Hd seed. destruct (item_drawn _ Hfair d Hd seed) as [n Hn]. exists n. rewrite item_iter.
  unfold item. by destruct (nurand _ _ _ _).
Qed.

Lemma settles_new_item X iid (Q : Z -> gen -> list LockRequest -> Prop) s o :
  (size X < 10)%nat -> 0 <= iid < NUM_ITEM_LOCK ->
  (forall v seed, 0 <= v < NUM_ITEM_LOCK -> v ∉ X -> Q v (reseed seed s) o) ->
  settles (fun fuel => new_item rand_r fuel X iid) Q s o.
Proof using Hfair.
  intros HX Hi HQ.
  assert (He : forall fuel iid s, new_item rand_r fuel X iid s =
      draw_until item (fun v => negb (bool_decide (v ∈ X))) fuel iid s).
  { intros fuel. induction fuel as [|fuel IH]; intros j t; cbn; case_bool_decide; cbn; try done.
    unfold bind. rewrite draw_item_draws. destruct (draw item t) as [[[a t'] o']|]; [|done]. by rewrite IH. }
  destruct (settles_draw_until item (fun v => negb (bool_decide (v ∈ X))) (fun v => 0 <= v < NUM_ITEM_LOCK) iid Q s o)
    as (n & a & s' & o' & Hm & H); [|done|apply item_range| |].
  - destruct (decide (Exists (fun d => d ∉ X) (seqZ 0 10))) as [(d & Hd & Hn)%list.Exists_exists|Hall%not_Exists_Forall].
    + rewrite elem_of_seqZ in Hd. intros seed. destruct (item_eventually d ltac:(unfold NUM_ITEM_LOCK; lia) seed) as [n Hv].
      exists n. rewrite Hv. by rewrite bool_decide_false.
    + exfalso. assert (Hs : (list_to_set (seqZ 0 10) : gset Z) ⊆ X).
      { intros d Hd%elem_of_list_to_set. rewrite list.Forall_forall in Hall. specialize (Hall d Hd).
        destruct (decide (d ∈ X)); [done|by destruct Hall]. }
      apply subseteq_size in Hs. rewrite size_list_to_set in Hs by apply NoDup_seqZ. rewrite length_seqZ in Hs. lia.
    + intros d. apply _.
  - intros v seed Hv Hs%negb_true_iff%bool_decide_eq_false. by apply HQ.
  - exists n, a, s', o'. split; [|done]. intros fuel Hf. rewrite He. by apply Hm.
Qed.

Lemma settles_REMOTE_WID mid (Q : Z -> gen -> list LockRequest -> Prop) s o :
  (forall m w seed, 0 <= m < MACHINE_NUM -> m <> mid -> 0 <= w < WPM -> Q (m * WPM + w) (reseed seed s) o) ->
  settles (fun fuel => REMOTE_WID rand_r fuel mid) Q s o.
Proof using Hfair.
  intros HQ. unfold REMOTE_WID. apply (settles_then (fun _ => URAND rand_r MACHINE_NUM)
    (fun fuel smid => smid <- other_machine rand_r fuel mid smid ;; w <- URAND rand_r WPM ;; ret (smid * WPM + w))).
  apply settles_URAND; [done|]. intros m0 seed0 Hm0. apply settles_then.
  assert (He : forall fuel m s, other_machine rand_r fuel mid m s =
      draw_until (urand rand_r MACHINE_NUM) (fun v => negb (v =? mid)) fuel m s).
  { intros fuel. induction fuel as [|fuel IH]; intros j t; cbn; destruct (j =? mid); cbn; try done.
    unfold bind, URAND. destruct (draw _ t) as [[[a t'] o']|]; [|done]. by rewrite IH. }
  match goal with |- settles _ ?P ?t ?o => destruct (settles_draw_until (urand rand_r MACHINE_NUM)
    (fun v => negb (v =? mid)) (fun v => 0 <= v < MACHINE_NUM) m0 P t o) as (n & a & s' & o' & Hm & H) end.
  - intros seed. destruct (machine_drawn _ Hfair mid seed) as [n Hn]. exists n. by apply negb_true_iff, Z.eqb_neq.
  - done.
  - intros seed. by apply urand_range.
  - intros m seed Hm Hne%negb_true_iff%Z.eqb_neq. apply (settles_then (fun _ => URAND rand_r WPM) (fun _ w => ret (m * WPM + w))).
    apply settles_URAND; [done|]. intros w seed' Hw. apply settles_ret. by apply HQ.
  - exists n, a, s', o'. split; [|done]. intros fuel Hf. rewrite He. by apply Hm.
Qed.

(** ** Transactions *)

Section transaction.
Context (mid tid : Z).

Lemma settles_home_wid (Q : Z -> gen -> list LockRequest -> Prop) s o :
  (forall w seed, 0 <= w < WPM -> Q (mid * WPM + w) (reseed seed s) o) -> settles (fun _ => home_wid rand_r mid) Q s o.
Proof using Hfair.
  intros HQ. apply (settles_then (fun _ => URAND rand_r WPM) (fun _ w => ret (mid * WPM + w))).
  apply settles_URAND; [done|]. intros w seed Hw. apply settles_ret. by apply HQ.
Qed.

Lemma settles_request t wid ty lt at_wid off (Q : unit -> gen -> list LockRequest -> Prop) s o :
  0 <= at_wid < WPM * MACHINE_NUM -> Q tt s (o ++ [LR (u32 tid) (u32 wid) ty lt (first_lock t at_wid + off)]) ->
  settles (fun _ => request tid wid ty lt (first_lock t) at_wid off) Q s o.
Proof using.
  intros Ha HQ. eapply settles_eq; [|exact HQ]. intros _. unfold request, start_of.
  rewrite (proj2 (Z.leb_le _ _)), (proj2 (Z.ltb_lt _ _)) by lia. done.
Qed.

Lemma settles_post_inc get_c set_c (Q : Z -> gen -> list LockRequest -> Prop) s o :
  get_c s < 2 ^ 31 - 1 -> Q (get_c s) (set_c (get_c s + 1) s) o -> settles (fun _ => post_inc get_c set_c) Q s o.
Proof using.
  intros Hc HQ. eapply (settles_eq _ _ _ _ _ _ []); [|by rewrite app_nil_r]. intros _.
  unfold post_inc, bind, get. rewrite (proj2 (Z.eqb_neq _ _)) by lia. done.
Qed.

(** The requests of the order lines: locks of distinct stock regions. *)
Lemma settles_order_lines k wid X Y (Q : unit -> gen -> list LockRequest -> Prop) s o :
  0 <= wid < WPM * MACHINE_NUM -> (size X + k <= 10)%nat ->
  (forall seed sids, NoDup sids -> Forall (fun d => 0 <= d < NUM_STOCK_LOCK /\ d ∉ Y) sids ->
    Q tt (reseed seed s) (o ++ map (fun d => LR (u32 tid) (u32 wid) NEW_ORDER LOCK_EXCL (first_lock Stock wid + d)) sids)) ->
  settles (fun fuel => order_lines rand_r tid fuel k wid X Y) Q s o.
Proof using Hfair.
  intros Hw. revert X Y Q s o. induction k as [|k IH]; intros X Y Q s o HX HQ; cbn [order_lines].
  { apply settles_ret. specialize (HQ (tpcc_rand_seed s) []). cbn in HQ. rewrite app_nil_r in HQ.
    destruct s. by apply HQ; constructor. }
  settles_seq.
  apply settles_draw_item. intros i0 seed0 Hi0.
  settles_seq.
  apply settles_new_item; [lia|done|]. intros i seed1 Hi HiX.
  settles_seq.
  apply settles_URAND; [done|]. intros v seed2 Hv. cbv zeta.
  assert (Hsz : (size ({[i]} ∪ X) + k <= 10)%nat) by (rewrite size_union by set_solver; rewrite size_singleton; lia).
  set (d := Z.rem v NUM_STOCK_LOCK). assert (Hd : 0 <= d < NUM_STOCK_LOCK) by (apply Z.rem_bound_pos; [apply Hv|done]).
  case_bool_decide as HdY; cbn [negb].
  { apply IH; [done|]. intros seed sids. apply (HQ seed sids). }
  settles_seq.
  apply (settles_request Stock); [done|]. apply IH; [done|]. intros seed sids Hnd Hall.
  rewrite <- app_assoc. apply (HQ seed (d :: sids)).
  - apply list.NoDup_cons. split; [|done]. intros Hin. rewrite list.Forall_forall in Hall.
    destruct (Hall d Hin) as [_ Hn]. set_solver.
  - constructor; [done|]. eapply list.Forall_impl; [exact Hall|]. intros e [He Hn]. split; [done|]. set_solver.
Qed.

Context (Hmid : 0 <= mid < MACHINE_NUM).

(** What a transaction leaves: well-formed requests, and counters that have room
    for [n] more transactions. *)
Definition txn_post (n : Z) (u : unit) (s : gen) (rs : list LockRequest) : Prop := room n s /\ txn_ok mid tid rs.

Lemma home_range w : 0 <= w < WPM -> 0 <= mid * WPM + w < WPM * MACHINE_NUM /\ (mid * WPM + w) / WPM = mid.
Proof using Hmid.
  unfold WPM, MACHINE_NUM in *. intros Hw. split; [lia|]. by rewrite Z.div_add_l, Z.div_small, Z.add_0_r by lia.
Qed.

(** Request [r] is for the lock [off] of table [t] in warehouse [w]. *)
Definition is_req (r : LockRequest) (p : table * Z * Z) : Prop :=
  user_id r = u32 tid /\ (lock_type r = LOCK_SHARED \/ lock_type r = LOCK_EXCL) /\
  obj_index r = first_lock p.1.1 p.1.2 + p.2.

Lemma is_req_intro t w off wid ty lt : lt = LOCK_SHARED \/ lt = LOCK_EXCL -> is_req (LR (u32 tid) (u32 wid) ty lt (first_lock t w + off)) (t, w, off).
Proof using. done. Qed.

Lemma Forall2_stocks wid l :
  Forall2 is_req (map (fun d => LR (u32 tid) (u32 wid) NEW_ORDER LOCK_EXCL (first_lock Stock wid + d)) l)
    (map (fun d => (Stock, wid, d)) l).
Proof using. induction l; constructor; [apply is_req_intro; by right|done]. Qed.

Definition place_ok (p : table * Z * Z) : Prop :=
  let '(t, w, off) := p in
  0 <= off < locks t /\ 0 <= w < WPM * MACHINE_NUM /\ (w / WPM = mid \/ t = Customer).

Lemma txn_post_intro n s o pl :
  Forall2 is_req o pl -> room n s -> Forall place_ok pl -> NoDup pl -> o <> [] -> txn_post n tt s o.
Proof using.
  intros Ho Hn Hp Hnd Hne. split; [done|]. split; [done|]. split.
  - clear Hne. induction Ho as [|r [[t w] off] rs pl (_ & _ & Hr) Ho IH]; [constructor|].
    apply list.Forall_cons in Hp as [(Hoff & _) Hp]. apply list.NoDup_cons in Hnd as [Hni Hnd]. cbn [map].
    apply list.NoDup_cons. split; [|by apply IH]. intros (r' & Hrr' & Hin)%list_elem_of_fmap. apply Hni.
    apply list_elem_of_lookup in Hin as [i Hi]. destruct (Forall2_lookup_l _ _ _ _ _ Ho Hi) as ([[t' w'] off'] & Hi' & _ & _ & Hr').
    pose proof (Forall_lookup_1 _ _ _ _ Hp Hi') as (Hoff' & _). cbn [fst snd] in *.
    destruct (lock_inj t w off t' w' off') as (-> & -> & ->); [done|done|congruence|].
    by apply list_elem_of_lookup_2 in Hi'.
  - clear Hne Hnd. induction Ho as [|r [[t w] off] rs pl (Hu & Hlt & Hr) Ho IH]; [constructor|].
    apply list.Forall_cons in Hp as [(Hoff & Hw & Hm) Hp]. constructor; [|by apply IH]. split; [done|]. split; [done|].
    exists t, w. cbn in Hr. unfold lock_of. split; [lia|done].
Qed.

(** One step of a transaction. *)
Ltac txn_step :=
  lazymatch goal with
  | |- settles (fun _ => bind _ _) _ _ _ => settles_seq
  | |- settles (fun _ => URAND _ _) _ _ _ => apply settles_URAND; [done|intros ? ? ?]
  | |- settles (fun _ => NURAND _ _ _) _ _ _ => apply settles_NURAND; [done|done|intros ? ? ?]
  | |- settles (fun _ => home_wid _ _) _ _ _ => apply settles_home_wid; intros ? ? ?
  | |- settles (fun _ => request _ _ _ _ ?idx _ _) _ _ _ =>
      let t := lazymatch idx with
               | WAREHOUSE_START_IDX => Warehouse | DISTRICT_START_IDX => District | CUSTOMER_START_IDX => Customer
               | ORDER_START_IDX => Order | HISTORY_START_IDX => History | NEW_ORDER_START_IDX => NewOrder
               | ORDER_LINE_START_IDX => OrderLine | STOCK_START_IDX => Stock
               end in
      apply (settles_request t); [by apply home_range|]
  | |- settles (fun _ => if ?b then _ else _) _ _ _ => destruct b
  | |- settles (fun _ => ?c) _ _ _ =>
      first [unify c next_order | unify c next_new_order | unify c next_history | unify c next_order_line];
      apply settles_post_inc; [cbn; lia|]
  end; cbv beta zeta.

Lemma home_place_ok t w off : 0 <= w < WPM -> 0 <= off < locks t -> place_ok (t, mid * WPM + w, off).
Proof using Hmid. intros Hw Hoff. destruct (home_range w Hw). split; [done|]. auto. Qed.

(** Their requests are for distinct locks. *)
Ltac txn_done :=
  cbn [app]; eapply txn_post_intro;
  [ repeat (constructor; [apply is_req_intro; auto|]); constructor
  | apply room_iff; cbn; lia
  | repeat (apply Forall_cons_2; [apply home_place_ok; [done|]|]); [..|by constructor]
  | repeat constructor; set_solver
  | done ].

Lemma settles_StockLevel n s :
  0 <= n -> room (n + 1) s -> settles (fun _ => GenerateStockLevel rand_r mid tid) (txn_post n) s [].
Proof using Hfair Hmid. intros Hn Hs%room_iff. unfold GenerateStockLevel. repeat txn_step. by txn_done. Qed.

Lemma rem_lock t v : 0 <= v -> 0 <= Z.rem v (locks t) < locks t.
Proof using. intros Hv. apply Z.rem_bound_pos; [done|]. by destruct t. Qed.

Lemma settles_OrderStatus n s :
  0 <= n -> room (n + 1) s -> settles (fun _ => GenerateOrderStatus rand_r mid tid) (txn_post n) s [].
Proof using Hfair Hmid.
  intros Hn Hs%room_iff. unfold GenerateOrderStatus. repeat txn_step. all: txn_done; try done; apply (rem_lock Customer); lia.
Qed.

Lemma settles_Delivery n s :
  0 <= n -> room (n + 1) s -> settles (fun _ => GenerateDelivery rand_r mid tid) (txn_post n) s [].
Proof using Hfair Hmid.
  intros Hn Hs%room_iff. unfold GenerateDelivery. repeat txn_step. all: txn_done; try done; apply (rem_lock Customer); lia.
Qed.

Lemma customer_place_ok w off : 0 <= w < WPM * MACHINE_NUM -> 0 <= off < locks Customer -> place_ok (Customer, w, off).
Proof using. intros Hw Hoff. split; [done|]. auto. Qed.

Lemma settles_pay_customer wid x cid (Q : unit -> gen -> list LockRequest -> Prop) s o :
  0 <= wid < WPM * MACHINE_NUM ->
  (forall w seed, 0 <= w < WPM * MACHINE_NUM ->
    Q tt (reseed seed s) (o ++ [LR (u32 tid) (u32 wid) PAYMENT LOCK_EXCL (first_lock Customer w + cid)])) ->
  settles (fun fuel => pay_customer rand_r mid tid fuel wid x cid) Q s o.
Proof using Hfair Hmid.
  intros Hw HQ. unfold pay_customer. destruct (x <? 85).
  - apply (settles_request Customer); [done|]. specialize (HQ wid (tpcc_rand_seed s) Hw). by destruct s.
  - settles_seq. apply settles_REMOTE_WID. intros m w seed Hm _ Hw'.
    assert (0 <= m * WPM + w < WPM * MACHINE_NUM) by (unfold WPM, MACHINE_NUM in *; lia).
    apply (settles_request Customer); auto.
Qed.

Lemma settles_Payment n s :
  0 <= n -> room (n + 1) s -> settles (fun fuel => GeneratePayment rand_r mid tid fuel) (txn_post n) s [].
Proof using Hfair Hmid.
  intros Hn Hs%room_iff. unfold GeneratePayment. repeat txn_step.
  all: apply settles_pay_customer; [by apply home_range|]; intros w' seed' Hw'; repeat txn_step.
  all: cbn [app]; eapply txn_post_intro;
    [repeat (constructor; [apply is_req_intro; auto|]); constructor|apply room_iff; cbn; lia| |repeat constructor; set_solver|done].
  all: repeat (apply Forall_cons_2; [first [apply home_place_ok; [done|]|apply customer_place_ok; [done|]]|]); try by constructor.
  all: try done.
  all: first [apply (rem_lock Customer); lia | apply (rem_lock History); cbn; lia].
Qed.

Lemma customer_region c did :
  0 <= c < CPD -> 0 <= did < NUM_DISTRICT_LOCK ->
  0 <= Z.quot (c + did * CPD) (NUM_CUSTOMER / NUM_CUSTOMER_LOCK) < locks Customer.
Proof using.
  intros Hc Hd. change (NUM_CUSTOMER / NUM_CUSTOMER_LOCK) with 1000. unfold NUM_DISTRICT_LOCK in Hd.
  change CPD with 3000 in *. cbn [locks]. unfold NUM_CUSTOMER_LOCK.
  split; [apply Z.quot_pos|apply Z.quot_lt_upper_bound]; lia.
Qed.

Lemma settles_NewOrder n s :
  0 <= n -> room (n + 1) s -> settles (fun fuel => GenerateNewOrder rand_r mid tid fuel) (txn_post n) s [].
Proof using Hfair Hmid.
  intros Hn Hs%room_iff. unfold GenerateNewOrder. repeat txn_step.
  apply settles_order_lines; [by apply home_range|by rewrite size_empty|]. intros sd sids Hnd Hall.
  repeat txn_step. cbn [app]. eapply txn_post_intro.
  - repeat (constructor; [apply is_req_intro; auto|]). apply Forall2_app; [apply Forall2_stocks|].
    repeat (constructor; [apply is_req_intro; auto|]). constructor.
  - apply room_iff; cbn; lia.
  - repeat (apply Forall_cons_2; [apply home_place_ok; [done|]|]); try done.
    + by apply customer_region.
    + apply (rem_lock Order); cbn; lia.
    + apply (rem_lock NewOrder); cbn; lia.
    + apply Forall_app_2; [|apply Forall_singleton, home_place_ok; [done|apply (rem_lock OrderLine); cbn; lia]].
      apply list.Forall_fmap. eapply list.Forall_impl; [exact Hall|]. intros d [Hd _]. by apply home_place_ok.
  - repeat (apply NoDup_cons_2; [set_solver|]). apply list.NoDup_app. split_and!.
    + apply NoDup_fmap_2; [by intros ?? [=]|done].
    + set_solver.
    + apply NoDup_singleton.
  - done.
Qed.

Lemma settles_Generate n s :
  0 <= n -> room (n + 1) s -> settles (fun fuel => Generate rand_r mid tid fuel) (txn_post n) s [].
Proof using Hfair Hmid.
  intros Hn Hs. unfold Generate. settles_seq. apply settles_URAND; [done|]. intros val seed Hval. cbv beta.
  assert (Hs' : room (n + 1) (reseed seed s)) by done.
  destruct (val <? 45); [by apply settles_NewOrder|]. destruct (val <? 88); [by apply settles_Payment|].
  destruct (val <? 92); [by apply settles_OrderStatus|]. destruct (val <? 96); [by apply settles_Delivery|].
  rewrite (proj2 (Z.ltb_lt _ _)) by lia. by apply settles_StockLevel.
Qed.
End transaction.

(** ** The trace of a host *)

(** The transactions of the trace, each with its number, in order. *)
Definition trace_of (mid : Z) (ids : list Z) (gs : list (Z * list LockRequest)) (rs : list LockRequest) : Prop :=
  rs = concat (map snd gs) /\ map fst gs = ids /\ Forall (fun g => txn_ok mid g.1 g.2) gs.

Lemma trace_requests mid ids gs rs : trace_of mid ids gs rs -> Forall (fun r => exists tid, req_ok mid tid r) rs.
Proof using.
  intros (-> & _ & HF). induction HF as [|g gs (_ & _ & Hr) HF IH]; [constructor|]. cbn [map concat].
  apply Forall_app_2; [|done]. eapply list.Forall_impl; [exact Hr|]. eauto.
Qed.

Lemma settles_tpcc_main start count machine s :
  1 <= machine <= MACHINE_NUM -> room (Z.max 0 count) s ->
  settles (fun fuel => tpcc_main rand_r fuel start count machine)
    (fun _ _ rs => exists gs, trace_of (machine - 1) (seqZ start count) gs rs) s [].
Proof using Hfair.
  intros Hm Hs. unfold tpcc_main.
  eapply settles_mono.
  { apply (settles_for_each (fun fuel i => Generate rand_r (machine - 1) i fuel) (fun l s rs =>
      room (Z.of_nat (length l)) s /\
      exists ids gs, ids ++ l = seqZ start count /\ trace_of (machine - 1) ids gs rs)).
    - split; [|by exists [], []]. rewrite length_seqZ. by replace (Z.of_nat (Z.to_nat count)) with (Z.max 0 count) by lia.
    - intros x l t o [Ht (ids & gs & Hids & Ho & Hgs & HF)]. eapply settles_mono.
      + apply settles_frame, (settles_Generate (machine - 1) x (ltac:(lia)) (Z.of_nat (length l))); [lia|].
        cbn [length] in Ht. by replace (Z.of_nat (length l) + 1) with (Z.of_nat (S (length l))) by lia.
      + intros u t' o' (o1 & -> & Ht' & Hok). split; [done|]. exists (ids ++ [x]), (gs ++ [(x, o1)]).
        split; [by rewrite <- app_assoc|]. unfold trace_of.
        rewrite !map_app, concat_app, Ho, Hgs. cbn [map concat snd fst]. rewrite app_nil_r.
        split_and!; [done..|]. apply Forall_app_2; [done|]. by apply Forall_singleton. }
  intros u t o [_ (ids & gs & Hids & Ht)]. exists gs. by rewrite app_nil_r in Hids; subst ids.
Qed.
End proofs.

(** ** A generator that is fair *)

(** Every digit in turn, 64 times. *)
Definition digits (seed : Z) : Z * Z := ((seed / 64) mod 10, seed + 1).

Lemma digits_range seed : 0 <= (digits seed).1 < 10.
Proof. apply Z.mod_pos_bound. lia. Qed.

(** A seed behind [seed] from which digit [d] comes at least twice. *)
Lemma digits_reach d seed :
  0 <= d < 10 -> exists n : nat, let x := seed + 2 * Z.of_nat n in (digits x).1 = d /\ (digits (x + 1)).1 = d.
Proof.
  intros Hd. set (t := 640 * (seed / 640 + 1) + 64 * d).
  assert (Ht : seed <= t) by (pose proof (Z.mul_succ_div_gt seed 640); lia).
  exists (Z.to_nat ((t - seed + 1) / 2)). cbv zeta. rewrite Z2Nat.id by (apply Z.div_pos; lia).
  assert (Hx : exists r, 0 <= r <= 1 /\ seed + 2 * ((t - seed + 1) / 2) = t + r).
  { exists (1 - (t - seed + 1) mod 2). pose proof (Z.mod_pos_bound (t - seed + 1) 2). pose proof (Z.div_mod (t - seed + 1) 2). lia. }
  destruct Hx as (r & Hr & ->). unfold digits. cbn [fst].
  assert (Hq : forall k, 0 <= k < 64 -> (t + k) / 64 mod 10 = d).
  { intros k Hk. replace (t + k) with (k + (d + (seed / 640 + 1) * 10) * 64) by (unfold t; lia).
    rewrite Z.div_add, (Z.div_small k) by lia. rewrite Z.add_0_l, Z.mod_add by lia. by apply Z.mod_small. }
  rewrite <- Z.add_assoc. split; apply Hq; lia.
Qed.

Lemma digits_fair : fair digits.
Proof.
  split.
  - intros seed. apply digits_range.
  - intros d Hd seed. destruct (digits_reach d seed Hd) as (n & H1 & H2). exists n.
    assert (Hn : Nat.iter n (fun x => (nurand digits 8192 NUM_ITEM x).2) seed = seed + 2 * Z.of_nat n).
    { clear. induction n as [|n IH]; [cbn; lia|]. rewrite Nat.iter_succ, IH. cbn [nurand urand digits snd]. lia. }
    rewrite Hn. unfold nurand, urand. cbv zeta in H1, H2. unfold digits in *. cbn [fst] in *. rewrite H1, H2. clear -Hd.
    assert (Hc : d = 0 \/ d = 1 \/ d = 2 \/ d = 3 \/ d = 4 \/ d = 5 \/ d = 6 \/ d = 7 \/ d = 8 \/ d = 9)
      by (unfold NUM_ITEM_LOCK in Hd; lia).
    decompose [or] Hc; subst d; reflexivity.
  - intros mid seed. destruct (digits_reach (if mid =? 0 then 1 else 0) seed) as (n & H1 & _); [by case_match|].
    exists (2 * n)%nat.
    assert (Hn : forall k, Nat.iter k (fun x => (urand digits MACHINE_NUM x).2) seed = seed + Z.of_nat k).
    { clear. intros k. induction k as [|k IH]; [cbn; lia|]. rewrite Nat.iter_succ, IH. cbn [urand digits snd]. lia. }
    rewrite Hn. replace (Z.of_nat (2 * n)) with (2 * Z.of_nat n) by lia. cbv zeta in H1. unfold urand.
    destruct (digits (seed + 2 * Z.of_nat n)) as [v x]. cbn [fst] in *. subst v.
    destruct (Z.eqb_spec mid 0); [change (1 <> mid)|change (0 <> mid)]; lia.
Qed.

(** ** Properties *)

(** A transaction of the TPC-C generator on a machine that has numbers 0 to
    7 always returns, whatever its kind, with at least one request, no lock
    requested twice (so a transaction never waits for itself), every lock one of
    a table of a warehouse of the machine, except that a customer's lock can be
    of any warehouse, all requests shared or exclusive and numbered with the
    transaction.  The
    random numbers must not be negative and must eventually be another machine
    and any item; the four counters must not overflow. *)
Theorem tpcc_transaction_locks rand_r mid tid s :
  fair rand_r -> 0 <= mid < MACHINE_NUM -> room 1 s ->
  exists n s' rs, (forall fuel, (n <= fuel)%nat -> Generate rand_r mid tid fuel s = Ok (tt, s', rs)) /\ txn_ok mid tid rs.
Proof.
  intros Hf Hm Hs. destruct (settles_Generate rand_r Hf mid tid Hm 0 s ltac:(lia) Hs) as (n & [] & s' & rs & Hr & _ & Hok).
  eauto.
Qed.

(** C30: the shortcut of lib/lock.cc for TPC-C is safe for the traces of the
    generator: a lock that the traces of two machines both request is one that
    [lock_acquire] and [lock_release] do not handle as a local lock when its
    identifier is its number, as with [lock_local_init]. *)
Theorem tpcc_local_private rand_r machine1 machine2 start1 count1 start2 count2 g1 g2 :
  fair rand_r -> 1 <= machine1 <= MACHINE_NUM -> 1 <= machine2 <= MACHINE_NUM -> machine1 <> machine2 ->
  room (Z.max 0 count1) g1 -> room (Z.max 0 count2) g2 ->
  exists fuel g1' g2' rs1 rs2,
    tpcc_main rand_r fuel start1 count1 machine1 g1 = Ok (tt, g1', rs1) /\
    tpcc_main rand_r fuel start2 count2 machine2 g2 = Ok (tt, g2', rs2) /\
    forall r1 r2, r1 ∈ rs1 -> r2 ∈ rs2 -> obj_index r1 = obj_index r2 ->
      tpcc_local (new_innet_lock (obj_index r1) (u32 (obj_index r1))) = false.
Proof.
  intros Hf Hm1 Hm2 Hne Hr1 Hr2.
  destruct (settles_tpcc_main rand_r Hf start1 count1 machine1 g1 Hm1 Hr1) as (n1 & [] & g1' & rs1 & E1 & gs1 & H1%trace_requests).
  destruct (settles_tpcc_main rand_r Hf start2 count2 machine2 g2 Hm2 Hr2) as (n2 & [] & g2' & rs2 & E2 & gs2 & H2%trace_requests).
  exists (n1 `max` n2)%nat, g1', g2', rs1, rs2. split_and!; [apply E1; lia|apply E2; lia|].
  intros r1 r2 Hin1 Hin2 He. cbn [app] in H1, H2. rewrite list.Forall_forall in H1, H2.
  destruct (H1 r1 Hin1) as (t1 & Hq1), (H2 r2 Hin2) as (t2 & Hq2). apply (shared_lock_remote (machine1 - 1) (machine2 - 1) t1 t2 r1 r2); [lia|done..].
Qed.

Lemma tpcc_transaction_locks_witness :
  exists n s' rs, (forall fuel, (n <= fuel)%nat -> Generate digits 3 7 fuel (Gen 5 0 0 0 0) = Ok (tt, s', rs)) /\ txn_ok 3 7 rs.
Proof. apply (tpcc_transaction_locks digits 3 7 (Gen 5 0 0 0 0)); [exact digits_fair|done|by apply room_iff]. Defined.

Lemma tpcc_local_private_witness :
  exists fuel g1 g2 rs1 rs2,
    tpcc_main digits fuel 0 100 1 (Gen 5 0 0 0 0) = Ok (tt, g1, rs1) /\
    tpcc_main digits fuel 100 100 2 (Gen 8 0 0 0 0) = Ok (tt, g2, rs2) /\
    forall r1 r2, r1 ∈ rs1 -> r2 ∈ rs2 -> obj_index r1 = obj_index r2 ->
      tpcc_local (new_innet_lock (obj_index r1) (u32 (obj_index r1))) = false.
Proof. apply (tpcc_local_private digits 1 2 0 100 100 100); [exact digits_fair|done|done|done|by apply room_iff..]. Defined.
