(* ===== verification/Tatp.v ===== *)
(** * Tatp: the generator of TATP lock traces

    Models experiments/trace_gen/tatp_trace_gen: the four tables, the rows
    [PopulateTables] fills them with, and the transactions, which append their
    lock requests to the global vector [requests]; a line written to the trace
    file of a host is an event.  Two things are parameters: the engine and
    distribution of <random>, and the order in which an unordered_map is
    iterated.  [Hash] multiplies beyond the range of int, which the language leaves
    undefined; it wraps here, as in the compiled program.  Operands of the bitwise
    or are evaluated from left to right. *)

From S2P Require Import Prelude Types.

#[local] Open Scope prog_scope.

(** ** Rows and tables (tatp_lock_gen.h) *)

Record SubscriberEntry := SubRow { sub_s_id : Z; sub_lock_id : Z }.
Record AccessInfoEntry := AiRow { ai_s_id : Z; ai_type : Z; ai_lock_id : Z }.
Record SpecialFacilityEntry := SfRow { sf_s_id : Z; sf_type : Z; is_active : Z; sf_lock_id : Z }.
Record CallForwardingEntry := CfRow {
  cf_s_id : Z; cf_sf_type : Z; start_time : Z; end_time : Z; cf_lock_id : Z }.

Definition GET_SUBSCRIBER_DATA_RATIO : Z := 35.
Definition GET_NEW_DESTINATION_RATIO : Z := 45.
Definition GET_ACCESS_DATA_RATIO : Z := 80.
Definition UPDATE_SUBSCRIBER_DATA_RATIO : Z := 82.
Definition UPDATE_LOCATION_RATIO : Z := 96.
Definition INSERT_CALL_FORWARDING_RATIO : Z := 98.
Definition DELETE_CALL_FORWARDING_RATIO : Z := 100.

Inductive tatp_txn :=
  | GET_SUBSCRIBER_DATA_TYPE | GET_NEW_DESTINATION_TYPE | GET_ACCESS_DATA_TYPE | UPDATE_SUBSCRIBER_DATA_TYPE
  | UPDATE_LOCATION_TYPE | INSERT_CALL_FORWARDING_TYPE | DELETE_CALL_FORWARDING_TYPE.

Definition ENTRY_LOCK_START : Z := 5.
Definition CALL_FORWARDING_LOCK_FACTOR : Z := 5.

(** [task] is always [LOCK]. *)
Record TatpRequest := TR { txn_id : Z; req_lock_id : Z; req_lock_type : lock_state; txn_type : tatp_txn }.

Definition Hash (x y z : Z) : Z :=
  Z.lxor (i32 (i32 (Z.lxor x y * 1000000007) + z)) (i32 (x + y + z)).

(** The key of a call forwarding row: [static_cast<int64_t>(s_id) << 32 | sf_type]. *)
Definition cf_key (s_id sf_type : Z) : Z := Z.lor (Z.shiftl s_id 32) sf_type.

(** [emplace] and [insert] of a map keep the row a key has. *)
Definition emplace {A} (k : Z) (v : A) (m : gmap Z A) : gmap Z A := touch v k m.

(** ** State *)

Section generator.
Context {rng : Type}.

(** The globals of tatp_lock_gen.cc. *)
Record tatp := Tatp {
  engine : rng;
  subscriber : gmap Z SubscriberEntry;
  access_info : gmap Z (gmap Z AccessInfoEntry);
  special_facility : gmap Z (gmap Z SpecialFacilityEntry);
  call_forwarding : gmap Z (gmap Z CallForwardingEntry);
  subscriber_size : Z;
  global_lock_id : Z;
  cf_lock_begin : Z;
  cf_lock_num : Z;
  requests : list TatpRequest;
}.

Definition tatp_start (g : rng) : tatp := Tatp g ∅ ∅ ∅ ∅ 0 ENTRY_LOCK_START 0 0 [].

Definition set_engine g s := Tatp g (subscriber s) (access_info s) (special_facility s) (call_forwarding s)
  (subscriber_size s) (global_lock_id s) (cf_lock_begin s) (cf_lock_num s) (requests s).
Definition set_subscriber t s := Tatp (engine s) t (access_info s) (special_facility s) (call_forwarding s)
  (subscriber_size s) (global_lock_id s) (cf_lock_begin s) (cf_lock_num s) (requests s).
Definition set_access_info t s := Tatp (engine s) (subscriber s) t (special_facility s) (call_forwarding s)
  (subscriber_size s) (global_lock_id s) (cf_lock_begin s) (cf_lock_num s) (requests s).
Definition set_special_facility t s := Tatp (engine s) (subscriber s) (access_info s) t (call_forwarding s)
  (subscriber_size s) (global_lock_id s) (cf_lock_begin s) (cf_lock_num s) (requests s).
Definition set_call_forwarding t s := Tatp (engine s) (subscriber s) (access_info s) (special_facility s) t
  (subscriber_size s) (global_lock_id s) (cf_lock_begin s) (cf_lock_num s) (requests s).
Definition set_subscriber_size n s := Tatp (engine s) (subscriber s) (access_info s) (special_facility s)
  (call_forwarding s) n (global_lock_id s) (cf_lock_begin s) (cf_lock_num s) (requests s).
Definition set_lock_ids g b n s := Tatp (engine s) (subscriber s) (access_info s) (special_facility s)
  (call_forwarding s) (subscriber_size s) g b n (requests s).
Definition set_requests r s := Tatp (engine s) (subscriber s) (access_info s) (special_facility s)
  (call_forwarding s) (subscriber_size s) (global_lock_id s) (cf_lock_begin s) (cf_lock_num s) r.

Abbreviation T := (M tatp (Z * TatpRequest)).

(** [uniform start end]: a number of the distribution and the engine after it;
    [elements]: the entries of an unordered_map in the order of its iterators. *)
Context (uniform : Z -> Z -> rng -> Z * rng).
Context (elements : forall A, gmap Z A -> list (Z * A)).
Arguments elements {A}.

Definition modify (f : tatp -> tatp) : T unit := s <- get ;; put (f s).

Definition GenerateUniformRandom (start last : Z) : T Z :=
  s <- get ;;
  let '(v, g) := uniform start last (engine s) in
  put (set_engine g s) ;; ret v.

Definition GenerateRandom (start last : Z) : T Z :=
  a <- GenerateUniformRandom 0 65535 ;;
  b <- GenerateUniformRandom start last ;;
  ret (Z.rem (Z.lor a b) (last - start + 1) + start).

(** [global_lock_id++] *)
Definition next_lock : T Z :=
  s <- get ;;
  if global_lock_id s =? 2 ^ 31 - 1 then fail FaultOverflow
  else put (set_lock_ids (global_lock_id s + 1) (cf_lock_begin s) (cf_lock_num s) s) ;; ret (global_lock_id s).

Definition GetCallForwardingLock (s_id sf_type start_time : Z) : T Z :=
  s <- get ;;
  if cf_lock_num s =? 0 then fail FaultDivZero
  else ret (Z.rem (Hash s_id sf_type start_time) (cf_lock_num s) + cf_lock_begin s).

Definition GEN_REQUEST (txn_id lock_id : Z) (lock_type : lock_state) (ty : tatp_txn) : T unit :=
  modify (fun s => set_requests (requests s ++ [TR txn_id lock_id lock_type ty]) s).

Definition ClearRequests : T unit := modify (set_requests []).

(** ** Populating the tables *)

Definition PopulateSubscriber (size : Z) : T unit :=
  for_each (seqZ 1 size) (fun s_id =>
    l <- next_lock ;; modify (fun s => set_subscriber (emplace s_id (SubRow s_id l) (subscriber s)) s)).

(** The rows of one subscriber: [n] more from type [start] on. *)
Fixpoint access_rows (n : nat) (s_id start : Z) (current_map : gmap Z AccessInfoEntry) : T (gmap Z AccessInfoEntry) :=
  match n with
  | O => ret current_map
  | S n =>
      l <- next_lock ;;
      access_rows n s_id (Z.rem start 4 + 1) (emplace start (AiRow s_id start l) current_map)
  end.

Definition PopulateAccessInfo : T unit :=
  s <- get ;;
  for_each (elements (subscriber s)) (fun iter =>
    cardinality <- GenerateUniformRandom 1 4 ;;
    start <- GenerateUniformRandom 1 4 ;;
    current_map <- access_rows (Z.to_nat cardinality) iter.1 start ∅ ;;
    modify (fun s => set_access_info (emplace iter.1 current_map (access_info s)) s)).

Fixpoint facility_rows (n : nat) (s_id start : Z) (current_map : gmap Z SpecialFacilityEntry)
    : T (gmap Z SpecialFacilityEntry) :=
  match n with
  | O => ret current_map
  | S n =>
      a <- GenerateUniformRandom 1 100 ;;
      l <- next_lock ;;
      facility_rows n s_id (Z.rem start 4 + 1)
        (emplace start (SfRow s_id start (if a <=? 85 then 1 else 0) l) current_map)
  end.

Definition PopulateSpecialFacility : T unit :=
  s <- get ;;
  for_each (elements (subscriber s)) (fun iter =>
    cardinality <- GenerateUniformRandom 1 4 ;;
    start <- GenerateUniformRandom 1 4 ;;
    current_map <- facility_rows (Z.to_nat cardinality) iter.1 start ∅ ;;
    modify (fun s => set_special_facility (emplace iter.1 current_map (special_facility s)) s)).

Fixpoint forwarding_rows (n : nat) (s_id sf_type start : Z) (current_map : gmap Z CallForwardingEntry)
    : T (gmap Z CallForwardingEntry) :=
  match n with
  | O => ret current_map
  | S n =>
      duration <- GenerateUniformRandom 1 8 ;;
      l <- GetCallForwardingLock s_id sf_type (start * 8) ;;
      forwarding_rows n s_id sf_type (Z.rem (start + 1) 2)
        (emplace (start * 8) (CfRow s_id sf_type (start * 8) (start * 8 + duration) l) current_map)
  end.

Definition PopulateCallForwarding : T unit :=
  s <- get ;;
  for_each (elements (special_facility s)) (fun iter =>
    for_each (elements iter.2) (fun entry =>
      let sf_type := sf_type entry.2 in
      cardinality <- GenerateUniformRandom 0 3 ;;
      if cardinality =? 0 then ret tt
      else
        start <- GenerateUniformRandom 0 2 ;;
        current_map <- forwarding_rows (Z.to_nat cardinality) iter.1 sf_type start ∅ ;;
        modify (fun s => set_call_forwarding (emplace (cf_key iter.1 sf_type) current_map (call_forwarding s)) s))).

Definition PopulateTables (size : Z) : T unit :=
  modify (set_subscriber_size size) ;;
  PopulateSubscriber size ;;
  PopulateAccessInfo ;;
  PopulateSpecialFacility ;;
  s <- get ;;
  (if 2 ^ 31 <=? subscriber_size s * 4 then fail FaultOverflow else ret tt) ;;
  let n := Z.quot (subscriber_size s * 4) CALL_FORWARDING_LOCK_FACTOR in
  (if 2 ^ 31 <=? global_lock_id s + n then fail FaultOverflow else ret tt) ;;
  put (set_lock_ids (global_lock_id s + n) (global_lock_id s) n s) ;;
  PopulateCallForwarding.

(** ** Transactions *)

(** [subscriber.find(s_id)->second.lock_id] *)
Definition subscriber_lock (s_id : Z) : T Z :=
  s <- get ;;
  match subscriber s !! s_id with Some r => ret (sub_lock_id r) | None => fail FaultNull end.

(** [special_facility[s_id]] *)
Definition facilities (s_id : Z) : T (gmap Z SpecialFacilityEntry) :=
  modify (fun s => set_special_facility (touch ∅ s_id (special_facility s)) s) ;;
  s <- get ;; ret (index ∅ s_id (special_facility s)).

(** [call_forwarding[k]] *)
Definition forwardings (k : Z) : T (gmap Z CallForwardingEntry) :=
  modify (fun s => set_call_forwarding (touch ∅ k (call_forwarding s)) s) ;;
  s <- get ;; ret (index ∅ k (call_forwarding s)).

Definition GetSubscriberData (txn_id : Z) : T unit :=
  s <- get ;;
  s_id <- GenerateRandom 1 (subscriber_size s) ;;
  lock_id <- subscriber_lock s_id ;;
  GEN_REQUEST txn_id lock_id LOCK_SHARED GET_SUBSCRIBER_DATA_TYPE.

(** The loop over the start times up to [start_time]. *)
Fixpoint destination_locks (txn_id s_id sf_type end_t : Z) (rows : gmap Z CallForwardingEntry)
    (times : list Z) (used_lock : gset Z) : T unit :=
  match times with
  | [] => ret tt
  | i :: times =>
      match rows !! i with
      | Some r =>
          if end_time r <=? end_t then
            lock_id <- GetCallForwardingLock s_id sf_type i ;;
            if bool_decide (lock_id ∈ used_lock) then
              destination_locks txn_id s_id sf_type end_t rows times used_lock
            else
              GEN_REQUEST txn_id lock_id LOCK_SHARED GET_NEW_DESTINATION_TYPE ;;
              destination_locks txn_id s_id sf_type end_t rows times ({[ lock_id ]} ∪ used_lock)
          else destination_locks txn_id s_id sf_type end_t rows times used_lock
      | None => destination_locks txn_id s_id sf_type end_t rows times used_lock
      end
  end.

(** [for (int i = 0; i <= start_time; i += 8)] *)
Definition times_to (start_time : Z) : list Z := map (Z.mul 8) (seqZ 0 (start_time / 8 + 1)).

Definition GetNewDestination (txn_id : Z) : T unit :=
  s <- get ;;
  s_id <- GenerateRandom 1 (subscriber_size s) ;;
  sf_type <- GenerateRandom 1 4 ;;
  rows <- facilities s_id ;;
  (match rows !! sf_type with
   | Some r => GEN_REQUEST txn_id (sf_lock_id r) LOCK_SHARED GET_NEW_DESTINATION_TYPE
   | None => ret tt
   end) ;;
  s <- get ;;
  match call_forwarding s !! cf_key s_id sf_type with
  | None => ret tt
  | Some rows =>
      start <- GenerateRandom 0 2 ;;
      end_t <- GenerateRandom 1 24 ;;
      destination_locks txn_id s_id sf_type end_t rows (times_to (start * 8)) ∅
  end.

Definition GetAccessData (txn_id : Z) : T unit :=
  s <- get ;;
  s_id <- GenerateRandom 1 (subscriber_size s) ;;
  ai_type <- GenerateRandom 1 4 ;;
  modify (fun s => set_access_info (touch ∅ s_id (access_info s)) s) ;;
  s <- get ;;
  match index ∅ s_id (access_info s) !! ai_type with
  | None => ret tt
  | Some r => GEN_REQUEST txn_id (ai_lock_id r) LOCK_SHARED GET_ACCESS_DATA_TYPE
  end.

Definition UpdateSubsriberData (txn_id : Z) : T unit :=
  s <- get ;;
  s_id <- GenerateRandom 1 (subscriber_size s) ;;
  sf_type <- GenerateRandom 1 4 ;;
  subs_lock <- subscriber_lock s_id ;;
  GEN_REQUEST txn_id subs_lock LOCK_EXCL UPDATE_SUBSCRIBER_DATA_TYPE ;;
  rows <- facilities s_id ;;
  match rows !! sf_type with
  | None => ret tt
  | Some r => GEN_REQUEST txn_id (sf_lock_id r) LOCK_EXCL UPDATE_SUBSCRIBER_DATA_TYPE
  end.

Definition UpdateLocation (txn_id : Z) : T unit :=
  s <- get ;;
  s_id <- GenerateRandom 1 (subscriber_size s) ;;
  lock_id <- subscriber_lock s_id ;;
  GEN_REQUEST txn_id lock_id LOCK_EXCL UPDATE_LOCATION_TYPE.

Definition InsertCallForwarding (txn_id : Z) : T unit :=
  s <- get ;;
  s_id <- GenerateRandom 1 (subscriber_size s) ;;
  subs_lock <- subscriber_lock s_id ;;
  GEN_REQUEST txn_id subs_lock LOCK_SHARED INSERT_CALL_FORWARDING_TYPE ;;
  rows <- facilities s_id ;;
  for_each (elements rows) (fun sf_entry =>
    GEN_REQUEST txn_id (sf_lock_id sf_entry.2) LOCK_SHARED INSERT_CALL_FORWARDING_TYPE) ;;
  sf_type <- GenerateRandom 1 4 ;;
  start <- GenerateRandom 0 2 ;;
  end_t <- GenerateRandom 1 24 ;;
  rows <- facilities s_id ;;
  if negb (bool_decide (is_Some (rows !! sf_type))) then ret tt
  else
    present <- forwardings (cf_key s_id sf_type) ;;
    if negb (bool_decide (is_Some (present !! (start * 8)))) then ret tt
    else
      l <- GetCallForwardingLock s_id sf_type (start * 8) ;;
      GEN_REQUEST txn_id l LOCK_EXCL INSERT_CALL_FORWARDING_TYPE ;;
      l' <- GetCallForwardingLock s_id sf_type (start * 8) ;;
      modify (fun s => set_call_forwarding
        (emplace (cf_key s_id sf_type) {[ start * 8 := CfRow s_id sf_type (start * 8) end_t l' ]} (call_forwarding s)) s).

Definition DeleteCallForwarding (txn_id : Z) : T unit :=
  s <- get ;;
  s_id <- GenerateRandom 1 (subscriber_size s) ;;
  subs_lock <- subscriber_lock s_id ;;
  GEN_REQUEST txn_id subs_lock LOCK_SHARED DELETE_CALL_FORWARDING_TYPE ;;
  sf_type <- GenerateRandom 1 4 ;;
  start <- GenerateRandom 0 2 ;;
  present <- forwardings (cf_key s_id sf_type) ;;
  if negb (bool_decide (is_Some (present !! (start * 8)))) then ret tt
  else
    l <- GetCallForwardingLock s_id sf_type (start * 8) ;;
    GEN_REQUEST txn_id l LOCK_EXCL DELETE_CALL_FORWARDING_TYPE ;;
    rows <- forwardings (cf_key s_id sf_type) ;;
    modify (fun s => set_call_forwarding (<[cf_key s_id sf_type := delete (start * 8) rows]> (call_forwarding s)) s).

(** ** The program (main.cc) *)

Definition transaction (txn_id : Z) : T unit :=
  random <- GenerateUniformRandom 1 100 ;;
  if random <=? GET_SUBSCRIBER_DATA_RATIO then GetSubscriberData txn_id
  else if random <=? GET_NEW_DESTINATION_RATIO then GetNewDestination txn_id
  else if random <=? GET_ACCESS_DATA_RATIO then GetAccessData txn_id
  else if random <=? UPDATE_SUBSCRIBER_DATA_RATIO then UpdateSubsriberData txn_id
  else if random <=? UPDATE_LOCATION_RATIO then UpdateLocation txn_id
  else if random <=? INSERT_CALL_FORWARDING_RATIO then InsertCallForwarding txn_id
  else if random <=? DELETE_CALL_FORWARDING_RATIO then DeleteCallForwarding txn_id
  else ret tt.

(** One host's transactions, and its trace file; [txn_start + txn_count] is an
    [int]. *)
Definition host_trace (txn_count host_id : Z) : T unit :=
  let txn_start := 1 + (host_id - 1) * txn_count in
  let txn_end := txn_start + txn_count in
  (if (txn_end <? - 2 ^ 31) || (2 ^ 31 <=? txn_end) then fail FaultOverflow else ret tt) ;;
  for_each (seqZ txn_start txn_count) transaction ;;
  s <- get ;;
  for_each (requests s) (fun request => emit (host_id, request)) ;;
  ClearRequests.

Definition tatp_main (size host_num txn_count : Z) : T unit :=
  PopulateTables size ;;
  for_each (seqZ 1 host_num) (host_trace txn_count).
End generator.
