(* ===== verification/TatpTables.v ===== *)
(** * TatpTables: the tables of the TATP generator

    The logic of the generator's programs, and their first phase: populating
    returns with well-formed tables in which every subscriber, access-info and
    facility row has a lock of its own. *)

From S2P Require Import Prelude Types Tatp.

#[local] Open Scope prog_scope.

#[local] Opaque Hash cf_key Z.rem.

(** ** Programs that log nothing *)

Section quiet.
Context {S E : Type}.

(** [m] returns from [s] without an event, and [Q] holds after it. *)
Definition quiet {A} (m : M S E A) (Q : A -> S -> Prop) (s : S) : Prop :=
  exists a s', m s = Ok (a, s', []) /\ Q a s'.

Lemma quiet_bind {A B} (m : M S E A) (k : A -> M S E B) Q s :
  quiet m (fun a s' => quiet (k a) Q s') s -> quiet (bind m k) Q s.
Proof. intros (a & s' & Hm & b & s'' & Hk & HQ). exists b, s''. split; [|done]. by apply (bind_ok_ok _ _ _ _ _ _ _ _ _ Hm Hk). Qed.

Lemma quiet_ret {A} (a : A) (Q : A -> S -> Prop) s : Q a s -> quiet (ret a) Q s.
Proof. intros HQ. by exists a, s. Qed.

Lemma quiet_get (Q : S -> S -> Prop) s : Q s s -> quiet get Q s.
Proof. intros HQ. by exists s, s. Qed.

Lemma quiet_put s' (Q : unit -> S -> Prop) s : Q tt s' -> quiet (put s') Q s.
Proof. intros HQ. by exists tt, s'. Qed.

Lemma quiet_mono {A} (m : M S E A) (P Q : A -> S -> Prop) s :
  quiet m P s -> (forall a s', P a s' -> Q a s') -> quiet m Q s.
Proof. intros (a & s' & Hm & HP) HQ. exists a, s'. auto. Qed.

(** A loop with an invariant of the items that are left. *)
Lemma quiet_for_each {A} (body : A -> M S E unit) (I : list A -> S -> Prop) l s (Q : unit -> S -> Prop) :
  I l s ->
  (forall x l s, I (x :: l) s -> quiet (body x) (fun _ s' => I l s') s) ->
  (forall s', I [] s' -> Q tt s') ->
  quiet (for_each l body) Q s.
Proof.
  intros HI Hb HQ. revert s HI. induction l as [|x l IH]; intros s HI; cbn [for_each]; [by apply quiet_ret, HQ|].
  apply quiet_bind. eapply quiet_mono; [by apply Hb|]. auto.
Qed.
End quiet.

(** ** Locks of rows *)

Section locks.
Context {A : Type} (lock : A -> Z).

(** The rows of a map have distinct locks from [lo] up to [hi]. *)
Definition map_locks (lo hi : Z) (m : gmap Z A) : Prop :=
  (forall k r, m !! k = Some r -> lo <= lock r < hi) /\
  forall k k' r r', m !! k = Some r -> m !! k' = Some r' -> lock r = lock r' -> k = k'.

Definition table_locks (lo hi : Z) (t : gmap Z (gmap Z A)) : Prop :=
  (forall i m k r, t !! i = Some m -> m !! k = Some r -> lo <= lock r < hi) /\
  forall i i' m m' k k' r r', t !! i = Some m -> t !! i' = Some m' -> m !! k = Some r -> m' !! k' = Some r' ->
    lock r = lock r' -> i = i' /\ k = k'.

Lemma emplace_cases {B} k (v : B) m k' v' :
  emplace k v m !! k' = Some v' -> m !! k' = Some v' \/ (k' = k /\ v' = v /\ m !! k = None).
Proof. apply lookup_touch_Some. Qed.

Lemma map_locks_empty lo : map_locks lo lo ∅.
Proof. split; [intros ?? H|intros ???? H]; by rewrite lookup_empty in H. Qed.

Lemma table_locks_empty lo : table_locks lo lo ∅.
Proof. split; [intros ???? H|intros ???????? H]; by rewrite lookup_empty in H. Qed.

Lemma map_locks_emplace lo hi k r m :
  map_locks lo hi m -> lo <= hi -> lock r = hi -> map_locks lo (hi + 1) (emplace k r m).
Proof.
  intros [Hb Hi] Hlo Hr. split.
  - intros k1 r1 [H1|(-> & -> & _)]%emplace_cases; [apply Hb in H1|]; lia.
  - intros k1 k2 r1 r2 [H1|(-> & -> & _)]%emplace_cases [H2|(-> & -> & _)]%emplace_cases He; [eauto| | |done].
    + apply Hb in H1. lia.
    + apply Hb in H2. lia.
Qed.

Lemma table_locks_emplace lo mid hi i m t :
  table_locks lo mid t -> map_locks mid hi m -> lo <= mid <= hi -> table_locks lo hi (emplace i m t).
Proof.
  intros [Hb Hi] [Hmb Hmi] Hle. split.
  - intros i1 m1 k r [H1|(-> & -> & _)]%emplace_cases Hr; [specialize (Hb _ _ _ _ H1 Hr)|apply Hmb in Hr]; lia.
  - intros i1 i2 m1 m2 k1 k2 r1 r2 [H1|(-> & -> & _)]%emplace_cases [H2|(-> & -> & _)]%emplace_cases Hr1 Hr2 He; [eauto| | |eauto].
    + specialize (Hb _ _ _ _ H1 Hr1). apply Hmb in Hr2. lia.
    + specialize (Hb _ _ _ _ H2 Hr2). apply Hmb in Hr1. lia.
Qed.

(** A subscriber's rows: at least one, under the types 1 to 4, each with its
    key as [owner]. *)
Definition rows_ok (owner : A -> Z * Z) (i : Z) (m : gmap Z A) : Prop :=
  m <> ∅ /\ forall k r, m !! k = Some r -> 1 <= k <= 4 /\ owner r = (i, k).

(** Rows for subscribers 1 to [size]. *)
Definition table_ok (owner : A -> Z * Z) (size : Z) (t : gmap Z (gmap Z A)) : Prop :=
  (forall i, is_Some (t !! i) <-> 1 <= i <= size) /\ forall i m, t !! i = Some m -> rows_ok owner i m.
End locks.

(** Rows of [i] under construction. *)
Definition rows_part {A} (lock : A -> Z) (owner : A -> Z * Z) (lo hi i : Z) (m : gmap Z A) : Prop :=
  map_locks lock lo hi m /\ lo <= hi /\ forall k r, m !! k = Some r -> 1 <= k <= 4 /\ owner r = (i, k).

Lemma rows_part_empty {A} (lock : A -> Z) owner lo i : rows_part lock owner lo lo i ∅.
Proof. split; [apply map_locks_empty|]. split; [lia|]. intros k r H. by rewrite lookup_empty in H. Qed.

Lemma rows_part_emplace {A} (lock : A -> Z) owner lo hi i k r m :
  rows_part lock owner lo hi i m -> 1 <= k <= 4 -> lock r = hi -> owner r = (i, k) ->
  rows_part lock owner lo (hi + 1) i (emplace k r m) /\ emplace k r m <> ∅.
Proof.
  intros (Hm & Hle & Hk) Hk4 Hr Ho. split; [split; [by apply map_locks_emplace|split; [lia|]]|].
  - intros k1 r1 [H1|(-> & -> & _)]%emplace_cases; auto.
  - intros He. assert (Hs : is_Some (emplace k r m !! k)) by (apply lookup_touch_is_Some; by left).
    rewrite He, lookup_empty in Hs. by destruct Hs.
Qed.

(** Tables with the rows of the subscribers other than those in [l]. *)
Definition table_part {A} (lock : A -> Z) (owner : A -> Z * Z) (lo hi size : Z) (l : list Z) (t : gmap Z (gmap Z A)) : Prop :=
  table_locks lock lo hi t /\ lo <= hi /\ NoDup l /\
  (forall i, is_Some (t !! i) <-> 1 <= i <= size /\ i ∉ l) /\
  (forall i, i ∈ l -> 1 <= i <= size) /\
  forall i m, t !! i = Some m -> rows_ok owner i m.

Lemma table_part_empty {A} (lock : A -> Z) owner lo size l :
  NoDup l -> (forall i, i ∈ l <-> 1 <= i <= size) -> table_part lock owner lo lo size l ∅.
Proof.
  intros Hnd Hl. split; [apply table_locks_empty|]. split; [lia|]. split; [done|]. split_and!.
  - intros i. rewrite lookup_empty. split; [by intros []|]. intros [Hi Hn]. by apply Hl in Hi.
  - intros i. apply Hl.
  - intros i m H. by rewrite lookup_empty in H.
Qed.

Lemma table_part_emplace {A} (lock : A -> Z) owner lo mid hi size i l m t :
  table_part lock owner lo mid size (i :: l) t -> rows_part lock owner mid hi i m -> m <> ∅ ->
  table_part lock owner lo hi size l (emplace i m t).
Proof.
  intros (Ht & Hle & Hnd & Hs & Hl & Ho) (Hm & Hle' & Hk) Hne. apply list.NoDup_cons in Hnd as [Hni Hnd].
  assert (Hti : t !! i = None) by (apply eq_None_not_Some; rewrite Hs; set_solver).
  split; [by eapply table_locks_emplace|]. split; [lia|]. split; [done|]. split_and!.
  - intros j. split.
    + intros [v [H|(-> & -> & _)]%emplace_cases]; [|split; [apply Hl; left|done]].
      assert (Hj : is_Some (t !! j)) by eauto. apply Hs in Hj as [Hj Hn]. set_solver.
    + intros [Hj Hn]. apply lookup_touch_is_Some. destruct (decide (j = i)) as [->|Hji]; [by left|right]. apply Hs. set_solver.
  - set_solver.
  - intros j v [H|(-> & -> & _)]%emplace_cases; [eauto|]. by split.
Qed.

Lemma table_part_done {A} (lock : A -> Z) owner lo hi size t :
  table_part lock owner lo hi size [] t -> table_locks lock lo hi t /\ lo <= hi /\ table_ok owner size t.
Proof. intros (Ht & Hle & _ & Hd & _ & Ho). split_and!; [done..|]. split; [|done]. intros i. rewrite Hd. set_solver. Qed.

(** A number, reduced to the types 1 to 4, is a type again. *)
Lemma next_type start : 1 <= start <= 4 -> 1 <= Z.rem start 4 + 1 <= 4.
Proof. intros H. pose proof (Z.rem_bound_pos start 4). lia. Qed.

Definition distribution {rng} (uniform : Z -> Z -> rng -> Z * rng) : Prop :=
  forall a b g, a <= b -> a <= (uniform a b g).1 <= b.

Section proofs.
Context {rng : Type} (uniform : Z -> Z -> rng -> Z * rng) (elements : forall A, gmap Z A -> list (Z * A)).
Context (Huniform : distribution uniform) (Helements : iteration elements).

Abbreviation st := (@tatp rng).
Abbreviation quietly := (@quiet st (Z * TatpRequest) _).

Lemma quiet_modify f (Q : unit -> st -> Prop) s : Q tt (f s) -> quietly (modify f) Q s.
Proof using. intros HQ. by exists tt, (f s). Qed.

Lemma quiet_uniform a b (Q : Z -> st -> Prop) s :
  a <= b -> (forall v g, a <= v <= b -> Q v (set_engine g s)) -> quietly (GenerateUniformRandom uniform a b) Q s.
Proof using Huniform.
  intros Hab HQ. pose proof (Huniform a b (engine s) Hab) as Hv.
  exists (uniform a b (engine s)).1, (set_engine (uniform a b (engine s)).2 s). split; [|by apply HQ].
  unfold GenerateUniformRandom, bind, get, put, ret. by destruct (uniform a b (engine s)).
Qed.

Lemma quiet_random a b (Q : Z -> st -> Prop) s :
  0 <= a <= b -> (forall v g, a <= v <= b -> Q v (set_engine g s)) -> quietly (GenerateRandom uniform a b) Q s.
Proof using Huniform.
  intros Hab HQ. apply quiet_bind, quiet_uniform; [lia|]. intros x g Hx. apply quiet_bind, quiet_uniform; [lia|].
  intros y g' Hy. apply quiet_ret. apply (HQ _ g').
  assert (0 <= Z.lor x y) by (apply Z.lor_nonneg; lia). pose proof (Z.rem_bound_pos (Z.lor x y) (b - a + 1)). lia.
Qed.

Lemma quiet_next_lock (Q : Z -> st -> Prop) s :
  global_lock_id s < 2 ^ 31 - 1 ->
  Q (global_lock_id s) (set_lock_ids (global_lock_id s + 1) (cf_lock_begin s) (cf_lock_num s) s) -> quietly next_lock Q s.
Proof using.
  intros Hs HQ. apply quiet_bind, quiet_get. rewrite (proj2 (Z.eqb_neq _ _)) by lia.
  apply quiet_bind, quiet_put. by apply quiet_ret.
Qed.

Definition cf_lock (s : st) (i ty t : Z) : Z := Z.rem (Hash i ty t) (cf_lock_num s) + cf_lock_begin s.

Lemma quiet_cf_lock i ty t (Q : Z -> st -> Prop) s :
  0 < cf_lock_num s -> Q (cf_lock s i ty t) s -> quietly (GetCallForwardingLock i ty t) Q s.
Proof using.
  intros Hs HQ. apply quiet_bind, quiet_get. rewrite (proj2 (Z.eqb_neq _ _)) by lia. by apply quiet_ret.
Qed.

(** ** Populating *)

Definition with_locks (g : rng) (hi : Z) (s : st) : st :=
  set_engine g (set_lock_ids hi (cf_lock_begin s) (cf_lock_num s) s).

Lemma quiet_PopulateSubscriber size (Q : unit -> st -> Prop) s :
  0 <= size -> subscriber s = ∅ -> global_lock_id s + size < 2 ^ 31 ->
  (forall t, map_locks sub_lock_id (global_lock_id s) (global_lock_id s + size) t ->
    (forall i, is_Some (t !! i) <-> 1 <= i <= size) -> Q tt (set_subscriber t (with_locks (engine s) (global_lock_id s + size) s))) ->
  quietly (PopulateSubscriber size) Q s.
Proof using.
  intros Hsz He Hg HQ. apply (quiet_for_each _ (fun l t => exists k m, l = seqZ k (size + 1 - k) /\ 1 <= k <= size + 1 /\
    t = set_subscriber m (with_locks (engine s) (global_lock_id s + (k - 1)) s) /\
    map_locks sub_lock_id (global_lock_id s) (global_lock_id s + (k - 1)) m /\
    forall i, is_Some (m !! i) <-> 1 <= i < k)).
  - exists 1, ∅. replace (size + 1 - 1) with size by lia. split; [done|]. split; [lia|]. split_and!.
    + destruct s. cbn in *. subst. unfold set_subscriber, with_locks. cbn. f_equal. lia.
    + rewrite Z.add_0_r. apply map_locks_empty.
    + intros i. rewrite lookup_empty. split; [by intros []|lia].
  - intros x l t (k & m & Hl & Hk & -> & Hm & Hd).
    destruct (decide (size + 1 - k <= 0)) as [Hz|Hz]; [by rewrite seqZ_nil in Hl by lia|].
    rewrite seqZ_cons in Hl by lia. injection Hl as -> ->.
    apply quiet_bind, quiet_next_lock; [cbn; lia|]. cbn [global_lock_id set_subscriber with_locks set_engine set_lock_ids].
    apply quiet_modify. exists (k + 1), (emplace k (SubRow k (global_lock_id s + (k - 1))) m).
    split; [f_equal; lia|]. split; [lia|]. split_and!.
    + unfold set_subscriber, with_locks. cbn. f_equal. lia.
    + replace (global_lock_id s + (k + 1 - 1)) with (global_lock_id s + (k - 1) + 1) by lia.
      apply map_locks_emplace; [done|lia|done].
    + intros i. split.
      * intros [v [H|(-> & _)]%emplace_cases]; [|lia]. assert (Hi : is_Some (m !! i)) by eauto. apply Hd in Hi. lia.
      * intros Hi. apply lookup_touch_is_Some. destruct (decide (i = k)) as [->|]; [by left|right]. apply Hd. lia.
  - intros t (k & m & Hl & Hk & -> & Hm & Hd).
    destruct (decide (size + 1 - k <= 0)) as [Hz|Hz]; [|by rewrite seqZ_cons in Hl by lia].
    assert (k = size + 1) as -> by lia. replace (size + 1 - 1) with size in * by lia. apply HQ; [done|].
    intros i. rewrite Hd. lia.
Qed.

Abbreviation ai_owner := (fun r => (ai_s_id r, ai_type r)).
Abbreviation sf_owner := (fun r => (sf_s_id r, sf_type r)).

Lemma quiet_access_rows n i start lo cur (Q : gmap Z AccessInfoEntry -> st -> Prop) s :
  1 <= start <= 4 -> rows_part ai_lock_id ai_owner lo (global_lock_id s) i cur -> (n = 0%nat -> cur <> ∅) ->
  global_lock_id s + Z.of_nat n < 2 ^ 31 ->
  (forall m g, rows_part ai_lock_id ai_owner lo (global_lock_id s + Z.of_nat n) i m -> m <> ∅ ->
    Q m (with_locks g (global_lock_id s + Z.of_nat n) s)) ->
  quietly (access_rows n i start cur) Q s.
Proof using.
  revert start cur Q s. induction n as [|n IH]; intros start cur Q s Hst Hcur Hne Hg HQ; cbn [access_rows].
  - apply quiet_ret. specialize (HQ cur (engine s)). rewrite Z.add_0_r in HQ.
    replace (with_locks (engine s) (global_lock_id s) s) with s in HQ by by destruct s. auto.
  - apply quiet_bind, quiet_next_lock; [lia|].
    destruct (rows_part_emplace _ _ _ _ _ start (AiRow i start (global_lock_id s)) _ Hcur Hst eq_refl eq_refl) as [Hm Hm'].
    apply IH; [by apply next_type|done|done|cbn; lia|]. cbn [global_lock_id set_lock_ids]. intros m g.
    replace (global_lock_id s + 1 + Z.of_nat n) with (global_lock_id s + Z.of_nat (S n)) by lia. apply HQ.
Qed.

Lemma quiet_facility_rows n i start lo cur (Q : gmap Z SpecialFacilityEntry -> st -> Prop) s :
  1 <= start <= 4 -> rows_part sf_lock_id sf_owner lo (global_lock_id s) i cur -> (n = 0%nat -> cur <> ∅) ->
  global_lock_id s + Z.of_nat n < 2 ^ 31 ->
  (forall m g, rows_part sf_lock_id sf_owner lo (global_lock_id s + Z.of_nat n) i m -> m <> ∅ ->
    Q m (with_locks g (global_lock_id s + Z.of_nat n) s)) ->
  quietly (facility_rows uniform n i start cur) Q s.
Proof using Huniform.
  revert start cur Q s. induction n as [|n IH]; intros start cur Q s Hst Hcur Hne Hg HQ; cbn [facility_rows].
  - apply quiet_ret. specialize (HQ cur (engine s)). rewrite Z.add_0_r in HQ.
    replace (with_locks (engine s) (global_lock_id s) s) with s in HQ by by destruct s. auto.
  - apply quiet_bind, quiet_uniform; [lia|]. intros a g0 Ha. apply quiet_bind, quiet_next_lock; [cbn; lia|].
    cbn [global_lock_id set_engine cf_lock_begin cf_lock_num].
    set (r := SfRow _ _ _ _).
    destruct (rows_part_emplace _ _ _ _ _ start r _ Hcur Hst eq_refl eq_refl) as [Hm Hm'].
    apply IH; [by apply next_type|done|done|cbn; lia|]. cbn [global_lock_id set_lock_ids]. intros m g.
    replace (global_lock_id s + 1 + Z.of_nat n) with (global_lock_id s + Z.of_nat (S n)) by lia. apply HQ.
Qed.

(** Filling a table, one subscriber after another. *)
Section fill.
Context {A : Type} (lock : A -> Z) (owner : A -> Z * Z) (rows : nat -> Z -> Z -> M st (Z * TatpRequest) (gmap Z A)).
Context (get_t : st -> gmap Z (gmap Z A)) (set_t : gmap Z (gmap Z A) -> st -> st).
Context (get_set : forall t s, get_t (set_t t s) = t) (set_set : forall t t' s, set_t t (set_t t' s) = set_t t s).
Context (set_get : forall s, set_t (get_t s) s = s).
Context (get_with : forall g hi s, get_t (with_locks g hi s) = get_t s).
Context (with_set : forall g hi t s, with_locks g hi (set_t t s) = set_t t (with_locks g hi s)).
Context (engine_set : forall g t s, set_engine g (set_t t s) = set_t t (set_engine g s)).
Context (global_set : forall t s, global_lock_id (set_t t s) = global_lock_id s).
Context (rows_spec : forall n i start (Q : gmap Z A -> st -> Prop) s,
  1 <= start <= 4 -> n <> 0%nat -> global_lock_id s + Z.of_nat n < 2 ^ 31 ->
  (forall m g, rows_part lock owner (global_lock_id s) (global_lock_id s + Z.of_nat n) i m -> m <> ∅ ->
    Q m (with_locks g (global_lock_id s + Z.of_nat n) s)) ->
  quietly (rows n i start) Q s).

Lemma quiet_fill {V} (sub : gmap Z V) size (Q : unit -> st -> Prop) s :
  0 <= size -> (forall i, is_Some (sub !! i) <-> 1 <= i <= size) -> get_t s = ∅ -> global_lock_id s + 4 * size < 2 ^ 31 ->
  (forall t g hi, table_part lock owner (global_lock_id s) hi size [] t -> hi <= global_lock_id s + 4 * size ->
    Q tt (set_t t (with_locks g hi s))) ->
  quietly (for_each (elements V sub) (fun iter =>
    cardinality <- GenerateUniformRandom uniform 1 4 ;;
    start <- GenerateUniformRandom uniform 1 4 ;;
    current_map <- rows (Z.to_nat cardinality) iter.1 start ;;
    modify (fun s => set_t (emplace iter.1 current_map (get_t s)) s))) Q s.
Proof using Huniform Helements get_set set_set set_get get_with with_set engine_set global_set rows_spec.
  intros Hsz Hd He Hg HQ. destruct (elements_spec elements Helements V sub) as [Hnd Hin].
  assert (Hkeys : forall i, i ∈ (elements V sub).*1 <-> 1 <= i <= size).
  { intros i. rewrite <- Hd, list_elem_of_fmap. split; [intros ([k v] & -> & H)|intros [v H]].
    - exists v. by apply Hin.
    - exists (i, v). split; [done|by apply Hin]. }
  apply (quiet_for_each _ (fun l s' => exists t g hi, s' = set_t t (with_locks g hi s) /\
    table_part lock owner (global_lock_id s) hi size l.*1 t /\ hi + 4 * Z.of_nat (length l) <= global_lock_id s + 4 * size)).
  - exists ∅, (engine s), (global_lock_id s). split_and!.
    + rewrite <- He at 1. replace (with_locks (engine s) (global_lock_id s) s) with s by by destruct s. by rewrite set_get.
    + by apply table_part_empty.
    + assert (Hlen : (length (elements V sub).*1 <= length (seqZ 1 size))%nat).
      { apply submseteq_length, NoDup_submseteq; [done|]. intros i Hi%Hkeys. apply elem_of_seqZ. lia. }
      rewrite length_fmap, length_seqZ in Hlen. lia.
  - intros [i v] l s' (t & g & hi & -> & Ht & Hlen). cbn [fst fmap list_fmap length] in *.
    apply quiet_bind, quiet_uniform; [lia|]. intros c g1 Hc. apply quiet_bind, quiet_uniform; [lia|]. intros start g2 Hst.
    rewrite !engine_set. apply quiet_bind, rows_spec; [done|lia|rewrite global_set; cbn; lia|].
    intros m g3 Hm Hne. rewrite global_set in *. cbn [global_lock_id set_engine with_locks set_lock_ids] in Hm |- *.
    apply quiet_modify. exists (emplace i m t), g3, (hi + Z.of_nat (Z.to_nat c)). split_and!.
    + rewrite with_set, get_set, set_set. done.
    + by eapply table_part_emplace.
    + lia.
  - intros s' (t & g & hi & -> & Ht & Hlen). cbn in *. apply HQ; [done|lia].
Qed.
End fill.

(** *** Call forwarding *)

(** A call forwarding row [r] of time [t]: its subscriber has the facility, and
    its lock is the one of its key. *)
Definition cf_row_ok (s : st) (i ty t : Z) (r : CallForwardingEntry) : Prop :=
  cf_s_id r = i /\ cf_sf_type r = ty /\ start_time r = t /\ t ∈ [0; 8; 16] /\ t < end_time r <= t + 8 /\
  cf_lock_id r = cf_lock s i ty t.

Definition cf_ok (s : st) (c : gmap Z (gmap Z CallForwardingEntry)) : Prop :=
  forall k m t r, c !! k = Some m -> m !! t = Some r ->
    exists i ty f, k = cf_key i ty /\ special_facility s !! i = Some f /\ is_Some (f !! ty) /\ cf_row_ok s i ty t r.

Lemma quiet_forwarding_rows n i ty start cur c (Q : gmap Z CallForwardingEntry -> st -> Prop) s g :
  0 < cf_lock_num s -> 0 <= start <= 2 -> (forall t r, cur !! t = Some r -> cf_row_ok s i ty t r) ->
  (forall m g', (forall t r, m !! t = Some r -> cf_row_ok s i ty t r) -> Q m (set_call_forwarding c (set_engine g' s))) ->
  quietly (forwarding_rows uniform n i ty start cur) Q (set_call_forwarding c (set_engine g s)).
Proof using Huniform Helements.
  intros Hn. revert start cur g. induction n as [|n IH]; intros start cur g Hst Hcur HQ; cbn [forwarding_rows].
  { apply quiet_ret. by apply HQ. }
  apply quiet_bind, quiet_uniform; [lia|]. intros d g1 Hd. apply quiet_bind, quiet_cf_lock; [done|].
  change (set_engine g1 (set_call_forwarding c (set_engine g s))) with (set_call_forwarding c (set_engine g1 s)).
  apply IH; [pose proof (Z.rem_bound_pos (start + 1) 2); lia| |done].
  intros t r [H|(-> & -> & _)]%emplace_cases; [by apply Hcur|].
  assert (Hc : start = 0 \/ start = 1 \/ start = 2) by lia.
  unfold cf_row_ok. cbn [cf_s_id cf_sf_type start_time end_time cf_lock_id].
  split_and!; try lia; [|done]. destruct Hc as [-> | [-> | ->]]; set_solver.
Qed.

Lemma quiet_PopulateCallForwarding (Q : unit -> st -> Prop) s :
  0 < cf_lock_num s -> call_forwarding s = ∅ ->
  (forall i f, special_facility s !! i = Some f -> rows_ok sf_owner i f) ->
  (forall c g, cf_ok s c -> Q tt (set_call_forwarding c (set_engine g s))) ->
  quietly (PopulateCallForwarding uniform elements) Q s.
Proof using Huniform Helements.
  intros Hn He Hsf HQ. apply quiet_bind, quiet_get.
  apply (quiet_for_each _ (fun l s' => (forall x, x ∈ l -> x ∈ elements _ (special_facility s)) /\
    exists c g, s' = set_call_forwarding c (set_engine g s) /\ cf_ok s c)).
  - split; [done|]. exists ∅, (engine s). split; [by destruct s; cbn in *; subst|].
    intros k m t r H. by rewrite lookup_empty in H.
  - intros [i f] l s' (Hl & c & g & -> & Hc).
    assert (Hf : special_facility s !! i = Some f) by (apply (elements_spec elements Helements), Hl; left).
    apply (quiet_for_each _ (fun l s' => (forall x, x ∈ l -> x ∈ elements _ f) /\
      exists c g, s' = set_call_forwarding c (set_engine g s) /\ cf_ok s c)).
    + split; [done|eauto].
    + clear c g Hc. intros [k e] l' s' (Hl' & c & g & -> & Hc). cbn [fst snd].
      assert (Hk : f !! k = Some e) by (apply (elements_spec elements Helements), Hl'; left).
      destruct (Hsf i f Hf) as [_ Hrows]. destruct (Hrows k e Hk) as [_ Heq]. injection Heq as _ Hty. rewrite Hty.
      assert (Hl'' : forall x, x ∈ l' -> x ∈ elements _ f) by (intros x Hx; apply Hl'; by right).
      apply quiet_bind, quiet_uniform; [lia|]. intros n g1 Hcard. destruct (n =? 0) eqn:Hn0.
      { apply quiet_ret. split; [done|]. exists c, g1. done. }
      apply quiet_bind, quiet_uniform; [lia|]. intros start g2 Hst. apply quiet_bind.
      change (set_engine g2 (set_engine g1 (set_call_forwarding c (set_engine g s)))) with
        (set_call_forwarding c (set_engine g2 s)).
      apply quiet_forwarding_rows; [done|done|by intros t r H; rewrite lookup_empty in H|].
      intros m g3 Hm. apply quiet_modify. split; [done|]. exists (emplace (cf_key i k) m c), g3. split; [done|].
      intros k1 m1 t r [H|(-> & -> & _)]%emplace_cases Hr; [by eapply Hc|].
      exists i, k, f. split_and!; [done|done|by exists e|by apply Hm].
    + intros s' (_ & c' & g' & -> & Hc'). split; [intros x Hx; apply Hl; by right|eauto].
  - intros s' (_ & c & g & -> & Hc). by apply HQ.
Qed.

(** ** Well-formed tables *)

Record tables_wf (s : st) : Prop := {
  wf_size : 2 <= subscriber_size s;
  wf_locks : exists a b, ENTRY_LOCK_START <= a <= b /\ b <= cf_lock_begin s /\
    map_locks sub_lock_id ENTRY_LOCK_START a (subscriber s) /\
    table_locks ai_lock_id a b (access_info s) /\
    table_locks sf_lock_id b (cf_lock_begin s) (special_facility s);
  wf_subscriber : forall i, is_Some (subscriber s !! i) <-> 1 <= i <= subscriber_size s;
  wf_access : table_ok ai_owner (subscriber_size s) (access_info s);
  wf_facility : table_ok sf_owner (subscriber_size s) (special_facility s);
  wf_num : cf_lock_num s = Z.quot (subscriber_size s * 4) CALL_FORWARDING_LOCK_FACTOR;
  wf_forwarding : cf_ok s (call_forwarding s);
}.

(** The largest number of subscribers for which no [int] overflows whatever the
    numbers of rows are. *)
Definition MAX_SUBSCRIBERS : Z := 200000000.

Lemma quiet_PopulateTables size g (Q : unit -> st -> Prop) :
  2 <= size <= MAX_SUBSCRIBERS ->
  (forall s, tables_wf s -> subscriber_size s = size -> requests s = [] -> Q tt s) ->
  quietly (PopulateTables uniform elements size) Q (tatp_start g).
Proof using Huniform Helements.
  unfold MAX_SUBSCRIBERS. intros Hsz HQ. apply quiet_bind, quiet_modify, quiet_bind.
  apply quiet_PopulateSubscriber; [lia|done|cbn; unfold ENTRY_LOCK_START; lia|]. intros subs Hsubs Hd.
  apply quiet_bind, quiet_bind, quiet_get.
  apply (quiet_fill ai_lock_id ai_owner (fun n i start => access_rows n i start ∅) access_info set_access_info) with (size := size);
    try done; [by intros []| |lia|cbn; unfold ENTRY_LOCK_START; lia|].
  { intros n i start Q' s Hst Hn Hg HQ'. eapply quiet_access_rows; [done|apply rows_part_empty|done|done|exact HQ']. }
  intros ai g1 hi1 Hai Hhi1. apply quiet_bind, quiet_bind, quiet_get.
  apply (quiet_fill sf_lock_id sf_owner (fun n i start => facility_rows uniform n i start ∅) special_facility set_special_facility) with (size := size);
    try done; [by intros []| |lia|cbn in *; unfold ENTRY_LOCK_START in *; lia|].
  { intros n i start Q' s Hst Hn Hg HQ'. eapply quiet_facility_rows; [done|apply rows_part_empty|done|done|exact HQ']. }
  intros sf g2 hi2 Hsf Hhi2.
  apply table_part_done in Hai as (Hai & Hle1 & Hait), Hsf as (Hsf & Hle2 & Hsft).
  cbn [global_lock_id set_special_facility set_access_info set_subscriber with_locks set_engine set_lock_ids
    set_subscriber_size tatp_start engine] in *. unfold ENTRY_LOCK_START in *.
  assert (Hq : 0 < Z.quot (size * 4) CALL_FORWARDING_LOCK_FACTOR <= size).
  { unfold CALL_FORWARDING_LOCK_FACTOR. split; [apply Z.quot_str_pos; lia|apply Z.quot_le_upper_bound; lia]. }
  apply quiet_bind, quiet_get. cbn [subscriber_size set_special_facility set_access_info set_subscriber with_locks
    set_engine set_lock_ids set_subscriber_size tatp_start global_lock_id]. cbv zeta.
  rewrite (proj2 (Z.leb_gt (2 ^ 31) _)) by lia. apply quiet_bind, quiet_ret.
  rewrite (proj2 (Z.leb_gt (2 ^ 31) _)) by lia. apply quiet_bind, quiet_ret. apply quiet_bind, quiet_put.
  apply quiet_PopulateCallForwarding; [apply Hq|done|apply Hsft|]. intros c g3 Hc.
  apply HQ; [|done|done]. split; cbn; [lia| |exact Hd|exact Hait|exact Hsft|done|exact Hc].
  exists (5 + size), hi1. unfold ENTRY_LOCK_START. split_and!; [lia..|done|done|done].
Qed.

End proofs.

(** ** Rows and their locks *)

(** The rows with a lock of their own. *)
Inductive row := SubscriberRow (s_id : Z) | AccessRow (s_id ty : Z) | FacilityRow (s_id ty : Z).

Definition row_lock {rng} (s : @tatp rng) (r : row) : option Z :=
  match r with
  | SubscriberRow i => sub_lock_id <$> subscriber s !! i
  | AccessRow i t => access_info s !! i ≫= fun m => ai_lock_id <$> m !! t
  | FacilityRow i t => special_facility s !! i ≫= fun m => sf_lock_id <$> m !! t
  end.

Lemma row_lock_range {rng} (s : @tatp rng) :
  tables_wf s -> exists a b, forall r l, row_lock s r = Some l ->
    ENTRY_LOCK_START <= l < cf_lock_begin s /\
    match r with SubscriberRow _ => l < a | AccessRow _ _ => a <= l < b | FacilityRow _ _ => b <= l end /\ a <= b.
Proof.
  intros Hwf. destruct (wf_locks s Hwf) as (a & b & Hab & Hb & [Hs _] & [Ha _] & [Hf _]). exists a, b.
  intros [i|i t|i t] l H; cbn in H.
  - apply fmap_Some in H as (x & Hx & ->). specialize (Hs _ _ Hx). lia.
  - apply bind_Some in H as (m & Hm & (x & Hx & ->)%fmap_Some). specialize (Ha _ _ _ _ Hm Hx). lia.
  - apply bind_Some in H as (m & Hm & (x & Hx & ->)%fmap_Some). specialize (Hf _ _ _ _ Hm Hx). lia.
Qed.

Lemma row_lock_inj {rng} (s : @tatp rng) r r' l :
  tables_wf s -> row_lock s r = Some l -> row_lock s r' = Some l -> r = r'.
Proof.
  intros Hwf Hr Hr'. destruct (row_lock_range s Hwf) as (a & b & Hab).
  pose proof (Hab _ _ Hr) as H1. pose proof (Hab _ _ Hr') as H2.
  destruct (wf_locks s Hwf) as (a' & b' & _ & _ & [_ Hs] & [_ Ha] & [_ Hf]).
  destruct r as [i|i t|i t], r' as [i'|i' t'|i' t']; try lia; cbn in Hr, Hr'.
  - apply fmap_Some in Hr as (x & Hx & ->), Hr' as (x' & Hx' & He). by rewrite (Hs _ _ _ _ Hx Hx' He).
  - apply bind_Some in Hr as (m & Hm & (x & Hx & ->)%fmap_Some), Hr' as (m' & Hm' & (x' & Hx' & He)%fmap_Some).
    by destruct (Ha _ _ _ _ _ _ _ _ Hm Hm' Hx Hx' He) as [-> ->].
  - apply bind_Some in Hr as (m & Hm & (x & Hx & ->)%fmap_Some), Hr' as (m' & Hm' & (x' & Hx' & He)%fmap_Some).
    by destruct (Hf _ _ _ _ _ _ _ _ Hm Hm' Hx Hx' He) as [-> ->].
Qed.

(** A call forwarding row's lock is a remainder, of either sign. *)
Lemma forwarding_lock_range {rng} (s : @tatp rng) k m t r :
  tables_wf s -> call_forwarding s !! k = Some m -> m !! t = Some r ->
  cf_lock_id r = cf_lock s (cf_s_id r) (cf_sf_type r) (start_time r) /\
  cf_lock_begin s - cf_lock_num s < cf_lock_id r < cf_lock_begin s + cf_lock_num s.
Proof.
  intros Hwf Hm Hr. destruct (wf_forwarding s Hwf k m t r Hm Hr) as (i & ty & _ & _ & _ & _ & -> & -> & -> & _ & _ & ->).
  split; [done|]. unfold cf_lock.
  assert (Hn : 0 < cf_lock_num s).
  { rewrite (wf_num s Hwf). pose proof (wf_size s Hwf). unfold CALL_FORWARDING_LOCK_FACTOR. apply Z.quot_str_pos. lia. }
  pose proof (Z.rem_bound_abs (Hash i ty t) (cf_lock_num s) ltac:(lia)). lia.
Qed.

(** C32: populating the TATP tables returns, for 2 to 200,000,000 subscribers
    and whatever the random numbers and the iteration order of the maps are, with
    tables of the declared shape: a subscriber row for each number from 1, one to
    four access-info and facility rows for each subscriber, under its number and a
    type from 1 to 4, call forwarding rows only for facilities that exist, at 0, 8
    or 16 hours.  Each row of the first three tables has a lock that no other row
    of these three tables has, between the first lock and [cf_lock_begin].  This says
    nothing of call forwarding rows: the lock of one is the remainder of a hash plus
    [cf_lock_begin], less than [cf_lock_num] away from it on either side, so that two
    of them can share a lock, with a facility row too
    ([TatpProofs.insert_waits_for_itself]). *)
Theorem tatp_tables {rng} (uniform : Z -> Z -> rng -> Z * rng) elements size g :
  distribution uniform -> iteration elements -> 2 <= size <= MAX_SUBSCRIBERS ->
  exists s, PopulateTables uniform elements size (tatp_start g) = Ok (tt, s, []) /\
    subscriber_size s = size /\ requests s = [] /\ tables_wf s /\
    (forall r r' l, row_lock s r = Some l -> row_lock s r' = Some l -> r = r') /\
    (forall r l, row_lock s r = Some l -> ENTRY_LOCK_START <= l < cf_lock_begin s) /\
    forall k m t r, call_forwarding s !! k = Some m -> m !! t = Some r ->
      cf_lock_id r = cf_lock s (cf_s_id r) (cf_sf_type r) (start_time r) /\
      cf_lock_begin s - cf_lock_num s < cf_lock_id r < cf_lock_begin s + cf_lock_num s.
Proof.
  intros Hu He Hsz.
  destruct (quiet_PopulateTables uniform elements Hu He size g
    (fun _ s => tables_wf s /\ subscriber_size s = size /\ requests s = []) Hsz) as ([] & s & Hs & Hwf & Hn & Hq); [auto|].
  exists s. split_and!; [done..| | |].
  - intros r r' l. by apply row_lock_inj.
  - intros r l Hr. destruct (row_lock_range s Hwf) as (a & b & Hab). apply (Hab _ _ Hr).
  - intros k m t r. by apply forwarding_lock_range.
Qed.

(** A distribution, and an order of iteration. *)
Definition counting (a b g : Z) : Z * Z := (a + g mod (b - a + 1), g + 1).

Lemma counting_distribution : distribution counting.
Proof. intros a b g Hab. cbn. pose proof (Z.mod_pos_bound g (b - a + 1)). lia. Qed.

Lemma tatp_tables_witness :
  exists s, PopulateTables counting listing 100000 (tatp_start 7) = Ok (tt, s, []) /\
    subscriber_size s = 100000 /\ requests s = [] /\ tables_wf s /\
    (forall r r' l, row_lock s r = Some l -> row_lock s r' = Some l -> r = r') /\
    (forall r l, row_lock s r = Some l -> ENTRY_LOCK_START <= l < cf_lock_begin s) /\
    forall k m t r, call_forwarding s !! k = Some m -> m !! t = Some r ->
      cf_lock_id r = cf_lock s (cf_s_id r) (cf_sf_type r) (start_time r) /\
      cf_lock_begin s - cf_lock_num s < cf_lock_id r < cf_lock_begin s + cf_lock_num s.
Proof. apply (tatp_tables counting listing 100000 7); [exact counting_distribution|exact listing_iteration|done]. Defined.

