(* ===== verification/TatpProofs.v ===== *)
(** * TatpProofs: the locks of a TATP trace

    A host's transactions return and request the locks of the rows they read and
    write, in the mode their kind needs; the transaction that inserts a call
    forwarding row never inserts one, and can wait for itself. *)

From S2P Require Import Prelude Types Tatp TatpTables.

#[local] Open Scope prog_scope.

#[local] Opaque Hash cf_key Z.rem.

Section proofs.
Context {rng : Type} (uniform : Z -> Z -> rng -> Z * rng) (elements : forall A, gmap Z A -> list (Z * A)).
Context (Huniform : distribution uniform) (Helements : iteration elements).

Abbreviation st := (@tatp rng).
Abbreviation quietly := (@quiet st (Z * TatpRequest) _).

(** ** Transactions *)

Definition lock_of_subscriber (s : st) (l : Z) : Prop := exists i r, subscriber s !! i = Some r /\ sub_lock_id r = l.
Definition lock_of_access (s : st) (l : Z) : Prop :=
  exists i m k r, access_info s !! i = Some m /\ m !! k = Some r /\ ai_lock_id r = l.
Definition lock_of_facility (s : st) (l : Z) : Prop :=
  exists i m k r, special_facility s !! i = Some m /\ m !! k = Some r /\ sf_lock_id r = l.
Definition lock_of_forwarding (s : st) (l : Z) : Prop :=
  exists i ty m t, call_forwarding s !! cf_key i ty = Some m /\ is_Some (m !! t) /\ cf_lock s i ty t = l.

(** The locks each kind of transaction requests, and how. *)
Definition req_for (s : st) (r : TatpRequest) : Prop :=
  match txn_type r, req_lock_type r with
  | GET_SUBSCRIBER_DATA_TYPE, LOCK_SHARED | UPDATE_LOCATION_TYPE, LOCK_EXCL
  | DELETE_CALL_FORWARDING_TYPE, LOCK_SHARED => lock_of_subscriber s (req_lock_id r)
  | GET_ACCESS_DATA_TYPE, LOCK_SHARED => lock_of_access s (req_lock_id r)
  | GET_NEW_DESTINATION_TYPE, LOCK_SHARED => lock_of_facility s (req_lock_id r) \/ lock_of_forwarding s (req_lock_id r)
  | UPDATE_SUBSCRIBER_DATA_TYPE, LOCK_EXCL | INSERT_CALL_FORWARDING_TYPE, LOCK_SHARED =>
      lock_of_subscriber s (req_lock_id r) \/ lock_of_facility s (req_lock_id r)
  | INSERT_CALL_FORWARDING_TYPE, LOCK_EXCL | DELETE_CALL_FORWARDING_TYPE, LOCK_EXCL => lock_of_forwarding s (req_lock_id r)
  | _, _ => False
  end.

(** The rows of [c] are rows of [c']. *)
Definition rows_in (c c' : gmap Z (gmap Z CallForwardingEntry)) : Prop :=
  forall k m t r, c !! k = Some m -> m !! t = Some r -> exists m', c' !! k = Some m' /\ m' !! t = Some r.

Definition moved (g : rng) (c : gmap Z (gmap Z CallForwardingEntry)) (q : list TatpRequest) (s : st) : st :=
  set_engine g (set_call_forwarding c (set_requests q s)).

(** After transaction [tid] of kind [ty] ([after]): the engine moved, requests were
    added, and call forwarding rows may have gone. *)
Definition req_of (s : st) (tid : Z) (ty : tatp_txn) (r : TatpRequest) : Prop :=
  (txn_id r = tid /\ txn_type r = ty) /\ req_for s r.

(** The mode in which a transaction first requests the row of its subscriber; a read
    of another table has no such request, and none at all when it finds no row. *)
Definition first_mode (ty : tatp_txn) : option lock_state :=
  match ty with
  | GET_SUBSCRIBER_DATA_TYPE | INSERT_CALL_FORWARDING_TYPE | DELETE_CALL_FORWARDING_TYPE => Some LOCK_SHARED
  | UPDATE_SUBSCRIBER_DATA_TYPE | UPDATE_LOCATION_TYPE => Some LOCK_EXCL
  | GET_ACCESS_DATA_TYPE | GET_NEW_DESTINATION_TYPE => None
  end.

Definition leads (s : st) (ty : tatp_txn) (rs : list TatpRequest) : Prop :=
  forall m, first_mode ty = Some m ->
    exists r rs', rs = r :: rs' /\ lock_of_subscriber s (req_lock_id r) /\ req_lock_type r = m.

(** The requests of transaction [tid] of kind [ty]. *)
Definition made (s : st) (tid : Z) (ty : tatp_txn) (rs : list TatpRequest) : Prop :=
  Forall (req_of s tid ty) rs /\ leads s ty rs.

Definition after (s : st) (tid : Z) (ty : tatp_txn) (s' : st) : Prop :=
  exists g c rs, s' = moved g c (requests s ++ rs) s /\ rows_in c (call_forwarding s) /\ made s tid ty rs.

Lemma rows_in_refl c : rows_in c c.
Proof using. intros k m t r Hm Hr. eauto. Qed.

Lemma rows_in_touch k c : rows_in (touch ∅ k c) c.
Proof using.
  intros k1 m t r [H|(-> & -> & _)]%lookup_touch_Some Hr; [eauto|]. by rewrite lookup_empty in Hr.
Qed.

Lemma rows_in_touch_r k c : rows_in c (touch ∅ k c).
Proof using.
  intros k1 m t r Hm Hr. exists m. split; [|done]. unfold touch. destruct (c !! k) eqn:E; [done|].
  rewrite lookup_insert_ne; [done|]. intros ->. congruence.
Qed.

Lemma touch_present {A} (d v : A) k c : c !! k = Some v -> touch d k c = c.
Proof using. intros H. unfold touch. by rewrite H. Qed.

Lemma rows_in_delete k t m c : c !! k = Some m -> rows_in (<[k := delete t m]> c) c.
Proof using.
  intros Hm k1 m1 t1 r. destruct (decide (k1 = k)) as [->|Hk]; [rewrite lookup_insert_eq|rewrite lookup_insert_ne by done; eauto].
  intros [= <-] [_ Hr]%lookup_delete_Some. eauto.
Qed.

Lemma rows_in_trans c1 c2 c3 : rows_in c1 c2 -> rows_in c2 c3 -> rows_in c1 c3.
Proof using. intros H1 H2 k m t r Hm Hr. destruct (H1 _ _ _ _ Hm Hr) as (m' & Hm' & Hr'). by eapply H2. Qed.

Lemma quiet_request tid l lt ty (Q : unit -> st -> Prop) s :
  Q tt (set_requests (requests s ++ [TR tid l lt ty]) s) -> quietly (GEN_REQUEST tid l lt ty) Q s.
Proof using. intros HQ. by apply quiet_modify. Qed.

Lemma quiet_subscriber_lock i r (Q : Z -> st -> Prop) s :
  subscriber s !! i = Some r -> Q (sub_lock_id r) s -> quietly (subscriber_lock i) Q s.
Proof using. intros Hr HQ. apply quiet_bind, quiet_get. rewrite Hr. by apply quiet_ret. Qed.

Lemma quiet_facilities i f (Q : gmap Z SpecialFacilityEntry -> st -> Prop) s :
  special_facility s !! i = Some f -> Q f s -> quietly (facilities i) Q s.
Proof using.
  intros Hf HQ. apply quiet_bind, quiet_modify, quiet_bind, quiet_get, quiet_ret.
  cbn [special_facility set_special_facility]. unfold touch, index. rewrite Hf, Hf. by destruct s.
Qed.

Lemma quiet_forwardings k (Q : gmap Z CallForwardingEntry -> st -> Prop) s :
  Q (index ∅ k (call_forwarding s)) (set_call_forwarding (touch ∅ k (call_forwarding s)) s) -> quietly (forwardings k) Q s.
Proof using.
  intros HQ. apply quiet_bind, quiet_modify, quiet_bind, quiet_get, quiet_ret.
  cbn [call_forwarding set_call_forwarding]. by rewrite index_touch.
Qed.

Section transactions.
Context (s : st) (Hwf : tables_wf s) (tid : Z).

Lemma wf_row i :
  1 <= i <= subscriber_size s ->
  exists r f m, subscriber s !! i = Some r /\ special_facility s !! i = Some f /\ access_info s !! i = Some m.
Proof using Hwf.
  intros Hi. destruct (proj2 (wf_subscriber s Hwf i) Hi) as [r Hr].
  destruct (proj2 (proj1 (wf_facility s Hwf) i) Hi) as [f Hf]. destruct (proj2 (proj1 (wf_access s Hwf) i) Hi) as [m Hm].
  by exists r, f, m.
Qed.

(** One step of a transaction. *)
Ltac tatp_step :=
  lazymatch goal with
  | |- quiet (bind _ _) _ _ => apply quiet_bind
  | |- quiet get _ _ => apply quiet_get
  | |- quiet (ret _) _ _ => apply quiet_ret
  | |- quiet (GEN_REQUEST _ _ _ _) _ _ => apply quiet_request
  | |- quiet (GenerateRandom _ 1 (subscriber_size _)) _ _ =>
      apply (quiet_random uniform Huniform); [pose proof (wf_size s Hwf); cbn; lia|];
      let i := fresh "i" in let g := fresh "g" in let H := fresh "Hi" in
      intros i g H; destruct (wf_row i H) as (?r & ?f & ?m & ? & ? & ?)
  | |- quiet (GenerateRandom _ _ _) _ _ => apply (quiet_random uniform Huniform); [lia|intros ?v ?g ?Hv]
  | |- quiet (subscriber_lock _) _ _ => eapply quiet_subscriber_lock; [eassumption|]
  | |- quiet (facilities _) _ _ => eapply quiet_facilities; [eassumption|]
  end; cbv beta zeta.

Lemma after_intro ty g c rs s' :
  s' = moved g c (requests s ++ rs) s -> rows_in c (call_forwarding s) ->
  Forall (req_of s tid ty) rs -> leads s ty rs -> after s tid ty s'.
Proof using. intros. by exists g, c, rs. Qed.

Lemma leads_none ty rs : first_mode ty = None -> leads s ty rs.
Proof using. intros H m. by rewrite H. Qed.

Lemma leads_with ty r rs : lock_of_subscriber s (req_lock_id r) -> first_mode ty = Some (req_lock_type r) -> leads s ty (r :: rs).
Proof using. intros Hl Hm m H. exists r, rs. rewrite Hm in H. by injection H as <-. Qed.

(** The end of a transaction: the requests it made. *)
Tactic Notation "tatp_done" uconstr(rs) :=
  eapply (after_intro _ _ _ rs); [unfold moved; cbn; rewrite <- ?app_assoc, ?app_nil_r; reflexivity|first [apply rows_in_refl|apply rows_in_touch|idtac]| |
    first [by apply leads_none|apply leads_with; [cbn; eauto|reflexivity]|idtac]].

Lemma subscriber_lock_of i r : subscriber s !! i = Some r -> lock_of_subscriber s (sub_lock_id r).
Proof using. intros H. by exists i, r. Qed.

Lemma facility_lock_of i f k r : special_facility s !! i = Some f -> f !! k = Some r -> lock_of_facility s (sf_lock_id r).
Proof using. intros Hf Hr. by exists i, f, k, r. Qed.

Lemma access_lock_of i m k r : access_info s !! i = Some m -> m !! k = Some r -> lock_of_access s (ai_lock_id r).
Proof using. intros Hf Hr. by exists i, m, k, r. Qed.

Hint Resolve subscriber_lock_of facility_lock_of access_lock_of : core.

Lemma req_ok_one l lt ty :
  req_for s (TR tid l lt ty) -> Forall (req_of s tid ty) [TR tid l lt ty].
Proof using. intros H. by apply Forall_singleton. Qed.

Lemma quiet_GetSubscriberData : quietly (GetSubscriberData uniform tid) (fun _ => after s tid GET_SUBSCRIBER_DATA_TYPE) s.
Proof using Huniform Hwf. unfold GetSubscriberData. repeat tatp_step. tatp_done [_]. apply req_ok_one. cbn. eauto. Qed.

Lemma quiet_UpdateLocation : quietly (UpdateLocation uniform tid) (fun _ => after s tid UPDATE_LOCATION_TYPE) s.
Proof using Huniform Hwf. unfold UpdateLocation. repeat tatp_step. tatp_done [_]. apply req_ok_one. cbn. eauto. Qed.

Lemma quiet_GetAccessData : quietly (GetAccessData uniform tid) (fun _ => after s tid GET_ACCESS_DATA_TYPE) s.
Proof using Huniform Hwf.
  unfold GetAccessData. repeat tatp_step. apply quiet_modify. repeat tatp_step.
  cbn [access_info set_access_info set_engine]. unfold touch, index.
  match goal with H : access_info s !! _ = Some _ |- _ => rewrite !H; cbn [default]; try rewrite !H end.
  case_match; tatp_step.
  - tatp_done [_]. apply req_ok_one. cbn. eauto.
  - tatp_done []. constructor.
Qed.

Lemma quiet_UpdateSubsriberData : quietly (UpdateSubsriberData uniform tid) (fun _ => after s tid UPDATE_SUBSCRIBER_DATA_TYPE) s.
Proof using Huniform Hwf.
  unfold UpdateSubsriberData. repeat tatp_step. case_match; tatp_step.
  - tatp_done [_; _]. repeat (constructor; [split; [done|cbn; eauto]|]). constructor.
  - tatp_done [_]. apply req_ok_one. cbn. eauto.
Qed.

(** *** Transactions on call forwarding *)

Lemma num_pos : 0 < cf_lock_num s.
Proof using Hwf.
  rewrite (wf_num s Hwf). pose proof (wf_size s Hwf). unfold CALL_FORWARDING_LOCK_FACTOR. apply Z.quot_str_pos. lia.
Qed.

Lemma quiet_destination_locks i ty end_t rows times used (Q : unit -> st -> Prop) s2 :
  0 < cf_lock_num s2 ->
  (forall rs, Forall (fun r => exists t, r = TR tid (cf_lock s2 i ty t) LOCK_SHARED GET_NEW_DESTINATION_TYPE /\
      is_Some (rows !! t)) rs -> Q tt (set_requests (requests s2 ++ rs) s2)) ->
  quietly (destination_locks tid i ty end_t rows times used) Q s2.
Proof using.
  revert used Q s2. induction times as [|t times IH]; intros used Q s2 Hn HQ; cbn [destination_locks].
  - apply quiet_ret. specialize (HQ [] ltac:(constructor)). rewrite app_nil_r in HQ. by destruct s2.
  - destruct (rows !! t) as [r|] eqn:Hr; [|by apply IH]. destruct (end_time r <=? end_t); [|by apply IH].
    apply quiet_bind, quiet_cf_lock; [done|]. case_bool_decide; [by apply IH|].
    apply quiet_bind, quiet_request, IH; [done|]. intros rs Hrs. cbn [requests set_requests]. rewrite <- app_assoc.
    apply (HQ (_ :: rs)). constructor; [|exact Hrs]. exists t. by rewrite Hr.
Qed.

Lemma forwarding_lock_of i ty m t :
  call_forwarding s !! cf_key i ty = Some m -> is_Some (m !! t) -> lock_of_forwarding s (cf_lock s i ty t).
Proof using. intros Hm Ht. by exists i, ty, m, t. Qed.

Lemma quiet_GetNewDestination : quietly (GetNewDestination uniform tid) (fun _ => after s tid GET_NEW_DESTINATION_TYPE) s.
Proof using Huniform Hwf.
  unfold GetNewDestination. repeat tatp_step.
  apply (quiet_mono _ (fun _ s1 => exists g rs, s1 = set_engine g (set_requests (requests s ++ rs) s) /\
    Forall (req_of s tid GET_NEW_DESTINATION_TYPE) rs)).
  { case_match; tatp_step; cbn.
    - eexists _, [_]. split; [by cbn|]. apply req_ok_one. cbn. eauto.
    - eexists _, []. rewrite app_nil_r. destruct s. cbn. split; [done|constructor]. }
  intros _ s1 (g1 & rs & -> & Hrs). repeat tatp_step.
  cbn [call_forwarding set_engine set_requests].
  destruct (call_forwarding s !! cf_key i v) as [rows|] eqn:Hrows; tatp_step.
  - repeat tatp_step. apply quiet_destination_locks; [apply num_pos|]. intros rs' Hrs'.
    tatp_done (rs ++ rs'). apply Forall_app_2; [done|]. eapply list.Forall_impl; [exact Hrs'|].
    intros r' (t & -> & Ht). split; [done|]. right. exact (forwarding_lock_of _ _ _ _ Hrows Ht).
  - by tatp_done rs.
Qed.

Lemma quiet_request_all {A} (f : A -> Z) lt ty (l : list A) (Q : unit -> st -> Prop) s2 :
  Q tt (set_requests (requests s2 ++ map (fun x => TR tid (f x) lt ty) l) s2) ->
  quietly (for_each l (fun x => GEN_REQUEST tid (f x) lt ty)) Q s2.
Proof using.
  revert s2. induction l as [|x l IH]; intros s2 HQ; cbn [for_each map] in *.
  - apply quiet_ret. rewrite app_nil_r in HQ. by destruct s2.
  - apply quiet_bind, quiet_request, IH. cbn [requests set_requests]. by rewrite <- app_assoc.
Qed.

(** A row that [call_forwarding[k]] shows is one of the table. *)
Lemma index_row k t :
  is_Some (index ∅ k (call_forwarding s) !! t) -> exists m, call_forwarding s !! k = Some m /\ is_Some (m !! t).
Proof using.
  unfold index. destruct (call_forwarding s !! k) as [m|]; cbn [default]; [eauto|].
  rewrite lookup_empty. by intros [].
Qed.

Lemma quiet_InsertCallForwarding :
  quietly (InsertCallForwarding uniform elements tid)
    (fun _ s' => after s tid INSERT_CALL_FORWARDING_TYPE s' /\ rows_in (call_forwarding s) (call_forwarding s')) s.
Proof using Huniform Helements Hwf.
  unfold InsertCallForwarding. repeat tatp_step. apply quiet_request_all. repeat tatp_step.
  set (sf := map _ (elements _ f)).
  assert (Hsf : Forall (req_of s tid INSERT_CALL_FORWARDING_TYPE) sf).
  { apply list.Forall_forall. intros r' ([k e] & -> & He)%list_elem_of_fmap. split; [done|]. right.
    apply (elements_spec elements Helements) in He. cbn. eauto. }
  assert (Hrs : forall rs, Forall (req_of s tid INSERT_CALL_FORWARDING_TYPE) rs ->
    Forall (req_of s tid INSERT_CALL_FORWARDING_TYPE)
      (TR tid (sub_lock_id r) LOCK_SHARED INSERT_CALL_FORWARDING_TYPE :: sf ++ rs)).
  { intros rs Hrs. constructor; [|by apply Forall_app_2]. split; [done|]. cbn. eauto. }
  case_bool_decide as Hfk; cbn [negb]; repeat tatp_step.
  2: { split; [|apply rows_in_refl]. tatp_done (_ :: sf ++ []). apply Hrs. constructor. }
  apply quiet_forwardings. cbn [call_forwarding set_call_forwarding set_engine set_requests].
  case_bool_decide as Hrow; cbn [negb]; repeat tatp_step.
  2: { split; [|apply rows_in_touch_r]. tatp_done (_ :: sf ++ []). apply Hrs. constructor. }
  apply index_row in Hrow as (m' & Hm' & Ht). rewrite (touch_present _ _ _ _ Hm').
  apply quiet_cf_lock; [apply num_pos|]. repeat tatp_step. apply quiet_cf_lock; [apply num_pos|]. apply quiet_modify.
  cbn [call_forwarding set_call_forwarding set_engine set_requests]. unfold emplace. rewrite (touch_present _ _ _ _ Hm').
  split; [|apply rows_in_refl]. tatp_done (_ :: sf ++ [_]). apply Hrs, req_ok_one. exact (forwarding_lock_of _ _ _ _ Hm' Ht).
Qed.

Lemma quiet_DeleteCallForwarding : quietly (DeleteCallForwarding uniform tid) (fun _ => after s tid DELETE_CALL_FORWARDING_TYPE) s.
Proof using Huniform Hwf.
  unfold DeleteCallForwarding. repeat tatp_step. apply quiet_forwardings.
  cbn [call_forwarding set_call_forwarding set_engine set_requests].
  case_bool_decide as Hrow; cbn [negb]; repeat tatp_step.
  2: { tatp_done [_]. apply req_ok_one. cbn. eauto. }
  apply index_row in Hrow as (m' & Hm' & Ht). rewrite (touch_present _ _ _ _ Hm').
  apply quiet_cf_lock; [apply num_pos|]. repeat tatp_step. apply quiet_forwardings.
  cbn [call_forwarding set_call_forwarding set_engine set_requests]. rewrite (touch_present _ _ _ _ Hm').
  apply quiet_modify. unfold index. cbn [call_forwarding set_call_forwarding]. rewrite Hm'. cbn [default].
  tatp_done [_; _]. { by apply rows_in_delete. }
  constructor; [split; [done|cbn; eauto]|]. apply req_ok_one. exact (forwarding_lock_of _ _ _ _ Hm' Ht).
Qed.
End transactions.

(** ** A host's trace *)

Lemma moved_wf s g c q : tables_wf s -> rows_in c (call_forwarding s) -> tables_wf (moved g c q s).
Proof using.
  intros [H1 H2 H3 H4 H5 H6 H7] Hc. split; [exact H1|exact H2|exact H3|exact H4|exact H5|exact H6|].
  intros k m t r Hm Hr. destruct (Hc _ _ _ _ Hm Hr) as (m' & Hm' & Hr'). exact (H7 _ _ _ _ Hm' Hr').
Qed.

Lemma moved_req_for s g c q r : rows_in c (call_forwarding s) -> req_for (moved g c q s) r -> req_for s r.
Proof using.
  intros Hc.
  assert (Hf : forall l, lock_of_forwarding (moved g c q s) l -> lock_of_forwarding s l).
  { intros l (i & ty & m & t & Hm & [x Hx] & Hl). destruct (Hc _ _ _ _ Hm Hx) as (m' & Hm' & Hx').
    exists i, ty, m', t. split; [done|]. split; [by eexists|done]. }
  unfold req_for. destruct (txn_type r), (req_lock_type r); try done; try apply Hf. intros [H|H]; [by left|right; by apply Hf].
Qed.

Lemma quiet_transaction s tid : tables_wf s -> quietly (transaction uniform elements tid) (fun _ s' => exists ty, after s tid ty s') s.
Proof using Huniform Helements.
  intros Hwf. apply quiet_bind, (quiet_uniform uniform Huniform); [lia|]. intros v g Hv.
  assert (Hwf' : tables_wf (set_engine g s)) by (destruct Hwf; by split).
  assert (Ha : forall ty s', after (set_engine g s) tid ty s' -> exists ty, after s tid ty s').
  { intros ty s' (g' & c & rs & -> & Hc & Hrs). by exists ty, g', c, rs. }
  destruct (v <=? _); [eapply quiet_mono; [by apply quiet_GetSubscriberData|intros ? s'; apply Ha]|].
  destruct (v <=? _); [eapply quiet_mono; [by apply quiet_GetNewDestination|intros ? s'; apply Ha]|].
  destruct (v <=? _); [eapply quiet_mono; [by apply quiet_GetAccessData|intros ? s'; apply Ha]|].
  destruct (v <=? _); [eapply quiet_mono; [by apply quiet_UpdateSubsriberData|intros ? s'; apply Ha]|].
  destruct (v <=? _); [eapply quiet_mono; [by apply quiet_UpdateLocation|intros ? s'; apply Ha]|].
  destruct (v <=? _); [eapply quiet_mono; [by apply quiet_InsertCallForwarding|intros ? s' [H _]; eauto]|].
  unfold DELETE_CALL_FORWARDING_RATIO. rewrite (proj2 (Z.leb_le _ _)) by lia.
  eapply quiet_mono; [by apply quiet_DeleteCallForwarding|intros ? s'; apply Ha].
Qed.

Lemma made_moved s g c q tid ty rs : rows_in c (call_forwarding s) -> made (moved g c q s) tid ty rs -> made s tid ty rs.
Proof using.
  intros Hc [HF Hl]. split; [|exact Hl]. eapply list.Forall_impl; [exact HF|]. intros r [Hr Hf].
  split; [exact Hr|]. by eapply moved_req_for.
Qed.

(** The transactions [l], one after another: each list of requests, in order. *)
Lemma quiet_transactions s l :
  tables_wf s -> requests s = [] ->
  quietly (for_each l (transaction uniform elements)) (fun _ s' => exists g c rss, s' = moved g c (concat rss) s /\
    rows_in c (call_forwarding s) /\ Forall2 (fun tid rs => exists ty, made s tid ty rs) l rss) s.
Proof using Huniform Helements.
  intros Hwf Hq.
  apply (quiet_for_each _ (fun l' s' => exists l0, l = l0 ++ l' /\ exists g c rss, s' = moved g c (concat rss) s /\
    rows_in c (call_forwarding s) /\ Forall2 (fun tid rs => exists ty, made s tid ty rs) l0 rss)).
  - exists []. split; [done|]. exists (engine s), (call_forwarding s), []. split; [destruct s; cbn in *; by subst|].
    split; [apply rows_in_refl|constructor].
  - intros x l' s' (l0 & -> & g & c & rss & -> & Hc & Hrs).
    eapply quiet_mono; [by apply quiet_transaction, moved_wf|]. intros _ s' (ty & g' & c' & rs' & -> & Hc' & Hrs').
    exists (l0 ++ [x]). split; [by rewrite <- app_assoc|]. exists g', c', (rss ++ [rs']).
    split; [by rewrite concat_app; cbn; rewrite app_nil_r|]. split; [by eapply rows_in_trans|].
    apply Forall2_app; [done|]. constructor; [|constructor]. exists ty. by eapply made_moved.
  - intros s' (l0 & -> & H). by rewrite app_nil_r.
Qed.
End proofs.

Lemma for_each_emit_ok {S E A} (f : A -> E) (l : list A) (s : S) :
  for_each l (fun x => emit (f x)) s = Ok (tt, s, map f l).
Proof. induction l as [|x l IH]; [done|]. cbn [for_each map]. by rewrite (bind_ok _ _ s tt s [f x]), IH. Qed.

(** ** Properties *)

(** C31: from well-formed tables, while the transaction numbers stay [int]s, the
    [count] transactions of a host return, each with a list of requests, and the
    host's trace file holds these lists one after the other and nothing else.  The
    lists are in the order of the host's transaction numbers, which their requests
    carry; each is for the locks of existing rows of the tables its kind accesses,
    in the mode it needs ([req_for]); and each kind but the reads of access info and
    of destinations, which can request nothing, starts with its subscriber's lock,
    exclusive when it updates ([leads]).  The tables stay well formed, no call
    forwarding row is added or changed, and the request buffer is empty for the
    next host. *)
Theorem tatp_host_trace {rng} (uniform : Z -> Z -> rng -> Z * rng) elements count host s :
  distribution uniform -> iteration elements -> tables_wf s -> requests s = [] ->
  0 <= count -> 1 <= host -> 1 + host * count < 2 ^ 31 ->
  let numbers := seqZ (1 + (host - 1) * count) count in
  exists s1 rss,
    for_each numbers (transaction uniform elements) s = Ok (tt, s1, []) /\ requests s1 = concat rss /\
    Forall2 (fun tid rs => exists ty, made s tid ty rs) numbers rss /\
    host_trace uniform elements count host s = Ok (tt, set_requests [] s1, map (pair host) (concat rss)) /\
    tables_wf (set_requests [] s1) /\ rows_in (call_forwarding s1) (call_forwarding s).
Proof.
  intros Hu He Hwf Hq H0 H1 H2 numbers.
  destruct (quiet_transactions uniform elements Hu He s numbers Hwf Hq) as ([] & s1 & Hs & g & c & rss & -> & Hc & Hrs).
  exists (moved g c (concat rss) s), rss. split_and!; [done|done|done| | |done].
  - unfold host_trace. fold numbers. replace (1 + (host - 1) * count + count) with (1 + host * count) by lia.
    rewrite (proj2 (Z.ltb_ge _ (- 2 ^ 31))), (proj2 (Z.leb_gt (2 ^ 31) _)) by nia. cbn [orb].
    rewrite (bind_ok _ _ _ tt s []) by done. rewrite (bind_ok _ _ _ _ _ _ Hs). unfold bind, get.
    cbn [requests moved set_engine set_call_forwarding set_requests]. rewrite for_each_emit_ok.
    unfold ClearRequests, modify, bind, get, put. cbn. by rewrite app_nil_r.
  - exact (moved_wf s g c [] Hwf Hc).
Qed.

(** The transaction that inserts a call forwarding row never inserts one,
    whatever the random numbers are: it stops when the row does not exist yet, and
    when it exists the insertion keeps the present rows.  So every row lookup of
    the table is unchanged, and the exclusive requests it makes are for rows that
    exist already. *)
Theorem insert_never_inserts {rng} (uniform : Z -> Z -> rng -> Z * rng) elements tid s :
  distribution uniform -> iteration elements -> tables_wf s ->
  exists s' rs, InsertCallForwarding uniform elements tid s = Ok (tt, s', []) /\ requests s' = requests s ++ rs /\
    (forall k t, call_forwarding s' !! k ≫= (fun m => m !! t) = call_forwarding s !! k ≫= (fun m => m !! t)) /\
    Forall (fun r => req_lock_type r = LOCK_EXCL -> lock_of_forwarding s (req_lock_id r)) rs.
Proof.
  intros Hu He Hwf.
  destruct (quiet_InsertCallForwarding uniform elements Hu He s Hwf tid)
    as ([] & s' & Hs & (g & c & rs & -> & Hc & Hrs) & Hc').
  exists (moved g c (requests s ++ rs) s), rs. split_and!; [done|done| |].
  - intros k t. apply option_eq. intros r. rewrite !bind_Some. split; intros (m & Hm & Hr).
    + by apply (Hc _ _ _ _ Hm Hr).
    + by apply (Hc' _ _ _ _ Hm Hr).
  - eapply list.Forall_impl; [exact (proj1 Hrs)|]. intros r [[_ Ht] Hr] Hx. revert Hr. unfold req_for. by rewrite Hx, Ht.
Qed.

(** A linear congruential engine. *)
Definition lcg (a b g : Z) : Z * Z := (a + (g / 65536) mod (b - a + 1), (g * 1103515245 + 12345) mod 2 ^ 31).

(** A transaction of the trace can wait for itself for ever.  The remainder in
    [GetCallForwardingLock] is negative when the hash is, so the lock of a call
    forwarding row can be one below [cf_lock_begin], the lock of a facility row.
    Here, with four subscribers, an insertion requests lock 26 shared, for the second
    facility of subscriber 1, and then exclusive, for the call forwarding row. *)
Theorem insert_waits_for_itself :
  exists s,
    (PopulateTables lcg listing 4 ;; InsertCallForwarding lcg listing 1) (tatp_start 102) = Ok (tt, s, []) /\
    cf_lock_begin s = 27 /\ (exists ty, row_lock s (FacilityRow 1 ty) = Some 26) /\
    map (fun r => (req_lock_id r, req_lock_type r)) (requests s) =
      [(5, LOCK_SHARED); (26, LOCK_SHARED); (25, LOCK_SHARED); (26, LOCK_EXCL)].
Proof.
  eexists. split; [vm_compute; reflexivity|]. split; [reflexivity|]. split; [|reflexivity].
  first [exists 1; reflexivity|exists 2; reflexivity|exists 3; reflexivity|exists 4; reflexivity].
Qed.

Lemma tatp_host_trace_witness :
  exists s s1 rss,
    for_each (seqZ 21 20) (transaction counting listing) s = Ok (tt, s1, []) /\ requests s1 = concat rss /\
    Forall2 (fun tid rs => exists ty, made s tid ty rs) (seqZ 21 20) rss /\
    host_trace counting listing 20 2 s = Ok (tt, set_requests [] s1, map (pair 2) (concat rss)) /\
    tables_wf (set_requests [] s1) /\ rows_in (call_forwarding s1) (call_forwarding s).
Proof.
  destruct (quiet_PopulateTables counting listing counting_distribution listing_iteration 4 7
    (fun _ s => tables_wf s /\ requests s = [])) as (u & s & _ & Hwf & Hq); [done|auto|].
  exists s. apply (tatp_host_trace counting listing 20 2 s); [exact counting_distribution|exact listing_iteration|done|done|lia..].
Defined.

Lemma insert_never_inserts_witness :
  exists s s' rs, InsertCallForwarding counting listing 9 s = Ok (tt, s', []) /\ requests s' = requests s ++ rs /\
    (forall k t, call_forwarding s' !! k ≫= (fun m => m !! t) = call_forwarding s !! k ≫= (fun m => m !! t)) /\
    Forall (fun r => req_lock_type r = LOCK_EXCL -> lock_of_forwarding s (req_lock_id r)) rs.
Proof.
  destruct (quiet_PopulateTables counting listing counting_distribution listing_iteration 4 7
    (fun _ s => tables_wf s)) as (u & s & _ & Hwf); [done|auto|].
  exists s. apply (insert_never_inserts counting listing 9 s); [exact counting_distribution|exact listing_iteration|done].
Defined.
