(* ===== verification/Doubles.v ===== *)
(** * Doubles: IEEE 754 arithmetic of the measuring programs

    The type [double] and its operations are those of the Standard Library's
    specification of binary64 ([SpecFloat]): 53 bits of mantissa, results rounded
    to the nearest double, ties to even.  Converting to an integer truncates and is
    undefined outside its range.  The lemmas: integers below 2^53 are doubles, and
    while sums stay below 2^53 their addition is exact. *)

From Stdlib Require Import SpecFloat.
From S2P Require Import Prelude.

Definition double : Type := spec_float.

(** An unsigned integer as a double. *)
Definition double_of (n : Z) : double := binary_normalize 53 1024 n 0 false.

Definition dadd : double -> double -> double := SFadd 53 1024.
Definition ddiv : double -> double -> double := SFdiv 53 1024.

Definition u64_of (d : double) : result Z :=
  match d with
  | S754_zero _ => Ok 0
  | S754_finite s m e =>
      let v := Z.shiftl (Zpos m) e in
      if s : bool then (if v =? 0 then Ok 0 else Fault FaultOverflow)
      else if v <? 2 ^ 64 then Ok v else Fault FaultOverflow
  | S754_infinity _ | S754_nan => Fault FaultOverflow
  end.

(** ** Digits and shifts *)

Lemma digits2_log2 p : Zpos (digits2_pos p) = Z.log2 (Zpos p) + 1.
Proof.
  induction p as [p IH|p IH|]; [| |done]; cbn [digits2_pos]; rewrite Pos2Z.inj_succ, IH.
  - change (Zpos p~1) with (2 * Zpos p + 1). rewrite Z.log2_succ_double by done. lia.
  - change (Zpos p~0) with (2 * Zpos p). rewrite Z.log2_double by done. lia.
Qed.

Lemma iter_xO p d : Zpos (Pos.iter xO p d) = Zpos p * 2 ^ Zpos d.
Proof.
  induction d as [|d IH] using Pos.peano_ind; [cbn; lia|]. rewrite Pos.iter_succ.
  change (Zpos (Pos.iter xO p d)~0) with (2 * Zpos (Pos.iter xO p d)). rewrite IH, Pos2Z.inj_succ, Z.pow_succ_r by done. lia.
Qed.

(** Aligning to a smaller exponent keeps the value. *)
Lemma shl_align_down m e e' : e' <= e -> exists m', shl_align m e e' = (m', e') /\ Zpos m' = Zpos m * 2 ^ (e - e').
Proof.
  intros He. unfold shl_align. destruct (e' - e) as [|d|d] eqn:E; [|lia|].
  - exists m. replace e' with e by lia. rewrite Z.sub_diag. split; [done|lia].
  - eexists. split; [done|]. rewrite iter_xO. by replace (e - e') with (Zpos d) by lia.
Qed.

Lemma shl_align_up m e e' : e <= e' -> shl_align m e e' = (m, e).
Proof. intros He. unfold shl_align. destruct (e' - e) eqn:E; [done|done|lia]. Qed.

Lemma shr_1_even m : 0 <= m -> shr_1 (Build_shr_record (2 * m) false false) = Build_shr_record m false false.
Proof. intros Hm. by destruct m. Qed.

(** Shifting out zeros loses nothing. *)
Lemma shr_exact p m : 0 <= m ->
  SpecFloat.iter_pos shr_1 p (Build_shr_record (m * 2 ^ Zpos p) false false) = Build_shr_record m false false.
Proof.
  revert m. induction p as [p IH|p IH|]; intros m Hm; cbn [SpecFloat.iter_pos].
  - assert (E : 2 ^ Zpos p~1 = 2 * (2 ^ Zpos p * 2 ^ Zpos p)).
    { rewrite <- Z.pow_add_r, <- Z.pow_succ_r by lia. f_equal. lia. }
    replace (m * 2 ^ Zpos p~1) with (2 * (m * 2 ^ Zpos p * 2 ^ Zpos p)) by (rewrite E; ring).
    pose proof (Z.pow_pos_nonneg 2 (Zpos p) ltac:(lia) ltac:(lia)) as Hpow.
    rewrite shr_1_even by nia. rewrite !IH by nia. done.
  - assert (E : 2 ^ Zpos p~0 = 2 ^ Zpos p * 2 ^ Zpos p) by (rewrite <- Z.pow_add_r by lia; f_equal; lia).
    replace (m * 2 ^ Zpos p~0) with (m * 2 ^ Zpos p * 2 ^ Zpos p) by (rewrite E; ring).
    pose proof (Z.pow_pos_nonneg 2 (Zpos p) ltac:(lia) ltac:(lia)) as Hpow. rewrite !IH by nia. done.
  - replace (m * 2 ^ 1) with (2 * m) by lia. by apply shr_1_even.
Qed.

(** ** Exact integers *)

(** The double with the value [n]. *)
Definition exactly (n : Z) (d : double) : Prop :=
  match d with
  | S754_zero false => n = 0
  | S754_finite false m e => 0 < n /\ e = Z.log2 n - 52 /\ Zpos m = n * 2 ^ (- e)
  | _ => False
  end.

Lemma exactly_inj n d d' : exactly n d -> exactly n d' -> d = d'.
Proof.
  destruct d as [[]|?| |[] m e], d' as [[]|?| |[] m' e']; cbn; try tauto; try lia.
  intros (_ & -> & Hm) (_ & -> & Hm'). f_equal. lia.
Qed.

Lemma log2_53 n : 0 < n < 2 ^ 53 -> 0 <= Z.log2 n <= 52.
Proof. intros Hn. pose proof (Z.log2_nonneg n). pose proof (proj1 (Z.log2_lt_pow2 n 53 ltac:(lia))). lia. Qed.

Lemma log2_scaled n k : 0 < n -> 0 <= k -> Z.log2 (n * 2 ^ k) = Z.log2 n + k.
Proof. intros Hn Hk. rewrite Z.log2_mul_pow2 by lia. lia. Qed.

(** [binary_round_aux] keeps a mantissa of 53 bits. *)
Lemma shr_fexp_done n m : 0 < n < 2 ^ 53 -> Zpos m = n * 2 ^ (52 - Z.log2 n) ->
  shr_fexp 53 1024 (Zpos m) (Z.log2 n - 52) loc_Exact = (Build_shr_record (Zpos m) false false, Z.log2 n - 52).
Proof.
  intros Hn Hm. pose proof (log2_53 n Hn) as HL. unfold shr_fexp. cbn [Zdigits2]. rewrite digits2_log2, Hm, log2_scaled by lia.
  unfold fexp, emin. replace (Z.max _ _ - _) with 0 by lia. by rewrite <- Hm.
Qed.

Lemma round_exact n j m : 0 < n < 2 ^ 53 -> 0 <= j -> Zpos m = n * 2 ^ j -> exactly n (binary_round 53 1024 false m (- j)).
Proof.
  intros Hn Hj Hm. pose proof (log2_53 n Hn) as HL. unfold binary_round.
  assert (Ed : Zpos (digits2_pos m) + - j = Z.log2 n + 1) by (rewrite digits2_log2, Hm, log2_scaled by lia; lia).
  assert (Ef : fexp 53 1024 (Z.log2 n + 1) = Z.log2 n - 52) by (unfold fexp, emin; lia). rewrite Ed, Ef.
  assert (Hfin : exists m', binary_round_aux 53 1024 false (Zpos (shl_align m (- j) (Z.log2 n - 52)).1) (shl_align m (- j) (Z.log2 n - 52)).2 loc_Exact =
    S754_finite false m' (Z.log2 n - 52) /\ Zpos m' = n * 2 ^ (52 - Z.log2 n)).
  2:{ destruct (shl_align m (- j) (Z.log2 n - 52)) as [mz ez]. cbn [fst snd] in Hfin. destruct Hfin as (m' & -> & Hm'). cbn. split; [lia|].
      split; [done|]. by replace (- (Z.log2 n - 52)) with (52 - Z.log2 n) by lia. }
  assert (Hs : exists m', shr_fexp 53 1024 (Zpos (shl_align m (- j) (Z.log2 n - 52)).1) (shl_align m (- j) (Z.log2 n - 52)).2 loc_Exact =
    (Build_shr_record (Zpos m') false false, Z.log2 n - 52) /\ Zpos m' = n * 2 ^ (52 - Z.log2 n)).
  { destruct (Z.le_gt_cases (Z.log2 n - 52) (- j)) as [Hle|Hgt].
    - destruct (shl_align_down m _ _ Hle) as (m' & -> & Hm'). cbn [fst snd]. exists m'.
      assert (E : Zpos m' = n * 2 ^ (52 - Z.log2 n)).
      { rewrite Hm', Hm, <- Z.mul_assoc, <- Z.pow_add_r by lia. f_equal. f_equal. lia. }
      split; [by apply shr_fexp_done|done].
    - rewrite shl_align_up by lia. cbn [fst snd]. unfold shr_fexp. cbn [Zdigits2]. rewrite Ed, Ef.
      destruct (Z.log2 n - 52 - - j) as [|q|q] eqn:Eq; [lia| |lia]. cbn [shr_record_of_loc shr].
      exists (Z.to_pos (n * 2 ^ (52 - Z.log2 n))). rewrite Z2Pos.id by (pose proof (Z.pow_pos_nonneg 2 (52 - Z.log2 n)); nia).
      split; [|done]. rewrite Hm. replace (n * 2 ^ j) with (n * 2 ^ (52 - Z.log2 n) * 2 ^ Zpos q).
      + rewrite shr_exact by (pose proof (Z.pow_nonneg 2 (52 - Z.log2 n)); nia). f_equal. lia.
      + rewrite <- Z.mul_assoc, <- Z.pow_add_r by lia. f_equal. f_equal. lia. }
  destruct Hs as (m' & E & Hm'). exists m'. split; [|done]. unfold binary_round_aux. rewrite E.
  cbn [shr_m loc_of_shr_record round_nearest_even]. rewrite (shr_fexp_done n m' Hn Hm'). cbn [shr_m].
  by rewrite (proj2 (Z.leb_le _ _)) by lia.
Qed.

Lemma normalize_exact n j : 0 <= n < 2 ^ 53 -> 0 <= j -> exactly n (binary_normalize 53 1024 (n * 2 ^ j) (- j) false).
Proof.
  intros Hn Hj. destruct (n * 2 ^ j) as [|m|m] eqn:E.
  - cbn. pose proof (Z.pow_pos_nonneg 2 j). nia.
  - apply round_exact; [|done|done]. pose proof (Z.pow_pos_nonneg 2 j). nia.
  - pose proof (Z.pow_pos_nonneg 2 j). nia.
Qed.

Lemma double_of_exact n : 0 <= n < 2 ^ 53 -> exactly n (double_of n).
Proof. intros Hn. pose proof (normalize_exact n 0 Hn ltac:(done)) as H. by rewrite Z.mul_1_r in H. Qed.

(** The mantissa of an exact integer, aligned. *)
Lemma align_exact n m e ez : 0 < n < 2 ^ 53 -> e = Z.log2 n - 52 -> Zpos m = n * 2 ^ (- e) -> ez <= e ->
  Zpos (shl_align m e ez).1 = n * 2 ^ (- ez).
Proof.
  intros Hn He Hm Hle. pose proof (log2_53 n Hn). destruct (shl_align_down m e ez Hle) as (m' & -> & Hm'). cbn [fst].
  rewrite Hm', Hm, <- Z.mul_assoc, <- Z.pow_add_r by lia. f_equal. f_equal. lia.
Qed.

Lemma dadd_exact a b : 0 <= a -> 0 <= b -> a + b < 2 ^ 53 -> dadd (double_of a) (double_of b) = double_of (a + b).
Proof.
  intros Ha Hb Hs. pose proof (double_of_exact a ltac:(lia)) as Ea. pose proof (double_of_exact b ltac:(lia)) as Eb.
  apply (exactly_inj (a + b)); [|apply double_of_exact; lia].
  destruct (double_of a) as [[]|?| |[] m e], (double_of b) as [[]|?| |[] m' e']; cbn [exactly] in Ea, Eb; try done.
  - cbn. lia.
  - subst a. cbn. exact Eb.
  - subst b. rewrite Z.add_0_r. cbn. exact Ea.
  - destruct Ea as (Hpa & Hea & Hma), Eb as (Hpb & Heb & Hmb). unfold dadd. cbn [SFadd cond_Zopp].
    pose proof (log2_53 a ltac:(lia)). pose proof (log2_53 b ltac:(lia)).
    rewrite (align_exact a m e), (align_exact b m' e') by (done || lia). rewrite <- Z.mul_add_distr_r.
    pose proof (normalize_exact (a + b) (- Z.min e e') ltac:(lia) ltac:(lia)) as H'. by rewrite Z.opp_involutive in H'.
Qed.

Lemma u64_of_double_of n : 0 <= n < 2 ^ 53 -> u64_of (double_of n) = Ok n.
Proof.
  intros Hn. pose proof (double_of_exact n Hn) as E. destruct (double_of n) as [[]|?| |[] m e]; cbn [exactly] in E; try done.
  - by subst n.
  - destruct E as (Hp & He & Hm). pose proof (log2_53 n ltac:(lia)). unfold u64_of.
    rewrite Hm, Z.shiftl_div_pow2, Z.div_mul by (try apply Z.pow_nonzero; lia).
    by rewrite (proj2 (Z.ltb_lt _ _)) by lia.
Qed.
