(* ===== verification/Timers.v ===== *)
(** * Timers: latency records, and the parser of their log

    Models the timers of utils/statistics.cc (tables of points in time, filled
    while the program runs, and [report_timer], which prints them as lines) and
    experiments/results/timer_parser/main.cc (which reads the lines of all hosts
    and computes the latency and the waiting time of every request).  The time of
    steady_clock, in nanoseconds, and the number of the calling core are arguments;
    the order in which an unordered_map is iterated is a parameter, except for the
    tables of [insert]ed ranges, where it does not matter.  Both programs are
    compiled with assertions.  The parser's doubles are those of [Doubles]; how its
    output files format them is left out. *)

From Stdlib Require Import Ascii String.
From S2P Require Import Prelude Types Doubles.

#[local] Open Scope prog_scope.

(** ** printf and sscanf of numbers *)

Abbreviation str := (list ascii).
Definition lit (x : string) : str := list_ascii_of_string x.
Arguments lit x%_string_scope.

Definition digit (d : Z) : ascii := ascii_of_nat (Z.to_nat (if d <? 10 then 48 + d else 87 + d)).

Definition digit_val (c : ascii) : option Z :=
  let n := Z.of_nat (nat_of_ascii c) in
  if (48 <=? n) && (n <=? 57) then Some (n - 48)
  else if (97 <=? n) && (n <=? 102) then Some (n - 87)
  else if (65 <=? n) && (n <=? 70) then Some (n - 55)
  else None.

(** The digits of [n] before [acc]; 64 digits are enough for 64 bits. *)
Fixpoint digits (fuel : nat) (b n : Z) (acc : str) : str :=
  match fuel with
  | O => acc
  | S f => let acc := digit (n mod b) :: acc in if n <? b then acc else digits f b (n / b) acc
  end.

Definition fmt_lx (n : Z) : str := digits 64 16 n [].
Definition fmt_lu (n : Z) : str := digits 64 10 n [].
Definition fmt_ld (n : Z) : str := if n <? 0 then "-"%char :: fmt_lu (- n) else fmt_lu n.

Fixpoint scan_digits (b : Z) (s : str) (v : Z) : Z * str :=
  match s with
  | c :: s' =>
      match digit_val c with
      | Some d => if d <? b then scan_digits b s' (v * b + d) else (v, s)
      | None => (v, s)
      end
  | [] => (v, s)
  end.

Definition is_space (c : ascii) : bool :=
  let n := nat_of_ascii c in (n =? 32)%nat || ((9 <=? n)%nat && (n <=? 13)%nat).

Fixpoint skip_space (s : str) : str :=
  match s with c :: s' => if is_space c then skip_space s' else s | [] => [] end.

Definition scan_sign (s : str) : bool * str :=
  match s with
  | "-"%char :: s' => (true, s')
  | "+"%char :: s' => (false, s')
  | _ => (false, s)
  end.

Definition skip_0x (b : Z) (s : str) : str :=
  match s with
  | "0"%char :: x :: s' => if (b =? 16) && (Ascii.eqb x "x" || Ascii.eqb x "X") then s' else s
  | _ => s
  end.

(** A number of base [b] with its sign, if there is one. *)
Definition scan_number (b : Z) (s : str) : option (bool * Z * str) :=
  let '(neg, s) := scan_sign (skip_space s) in
  match skip_0x b s with
  | [] => None
  | (c :: _) as s =>
      match digit_val c with
      | Some d => if d <? b then let '(v, s') := scan_digits b s 0 in Some (neg, v, s') else None
      | None => None
      end
  end.

Definition scan_lx (s : str) : option (Z * str) :=
  '(neg, v, s') ← scan_number 16 s;
  Some (if 2 ^ 64 <=? v then 2 ^ 64 - 1 else if neg : bool then u64 (- v) else v, s').

Definition scan_ld (s : str) : option (Z * str) :=
  '(neg, v, s') ← scan_number 10 s;
  Some (if neg : bool then Z.max (- 2 ^ 63) (- v) else Z.min (2 ^ 63 - 1) v, s').

Definition is_lower (c : ascii) : bool := let n := nat_of_ascii c in (97 <=? n)%nat && (n <=? 122)%nat.

Fixpoint span_lower (s : str) : str * str :=
  match s with
  | c :: s' => if is_lower c then let '(w, r) := span_lower s' in (c :: w, r) else ([], s)
  | [] => ([], [])
  end.

Definition scan_char (c : ascii) (s : str) : option str :=
  match s with c' :: s' => if Ascii.eqb c' c then Some s' else None | [] => None end.

(** ** Recording (statistics.cc) *)

Definition DPDK_LCORE_NUM : Z := 12.

Inductive timer :=
  | Acquire | AcquireSent | GrantBegin | GrantWAgent | GrantWoAgent | GrantLocal | GrantTx | Release | ReleaseSent
  | ReleaseLocal | ScheduleStart | ScheduleEnd | HandleAcquireBegin | HandleAcquireEnd | QueueStart | QueueEnd
  | SecondaryBegin | SecondaryEnd | SwitchDirectGrant | TxnBegin | TxnEnd.

#[global] Instance timer_eq_dec : EqDecision timer.
Proof. solve_decision. Defined.

(** The tables, by name and core. *)
Record stats := Stats {
  times : timer -> Z -> gmap Z Z;
  burst_time : Z -> Z;
  txn_type_map : Z -> gmap Z Z;
  schedule_pair : Z -> gmap Z Z;
  txn_lock_map : gmap Z (list Z);
}.

Definition set_times (n : timer) (core : Z) (m : gmap Z Z) (s : stats) : stats :=
  Stats (fun n' c => if decide (n' = n /\ c = core) then m else times s n' c)
    (burst_time s) (txn_type_map s) (schedule_pair s) (txn_lock_map s).

Definition at_core {A} (core : Z) (v : A) (f : Z -> A) : Z -> A := fun c => if c =? core then v else f c.

(** [insert] keeps the entry a key has. *)
Definition record (n : timer) (core key now : Z) (s : stats) : stats :=
  set_times n core (touch now key (times s n core)) s.

Definition timer_ (n : timer) (core lock task now : Z) (s : stats) : stats := record n core (LKTSK lock task) now s.

Definition set_burst_time (core now : Z) (s : stats) : stats :=
  Stats (times s) (at_core core now (burst_time s)) (txn_type_map s) (schedule_pair s) (txn_lock_map s).

Definition timer_since_burst_ (n : timer) (core lock task : Z) (s : stats) : stats :=
  record n core (LKTSK lock task) (burst_time s core) s.

Definition timer_txn_begin (core txn_id ty now : Z) (s : stats) : stats :=
  let s := record TxnBegin core txn_id now s in
  Stats (times s) (burst_time s) (at_core core (touch ty txn_id (txn_type_map s core)) (txn_type_map s))
    (schedule_pair s) (txn_lock_map s).

Definition timer_txn_end (core txn_id now : Z) (s : stats) : stats := record TxnEnd core txn_id now s.

Definition timer_schedule_from_to (core lk from to now : Z) (s : stats) : stats :=
  let s := set_times ScheduleEnd core (<[LKTSK lk to := now]> (times s ScheduleEnd core)) s in
  Stats (times s) (burst_time s) (txn_type_map s)
    (at_core core (<[LKTSK lk to := LKTSK lk from]> (schedule_pair s core)) (schedule_pair s)) (txn_lock_map s).

Definition add_txn_lock_map (txn_id lock_id : Z) (s : stats) : stats :=
  Stats (times s) (burst_time s) (txn_type_map s) (schedule_pair s)
    (<[txn_id := index [] txn_id (txn_lock_map s) ++ [lock_id]]> (txn_lock_map s)).

(** ** Reporting *)

(** A line of the log: its numbers and its type. *)
Inductive log_line :=
  | LatencyLine (to from lat : Z) (ty : str)
  | HostLine (lktsk lat host core : Z)
  | TxnLine (txn_id ty lat : Z) (kind : str).

(** The text of a line, without the line feed. *)
Definition render (l : log_line) : str :=
  match l with
  | LatencyLine to from lat ty => fmt_lx to ++ ","%char :: fmt_lx from ++ ","%char :: fmt_ld lat ++ ","%char :: ty
  | HostLine k lat host core =>
      fmt_lx k ++ lit ",0," ++ fmt_ld lat ++ lit ",h," ++ fmt_ld host ++ ","%char :: fmt_ld core
  | TxnLine id ty lat kind => fmt_lu id ++ ","%char :: fmt_lu ty ++ ","%char :: fmt_ld lat ++ ","%char :: kind
  end.

Abbreviation R := (M stats log_line).

(** Ranges [insert]ed from cores [first] on into core 0's table. *)
Definition merge_cores (first : Z) (f : Z -> gmap Z Z) : gmap Z Z :=
  fold_left (fun m core => m ∪ f core) (seqZ first (DPDK_LCORE_NUM - first)) (f 0).

Definition timer_merge (n : timer) (s : stats) : stats := set_times n 0 (merge_cores 1 (times s n)) s.

Definition merged_timers : list timer :=
  [Acquire; AcquireSent; GrantBegin; GrantWAgent; GrantWoAgent; GrantLocal; GrantTx; Release; ReleaseSent;
   ReleaseLocal; ScheduleStart; ScheduleEnd; TxnBegin; TxnEnd; QueueStart; QueueEnd; SecondaryBegin; SecondaryEnd;
   SwitchDirectGrant].

Definition merge_timers (l : list timer) (s : stats) : stats := fold_left (fun s n => timer_merge n s) l s.

Definition merge_all (s : stats) : stats :=
  Stats (times (merge_timers merged_timers s)) (burst_time s)
    (at_core 0 (merge_cores 0 (txn_type_map s)) (txn_type_map s))
    (at_core 0 (merge_cores 0 (schedule_pair s)) (schedule_pair s)) (txn_lock_map s).

Section report.
Context (LOCALHOST_ID : Z) (elements : forall A, gmap Z A -> list (Z * A)).
Arguments elements {A}.

(** [t(lktsk, name)] in core 0's table. *)
Definition t_ (n : timer) (k : Z) (s : stats) : option Z := times s n 0 !! k.

Definition timer_print (k beg fin : Z) (ty : str) : R unit := emit (LatencyLine k 0 (fin - beg) ty).

Definition report_handled (core : Z) : R unit :=
  s <- get ;;
  for_each (elements (times s HandleAcquireBegin core)) (fun i =>
    match times s HandleAcquireEnd core !! i.1 with
    | Some hae => emit (HostLine i.1 (hae - i.2) LOCALHOST_ID core)
    | None => ret tt
    end).

(** The times of one acquire. *)
Definition report_acquire (k at_ : Z) : R unit :=
  s <- get ;;
  (match t_ AcquireSent k s with Some ast => timer_print k at_ ast (lit "a") | None => fail FaultAssert end) ;;
  (match t_ GrantBegin k s with
   | None => ret tt
   | Some gbt =>
       match t_ GrantLocal k s, t_ GrantWAgent k s, t_ GrantWoAgent k s, t_ SwitchDirectGrant k s with
       | Some g, _, _, _ => timer_print k gbt g (lit "gl") ;; timer_print k at_ g (lit "ge")
       | None, Some g, _, _ => timer_print k gbt g (lit "gw") ;; timer_print k at_ g (lit "ge")
       | None, None, Some g, _ => timer_print k gbt g (lit "gn") ;; timer_print k at_ g (lit "ge")
       | None, None, None, Some g => timer_print k gbt g (lit "gs") ;; timer_print k at_ g (lit "ge")
       | None, None, None, None => fail FaultAssert
       end
   end) ;;
  match t_ Release k s with
  | None => ret tt
  | Some rt =>
      match t_ ReleaseSent k s, t_ ReleaseLocal k s with
      | Some r, _ => timer_print k rt r (lit "r")
      | None, Some r => timer_print k rt r (lit "rl")
      | None, None => fail FaultAssert
      end
  end.

(** [schedule_pair[0][k]] *)
Definition scheduled_by (k : Z) (s : stats) : Z := index 0 k (schedule_pair s 0).

Definition report_schedule (k fin : Z) : R unit :=
  s <- get ;;
  let from := scheduled_by k s in
  match t_ ScheduleStart from s with
  | Some sst => emit (LatencyLine k from (fin - sst) (lit "s"))
  | None => fail FaultAssert
  end.

(** The time between a grant and the coroutine's wakeup (LOCK_LATENCY_PRECISE). *)
Definition extra_time (txn_id : Z) (s : stats) : Z :=
  fold_left (fun e lock_id =>
    let k := LKTSK lock_id txn_id in
    match t_ GrantTx k s with
    | None => e
    | Some gtxt =>
        match t_ GrantWAgent k s, t_ GrantWoAgent k s, t_ GrantLocal k s with
        | Some g, _, _ | None, Some g, _ | None, None, Some g => u64 (e + (gtxt - g))
        | None, None, None => e
        end
    end) (index [] txn_id (txn_lock_map s)) 0.

Definition report_txn (txn_id tbt : Z) : R unit :=
  s <- get ;;
  match txn_type_map s 0 !! txn_id with
  | None => fail FaultAssert
  | Some ty =>
      match t_ TxnEnd txn_id s with
      | None => ret tt
      | Some tet =>
          let e := extra_time txn_id s in
          emit (TxnLine txn_id ty (sw 64 e) (lit "et")) ;;
          emit (TxnLine txn_id ty (sw 64 (tet - tbt - e)) (lit "t"))
      end
  end.

Definition report_timer : R unit :=
  s <- get ;;
  put (merge_all s) ;;
  for_each (seqZ 0 DPDK_LCORE_NUM) report_handled ;;
  s <- get ;;
  for_each (elements (times s Acquire 0)) (fun i => report_acquire i.1 i.2) ;;
  for_each (elements (times s ScheduleEnd 0)) (fun i => report_schedule i.1 i.2) ;;
  for_each (elements (times s TxnBegin 0)) (fun i => report_txn i.1 i.2).
End report.

(** ** The parser (timer_parser/main.cc) *)

(** The local variables of [main] that sscanf sets. *)
Record scan_vars := Vars { v_lktsk : Z; v_from : Z; v_lat : Z; v_type : str }.

(** [sscanf(line, "%lx,%lx,%ld,%[a-z]\n", ...)]: what follows a mismatch keeps
    its value. *)
Definition sscanf_line (line : str) (v : scan_vars) : scan_vars :=
  match scan_lx line with
  | None => v
  | Some (k, r) =>
      let v := Vars k (v_from v) (v_lat v) (v_type v) in
      match r' ← scan_char ","%char r; scan_lx r' with
      | None => v
      | Some (f, r) =>
          let v := Vars k f (v_lat v) (v_type v) in
          match r' ← scan_char ","%char r; scan_ld r' with
          | None => v
          | Some (l, r) =>
              let v := Vars k f l (v_type v) in
              match scan_char ","%char r with
              | None => v
              | Some r =>
                  match span_lower r with
                  | ([], _) => v
                  | (w, _) => Vars k f l w
                  end
              end
          end
      end
  end.

Inductive tag := Ta | Th | Tgw | Tgn | Tgs | Tgl | Tge | Tr | Trl | Ts | Tb | Tfrom.

#[global] Instance tag_eq_dec : EqDecision tag.
Proof. solve_decision. Defined.

(** The parser's maps. *)
Definition tables := tag -> gmap Z Z.

Definition set_tag (g : tag) (k v : Z) (t : tables) : tables :=
  fun g' => if decide (g' = g) then <[k := v]> (t g') else t g'.

(** Where the value of a line goes. *)
Definition store (v : scan_vars) (t : tables) : result tables :=
  let k := v_lktsk v in
  let lat := u64 (v_lat v) in
  let type1 := nth 1 (v_type v) Ascii.zero in
  match nth 0 (v_type v) Ascii.zero with
  | "r"%char => Ok (if Ascii.eqb type1 "l" then set_tag Trl k lat t else set_tag Tr k lat t)
  | "s"%char => Ok (set_tag Tfrom k (v_from v) (set_tag Ts k lat t))
  | "b"%char => Ok (set_tag Tb k lat t)
  | "a"%char => Ok (set_tag Ta k lat t)
  | "h"%char => Ok (set_tag Th k lat t)
  | "g"%char =>
      match type1 with
      | "w"%char => Ok (set_tag Tgw k lat t)
      | "n"%char => Ok (set_tag Tgn k lat t)
      | "l"%char => Ok (set_tag Tgl k lat t)
      | "e"%char => Ok (set_tag Tge k lat t)
      | "s"%char => Ok (set_tag Tgs k lat t)
      | _ => Fault FaultAssert
      end
  | _ => Ok t
  end.

Fixpoint load (log : list str) (v : scan_vars) (t : tables) : result tables :=
  match log with
  | [] => Ok t
  | line :: log =>
      let v := sscanf_line line v in
      match store v t with Ok t => load log v t | Fault f => Fault f end
  end.

Inductive system := FISSLOCK | PARLOCK | NETLOCK | SRVLOCK.

Definition RTT : Z := 4000.

Definition passert {A} (b : bool) (k : result A) : result A := if b then k else Fault FaultAssert.

(** What is stored for a number of nanoseconds, [latency_ns / 1000.0]. *)
Definition LATENCY_OUT (latency_ns : Z) : double := ddiv (double_of latency_ns) (double_of 1000).

(** [0.5 * RTT] *)
Definition HALF_RTT : double := double_of (RTT / 2).

(** The latency and the waiting time of a request: a pair for every two
    [LATENCY_OUT].  A missing entry reads as zero.  [gtime] is a [uint64_t]; where
    [0.5 * RTT] occurs the sum is a double, and so is the value of the conditional
    that FissLock's and ParLock's [gtime] grows by, in both of its branches. *)
Definition handle_an_acquire (sys : system) (t : tables) (k : Z) : result (list (double * double)) :=
  let at_ (g : tag) (k : Z) := index 0 k (t g) in
  let ge := at_ Tge k in
  let from := at_ Tfrom k in
  let out gtime := Ok [(LATENCY_OUT gtime, LATENCY_OUT (u64 (ge - gtime)))] in
  let direct := Ok [(LATENCY_OUT ge, LATENCY_OUT 0)] in
  passert (negb (ge =? 0))
    match sys with
    | FISSLOCK | PARLOCK =>
        if negb (at_ Ts k =? 0) then
          passert (negb (from =? 0)) (passert (negb (at_ Tr k =? 0) || negb (at_ Trl k =? 0))
            (let g := if negb (at_ Tgw k =? 0) then at_ Tgw k
                      else if negb (at_ Tgn k =? 0) then at_ Tgn k else at_ Tgl k in
             let after := if negb (at_ Tr from =? 0) then double_of (u64 (at_ Tr from + RTT + at_ Ts k))
                          else dadd (dadd (double_of (at_ Trl from)) HALF_RTT) (double_of (at_ Ts k)) in
             gtime ← u64_of (dadd (double_of g) after); out gtime))
        else direct
    | NETLOCK =>
        if negb (at_ Ts k =? 0) then
          passert (negb (at_ Tgn k =? 0) && negb (from =? 0) && negb (at_ Tr from =? 0))
            (out (u64 (at_ Tr from + RTT + at_ Ts k + at_ Tgn k)))
        else if negb (at_ Th k =? 0) then direct
        else if negb (at_ Tgs k =? 0) then direct
        else
          gtime ← u64_of (dadd (dadd (dadd (double_of (at_ Ta k)) HALF_RTT) (double_of (at_ Tgn k))) (double_of (at_ Tb k)));
          out gtime
    | SRVLOCK =>
        if negb (at_ Ts k =? 0) then
          passert (negb (from =? 0) && negb (at_ Tr from =? 0)) (out (u64 (at_ Tr from + RTT + at_ Ts k + at_ Tgn k)))
        else direct
    end.

Fixpoint worker (sys : system) (t : tables) (keys : list Z) : result (list (double * double)) :=
  match keys with
  | [] => Ok []
  | k :: keys => o ← handle_an_acquire sys t k; os ← worker sys t keys; Ok (o ++ os)
  end.

(** The lines of the input file to the lines of both output files; one thread. *)
Definition parser_main (elements : forall A, gmap Z A -> list (Z * A)) (sys : system) (log : list str) : result (list (double * double)) :=
  t ← load log (Vars 0 0 0 []) (fun _ => ∅);
  worker sys t (elements Z (t Ta)).*1.
