(* ===== verification/TimersText.v ===== *)
(** * TimersText: the text of the latency log

    Numbers and lines survive printing and scanning, and what the parser's tables
    hold after the lines of a log. *)

From Stdlib Require Import Ascii String.
From S2P Require Import Prelude Types Timers.

#[local] Open Scope prog_scope.

(** ** Numbers *)

Definition is_digit (c : ascii) : Prop := exists d, 0 <= d < 16 /\ c = digit d.

Lemma digit_val_digit d : 0 <= d < 16 -> digit_val (digit d) = Some d.
Proof.
  intros Hd.
  assert (Hc : d ∈ seqZ 0 16) by (apply elem_of_seqZ; lia).
  assert (Hall : Forall (fun d => digit_val (digit d) = Some d) (seqZ 0 16)) by (repeat constructor).
  rewrite list.Forall_forall in Hall. by apply Hall.
Qed.

Lemma digits_all fuel b n acc :
  0 < b <= 16 -> 0 <= n -> Forall is_digit acc -> Forall is_digit (digits fuel b n acc).
Proof.
  intros Hb. revert n acc. induction fuel as [|f IH]; intros n acc Hn Hacc; cbn [digits]; [done|].
  assert (Hd : Forall is_digit (digit (n mod b) :: acc)).
  { constructor; [|done]. exists (n mod b). split; [|done]. pose proof (Z.mod_pos_bound n b). lia. }
  destruct (n <? b); [done|]. apply IH; [|done]. apply Z.div_pos; lia.
Qed.

Lemma scan_digits_digits fuel b n acc :
  1 < b <= 16 -> 0 <= n < b ^ Z.of_nat fuel -> (0 < fuel)%nat ->
  scan_digits b (digits fuel b n acc) 0 = scan_digits b acc n.
Proof.
  intros Hb. revert n acc. induction fuel as [|f IH]; intros n acc Hn Hf; [lia|]. cbn [digits].
  pose proof (Z.mod_pos_bound n b ltac:(lia)) as Hm.
  assert (Hstep : forall v, scan_digits b (digit (n mod b) :: acc) v = scan_digits b acc (v * b + n mod b)).
  { intros v. cbn [scan_digits]. rewrite digit_val_digit by lia. by rewrite (proj2 (Z.ltb_lt _ _)) by lia. }
  destruct (Z.ltb_spec n b) as [Hlt|Hge].
  - rewrite Hstep. f_equal. rewrite Z.mod_small; lia.
  - rewrite Nat2Z.inj_succ, Z.pow_succ_r in Hn by lia.
    assert (0 < f)%nat by (destruct f; [cbn in Hn; lia|lia]).
    rewrite IH; [|split; [apply Z.div_pos; lia|apply Z.div_lt_upper_bound; lia]|done].
    rewrite Hstep. f_equal. pose proof (Z.div_mod n b). lia.
Qed.

Lemma digits_app fuel b n acc rest : digits fuel b n (acc ++ rest) = digits fuel b n acc ++ rest.
Proof.
  revert n acc. induction fuel as [|f IH]; intros n acc; cbn [digits]; [done|].
  destruct (n <? b); [done|]. apply (IH _ (digit (n mod b) :: acc)).
Qed.

Lemma digits_cons f b n acc : exists c l, digits (S f) b n acc = c :: l.
Proof.
  revert n acc. induction f as [|f IH]; intros n acc; cbn [digits]; destruct (n <? b); eauto.
Qed.

(** A character that ends a number. *)
Definition ends (c : ascii) : bool := negb (is_space c) && bool_decide (digit_val c = None) &&
  negb (Ascii.eqb c "x" || Ascii.eqb c "X").

Lemma scan_digits_stop b c rest v : ends c = true -> scan_digits b (c :: rest) v = (v, c :: rest).
Proof.
  unfold ends. intros [[_ Hc]%andb_prop _]%andb_prop. apply bool_decide_eq_true in Hc. cbn. by rewrite Hc.
Qed.

Lemma is_digit_facts c :
  is_digit c -> is_space c = false /\ (Ascii.eqb c "x" || Ascii.eqb c "X") = false /\ c <> "-"%char /\ c <> "+"%char /\
  is_Some (digit_val c).
Proof.
  intros (d & Hd & ->).
  assert (Hc : d ∈ seqZ 0 16) by (apply elem_of_seqZ; lia).
  assert (Hall : Forall (fun d => is_space (digit d) = false /\
    (Ascii.eqb (digit d) "x" || Ascii.eqb (digit d) "X") = false /\ digit d <> "-"%char /\ digit d <> "+"%char /\
    is_Some (digit_val (digit d))) (seqZ 0 16)) by (repeat constructor; done).
  rewrite list.Forall_forall in Hall. by apply Hall.
Qed.

Lemma scan_sign_digit c s : is_digit c -> scan_sign (c :: s) = (false, c :: s).
Proof.
  intros (_ & _ & Hm & Hp & _)%is_digit_facts. unfold scan_sign.
  destruct c as [[] [] [] [] [] [] [] []]; done.
Qed.

Lemma skip_0x_other b c x s : (Ascii.eqb x "x" || Ascii.eqb x "X") = false -> skip_0x b (c :: x :: s) = c :: x :: s.
Proof.
  intros Hx. unfold skip_0x. rewrite Hx, andb_false_r.
  destruct c as [[] [] [] [] [] [] [] []]; done.
Qed.

Lemma scan_number_str neg b D n e r :
  D <> [] -> Forall is_digit D -> ends e = true -> scan_digits b (D ++ e :: r) 0 = (n, e :: r) ->
  scan_number b ((if neg : bool then ["-"%char] else []) ++ D ++ e :: r) = Some (neg, n, e :: r).
Proof.
  intros HD Hd He Hs. destruct D as [|c l]; [done|]. cbn [app] in *.
  apply list.Forall_cons in Hd as [Hcd Hl].
  pose proof (is_digit_facts c Hcd) as (Hsp & _ & _ & _ & [d Hdv]).
  assert (Hsign : scan_sign (skip_space ((if neg then ["-"%char] else []) ++ c :: l ++ e :: r)) = (neg, c :: l ++ e :: r)).
  { destruct neg; cbn [app]; [done|]. cbn [skip_space]. rewrite Hsp. by apply scan_sign_digit. }
  unfold scan_number. rewrite Hsign.
  assert (H0x : skip_0x b (c :: l ++ e :: r) = c :: l ++ e :: r).
  { destruct l as [|c' l]; cbn [app]; apply skip_0x_other.
    - unfold ends in He. apply andb_prop in He as [_ He]. by apply negb_true_iff in He.
    - apply list.Forall_cons in Hl as [Hc' _]. by apply is_digit_facts. }
  rewrite H0x, Hdv.
  assert (Hdb : (d <? b) = true).
  { apply Z.ltb_lt. destruct (Z.ltb_spec d b); [done|].
    cbn [scan_digits] in Hs. rewrite Hdv, (proj2 (Z.ltb_ge d b)) in Hs by lia. exfalso.
    injection Hs as _ _ Hs. apply (f_equal length) in Hs. rewrite length_app in Hs. cbn in Hs. lia. }
  by rewrite Hdb, Hs.
Qed.

Lemma digits_str b n : 0 < b <= 16 -> 0 <= n -> digits 64 b n [] <> [] /\ Forall is_digit (digits 64 b n []).
Proof.
  intros Hb Hn. split; [|by apply digits_all]. destruct (digits_cons 63 b n []) as (c & l & ->). done.
Qed.

Lemma scan_number_digits neg b n e r :
  1 < b <= 16 -> 0 <= n < 2 ^ 64 -> ends e = true ->
  scan_number b ((if neg : bool then ["-"%char] else []) ++ digits 64 b n [] ++ e :: r) = Some (neg, n, e :: r).
Proof.
  intros Hb Hn He. apply scan_number_str; [apply digits_str; lia..|done|].
  rewrite <- digits_app. rewrite scan_digits_digits; [by apply scan_digits_stop|done| |lia]. split; [lia|].
  apply Z.lt_le_trans with (2 ^ 64); [lia|]. apply Z.pow_le_mono_l. lia.
Qed.

Lemma scan_digits_hex D e r v : Forall is_digit D -> ends e = true -> exists v', scan_digits 16 (D ++ e :: r) v = (v', e :: r).
Proof.
  intros HD He. revert v. induction HD as [|c D (d & Hd & ->) HD IH]; intros v; cbn [app].
  - exists v. by apply scan_digits_stop.
  - cbn [scan_digits]. rewrite digit_val_digit, (proj2 (Z.ltb_lt _ _)) by lia. apply IH.
Qed.

Lemma scan_lx_fmt n e r : 0 <= n < 2 ^ 64 -> ends e = true -> scan_lx (fmt_lx n ++ e :: r) = Some (n, e :: r).
Proof.
  intros Hn He. unfold scan_lx, fmt_lx.
  pose proof (scan_number_digits false 16 n e r ltac:(lia) Hn He) as Hs. cbn [app] in Hs. rewrite Hs.
  cbn. by rewrite (proj2 (Z.leb_gt _ _)) by lia.
Qed.

Lemma scan_ld_fmt n e r : - 2 ^ 63 <= n < 2 ^ 63 -> ends e = true -> scan_ld (fmt_ld n ++ e :: r) = Some (n, e :: r).
Proof.
  intros Hn He. unfold scan_ld, fmt_ld, fmt_lu. destruct (Z.ltb_spec n 0).
  - change (("-"%char :: digits 64 10 (- n) []) ++ e :: r) with (["-"%char] ++ digits 64 10 (- n) [] ++ e :: r).
    rewrite (scan_number_digits true 10 (- n) e r) by (done || lia). cbn. do 2 f_equal. lia.
  - pose proof (scan_number_digits false 10 n e r ltac:(lia) ltac:(lia) He) as Hs. cbn [app] in Hs. rewrite Hs.
    cbn. do 2 f_equal. lia.
Qed.

(** A number printed in decimal is read as one in hexadecimal. *)
Lemma scan_lx_decimal n e r : 0 <= n -> ends e = true -> exists v, scan_lx (fmt_lu n ++ e :: r) = Some (v, e :: r).
Proof.
  intros Hn He. destruct (digits_str 10 n ltac:(lia) Hn) as [HD Hd].
  destruct (scan_digits_hex _ e r 0 Hd He) as [v Hv]. unfold scan_lx.
  pose proof (scan_number_str false 16 _ v e r HD Hd He Hv) as Hs. cbn [app] in Hs. unfold fmt_lu. rewrite Hs. eexists. reflexivity.
Qed.

(** ** Lines *)

Definition word (w : str) : Prop := w <> [] /\ Forall (fun c => is_lower c = true) w.

Lemma span_lower_word w : Forall (fun c => is_lower c = true) w -> span_lower w = (w, []).
Proof. induction 1 as [|c w Hc Hw IH]; [done|]. cbn. by rewrite Hc, IH. Qed.

Lemma scan_char_same c s : scan_char c (c :: s) = Some s.
Proof. cbn. by rewrite Ascii.eqb_refl. Qed.

Lemma sscanf_latency to from lat ty v :
  0 <= to < 2 ^ 64 -> 0 <= from < 2 ^ 64 -> - 2 ^ 63 <= lat < 2 ^ 63 -> word ty ->
  sscanf_line (render (LatencyLine to from lat ty)) v = Vars to from lat ty.
Proof.
  intros Ht Hf Hl [Hne Hw]. unfold sscanf_line, render.
  rewrite scan_lx_fmt by done. rewrite scan_char_same. cbn [mbind option_bind].
  rewrite scan_lx_fmt by done. rewrite scan_char_same. cbn [mbind option_bind].
  rewrite scan_ld_fmt by done. rewrite scan_char_same, span_lower_word by done. by destruct ty.
Qed.

Lemma host_line_scan k lat host core v :
  0 <= k < 2 ^ 64 -> - 2 ^ 63 <= lat < 2 ^ 63 ->
  sscanf_line (render (HostLine k lat host core)) v = Vars k 0 lat (lit "h").
Proof.
  intros Hk Hl. change (render (HostLine k lat host core)) with
    (fmt_lx k ++ ","%char :: fmt_lx 0 ++ ","%char :: fmt_ld lat ++ ","%char ::
     "h"%char :: ","%char :: fmt_ld host ++ ","%char :: fmt_ld core).
  unfold sscanf_line.
  rewrite scan_lx_fmt by done. rewrite scan_char_same. cbn [mbind option_bind].
  rewrite scan_lx_fmt by done. rewrite scan_char_same. cbn [mbind option_bind].
  rewrite scan_ld_fmt by done. by rewrite scan_char_same.
Qed.

Lemma txn_line_scan id ty lat kind v :
  0 <= id -> 0 <= ty -> - 2 ^ 63 <= lat < 2 ^ 63 -> word kind ->
  exists k f, sscanf_line (render (TxnLine id ty lat kind)) v = Vars k f lat kind.
Proof.
  intros Hid Hty Hl [Hne Hw]. unfold sscanf_line, render.
  destruct (scan_lx_decimal id ","%char (fmt_lu ty ++ ","%char :: fmt_ld lat ++ ","%char :: kind) Hid eq_refl) as [k Hk].
  destruct (scan_lx_decimal ty ","%char (fmt_ld lat ++ ","%char :: kind) Hty eq_refl) as [f Hf].
  exists k, f. rewrite Hk. rewrite scan_char_same. cbn [mbind option_bind]. rewrite Hf. rewrite scan_char_same.
  cbn [mbind option_bind]. rewrite scan_ld_fmt by done. rewrite scan_char_same, span_lower_word by done. by destruct kind.
Qed.

(** ** Loading a log *)

(** The types of the lines [report_timer] prints. *)
Definition known_types : list (str * tag) :=
  [(lit "a", Ta); (lit "gw", Tgw); (lit "gn", Tgn); (lit "gs", Tgs); (lit "gl", Tgl); (lit "ge", Tge); (lit "r", Tr);
   (lit "rl", Trl); (lit "s", Ts)].

(** What a line stores: a tag, a request and a value. *)
Definition writes (l : log_line) : list (tag * Z * Z) :=
  match l with
  | LatencyLine k from lat ty =>
      match list_find (fun p => p.1 = ty) known_types with
      | Some (_, (_, Ts)) => [(Ts, k, u64 lat); (Tfrom, k, from)]
      | Some (_, (_, g)) => [(g, k, u64 lat)]
      | None => []
      end
  | HostLine k lat _ _ => [(Th, k, u64 lat)]
  | TxnLine _ _ _ _ => []
  end.

Definition good_line (l : log_line) : Prop :=
  match l with
  | LatencyLine k from lat ty =>
      0 <= k < 2 ^ 64 /\ 0 <= from < 2 ^ 64 /\ - 2 ^ 63 <= lat < 2 ^ 63 /\ exists g, (ty, g) ∈ known_types
  | HostLine k lat _ _ => 0 <= k < 2 ^ 64 /\ - 2 ^ 63 <= lat < 2 ^ 63
  | TxnLine id ty lat kind =>
      0 <= id /\ 0 <= ty /\ - 2 ^ 63 <= lat < 2 ^ 63 /\ (kind = lit "t" \/ kind = lit "et")
  end.

Definition write (t : tables) (w : tag * Z * Z) : tables := set_tag w.1.1 w.1.2 w.2 t.

Lemma store_line l v t : good_line l -> exists v', sscanf_line (render l) v = v' /\ store v' t = Ok (fold_left write (writes l) t).
Proof.
  destruct l as [k from lat ty|k lat host core|id ty lat kind]; cbn [good_line].
  - intros (Hk & Hf & Hl & g & Hg). exists (Vars k from lat ty).
    assert (Hc : Forall (fun p => word p.1 /\ forall k from lat t, store (Vars k from lat p.1) t =
      Ok (fold_left write (writes (LatencyLine k from lat p.1)) t)) known_types) by
      (repeat constructor; done).
    rewrite list.Forall_forall in Hc. destruct (Hc _ Hg) as [Hw Hs]. split; [by apply sscanf_latency|apply Hs].
  - intros [Hk Hl]. exists (Vars k 0 lat (lit "h")). split; [by apply host_line_scan|done].
  - intros (Hid & Hty & Hl & Hk). assert (Hw : word kind) by (destruct Hk as [-> | ->]; split; [done|by repeat constructor|done|by repeat constructor]).
    destruct (txn_line_scan id ty lat kind v Hid Hty Hl Hw) as (k & f & Hv). exists (Vars k f lat kind). split; [done|].
    by destruct Hk as [-> | ->].
Qed.

Lemma load_lines ls v t :
  Forall good_line ls -> load (map render ls) v t = Ok (fold_left write (flat_map writes ls) t).
Proof.
  intros Hls. revert v t. induction Hls as [|l ls Hl Hls IH]; intros v t; [done|]. cbn [map load flat_map].
  destruct (store_line l v t Hl) as (v' & -> & Hs). rewrite Hs, fold_left_app. apply IH.
Qed.

(** What the tables hold when no two lines store different values under a
    request: exactly what the lines stored. *)
Lemma writes_lookup ws (t : tables) g k :
  t g !! k = None -> (forall v v', (g, k, v) ∈ ws -> (g, k, v') ∈ ws -> v = v') ->
  forall v, fold_left write ws t g !! k = Some v <-> (g, k, v) ∈ ws.
Proof.
  intros Ht Hu v. revert t Ht Hu. induction ws as [|[[g' k'] v'] ws IH] using rev_ind; intros t Ht Hu.
  - cbn. rewrite Ht. set_solver.
  - rewrite fold_left_app. cbn [fold_left]. unfold write at 1, set_tag. cbn [fst snd].
    assert (Hu' : forall x y, (g, k, x) ∈ ws -> (g, k, y) ∈ ws -> x = y) by (intros x y Hx Hy; apply Hu; set_solver).
    case_decide as Hg; [destruct (decide (k' = k)) as [->|Hk]|].
    + subst g'. rewrite lookup_insert_eq. split; [intros [= ->]; set_solver|].
      intros Hin. f_equal. apply Hu; set_solver.
    + rewrite lookup_insert_ne, IH by done. rewrite elem_of_app, list_elem_of_singleton. naive_solver.
    + rewrite IH by done. rewrite elem_of_app, list_elem_of_singleton. naive_solver.
Qed.

Lemma writes_schedule k from lat : writes (LatencyLine k from lat (lit "s")) = [(Ts, k, u64 lat); (Tfrom, k, from)].
Proof. done. Qed.

Lemma elem_of_flat_map {A B} (f : A -> list B) l y : y ∈ flat_map f l <-> exists x, x ∈ l /\ y ∈ f x.
Proof. rewrite list_elem_of_In, in_flat_map. by setoid_rewrite list_elem_of_In. Qed.

(** ** Properties *)

(** The parser's sscanf reads back what [timer_print] and
    [timer_print_from_to] print: for every 64-bit pair of requests, every signed
    64-bit latency and every type of lower-case letters, whatever the line before
    left in the variables. *)
Theorem line_roundtrip to from lat ty v :
  0 <= to < 2 ^ 64 -> 0 <= from < 2 ^ 64 -> - 2 ^ 63 <= lat < 2 ^ 63 -> word ty ->
  sscanf_line (render (LatencyLine to from lat ty)) v = Vars to from lat ty.
Proof. apply sscanf_latency. Qed.

Lemma line_roundtrip_witness :
  sscanf_line (render (LatencyLine (2 ^ 64 - 1) 0 (-42) (lit "ge"))) (Vars 7 7 7 []) = Vars (2 ^ 64 - 1) 0 (-42) (lit "ge").
Proof.
  apply (line_roundtrip (2 ^ 64 - 1) 0 (-42) (lit "ge") (Vars 7 7 7 [])); [lia|lia|lia|].
  split; [done|]. by repeat constructor.
Defined.
