(* ===== verification/TimersProofs.v ===== *)
(** * TimersProofs: from recorded times to measured latencies

    [report_timer] prints the latencies its tables hold; from the logs of all hosts
    the parser computes, for every granted request, the latency and the waiting time
    that the recorded times of the request and of the release before it give, in
    doubles; and it gives up when a request was not granted. *)

From Stdlib Require Import Ascii String.
From S2P Require Import Prelude Types Doubles Timers TimersText.

#[local] Open Scope prog_scope.

(** ** What a host reports *)

Section report.
Context (LOCALHOST_ID : Z) (elements : forall A, gmap Z A -> list (Z * A)).

(** How and when request [k] was granted, and released. *)
Definition granted_at (s : stats) (k : Z) : option (tag * Z) :=
  match t_ GrantLocal k s, t_ GrantWAgent k s, t_ GrantWoAgent k s, t_ SwitchDirectGrant k s with
  | Some g, _, _, _ => Some (Tgl, g)
  | None, Some g, _, _ => Some (Tgw, g)
  | None, None, Some g, _ => Some (Tgn, g)
  | None, None, None, Some g => Some (Tgs, g)
  | None, None, None, None => None
  end.

Definition released_at (s : stats) (k : Z) : option (tag * Z) :=
  match t_ ReleaseSent k s, t_ ReleaseLocal k s with
  | Some r, _ => Some (Tr, r)
  | None, Some r => Some (Trl, r)
  | None, None => None
  end.

(** The latency with tag [g] of the request acquired at [at_]. *)
Definition acquire_latency (s : stats) (k at_ : Z) (g : tag) : option Z :=
  match g with
  | Ta => ast ← t_ AcquireSent k s; Some (ast - at_)
  | Tge => gbt ← t_ GrantBegin k s; '(_, e) ← granted_at s k; Some (e - at_)
  | Tgw | Tgn | Tgs | Tgl =>
      gbt ← t_ GrantBegin k s; '(g', e) ← granted_at s k; if decide (g' = g) then Some (e - gbt) else None
  | Tr | Trl =>
      rt ← t_ Release k s; '(g', r) ← released_at s k; if decide (g' = g) then Some (r - rt) else None
  | Th | Ts | Tb | Tfrom => None
  end.

(** What the tables hold, by the tag and the request of the line. *)
Definition stored (s : stats) (g : tag) (k : Z) : option Z :=
  match g with
  | Ts => fin ← t_ ScheduleEnd k s; sst ← t_ ScheduleStart (scheduled_by k s) s; Some (u64 (fin - sst))
  | Tfrom => _ ← t_ ScheduleEnd k s; _ ← t_ ScheduleStart (scheduled_by k s) s; Some (scheduled_by k s)
  | _ => at_ ← t_ Acquire k s; u64 <$> acquire_latency s k at_ g
  end.

(** The assertions of [report_timer] hold. *)
Record complete (s : stats) : Prop := {
  c_sent : forall k, is_Some (t_ Acquire k s) -> is_Some (t_ AcquireSent k s);
  c_granted : forall k, is_Some (t_ Acquire k s) -> is_Some (t_ GrantBegin k s) -> is_Some (granted_at s k);
  c_released : forall k, is_Some (t_ Acquire k s) -> is_Some (t_ Release k s) -> is_Some (released_at s k);
  c_scheduled : forall k, is_Some (t_ ScheduleEnd k s) -> is_Some (t_ ScheduleStart (scheduled_by k s) s);
  c_txn : forall k, is_Some (t_ TxnBegin k s) -> is_Some (txn_type_map s 0 !! k);
}.

(** Requests have 64 bits and clocks are positive. *)
Record in_range (s : stats) : Prop := {
  r_times : forall n c k v, times s n c !! k = Some v -> 0 <= k < 2 ^ 64 /\ 0 <= v < 2 ^ 62;
  r_pair : forall k v, schedule_pair s 0 !! k = Some v -> 0 <= v < 2 ^ 64;
  r_type : forall k v, txn_type_map s 0 !! k = Some v -> 0 <= v;
}.

Definition grant_lines (s : stats) (k at_ : Z) : list log_line :=
  match t_ GrantBegin k s, granted_at s k with
  | Some gbt, Some (g, e) =>
      [LatencyLine k 0 (e - gbt) (match g with Tgl => lit "gl" | Tgw => lit "gw" | Tgn => lit "gn" | _ => lit "gs" end);
       LatencyLine k 0 (e - at_) (lit "ge")]
  | _, _ => []
  end.

Definition release_lines (s : stats) (k : Z) : list log_line :=
  match t_ Release k s, released_at s k with
  | Some rt, Some (g, r) => [LatencyLine k 0 (r - rt) (match g with Tr => lit "r" | _ => lit "rl" end)]
  | _, _ => []
  end.

Definition acquire_lines (s : stats) (k at_ : Z) : list log_line :=
  match t_ AcquireSent k s with Some ast => [LatencyLine k 0 (ast - at_) (lit "a")] | None => [] end ++
  grant_lines s k at_ ++ release_lines s k.

Definition schedule_lines (s : stats) (k fin : Z) : list log_line :=
  match t_ ScheduleStart (scheduled_by k s) s with
  | Some sst => [LatencyLine k (scheduled_by k s) (fin - sst) (lit "s")]
  | None => []
  end.

Definition txn_lines (s : stats) (k tbt : Z) : list log_line :=
  match txn_type_map s 0 !! k, t_ TxnEnd k s with
  | Some ty, Some tet =>
      [TxnLine k ty (sw 64 (extra_time k s)) (lit "et"); TxnLine k ty (sw 64 (tet - tbt - extra_time k s)) (lit "t")]
  | _, _ => []
  end.

Definition handled_lines (s : stats) (core : Z) : list log_line :=
  flat_map (fun i => match times s HandleAcquireEnd core !! i.1 with
                     | Some hae => [HostLine i.1 (hae - i.2) LOCALHOST_ID core]
                     | None => []
                     end) (elements _ (times s HandleAcquireBegin core)).

(** The log of a host. *)
Definition report_lines (s : stats) : list log_line :=
  flat_map (handled_lines s) (seqZ 0 DPDK_LCORE_NUM) ++
  flat_map (fun i => acquire_lines s i.1 i.2) (elements _ (times s Acquire 0)) ++
  flat_map (fun i => schedule_lines s i.1 i.2) (elements _ (times s ScheduleEnd 0)) ++
  flat_map (fun i => txn_lines s i.1 i.2) (elements _ (times s TxnBegin 0)).

Lemma for_each_flat {S E A} (body : A -> M S E unit) (f : A -> list E) (l : list A) (s : S) :
  (forall x, x ∈ l -> body x s = Ok (tt, s, f x)) -> for_each l body s = Ok (tt, s, flat_map f l).
Proof using.
  induction l as [|x l IH]; intros Hb; [done|]. cbn [for_each flat_map].
  apply (bind_ok_ok _ _ _ _ _ _ _ _ _ (Hb x ltac:(left))), IH. intros y Hy. apply Hb. by right.
Qed.

Lemma report_acquire_lines s k at_ :
  complete s -> t_ Acquire k s = Some at_ -> report_acquire k at_ s = Ok (tt, s, acquire_lines s k at_).
Proof using.
  intros Hc Ha. pose proof (c_sent s Hc k ltac:(by eexists)) as [ast Hast].
  pose proof (c_granted s Hc k ltac:(by eexists)) as Hg. pose proof (c_released s Hc k ltac:(by eexists)) as Hr.
  unfold report_acquire, acquire_lines, grant_lines, release_lines, granted_at, released_at in *.
  unfold bind, get, ret, emit, fail, timer_print in *. rewrite Hast.
  destruct (t_ GrantBegin k s) as [gbt|], (t_ Release k s) as [rt|].
  all: try specialize (Hg ltac:(by eexists)); try specialize (Hr ltac:(by eexists)); revert Hg Hr.
  all: destruct (t_ GrantLocal k s), (t_ GrantWAgent k s), (t_ GrantWoAgent k s), (t_ SwitchDirectGrant k s).
  all: try (by intros [? [=]]).
  all: destruct (t_ ReleaseSent k s), (t_ ReleaseLocal k s); try done; by intros _ [? [=]].
Qed.

Lemma report_schedule_lines s k fin :
  complete s -> t_ ScheduleEnd k s = Some fin -> report_schedule k fin s = Ok (tt, s, schedule_lines s k fin).
Proof using.
  intros Hc Hf. destruct (c_scheduled s Hc k ltac:(by eexists)) as [sst Hs].
  unfold report_schedule, schedule_lines, bind, get. by rewrite Hs.
Qed.

Lemma report_txn_lines s k tbt :
  complete s -> t_ TxnBegin k s = Some tbt -> report_txn k tbt s = Ok (tt, s, txn_lines s k tbt).
Proof using.
  intros Hc Hf. destruct (c_txn s Hc k ltac:(by eexists)) as [ty Ht].
  unfold report_txn, txn_lines, bind, get. rewrite Ht. by destruct (t_ TxnEnd k s).
Qed.

Context (Helements : iteration elements).

Lemma report_timer_lines s :
  complete (merge_all s) ->
  report_timer LOCALHOST_ID elements s = Ok (tt, merge_all s, report_lines (merge_all s)).
Proof using Helements.
  intros Hc. unfold report_timer, report_lines.
  assert (Hin : forall n k v, (k, v) ∈ elements Z (times (merge_all s) n 0) -> t_ n k (merge_all s) = Some v).
  { intros n k v H. by apply (elements_spec elements Helements) in H. }
  unfold bind at 1, get. unfold bind at 1, put. cbn [app]. 
  assert (Hh : for_each (seqZ 0 DPDK_LCORE_NUM) (report_handled LOCALHOST_ID elements) (merge_all s) =
      Ok (tt, merge_all s, flat_map (handled_lines (merge_all s)) (seqZ 0 DPDK_LCORE_NUM))).
  { apply for_each_flat. intros core _. unfold report_handled, handled_lines, bind, get.
    rewrite (for_each_flat _ (fun i => match times (merge_all s) HandleAcquireEnd core !! i.1 with
      | Some hae => [HostLine i.1 (hae - i.2) LOCALHOST_ID core] | None => [] end)); [done|].
    intros [k v] _. cbn [fst snd]. by destruct (times (merge_all s) HandleAcquireEnd core !! k). }
  rewrite (bind_ok _ _ _ _ _ _ Hh). unfold bind at 1, get. cbn [app].
  erewrite bind_ok_ok; [reflexivity| |erewrite bind_ok_ok; [reflexivity| |]].
  - apply for_each_flat. intros [k v] Hx. by apply report_acquire_lines, Hin.
  - apply for_each_flat. intros [k v] Hx. by apply report_schedule_lines, Hin.
  - apply for_each_flat. intros [k v] Hx. by apply report_txn_lines, Hin.
Qed.
End report.

(** ** The tables of the parser *)

Lemma granted_tag s k g e : granted_at s k = Some (g, e) -> g = Tgl \/ g = Tgw \/ g = Tgn \/ g = Tgs.
Proof.
  unfold granted_at. destruct (t_ GrantLocal k s), (t_ GrantWAgent k s), (t_ GrantWoAgent k s), (t_ SwitchDirectGrant k s);
    intros [= <- _]; tauto.
Qed.

Lemma released_tag s k g r : released_at s k = Some (g, r) -> g = Tr \/ g = Trl.
Proof. unfold released_at. destruct (t_ ReleaseSent k s), (t_ ReleaseLocal k s); intros [= <- _]; tauto. Qed.

Lemma grant_writes s k at_ g k' v :
  (g, k', v) ∈ flat_map writes (grant_lines s k at_) <->
  k' = k /\ (g = Tge \/ g = Tgl \/ g = Tgw \/ g = Tgn \/ g = Tgs) /\ u64 <$> acquire_latency s k at_ g = Some v.
Proof.
  unfold grant_lines, acquire_latency.
  destruct (t_ GrantBegin k s) as [gbt|]; [|cbn; destruct g; set_solver].
  destruct (granted_at s k) as [[g0 e]|] eqn:Hg; [|cbn; destruct g; set_solver].
  cbn [flat_map mbind option_bind]. rewrite app_nil_r.
  assert (He : writes (LatencyLine k 0 (e - at_) (lit "ge")) = [(Tge, k, u64 (e - at_))]) by reflexivity.
  rewrite He.
  assert (Hw : writes (LatencyLine k 0 (e - gbt) (match g0 with Tgl => lit "gl" | Tgw => lit "gw" | Tgn => lit "gn" | _ => lit "gs" end))
    = [(g0, k, u64 (e - gbt))]).
  { apply granted_tag in Hg. destruct Hg as [-> | [-> | [-> | ->]]]; reflexivity. }
  rewrite Hw. apply granted_tag in Hg. clear He Hw.
  cbn [app]. rewrite !elem_of_cons, elem_of_nil.
  destruct Hg as [-> | [-> | [-> | ->]]]; destruct g; try case_decide; naive_solver.
Qed.

Lemma release_writes s k at_ g k' v :
  (g, k', v) ∈ flat_map writes (release_lines s k) <->
  k' = k /\ (g = Tr \/ g = Trl) /\ u64 <$> acquire_latency s k at_ g = Some v.
Proof.
  unfold release_lines, acquire_latency.
  destruct (t_ Release k s) as [rt|]; [|cbn; destruct g; set_solver].
  destruct (released_at s k) as [[g0 r]|] eqn:Hg; [|cbn; destruct g; set_solver].
  cbn [flat_map mbind option_bind]. rewrite app_nil_r.
  assert (Hw : writes (LatencyLine k 0 (r - rt) (match g0 with Tr => lit "r" | _ => lit "rl" end)) = [(g0, k, u64 (r - rt))]).
  { apply released_tag in Hg. destruct Hg as [-> | ->]; reflexivity. }
  rewrite Hw. apply released_tag in Hg. clear Hw. rewrite !elem_of_cons, elem_of_nil.
  destruct Hg as [-> | ->]; destruct g; try case_decide; naive_solver.
Qed.

Lemma acquire_writes s k at_ g k' v :
  (g, k', v) ∈ flat_map writes (acquire_lines s k at_) <-> k' = k /\ u64 <$> acquire_latency s k at_ g = Some v.
Proof.
  unfold acquire_lines. rewrite !flat_map_app, !elem_of_app, grant_writes, release_writes.
  assert (Ha : (g, k', v) ∈ flat_map writes
      (match t_ AcquireSent k s with Some ast => [LatencyLine k 0 (ast - at_) (lit "a")] | None => [] end) <->
    k' = k /\ g = Ta /\ u64 <$> acquire_latency s k at_ g = Some v).
  { destruct (t_ AcquireSent k s) as [ast|] eqn:E; cbn [flat_map app].
    - rewrite app_nil_r. assert (Hw : writes (LatencyLine k 0 (ast - at_) (lit "a")) = [(Ta, k, u64 (ast - at_))]) by reflexivity.
      rewrite Hw, elem_of_cons, elem_of_nil. split; [intros [[= -> -> ->]|[]]; cbn; by rewrite E|].
      intros (-> & -> & H). cbn in H. rewrite E in H. left. cbn in H. by injection H as <-.
    - rewrite elem_of_nil. split; [done|]. intros (_ & -> & H). cbn in H. by rewrite E in H. }
  rewrite Ha. clear Ha. split; [naive_solver|]. intros [-> H]. destruct g; try done; naive_solver.
Qed.

Section tables.
Context (LOCALHOST_ID : Z) (elements : forall A, gmap Z A -> list (Z * A)) (Helements : iteration elements).

(** The values the lines of a host store, except for the handling times. *)
Lemma report_writes s g k v :
  g <> Th -> (g, k, v) ∈ flat_map writes (report_lines LOCALHOST_ID elements s) <-> stored s g k = Some v.
Proof using Helements.
  intros Hg. unfold report_lines. rewrite !flat_map_app, !elem_of_app.
  assert (Hin : forall n k v, (k, v) ∈ elements Z (times s n 0) <-> t_ n k s = Some v).
  { intros n k' v'. apply (elements_spec elements Helements). }
  assert (Hh : (g, k, v) ∉ flat_map writes (flat_map (handled_lines LOCALHOST_ID elements s) (seqZ 0 DPDK_LCORE_NUM))).
  { intros (l & (core & _ & (i & _ & Hl)%elem_of_flat_map)%elem_of_flat_map & Hw)%elem_of_flat_map.
    destruct (times s HandleAcquireEnd core !! i.1); [|by apply not_elem_of_nil in Hl].
    apply list_elem_of_singleton in Hl as ->. cbn in Hw. apply list_elem_of_singleton in Hw. by injection Hw as ->. }
  assert (Ht : (g, k, v) ∉ flat_map writes (flat_map (fun i => txn_lines s i.1 i.2) (elements Z (times s TxnBegin 0)))).
  { intros (l & (i & _ & Hl)%elem_of_flat_map & Hw)%elem_of_flat_map. unfold txn_lines in Hl.
    assert (Hn : writes l = []); [|rewrite Hn in Hw; by apply not_elem_of_nil in Hw].
    destruct (txn_type_map s 0 !! i.1), (t_ TxnEnd i.1 s); try by apply not_elem_of_nil in Hl.
    apply elem_of_cons in Hl as [->|Hl%list_elem_of_singleton]; [done|by subst]. }
  assert (Ha : (g, k, v) ∈ flat_map writes (flat_map (fun i => acquire_lines s i.1 i.2) (elements Z (times s Acquire 0))) <->
    exists at_, t_ Acquire k s = Some at_ /\ u64 <$> acquire_latency s k at_ g = Some v).
  { rewrite elem_of_flat_map. split.
    - intros (l & ([k' at_] & Hi%Hin & Hl)%elem_of_flat_map & Hw). exists at_.
      assert (Hx : (g, k, v) ∈ flat_map writes (acquire_lines s k' at_)) by (apply elem_of_flat_map; eauto).
      by apply acquire_writes in Hx as [-> Hx].
    - intros (at_ & Hat & Hx).
      assert (Hy : (g, k, v) ∈ flat_map writes (acquire_lines s k at_)) by (by apply acquire_writes).
      apply elem_of_flat_map in Hy as (l & Hl & Hw). exists l. split; [|done]. apply elem_of_flat_map. exists (k, at_).
      split; [by apply Hin|done]. }
  assert (Hs : (g, k, v) ∈ flat_map writes (flat_map (fun i => schedule_lines s i.1 i.2) (elements Z (times s ScheduleEnd 0))) <->
    exists fin sst, t_ ScheduleEnd k s = Some fin /\ t_ ScheduleStart (scheduled_by k s) s = Some sst /\
      (g = Ts /\ v = u64 (fin - sst) \/ g = Tfrom /\ v = scheduled_by k s)).
  { rewrite elem_of_flat_map. split.
    - intros (l & ([k' fin] & Hi%Hin & Hl)%elem_of_flat_map & Hw). unfold schedule_lines in Hl. cbn [fst snd] in *.
      destruct (t_ ScheduleStart (scheduled_by k' s) s) as [sst|] eqn:E; [|by apply not_elem_of_nil in Hl].
      apply list_elem_of_singleton in Hl as ->. rewrite writes_schedule, !elem_of_cons, elem_of_nil in Hw.
      exists fin, sst. naive_solver.
    - intros (fin & sst & Hf & Hst & Hv). exists (LatencyLine k (scheduled_by k s) (fin - sst) (lit "s")).
      split; [|rewrite writes_schedule, !elem_of_cons, elem_of_nil; naive_solver].
      apply elem_of_flat_map. exists (k, fin). split; [by apply Hin|]. unfold schedule_lines. cbn [fst snd].
      rewrite Hst. by apply list_elem_of_singleton. }
  rewrite Ha, Hs. clear Ha Hs Hin. split.
  - intros [H|[(at_ & Hat & Hx)|[(fin & sst & Hf & Hst & [[-> ->]|[-> ->]])|H]]]; [by destruct Hh| | | |by destruct Ht].
    + destruct g; try done; cbn [stored]; by rewrite Hat.
    + cbn [stored]. by rewrite Hf; cbn; rewrite Hst.
    + cbn [stored]. by rewrite Hf; cbn; rewrite Hst.
  - intros H. right. destruct g; try done; cbn [stored] in H.
    all: try (apply bind_Some in H as (at_ & Hat & Hx); left; by exists at_).
    all: apply bind_Some in H as (fin & Hf & (sst & Hst & [= <-])%bind_Some); right; left; exists fin, sst; tauto.
Qed.

Lemma latency_range s n c n' c' k k' v v' :
  in_range s -> times s n c !! k = Some v -> times s n' c' !! k' = Some v' -> - 2 ^ 63 <= v - v' < 2 ^ 63.
Proof using.
  intros Hr H H'. destruct (r_times s Hr _ _ _ _ H) as [_ Hv], (r_times s Hr _ _ _ _ H') as [_ Hv']. lia.
Qed.

Lemma sw64_range z : - 2 ^ 63 <= sw 64 z < 2 ^ 63.
Proof using. unfold sw. pose proof (Z.mod_pos_bound (z + 2 ^ (64 - 1)) (2 ^ 64)). lia. Qed.

Lemma good_latency s n n' c c' k' v v' k ty g :
  in_range s -> times s n c !! k = Some v -> times s n' c' !! k' = Some v' -> (ty, g) ∈ known_types ->
  good_line (LatencyLine k 0 (v - v') ty).
Proof using.
  intros Hr H H' Hty. split; [by apply (r_times s Hr _ _ _ _ H)|]. split; [lia|].
  split; [by eapply latency_range|]. by exists g.
Qed.

Lemma granted_times s k g e : granted_at s k = Some (g, e) -> exists n, t_ n k s = Some e.
Proof using.
  unfold granted_at. destruct (t_ GrantLocal k s) eqn:E1; [intros [= <- <-]; eauto|].
  destruct (t_ GrantWAgent k s) eqn:E2; [intros [= <- <-]; eauto|].
  destruct (t_ GrantWoAgent k s) eqn:E3; [intros [= <- <-]; eauto|].
  destruct (t_ SwitchDirectGrant k s) eqn:E4; [intros [= <- <-]; eauto|done].
Qed.

Lemma released_times s k g r : released_at s k = Some (g, r) -> exists n, t_ n k s = Some r.
Proof using.
  unfold released_at. destruct (t_ ReleaseSent k s) eqn:E1; [intros [= <- <-]; eauto|].
  destruct (t_ ReleaseLocal k s) eqn:E2; [intros [= <- <-]; eauto|done].
Qed.

Lemma known_type i ty g : known_types !! i = Some (ty, g) -> (ty, g) ∈ known_types.
Proof using. apply list_elem_of_lookup_2. Qed.

Lemma acquire_lines_good s k at_ :
  in_range s -> t_ Acquire k s = Some at_ -> Forall good_line (acquire_lines s k at_).
Proof using.
  intros Hr Ha. unfold acquire_lines. repeat apply Forall_app_2.
  - destruct (t_ AcquireSent k s) as [ast|] eqn:E; [|constructor]. apply Forall_singleton.
    by eapply good_latency; [done|exact E|exact Ha|apply (known_type 0)].
  - unfold grant_lines. destruct (t_ GrantBegin k s) as [gbt|] eqn:E; [|constructor].
    destruct (granted_at s k) as [[g e]|] eqn:Hg; [|constructor]. destruct (granted_times _ _ _ _ Hg) as [n Hn].
    constructor; [|apply Forall_singleton; by eapply good_latency; [done|exact Hn|exact Ha|apply (known_type 5)]].
    apply granted_tag in Hg. destruct Hg as [-> | [-> | [-> | ->]]];
      (eapply good_latency; [done|exact Hn|exact E|]);
      [by apply (known_type 4)|by apply (known_type 1)|by apply (known_type 2)|by apply (known_type 3)].
  - unfold release_lines. destruct (t_ Release k s) as [rt|] eqn:E; [|constructor].
    destruct (released_at s k) as [[g r]|] eqn:Hg; [|constructor]. destruct (released_times _ _ _ _ Hg) as [n Hn].
    apply Forall_singleton. apply released_tag in Hg. destruct Hg as [-> | ->];
      (eapply good_latency; [done|exact Hn|exact E|]); [by apply (known_type 6)|by apply (known_type 7)].
Qed.

Lemma report_lines_good s : in_range s -> Forall good_line (report_lines LOCALHOST_ID elements s).
Proof using Helements.
  intros Hr. apply list.Forall_forall. unfold report_lines.
  assert (Hin : forall n c k v, (k, v) ∈ elements Z (times s n c) -> times s n c !! k = Some v).
  { intros n c k v H. by apply (elements_spec elements Helements) in H. }
  intros l. rewrite !elem_of_app, !elem_of_flat_map.
  intros [(core & _ & Hl)|[([k v] & Hk%Hin & Hl)|[([k v] & Hk%Hin & Hl)|([k v] & Hk%Hin & Hl)]]]; cbn [fst snd] in *.
  - apply elem_of_flat_map in Hl as ([k v] & Hk%Hin & Hl). cbn [fst snd] in *.
    destruct (times s HandleAcquireEnd core !! k) as [e|] eqn:E; [|by apply not_elem_of_nil in Hl].
    apply list_elem_of_singleton in Hl as ->. split; [by apply (r_times s Hr _ _ _ _ E)|by eapply latency_range].
  - pose proof (acquire_lines_good s k v Hr Hk) as Hg. rewrite list.Forall_forall in Hg. by apply Hg.
  - unfold schedule_lines in Hl. destruct (t_ ScheduleStart (scheduled_by k s) s) as [sst|] eqn:E; [|by apply not_elem_of_nil in Hl].
    apply list_elem_of_singleton in Hl as ->. split; [by apply (r_times s Hr _ _ _ _ Hk)|].
    split; [by apply (r_times s Hr _ _ _ _ E)|]. split; [by eapply latency_range|].
    exists Ts. by apply (known_type 8).
  - unfold txn_lines in Hl. destruct (txn_type_map s 0 !! k) as [ty|] eqn:Ety; [|by apply not_elem_of_nil in Hl].
    destruct (t_ TxnEnd k s) as [tet|] eqn:E; [|by apply not_elem_of_nil in Hl].
    pose proof (proj1 (proj1 (r_times s Hr _ _ _ _ E))). pose proof (r_type s Hr _ _ Ety).
    apply elem_of_cons in Hl as [->|Hl%list_elem_of_singleton]; [|subst l]; (split; [done|]; split; [done|]);
      (split; [apply sw64_range|tauto]).
Qed.
End tables.

(** ** The logs of a cluster *)

#[local] Opaque merge_all report_timer report_lines.

Section cluster.
Context (elements : forall A, gmap Z A -> list (Z * A)) (Helements : iteration elements).

(** A host's number and what it recorded. *)
Abbreviation host := (Z * stats)%type.

Definition host_log (h : host) : list str :=
  match report_timer h.1 elements h.2 with Ok (_, _, ls) => map render ls | Fault _ => [] end.

Definition cluster_log (hosts : list host) : list str := flat_map host_log hosts.

(** What a host reports can be printed: no assertion of [report_timer] fails. *)
Definition reports (h : host) : Prop := complete (merge_all h.2) /\ in_range (merge_all h.2).

Definition logged (hosts : list host) (g : tag) (k v : Z) : Prop :=
  exists h, h ∈ hosts /\ stored (merge_all h.2) g k = Some v.

(** Hosts do not log different values for the same request. *)
Definition agree (hosts : list host) : Prop :=
  forall g k v v', logged hosts g k v -> logged hosts g k v' -> v = v'.

Definition acquired (hosts : list host) (k : Z) : Prop :=
  exists h, h ∈ hosts /\ is_Some (t_ Acquire k (merge_all h.2)).

Definition cluster_writes (hosts : list host) : list (tag * Z * Z) :=
  flat_map writes (flat_map (fun h => report_lines h.1 elements (merge_all h.2)) hosts).

Lemma cluster_load hosts v t :
  Forall reports hosts -> load (cluster_log hosts) v t = Ok (fold_left write (cluster_writes hosts) t).
Proof using Helements.
  intros Hh. unfold cluster_writes. rewrite <- load_lines with (v := v).
  - f_equal. unfold cluster_log. induction Hh as [|h hosts [Hc Hr] Hh IH]; [done|]. cbn [flat_map map].
    rewrite map_app, IH. f_equal. unfold host_log.
    by rewrite (report_timer_lines h.1 elements Helements h.2 Hc).
  - induction Hh as [|h hosts [Hc Hr] Hh IH]; [constructor|]. cbn [flat_map]. apply Forall_app_2; [|done].
    by apply report_lines_good.
Qed.

Lemma elem_of_cluster_writes hosts g k v : g <> Th -> (g, k, v) ∈ cluster_writes hosts <-> logged hosts g k v.
Proof using Helements.
  intros Hg. unfold cluster_writes, logged. rewrite elem_of_flat_map. split.
  - intros (l & (h & Hh & Hl)%elem_of_flat_map & Hw). exists h. split; [done|].
    apply (report_writes h.1 elements Helements); [done|]. apply elem_of_flat_map. eauto.
  - intros (h & Hh & Hs). apply (report_writes h.1 elements Helements) in Hs as (l & Hl & Hw)%elem_of_flat_map; [|done].
    exists l. split; [|done]. apply elem_of_flat_map. eauto.
Qed.

(** Keys that are stored at all, and keys that are not. *)
Lemma writes_is_Some ws (t : tables) g k v : (g, k, v) ∈ ws -> is_Some (fold_left write ws t g !! k).
Proof using.
  revert t. induction ws as [|[[g' k'] v'] ws IH] using rev_ind; intros t; [by intros ?%not_elem_of_nil|].
  rewrite fold_left_app, elem_of_app, list_elem_of_singleton. cbn [fold_left]. unfold write at 1, set_tag. cbn [fst snd].
  intros [H|[= -> -> ->]].
  - specialize (IH t H). case_decide as Hg; [|done]. subst g'. destruct (decide (k' = k)) as [->|Hk].
    + rewrite lookup_insert_eq. by eexists.
    + by rewrite lookup_insert_ne.
  - rewrite decide_True, lookup_insert_eq by done. by eexists.
Qed.

Lemma writes_None ws (t : tables) g k :
  t g !! k = None -> (forall v, (g, k, v) ∉ ws) -> fold_left write ws t g !! k = None.
Proof using.
  intros Ht Hn. apply eq_None_not_Some. intros [v Hv].
  apply writes_lookup in Hv; [by eapply Hn|done|]. intros v1 v2 H1. by apply Hn in H1.
Qed.

Lemma acquired_logged hosts k :
  Forall reports hosts -> acquired hosts k -> exists v, logged hosts Ta k v.
Proof using.
  intros Hh (h & Hin & [at_ Ha]). rewrite list.Forall_forall in Hh. destruct (Hh h Hin) as [Hc _].
  destruct (c_sent _ Hc k ltac:(by eexists)) as [ast Hs].
  exists (u64 (ast - at_)), h. split; [done|]. cbn [stored acquire_latency]. rewrite Ha. cbn. by rewrite Hs.
Qed.

Lemma logged_acquired hosts k v : logged hosts Ta k v -> acquired hosts k.
Proof using. intros (h & Hin & Hs). exists h. split; [done|]. apply bind_Some in Hs as (a & Ha & _). by eexists. Qed.

(** An acquire that was not granted fails the parser's assertion, unless an earlier
    one made it convert a double behind 64 bits. *)
Lemma worker_fault sys t keys k :
  k ∈ keys -> index 0 k (t Tge) = 0 -> worker sys t keys = Fault FaultAssert \/ worker sys t keys = Fault FaultOverflow.
Proof using.
  intros Hk Hge. induction keys as [|k' keys IH]; [by apply not_elem_of_nil in Hk|]. cbn [worker].
  assert (Hd : forall d, u64_of d = Fault FaultOverflow \/ exists g, u64_of d = Ok g).
  { intros [| | |[] m e]; cbn; repeat case_match; eauto. }
  assert (Hf : handle_an_acquire sys t k' = Fault FaultAssert \/ handle_an_acquire sys t k' = Fault FaultOverflow \/
    exists o, handle_an_acquire sys t k' = Ok o).
  { unfold handle_an_acquire, passert.
    destruct sys; repeat case_match; eauto;
      match goal with |- context[u64_of ?d] => destruct (Hd d) as [-> | [g ->]]; cbn [mbind result_bind]; eauto end. }
  destruct Hf as [-> |[-> |[o Ho]]]; [by left|by right|]. rewrite Ho. cbn [mbind result_bind].
  apply elem_of_cons in Hk as [<-|Hk]; [|by destruct (IH Hk) as [-> | ->]; [left|right]].
  unfold handle_an_acquire in Ho. rewrite Hge in Ho. done.
Qed.

Lemma worker_ok sys t keys f :
  (forall k, k ∈ keys -> handle_an_acquire sys t k = Ok [f k]) -> worker sys t keys = Ok (map f keys).
Proof using.
  induction keys as [|k keys IH]; intros Hk; [done|]. cbn [worker map]. rewrite Hk by left. cbn [mbind result_bind].
  rewrite IH; [done|]. intros k' Hk'. apply Hk. by right.
Qed.

(** What the parser should make of a granted request, from a table of times: the
    reply to it, the release before it, and both with the time its schedule took. *)
Definition reply_time (at_ : tag -> Z -> Z) (k : Z) : Z :=
  if at_ Tgw k =? 0 then if at_ Tgn k =? 0 then at_ Tgl k else at_ Tgn k else at_ Tgw k.

Definition release_time (at_ : tag -> Z -> Z) (from : Z) : Z :=
  if at_ Tr from =? 0 then at_ Trl from + RTT / 2 else at_ Tr from + RTT.

Definition grant_time (at_ : tag -> Z -> Z) (k : Z) : Z := reply_time at_ k + release_time at_ (at_ Tfrom k) + at_ Ts k.

Definition measured (at_ : tag -> Z -> Z) (k : Z) : double * double :=
  let ge := at_ Tge k in
  let g := grant_time at_ k in
  if at_ Ts k =? 0 then (LATENCY_OUT ge, LATENCY_OUT 0)
  else (LATENCY_OUT g, LATENCY_OUT (if g <=? ge then ge - g else 2 ^ 64 - (g - ge))).

Lemma sub_wraps ge g : 0 <= ge < 2 ^ 64 -> 0 <= g < 2 ^ 64 -> u64 (ge - g) = if g <=? ge then ge - g else 2 ^ 64 - (g - ge).
Proof using.
  intros He Hg. unfold u64. destruct (Z.leb_spec g ge); [apply Z.mod_small; lia|].
  rewrite <- (Z.mod_add _ 1) by done. rewrite Z.mod_small by lia. lia.
Qed.

Lemma acquire_measured sys (t : tables) k :
  sys = FISSLOCK \/ sys = PARLOCK -> (forall g k, g <> Tfrom -> g <> Th -> 0 <= index 0 k (t g) < 2 ^ 50) -> index 0 k (t Tge) <> 0 ->
  (index 0 k (t Ts) <> 0 -> index 0 k (t Tfrom) <> 0 /\ (index 0 k (t Tr) <> 0 \/ index 0 k (t Trl) <> 0)) ->
  handle_an_acquire sys t k = Ok [measured (fun g k => index 0 k (t g)) k].
Proof using.
  intros Hsys H Hge Hs. unfold measured, grant_time, reply_time, release_time.
  set (from := index 0 k (t Tfrom)) in *.
  destruct (Z.eqb_spec (index 0 k (t Ts)) 0) as [Hz|Hz].
  { destruct Hsys as [-> | ->]; unfold handle_an_acquire; by rewrite (proj2 (Z.eqb_neq _ _) Hge), Hz. }
  destruct (Hs Hz) as [Hf Hr].
  assert (Hrb : negb (index 0 k (t Tr) =? 0) || negb (index 0 k (t Trl) =? 0) = true).
  { destruct Hr as [Hr|Hr]; rewrite (proj2 (Z.eqb_neq _ _) Hr); cbn; [done|by rewrite orb_true_r]. }
  set (g := if index 0 k (t Tgw) =? 0 then _ else _).
  set (r := if index 0 from (t Tr) =? 0 then _ else _).
  assert (Hg : 0 <= g < 2 ^ 50) by (unfold g; repeat case_match; by apply H).
  assert (Hrr : 0 <= r < 2 ^ 50 + RTT) by (unfold r, RTT; pose proof (H Tr from ltac:(done) ltac:(done)); pose proof (H Trl from ltac:(done) ltac:(done)); change (4000 / 2) with 2000; case_match; lia).
  assert (Hts : 0 <= index 0 k (t Ts) < 2 ^ 50) by by apply H.
  assert (Ho : handle_an_acquire sys t k =
    (gtime ← u64_of (dadd (double_of g) (double_of (r + index 0 k (t Ts))));
     Ok [(LATENCY_OUT gtime, LATENCY_OUT (u64 (index 0 k (t Tge) - gtime)))])).
  { assert (Hd : (if negb (index 0 from (t Tr) =? 0) then double_of (u64 (index 0 from (t Tr) + RTT + index 0 k (t Ts)))
      else dadd (dadd (double_of (index 0 from (t Trl))) HALF_RTT) (double_of (index 0 k (t Ts)))) = double_of (r + index 0 k (t Ts))).
    { unfold r, HALF_RTT, RTT in *. pose proof (H Tr from ltac:(done) ltac:(done)). pose proof (H Trl from ltac:(done) ltac:(done)).
      destruct (index 0 from (t Tr) =? 0); cbn [negb].
      - change (4000 / 2) with 2000 in *. by rewrite !dadd_exact by lia.
      - f_equal. apply Z.mod_small. lia. }
    assert (Eg : (if negb (index 0 k (t Tgw) =? 0) then index 0 k (t Tgw)
      else if negb (index 0 k (t Tgn) =? 0) then index 0 k (t Tgn) else index 0 k (t Tgl)) = g).
    { unfold g. by destruct (index 0 k (t Tgw) =? 0), (index 0 k (t Tgn) =? 0). }
    rewrite <- Hd, <- Eg. destruct Hsys as [-> | ->]; unfold handle_an_acquire; fold from;
      cbv zeta; by rewrite (proj2 (Z.eqb_neq _ _) Hge), (proj2 (Z.eqb_neq _ _) Hz), (proj2 (Z.eqb_neq _ _) Hf), Hrb. }
  rewrite Ho. unfold RTT in *. rewrite dadd_exact, u64_of_double_of by lia. cbn [mbind result_bind].
  pose proof (H Tge k ltac:(done) ltac:(done)). rewrite sub_wraps by lia. by rewrite Z.add_assoc.
Qed.

(** What the hosts logged for a request, and 0 when none did. *)
Definition entry (hosts : list host) (g : tag) (k : Z) : Z :=
  default 0 (head (omap (fun h => stored (merge_all h.2) g k) hosts)).

Lemma entry_logged hosts g k v : agree hosts -> logged hosts g k v -> entry hosts g k = v.
Proof using.
  intros Ha Hv. unfold entry. destruct (omap _ hosts) as [|x l] eqn:E.
  - destruct Hv as (h & Hin & Hs). assert (Hx : v ∈ omap (fun h => stored (merge_all h.2) g k) hosts) by (apply list_elem_of_omap; eauto).
    rewrite E in Hx. by apply not_elem_of_nil in Hx.
  - cbn. assert (Hx : x ∈ omap (fun h => stored (merge_all h.2) g k) hosts) by (rewrite E; left).
    apply list_elem_of_omap in Hx as (h & Hin & Hs). apply (Ha g k x v); [|done]. by exists h.
Qed.

Lemma entry_none hosts g k : (forall v, ~ logged hosts g k v) -> entry hosts g k = 0.
Proof using.
  intros Hn. unfold entry. destruct (omap _ hosts) as [|x l] eqn:E; [done|].
  assert (Hx : x ∈ omap (fun h => stored (merge_all h.2) g k) hosts) by (rewrite E; left).
  apply list_elem_of_omap in Hx as (h & Hin & Hs). destruct (Hn x). by exists h.
Qed.

Lemma logged_range hosts g k v : g <> Tfrom -> logged hosts g k v -> 0 <= v < 2 ^ 64.
Proof using.
  intros Hg (h & _ & Hs). destruct g; try done; cbn [stored] in Hs; repeat (apply bind_Some in Hs as (? & _ & Hs)).
  all: injection Hs as <-; apply (uw_range 64); lia.
Qed.
Lemma entry_range hosts g k : (forall g k v, g <> Tfrom -> logged hosts g k v -> v < 2 ^ 50) -> g <> Tfrom ->
  0 <= entry hosts g k < 2 ^ 50.
Proof using.
  intros Hshort Hg. unfold entry. destruct (omap _ hosts) as [|x l] eqn:E; [done|].
  assert (Hx : x ∈ omap (fun h => stored (merge_all h.2) g k) hosts) by (rewrite E; left).
  apply list_elem_of_omap in Hx as (h & Hin & Hs). assert (Hl : logged hosts g k x) by by exists h.
  split; [by apply (logged_range hosts g k)|by apply (Hshort g k)].
Qed.
End cluster.

(** ** Properties *)

(** One request that was sent and not granted makes the parser useless: it
    fails an assertion on the logs of a cluster, for every system, as soon as some
    host recorded an acquire for whose request no host recorded the beginning of a
    grant, and it writes no latency of the other requests.  (Unless times near 2^64
    make it convert a double that does not fit, which is undefined.) *)
Theorem parser_rejects_ungranted elements hosts sys k :
  iteration elements -> Forall reports hosts -> acquired hosts k ->
  (forall h, h ∈ hosts -> t_ GrantBegin k (merge_all h.2) = None) ->
  let out := parser_main elements sys (cluster_log elements hosts) in
  out = Fault FaultAssert \/ out = Fault FaultOverflow.
Proof.
  intros He Hh Ha Hg. cbv zeta. unfold parser_main. rewrite (cluster_load elements He) by done. cbn [mbind result_bind].
  destruct (acquired_logged hosts k Hh Ha) as [v Hv].
  apply (worker_fault sys _ _ k).
  - apply (elem_of_cluster_writes elements He) in Hv; [|done].
    destruct (writes_is_Some _ (fun _ => ∅) _ _ _ Hv) as [x Hx].
    apply list_elem_of_fmap. exists (k, x). split; [done|]. by apply (elements_spec elements He).
  - unfold index. rewrite writes_None; [done|apply lookup_empty|].
    intros x (h & Hin & Hs)%(elem_of_cluster_writes elements He); [|done].
    cbn [stored acquire_latency] in Hs. apply bind_Some in Hs as (a & _ & Hx). by rewrite (Hg h Hin) in Hx.
Qed.

(** C33: for FissLock and ParLock the parser turns the logs of a cluster into a
    latency and a waiting time, in microseconds, of each acquired request, once
    each ([measured]).  A request that no holder's release scheduled has the time
    its host recorded from the call to the end of the grant as latency, and no
    waiting time.  One that was scheduled has as latency the sum of the time its
    grant took at its host, of the releasing task's release with a round trip, or
    half of one when the release was local, and of the schedule; and as waiting
    time what this leaves of the recorded time, which wraps when it leaves less than
    nothing.  The hosts' logs must agree and hold times below 2^50 ns, so that the
    sums in doubles are exact; every request must have been granted, after some
    time; and a scheduled one needs the line of its releasing task and a line of
    its own release, which the parser asserts. *)
Theorem latencies_accounted elements hosts sys :
  iteration elements -> Forall reports hosts -> agree hosts -> sys = FISSLOCK \/ sys = PARLOCK ->
  (forall g k v, g <> Tfrom -> logged hosts g k v -> v < 2 ^ 50) ->
  (forall k, acquired hosts k -> exists ge, ge <> 0 /\ logged hosts Tge k ge) ->
  (forall k x, acquired hosts k -> logged hosts Ts k x -> exists from g r,
    from <> 0 /\ logged hosts Tfrom k from /\ r <> 0 /\ (g = Tr \/ g = Trl) /\ logged hosts g k r) ->
  exists keys, parser_main elements sys (cluster_log elements hosts) = Ok (map (measured (entry hosts)) keys) /\
    NoDup keys /\ (forall k, k ∈ keys <-> acquired hosts k) /\
    forall h k at_ gbt g e, h ∈ hosts -> t_ Acquire k (merge_all h.2) = Some at_ ->
      t_ GrantBegin k (merge_all h.2) = Some gbt -> granted_at (merge_all h.2) k = Some (g, e) ->
      entry hosts Tge k = u64 (e - at_).
Proof.
  intros He Hh Hag Hsys Hshort Hgr Hsch. unfold parser_main. rewrite (cluster_load elements He) by done. cbn [mbind result_bind].
  set (t := fold_left write _ _).
  assert (Ht : forall g k v, g <> Th -> t g !! k = Some v <-> logged hosts g k v).
  { intros g k v Hg. rewrite <- (elem_of_cluster_writes elements He) by done. apply writes_lookup; [apply lookup_empty|].
    intros v1 v2 H1%(elem_of_cluster_writes elements He) H2%(elem_of_cluster_writes elements He); [|done..]. by eapply Hag. }
  assert (Hi : forall g k, g <> Th -> index 0 k (t g) = entry hosts g k).
  { intros g k Hg. unfold index. destruct (t g !! k) as [v|] eqn:E; cbn [default].
    - symmetry. apply entry_logged; [done|]. by apply Ht.
    - symmetry. apply entry_none. intros v Hv. apply Ht in Hv; [|done]. congruence. }
  assert (Hkeys : forall k, k ∈ (elements Z (t Ta)).*1 <-> acquired hosts k).
  { intros k. rewrite list_elem_of_fmap. split.
    - intros ([k' v] & -> & Hv%(elements_spec elements He)). apply (logged_acquired _ _ v). by apply Ht.
    - intros [v Hv]%acquired_logged; [|done]. exists (k, v). split; [done|]. apply (elements_spec elements He). by apply Ht. }
  exists (elements Z (t Ta)).*1. split_and!; [|apply (elements_spec elements He)|done|].
  - apply worker_ok. intros k Hk%Hkeys. rewrite (acquire_measured sys t k Hsys).
    + f_equal. f_equal. unfold measured, grant_time, reply_time, release_time. by rewrite !Hi by done.
    + intros g k' Hg Hg'. rewrite Hi by done. by apply entry_range.
    + destruct (Hgr k Hk) as (ge & Hge & Hl). by rewrite Hi, (entry_logged _ _ _ ge).
    + intros Hs. unfold index in Hs. destruct (t Ts !! k) as [x|] eqn:E; [|done]. apply Ht in E; [|done].
      destruct (Hsch k x Hk E) as (from & g & r & Hf & Hlf & Hr & Hgx & Hlr). rewrite !Hi by done.
      rewrite (entry_logged _ _ _ _ Hag Hlf). split; [done|].
      destruct Hgx as [-> | ->]; [left|right]; by rewrite (entry_logged _ _ _ _ Hag Hlr).
  - intros h k at_ gbt g e Hin Ha Hb Hg. apply entry_logged; [done|]. exists h. split; [done|].
    cbn [stored acquire_latency]. rewrite Ha. cbn. by rewrite Hb, Hg.
Qed.

(** Requests of a host: task 1 holds lock 3 and releases it to task 2; when
    [pending], task 9 still waits. *)
Definition example_stats (pending : bool) : stats :=
  let waiting := if pending then {[ LKTSK 3 9 := 300 ]} else ∅ in
  let k1 := LKTSK 3 1 in
  let k2 := LKTSK 3 2 in
  Stats (fun n c => if c =? 0 then
      match n with
      | Acquire => {[ k1 := 100; k2 := 150 ]} ∪ waiting
      | AcquireSent => {[ k1 := 110; k2 := 160 ]} ∪ waiting
      | GrantBegin => {[ k1 := 4000; k2 := 12000 ]}
      | GrantWAgent => {[ k1 := 4010; k2 := 12010 ]}
      | Release => {[ k1 := 8000; k2 := 20000 ]}
      | ReleaseSent => {[ k2 := 20010 ]}
      | ReleaseLocal => {[ k1 := 8010 ]}
      | ScheduleStart => {[ k1 := 8020 ]}
      | ScheduleEnd => {[ k2 := 8030 ]}
      | _ => ∅
      end else ∅)
    (fun _ => 0) (fun _ => ∅) (fun c => if c =? 0 then {[ k2 := k1 ]} else ∅) ∅.

Lemma merged_check (s : stats) n (P : Z -> Prop) `{!forall k, Decision (P k)} k :
  bool_decide (map_Forall (fun k _ => P k) (times s n 0)) = true -> is_Some (t_ n k s) -> P k.
Proof. intros Hall%bool_decide_eq_true [v Hv]. exact (Hall k v Hv). Qed.

#[local] Transparent merge_all.

Lemma merge_timers_other_core l s n c : c <> 0 -> times (merge_timers l s) n c = times s n c.
Proof.
  intros Hc. revert s. induction l as [|m l IH]; intros s; [done|]. cbn [merge_timers fold_left].
  change (fold_left _ l ?s') with (merge_timers l s'). rewrite IH.
  unfold timer_merge, set_times. cbn [times]. rewrite decide_False; [done|]. by intros [_ ?].
Qed.

Lemma times_Stats t b m p l : times (Stats t b m p l) = t.
Proof. done. Qed.

Lemma merge_other_core s n c : c <> 0 -> times (merge_all s) n c = times s n c.
Proof. intros Hc. unfold merge_all. rewrite times_Stats. by apply merge_timers_other_core. Qed.

Lemma example_complete b : complete (merge_all (example_stats b)).
Proof.
  split; intros k; [|intros Ha; revert Ha..].
  - apply (merged_check _ Acquire (fun k => is_Some (t_ AcquireSent k (merge_all (example_stats b))))). by destruct b; vm_compute.
  - apply (merged_check _ Acquire (fun k => is_Some (t_ GrantBegin k (merge_all (example_stats b))) ->
      is_Some (granted_at (merge_all (example_stats b)) k))). by destruct b; vm_compute.
  - apply (merged_check _ Acquire (fun k => is_Some (t_ Release k (merge_all (example_stats b))) ->
      is_Some (released_at (merge_all (example_stats b)) k))). by destruct b; vm_compute.
  - apply (merged_check _ ScheduleEnd (fun k => is_Some (t_ ScheduleStart (scheduled_by k (merge_all (example_stats b))) (merge_all (example_stats b))))).
    by destruct b; vm_compute.
  - apply (merged_check _ TxnBegin (fun k => is_Some (txn_type_map (merge_all (example_stats b)) 0 !! k))). by destruct b; vm_compute.
Qed.

Lemma example_in_range b : in_range (merge_all (example_stats b)).
Proof.
  split.
  - intros n c k v. destruct (Z.eqb_spec c 0) as [->|Hc].
    + assert (Hall : map_Forall (fun k v => (0 <= k < 2 ^ 64) /\ (0 <= v < 2 ^ 62)) (times (merge_all (example_stats b)) n 0)).
      { apply (bool_decide_unpack _). destruct b, n; vm_compute; exact I. }
      apply Hall.
    + rewrite merge_other_core by done. cbn [times example_stats]. rewrite (proj2 (Z.eqb_neq _ _) Hc). by rewrite lookup_empty.
  - assert (Hall : map_Forall (fun k v => 0 <= v < 2 ^ 64) (schedule_pair (merge_all (example_stats b)) 0)).
    { apply (bool_decide_unpack _). destruct b; vm_compute; exact I. }
    exact Hall.
  - assert (Hall : map_Forall (fun k v => 0 <= v) (txn_type_map (merge_all (example_stats b)) 0)).
    { apply (bool_decide_unpack _). destruct b; vm_compute; exact I. }
    exact Hall.
Qed.

#[local] Opaque merge_all.

Lemma example_reports b : Forall reports [(1, example_stats b)].
Proof. apply Forall_singleton. split; [apply example_complete|apply example_in_range]. Qed.

Lemma parser_rejects_ungranted_witness :
  let out := parser_main listing NETLOCK (cluster_log listing [(1, example_stats true)]) in
  out = Fault FaultAssert \/ out = Fault FaultOverflow.
Proof.
  apply (parser_rejects_ungranted listing [(1, example_stats true)] NETLOCK (LKTSK 3 9)).
  - exact listing_iteration.
  - apply example_reports.
  - exists (1, example_stats true). split; [left|]. vm_compute. eauto.
  - intros h ->%list_elem_of_singleton. vm_compute. reflexivity.
Defined.

Lemma example_logged b g k v : logged [(1, example_stats b)] g k v <-> stored (merge_all (example_stats b)) g k = Some v.
Proof.
  split; [by intros (h & ->%list_elem_of_singleton & H)|]. intros H. exists (1, example_stats b). split; [left|done].
Qed.

Definition short_times (s : stats) (k : Z) : bool :=
  forallb (fun g => match stored s g k with Some v => v <? 2 ^ 50 | None => true end) [Ta; Th; Tgw; Tgn; Tgs; Tgl; Tge; Tr; Trl; Ts; Tb].

Lemma example_short g k v : g <> Tfrom -> logged [(1, example_stats false)] g k v -> v < 2 ^ 50.
Proof.
  intros Hg Hl%example_logged.
  assert (Hs : short_times (merge_all (example_stats false)) k = true).
  { destruct (decide (g = Ts)) as [->|Hne].
    - apply (merged_check (merge_all (example_stats false)) ScheduleEnd (fun k => short_times (merge_all (example_stats false)) k = true)); [by vm_compute|].
      apply bind_Some in Hl as (fin & Hf & _). by exists fin.
    - apply (merged_check (merge_all (example_stats false)) Acquire (fun k => short_times (merge_all (example_stats false)) k = true)); [by vm_compute|].
      destruct g; try done; apply bind_Some in Hl as (x & Hx & _); by exists x. }
  unfold short_times in Hs. rewrite forallb_forall in Hs. specialize (Hs g). rewrite Hl in Hs.
  apply Z.ltb_lt, Hs. destruct g; cbn; tauto.
Qed.

Lemma latencies_accounted_witness :
  exists keys, parser_main listing FISSLOCK (cluster_log listing [(1, example_stats false)]) =
      Ok (map (measured (entry [(1, example_stats false)])) keys) /\
    NoDup keys /\ (forall k, k ∈ keys <-> acquired [(1, example_stats false)] k) /\
    forall h k at_ gbt g e, h ∈ [(1, example_stats false)] -> t_ Acquire k (merge_all h.2) = Some at_ ->
      t_ GrantBegin k (merge_all h.2) = Some gbt -> granted_at (merge_all h.2) k = Some (g, e) ->
      entry [(1, example_stats false)] Tge k = u64 (e - at_).
Proof.
  assert (Hk : forall k, acquired [(1, example_stats false)] k -> k = LKTSK 3 1 \/ k = LKTSK 3 2).
  { intros k (h & ->%list_elem_of_singleton & H). revert H. cbn [snd].
    apply (merged_check _ Acquire (fun k => k = LKTSK 3 1 \/ k = LKTSK 3 2)). by vm_compute. }
  apply (latencies_accounted listing [(1, example_stats false)] FISSLOCK).
  - exact listing_iteration.
  - apply example_reports.
  - intros g k v v'. rewrite !example_logged. congruence.
  - by left.
  - apply example_short.
  - intros k [-> | ->]%Hk.
    + exists 3910. split; [done|]. apply example_logged. by vm_compute.
    + exists 11860. split; [done|]. apply example_logged. by vm_compute.
  - intros k x [-> | ->]%Hk H%example_logged; [by vm_compute in H|].
    exists (LKTSK 3 1), Tr, 10. split; [done|]. split; [apply example_logged; by vm_compute|]. split; [done|].
    split; [by left|]. apply example_logged. by vm_compute.
Defined.

(** Task 1 has its whole time as latency; task 2's grant took 10 ns, the release
    before it 10 and half a round trip, the schedule 10, and it waited for the
    rest of its 11,860. *)
Example example_measured :
  map (measured (entry [(1, example_stats false)])) [LKTSK 3 1; LKTSK 3 2] =
    [(LATENCY_OUT 3910, LATENCY_OUT 0); (LATENCY_OUT 2030, LATENCY_OUT 9830)].
Proof. vm_compute. reflexivity. Qed.
