(* ===== verification/TxnBench.v ===== *)
(** * TxnBench: the transaction benchmark as a client of the lock

    Models tests/txnbench.cc: reading a trace into the transactions of the sending
    cores, and the coroutines that execute them.  A transaction requests all its
    locks in turn, waits for each, gives up when it has waited too long, and then
    releases what it requested, the latest first.  What a coroutine asks of the
    lock library is a value of type [call]; Section [bench] runs coroutines of
    several hosts against lock managers that implement the interface of [RwSpec].
    The class [Handles] is what the library's [lock_acquire_async] returns: a
    pointer or null in FissLock, the lock and the task in ParLock and NetLock.

    The coroutine library is not part of the repository: any coroutine may be
    resumed next, until the last coroutine of its core stops the scheduler.  Left
    out: the clock (a timeout is a choice of the run), [request_index], which
    nothing reads, and the records of [Timers]. *)

From Stdlib Require Import Ascii String.
From stdpp Require Import functions.
From S2P Require Import Prelude RwSpec Types LmRefine Timers.

(** ** Reading the trace *)

Record lock_request := LockReq {
  action_type : Z;
  lock_type : Z;
  txn_type : Z;
  txn_id : Z;
  lock_id : Z;
}.

Record transaction := Txn { t_id : Z; t_type : Z; lock_requests : list lock_request }.

(** [strtoul] of a decimal number. *)
Definition scan_lu (s : str) : option (Z * str) :=
  '(neg, v, s') ← scan_number 10 s;
  Some (if 2 ^ 64 <=? v then 2 ^ 64 - 1 else if neg : bool then u64 (- v) else v, s').

(** A comma and the blanks after it. *)
Definition scan_comma (s : str) : option str := s ← scan_char ","%char s; Some (skip_space s).

Definition next_field (s : str) : option (Z * str) := s ← scan_comma s; scan_lu s.

(** [sscanf(line, "%u, %hhu, %hhu, %u, %hhu", ...)] into a zeroed request. *)
Definition sscanf_request (line : str) : lock_request :=
  match scan_lu line with
  | None => LockReq 0 0 0 0 0
  | Some (v1, s) =>
      match next_field s with
      | None => LockReq 0 0 0 (u32 v1) 0
      | Some (v2, s) =>
          match next_field s with
          | None => LockReq (u8 v2) 0 0 (u32 v1) 0
          | Some (v3, s) =>
              match next_field s with
              | None => LockReq (u8 v2) 0 (u8 v3) (u32 v1) 0
              | Some (v4, s) =>
                  match next_field s with
                  | None => LockReq (u8 v2) 0 (u8 v3) (u32 v1) (u32 v4)
                  | Some (v5, _) => LockReq (u8 v2) (u8 v5) (u8 v3) (u32 v1) (u32 v4)
                  end
              end
          end
      end
  end.

(** [line.c_str()[0]] is a digit. *)
Definition is_request (line : str) : bool :=
  match line with
  | c :: _ => let n := nat_of_ascii c in (48 <=? n)%nat && (n <=? 57)%nat
  | [] => false
  end.

(** [txns.back().lock_requests.push_back(lr)] *)
Fixpoint push_request (lr : lock_request) (txns : list transaction) : result (list transaction) :=
  match txns with
  | [] => Fault FaultNull
  | [t] => Ok [Txn (t_id t) (t_type t) (lock_requests t ++ [lr])]
  | t :: txns => txns ← push_request lr txns; Ok (t :: txns)
  end.

(** The variable [txn_id] of the loop, and [txn_list]. *)
Record trace := Trace { last_txn : Z; txn_list : gmap Z (list transaction) }.

Definition read_line (TX_CORE_NUM RX_CORE_NUM : Z) (line : str) (t : trace) : result trace :=
  if negb (is_request line) then Ok t
  else if TX_CORE_NUM =? 0 then Fault FaultDivZero
  else
    let lr := sscanf_request line in
    let lcore_id := txn_id lr mod TX_CORE_NUM + RX_CORE_NUM in
    if DPDK_LCORE_NUM <=? lcore_id then Fault FaultBounds
    else
      let txns := index [] lcore_id (txn_list t) in
      let txns := if last_txn t =? txn_id lr then txns else txns ++ [Txn (txn_id lr) (txn_type lr) []] in
      txns ← push_request lr txns;
      Ok (Trace (txn_id lr) (<[lcore_id := txns]> (txn_list t))).

Fixpoint read_lines (TX_CORE_NUM RX_CORE_NUM : Z) (lines : list str) (t : trace) : result trace :=
  match lines with
  | [] => Ok t
  | line :: lines => t ← read_line TX_CORE_NUM RX_CORE_NUM line t; read_lines TX_CORE_NUM RX_CORE_NUM lines t
  end.

Definition get_trace_for_lcores (TX_CORE_NUM RX_CORE_NUM : Z) (lines : list str) : result (gmap Z (list transaction)) :=
  t ← read_lines TX_CORE_NUM RX_CORE_NUM lines (Trace (u32 (-1)) ∅); Ok (txn_list t).

(** ** A coroutine *)

(** Where a coroutine is: not yet resumed for the first time, in
    [lock_acquire_async], in the waiting loop, in the think time after the last
    grant, in the loop of releases, or at its end. *)
Inductive pc := Spawned | Acquiring | Polling | Committed | Releasing | Finished.

#[global] Instance pc_eq_dec : EqDecision pc.
Proof. solve_decision. Defined.

(** The host and core of a coroutine, and whether it is the core's last one. *)
Record place := Place { p_host : Z; p_core : Z; p_last : bool }.

(** [c_todo] is what the loop over the transactions has left, the current one
    first; [abort_cnt] is the coroutine's share of its core's variable. *)
Record coroutine := Crt {
  c_place : place;
  c_todo : list transaction;
  c_pc : pc;
  lr_pos : Z;
  abort_flag : bool;
  abort_cnt : Z;
  txn_counter : Z;
  trace_counter : Z;
}.

#[global] Instance lock_request_eq_dec : EqDecision lock_request.
Proof. solve_decision. Defined.
#[global] Instance transaction_eq_dec : EqDecision transaction.
Proof. solve_decision. Defined.
#[global] Instance place_eq_dec : EqDecision place.
Proof. solve_decision. Defined.
#[global] Instance coroutine_eq_dec : EqDecision coroutine.
Proof. solve_decision. Defined.

Definition c_host (c : coroutine) : Z := p_host (c_place c).

Definition set_pc p c := Crt (c_place c) (c_todo c) p (lr_pos c) (abort_flag c) (abort_cnt c) (txn_counter c) (trace_counter c).
Definition set_pos p c := Crt (c_place c) (c_todo c) (c_pc c) p (abort_flag c) (abort_cnt c) (txn_counter c) (trace_counter c).

Definition requests (c : coroutine) : list lock_request :=
  match c_todo c with [] => [] | t :: _ => lock_requests t end.

Definition size_ (c : coroutine) : Z := Z.of_nat (length (requests c)).

(** The test of the loop that acquires. *)
Definition arrive (c : coroutine) : coroutine := set_pc (if lr_pos c <? size_ c then Acquiring else Committed) c.

(** The head of the loop over the transactions. *)
Definition begin (c : coroutine) : coroutine :=
  match c_todo c with
  | [] => set_pc Finished c
  | _ :: _ => arrive (Crt (c_place c) (c_todo c) (c_pc c) 0 false (abort_cnt c) (txn_counter c + 1) (trace_counter c))
  end.

Definition finish (c : coroutine) : coroutine :=
  begin (Crt (c_place c) (tail (c_todo c)) (c_pc c) (lr_pos c) (abort_flag c) (abort_cnt c) (txn_counter c) (trace_counter c)).

(** The test of the loop that releases. *)
Definition release_from (pos : Z) (c : coroutine) : coroutine :=
  if 0 <=? pos then set_pos pos (set_pc Releasing c) else finish c.

Definition release_all (c : coroutine) : coroutine :=
  release_from (if lr_pos c =? size_ c then lr_pos c - 1 else lr_pos c) c.

Definition granted (c : coroutine) : coroutine :=
  arrive (Crt (c_place c) (c_todo c) (c_pc c) (lr_pos c + 1) (abort_flag c) (abort_cnt c) (txn_counter c) (trace_counter c + 1)).

Definition abort (c : coroutine) : coroutine :=
  release_all (Crt (c_place c) (c_todo c) (c_pc c) (lr_pos c) true (abort_cnt c + 1) (txn_counter c - 1) (trace_counter c)).

Definition op_of_type (ty : Z) : lock_state := if ty =? 1 then LOCK_SHARED else if ty =? 2 then LOCK_EXCL else FREE.

(** [FirstResume] is the scheduler's and calls nothing. *)
Inductive call :=
  | FirstResume
  | LockAcquireAsync (lock task : Z) (op : lock_state)
  | LockReqGranted (lock task : Z)
  | Delay
  | LockRelease (lock task : Z) (op : lock_state).

(** [txn.lock_requests[lr_pos]] *)
Definition current (c : coroutine) : option lock_request := requests c !! Z.to_nat (lr_pos c).

Definition next_call (c : coroutine) : option call :=
  match c_pc c with
  | Spawned => Some FirstResume
  | Acquiring => lr ← current c; Some (LockAcquireAsync (lock_id lr) (txn_id lr) (op_of_type (lock_type lr)))
  | Polling => lr ← current c; Some (LockReqGranted (lock_id lr) (txn_id lr))
  | Committed => Some Delay
  | Releasing => lr ← current c; Some (LockRelease (lock_id lr) (txn_id lr) (op_of_type (lock_type lr)))
  | Finished => None
  end.

(** What the coroutine does with the value a call returns; [timeout] says whether
    the transaction has taken longer than [DEADLOCK_TIMEOUT]. *)
Definition resume (c : coroutine) (ret : Z) (timeout : bool) : coroutine :=
  match c_pc c with
  | Spawned => begin c
  | Acquiring => if ret =? 0 then granted c else set_pc Polling c
  | Polling =>
      if ret =? 2 then abort c
      else if ret =? 1 then granted c
      else if timeout then abort c else c
  | Committed => release_all c
  | Releasing => release_from (lr_pos c - 1) c
  | Finished => c
  end.

(** The transactions of coroutine [k]: the loop starts at [c_id] and advances by
    [coroutine_num]. *)
Fixpoint every {A} (k step : nat) (l : list A) : list A :=
  match l with
  | [] => []
  | x :: l => match k with O => x :: every (step - 1) step l | S k => every k step l end
  end.

Definition start (pl : place) (txns : list transaction) : coroutine := Crt pl txns Spawned 0 false 0 0 0.

Definition spawn (host core : Z) (coroutine_num : nat) (txns : list transaction) : list coroutine :=
  map (fun c_id => start (Place host core (c_id =? coroutine_num - 1)%nat) (every c_id coroutine_num txns))
    (seq 0 coroutine_num).

(** [R2_STOP]: when its last coroutine ends, a core's scheduler resumes none of
    the others any more. *)
Definition stopped (cs : list coroutine) (c : coroutine) : bool :=
  existsb (fun d => (p_host (c_place d) =? p_host (c_place c)) && (p_core (c_place d) =? p_core (c_place c)) &&
                    p_last (c_place d) && bool_decide (c_pc d = Finished)) cs.

(** ** Coroutines and lock managers *)

(** [lock_acquire_async] returns a handle to wait with, and the coroutine takes
    null for a grant.  Which handle a library returns, for a lock and a task, may
    depend on whether it knows that the call was granted its lock. *)
Class Handles := handle : Z -> Z -> bool -> Z.

(** A request that is not granted at once gets a handle other than null. *)
Definition waits `{lib : Handles} (lock task : Z) : Prop := handle lock task false <> 0.

Section bench.
Context {S : Type} `{lib : Handles} (impl : Z -> RwLockImpl S).

(** A manager for every lock, and what the managers have granted. *)
Record service := Service { managers : Z -> S; views : Z -> view }.

Definition serve (lock : Z) (e : event) (s : service) : result service :=
  '(m, gs) ← impl_step (RwLockImpl := impl lock) e (managers s lock);
  Ok (Service (<[lock := m]> (managers s)) (<[lock := view_step e gs (views s lock)]> (views s))).

(** [lock_req_granted] returns that a request was granted only when it was; without
    [told] the news is still on its way.  [lock_acquire_async] returns what the
    library has for a handle. *)
Definition perform (host : Z) (told : bool) (cl : call) (s : service) : result (Z * service) :=
  match cl with
  | LockAcquireAsync lock task op =>
      match rw_of_ls op with
      | None => Fault FaultAssert
      | Some o =>
          s ← serve lock (Acq o (host, task)) s;
          Ok (handle lock task (told && bool_decide ((o, (host, task)) ∈ v_held (views s lock))), s)
      end
  | LockReqGranted lock task =>
      Ok (if told && (bool_decide ((Shared, (host, task)) ∈ v_held (views s lock)) ||
                      bool_decide ((Excl, (host, task)) ∈ v_held (views s lock))) then 1 else 0, s)
  | FirstResume | Delay => Ok (0, s)
  | LockRelease lock task op =>
      match rw_of_ls op with
      | None => Fault FaultAssert
      | Some o => s ← serve lock (Rel o (host, task)) s; Ok (0, s)
      end
  end.

Record bench := Bench { crts : list coroutine; svc : service }.

(** Coroutine [i] makes its next call. *)
Record tick := Tick { t_crt : nat; t_told : bool; t_timeout : bool }.

Definition bench_step (l : tick) (b : bench) : result bench :=
  match crts b !! t_crt l with
  | None => Ok b
  | Some c =>
      if stopped (crts b) c then Ok b
      else
        match next_call c with
        | None => Ok b
        | Some cl =>
            '(ret, s) ← perform (c_host c) (t_told l) cl (svc b);
            Ok (Bench (<[t_crt l := resume c ret (t_timeout l)]> (crts b)) s)
        end
  end.

Fixpoint bench_run (ls : list tick) (b : bench) : result bench :=
  match ls with
  | [] => Ok b
  | l :: ls => b ← bench_step l b; bench_run ls b
  end.

Definition bench_init (cs : list coroutine) : bench :=
  Bench cs (Service (fun lock => impl_init (RwLockImpl := impl lock)) (fun _ => view_init)).
End bench.
