(* ===== verification/TxnBenchProofs.v ===== *)
(** * TxnBenchProofs: transactions do not see each other

    The benchmark of [TxnBench] obeys two-phase locking.  Against any managers
    that implement the interface of [RwSpec] with withdrawal, in every interleaving
    of the coroutines of all hosts and with timeouts at any moment, a transaction
    that has been granted a lock shares it with readers only, and no request or
    lock outlives its transaction.

    [claims] is what a coroutine has requested and not released, [acquired] what it
    knows to be granted; the invariant [binv] says that the managers know of
    exactly the claims of the coroutines. *)

From Stdlib Require Import Ascii String.
From stdpp Require Import functions.
From S2P Require Import Prelude RwSpec Types LmRefine Timers TxnBench.

(** ** What is requested and granted at one lock *)

Definition claimed (v : view) : gset (rw * req) := v_held v ∪ v_pending v.

Lemma grants_waited b e a g :
  spec_wf a -> permitted b e (view_of a) -> g ∈ (spec_step e a).2 ->
  match e with Acq op r => g = (op, r) | Rel op r => g ∈ sp_waiters a /\ snd g <> r end.
Proof.
  intros Hwf HP Hg. destruct e as [op r|op r]; cbn [spec_step] in Hg.
  - unfold spec_acquire in Hg. destruct (sp_mode a) as [[]|], op; set_solver.
  - destruct (spec_release_cases _ _ _ _ Hwf HP) as
      [(? & ? & _ & _ & _ & E)|[(_ & Hr & _ & E)|(_ & _ & _ & _ & E)]]; rewrite E in Hg; [set_solver| |set_solver].
    assert (Hw : g ∈ sp_waiters a).
    { unfold spec_schedule in Hg. destruct (sp_waiters a) as [|[[] r0] ws]; cbn [snd] in Hg; [set_solver| |set_solver].
      by apply elem_of_filterb in Hg as [_ ?]. }
    split; [done|]. intros <-. apply (wf_disjoint _ Hwf _ Hr). apply elem_of_waiter_snd. exists g.1. by destruct g.
Qed.

Lemma waiter_pending a g : g ∈ sp_waiters a -> g ∈ v_pending (view_of a).
Proof. intros H. cbn. by apply elem_of_list_to_set. Qed.

Lemma claimed_acquire b op r a x :
  spec_wf a -> permitted b (Acq op r) (view_of a) ->
  x ∈ claimed (view_of (spec_step (Acq op r) a).1) <-> x = (op, r) \/ x ∈ claimed (view_of a).
Proof.
  intros Hwf HP. rewrite <- (view_of_step b) by done. pose proof (fun g => grants_waited b _ a g Hwf HP) as HG.
  unfold claimed. cbn [view_step v_held v_pending]. set (G := list_to_set _ : gset (rw * req)).
  assert (HG' : forall g, g ∈ G -> g = (op, r)) by (intros g Hg; apply HG; by apply elem_of_list_to_set in Hg).
  destruct (decide (x ∈ G)) as [Hx|Hx]; [pose proof (HG' x Hx)|]; set_solver.
Qed.

Lemma claimed_release b op r a x :
  spec_wf a -> permitted b (Rel op r) (view_of a) ->
  x ∈ claimed (view_of (spec_step (Rel op r) a).1) <-> x <> (op, r) /\ x ∈ claimed (view_of a).
Proof.
  intros Hwf HP. rewrite <- (view_of_step b) by done. pose proof (fun g => grants_waited b _ a g Hwf HP) as HG.
  unfold claimed. cbn [view_step v_held v_pending]. set (G := list_to_set _ : gset (rw * req)).
  assert (HG' : forall g, g ∈ G -> g ∈ v_pending (view_of a) /\ g <> (op, r)).
  { intros g Hg. apply elem_of_list_to_set in Hg. destruct (HG g Hg) as [Hw Hr].
    split; [by apply waiter_pending|]. by intros ->. }
  destruct (decide (x ∈ G)) as [Hx|Hx]; [pose proof (HG' x Hx)|]; set_solver.
Qed.

Lemma held_step b e a x :
  spec_wf a -> permitted b e (view_of a) -> x ∈ v_held (view_of a) ->
  match e with Acq _ _ => True | Rel op r => x <> (op, r) end -> x ∈ v_held (view_of (spec_step e a).1).
Proof. intros Hwf HP Hx He. rewrite <- (view_of_step b) by done. destruct e; cbn [view_step v_held]; set_solver. Qed.

(** ** What a coroutine has requested *)

Definition mode (lr : lock_request) : rw := default Shared (rw_of_ls (op_of_type (lock_type lr))).
Definition claim (r : req) (lr : lock_request) : Z * (rw * req) := (lock_id lr, (mode lr, r)).

(** The requester a coroutine is, and the requesters it will be. *)
Definition owner (c : coroutine) : req := (c_host c, match c_todo c with [] => 0 | t :: _ => t_id t end).
Definition ids (c : coroutine) : list req := map (fun t => (c_host c, t_id t)) (c_todo c).

Definition reach (c : coroutine) : nat :=
  match c_pc c with
  | Acquiring | Committed => Z.to_nat (lr_pos c)
  | Polling | Releasing => Datatypes.S (Z.to_nat (lr_pos c))
  | Spawned | Finished => 0
  end.

Definition got (c : coroutine) : nat :=
  match c_pc c with Acquiring | Polling | Committed => Z.to_nat (lr_pos c) | Spawned | Releasing | Finished => 0 end.

Definition claims (c : coroutine) : list (Z * (rw * req)) := map (claim (owner c)) (take (reach c) (requests c)).
Definition acquired (c : coroutine) : list (Z * (rw * req)) := map (claim (owner c)) (take (got c) (requests c)).

Definition in_place (c : coroutine) : Prop :=
  match c_pc c with
  | Spawned => True
  | Acquiring | Polling | Releasing => 0 <= lr_pos c < size_ c
  | Committed => lr_pos c = size_ c /\ c_todo c <> []
  | Finished => c_todo c = []
  end.

(** [c'] is [c] after some of its program. *)
Record follows (c c' : coroutine) : Prop := {
  fo_place : in_place c';
  fo_host : c_place c' = c_place c;
  fo_todo : c_todo c' `suffix_of` c_todo c;
}.

Lemma follows_refl c : in_place c -> follows c c.
Proof. by split. Qed.

Lemma follows_trans c1 c2 c3 : follows c1 c2 -> follows c2 c3 -> follows c1 c3.
Proof. intros [_ H1 H2] [? H3 H4]. split; [done|congruence|by transitivity (c_todo c2)]. Qed.

Lemma follows_ids c c' k : follows c c' -> k ∈ ids c' -> k ∈ ids c.
Proof.
  intros [_ Hh [l Hl]] Hk. unfold ids, c_host in *. rewrite Hl, map_app, <- Hh. apply elem_of_app. by right.
Qed.

Definition prefix_claims (n : nat) (c : coroutine) : list (Z * (rw * req)) := map (claim (owner c)) (take n (requests c)).

Lemma prefix_claims_snoc n c lr : requests c !! n = Some lr ->
  prefix_claims (Datatypes.S n) c = prefix_claims n c ++ [claim (owner c) lr].
Proof. intros H. unfold prefix_claims. by rewrite (take_S_r _ _ _ H), map_app. Qed.

Lemma arrive_facts c : 0 <= lr_pos c <= size_ c -> c_todo c <> [] ->
  follows c (arrive c) /\ claims (arrive c) = prefix_claims (Z.to_nat (lr_pos c)) c /\
  acquired (arrive c) = prefix_claims (Z.to_nat (lr_pos c)) c.
Proof.
  intros Hp Ht. unfold arrive, claims, acquired, reach, got, prefix_claims. destruct (Z.ltb_spec (lr_pos c) (size_ c)).
  - split; [|done]. split; [change (0 <= lr_pos c < size_ c); lia|done|done].
  - split; [|done]. split; [change (lr_pos c = size_ c /\ c_todo c <> []); split; [lia|done]|done|done].
Qed.

Lemma begin_facts c : follows c (begin c) /\ claims (begin c) = [] /\ acquired (begin c) = [].
Proof.
  unfold begin. destruct (c_todo c) as [|t ts] eqn:E.
  - split; [by split; cbn|]. unfold claims, acquired, reach, got. cbn. unfold requests. cbn. by rewrite E.
  - set (c0 := Crt _ _ _ _ _ _ _ _). destruct (arrive_facts c0) as (Hf & Hc & Ha); [change (lr_pos c0) with 0; unfold size_; lia|done|].
    rewrite Hc, Ha. split; [|done]. destruct Hf as [? ? Hs]. split; [done|done|]. by rewrite E.
Qed.

Lemma release_from_facts pos c : - 1 <= pos < size_ c ->
  follows c (release_from pos c) /\ claims (release_from pos c) = prefix_claims (Z.to_nat (pos + 1)) c /\
  acquired (release_from pos c) = [].
Proof.
  intros Hp. unfold release_from. destruct (Z.leb_spec 0 pos).
  - split; [split; [change (0 <= pos < size_ c); lia|done|done]|]. split; [|done].
    unfold claims, prefix_claims, reach. cbn. by replace (Z.to_nat (pos + 1)) with (Datatypes.S (Z.to_nat pos)) by lia.
  - unfold finish. set (c0 := Crt _ _ _ _ _ _ _ _). destruct (begin_facts c0) as ([? ? Hs] & -> & ->).
    split; [split; [done|done|]|].
    + transitivity (c_todo c0); [done|]. cbn. destruct (c_todo c); [done|]. by apply suffix_cons_r.
    + unfold prefix_claims. by replace (Z.to_nat (pos + 1)) with 0%nat by lia.
Qed.

Lemma granted_facts c : 0 <= lr_pos c < size_ c ->
  follows c (granted c) /\ claims (granted c) = prefix_claims (Datatypes.S (Z.to_nat (lr_pos c))) c /\
  acquired (granted c) = prefix_claims (Datatypes.S (Z.to_nat (lr_pos c))) c.
Proof.
  intros Hp. unfold granted. set (c0 := Crt _ _ _ _ _ _ _ _).
  replace (Datatypes.S (Z.to_nat (lr_pos c))) with (Z.to_nat (lr_pos c0)) by (change (lr_pos c0) with (lr_pos c + 1); lia).
  destruct (arrive_facts c0) as ([? ? ?] & Hc & Ha); [change (size_ c0) with (size_ c); change (lr_pos c0) with (lr_pos c + 1); lia| |by split].
  cbn. intros E. unfold size_, requests in Hp. rewrite E in Hp. cbn in Hp. lia.
Qed.

Lemma abort_facts c : 0 <= lr_pos c < size_ c ->
  follows c (abort c) /\ claims (abort c) = prefix_claims (Datatypes.S (Z.to_nat (lr_pos c))) c /\ acquired (abort c) = [].
Proof.
  intros Hp. unfold abort, release_all. set (c0 := Crt _ _ _ _ _ _ _ _).
  change (size_ c0) with (size_ c). change (lr_pos c0) with (lr_pos c). rewrite (proj2 (Z.eqb_neq _ _)) by lia.
  destruct (release_from_facts (lr_pos c) c0) as ([? ? ?] & Hc & Ha); [change (size_ c0) with (size_ c); lia|].
  split; [by split|]. split; [|done]. rewrite Hc. by replace (Z.to_nat (lr_pos c + 1)) with (Datatypes.S (Z.to_nat (lr_pos c))) by lia.
Qed.

Lemma current_request c : in_place c -> c_pc c <> Spawned -> c_pc c <> Committed -> c_pc c <> Finished ->
  0 <= lr_pos c < size_ c /\ exists lr, current c = Some lr.
Proof.
  intros Hp H0 H1 H2. assert (Hr : 0 <= lr_pos c < size_ c) by (unfold in_place in Hp; by destruct (c_pc c)).
  split; [done|]. apply lookup_lt_is_Some. unfold size_ in Hr. lia.
Qed.

Lemma claims_prefix c : claims c = prefix_claims (reach c) c.
Proof. done. Qed.

Lemma acquired_prefix c : acquired c = prefix_claims (got c) c.
Proof. done. Qed.

Lemma next_call_some c : in_place c -> c_pc c <> Finished -> exists cl, next_call c = Some cl.
Proof.
  intros Hp Hf. unfold next_call. destruct (decide (c_pc c = Spawned)) as [->|Hs]; [by eexists|].
  destruct (decide (c_pc c = Committed)) as [->|Hc]; [by eexists|].
  destruct (current_request c Hp Hs Hc Hf) as [_ [lr ->]]. destruct (c_pc c); [by eexists..|done].
Qed.

Lemma resume_acquiring c lr ret to : in_place c -> c_pc c = Acquiring -> current c = Some lr ->
  follows c (resume c ret to) /\ acquired c = claims c /\ claims (resume c ret to) = claims c ++ [claim (owner c) lr] /\
  acquired (resume c ret to) = if ret =? 0 then claims c ++ [claim (owner c) lr] else claims c.
Proof.
  intros Hp Hc Hl. destruct (current_request c Hp) as [Hr _]; [by rewrite Hc..|].
  rewrite claims_prefix, acquired_prefix. unfold resume, reach, got. rewrite Hc, <- (prefix_claims_snoc _ _ _ Hl).
  destruct (ret =? 0).
  - by destruct (granted_facts c Hr) as (? & -> & ->).
  - split; [by split|done].
Qed.

Lemma resume_polling c lr ret to : in_place c -> c_pc c = Polling -> current c = Some lr ->
  follows c (resume c ret to) /\ claims (resume c ret to) = claims c /\ claims c = acquired c ++ [claim (owner c) lr] /\
  forall y, y ∈ acquired (resume c ret to) -> y ∈ acquired c \/ ret = 1 /\ y ∈ claims c.
Proof.
  intros Hp Hc Hl. destruct (current_request c Hp) as [Hr _]; [by rewrite Hc..|].
  assert (Hcl : claims c = prefix_claims (Datatypes.S (Z.to_nat (lr_pos c))) c) by (rewrite claims_prefix; unfold reach; by rewrite Hc).
  assert (Ha : acquired c = prefix_claims (Z.to_nat (lr_pos c)) c) by (rewrite acquired_prefix; unfold got; by rewrite Hc).
  assert (E : claims c = acquired c ++ [claim (owner c) lr]) by (rewrite Hcl, Ha; by apply prefix_claims_snoc).
  destruct (abort_facts c Hr) as (Hf1 & Hc1 & Ha1). destruct (granted_facts c Hr) as (Hf2 & Hc2 & Ha2).
  unfold resume. rewrite Hc. destruct (ret =? 2); [|destruct (Z.eqb_spec ret 1); [|destruct to]].
  - rewrite Hc1, Ha1, Hcl. split_and!; [done|done|by rewrite <- Hcl|]. intros y Hy. by apply not_elem_of_nil in Hy.
  - rewrite Hc2, Ha2, Hcl. split_and!; [done|done|by rewrite <- Hcl|]. auto.
  - rewrite Hc1, Ha1, Hcl. split_and!; [done|done|by rewrite <- Hcl|]. intros y Hy. by apply not_elem_of_nil in Hy.
  - split_and!; [by apply follows_refl|done|done|auto].
Qed.

Lemma resume_spawned c ret to : in_place c -> c_pc c = Spawned ->
  follows c (resume c ret to) /\ claims (resume c ret to) = claims c /\ acquired (resume c ret to) = [].
Proof.
  intros Hp Hc. unfold resume. rewrite Hc. destruct (begin_facts c) as (? & -> & ->). split_and!; [done| |done].
  unfold claims, reach. by rewrite Hc.
Qed.

Lemma resume_committed c ret to : in_place c -> c_pc c = Committed ->
  follows c (resume c ret to) /\ claims (resume c ret to) = claims c /\ acquired (resume c ret to) = [].
Proof.
  intros Hp Hc. unfold in_place in Hp. rewrite Hc in Hp. destruct Hp as [Hp _].
  rewrite (claims_prefix c). unfold resume, reach, release_all. rewrite Hc, (proj2 (Z.eqb_eq _ _) Hp).
  destruct (release_from_facts (lr_pos c - 1) c) as (? & -> & ->); [unfold size_ in *; lia|].
  by replace (lr_pos c - 1 + 1) with (lr_pos c) by lia.
Qed.

Lemma resume_releasing c lr ret to : in_place c -> c_pc c = Releasing -> current c = Some lr ->
  follows c (resume c ret to) /\ claims c = claims (resume c ret to) ++ [claim (owner c) lr] /\ acquired (resume c ret to) = [].
Proof.
  intros Hp Hc Hl. destruct (current_request c Hp) as [Hr _]; [by rewrite Hc..|].
  rewrite (claims_prefix c). unfold resume, reach. rewrite Hc, (prefix_claims_snoc _ _ _ Hl).
  destruct (release_from_facts (lr_pos c - 1) c) as (? & -> & ->); [lia|].
  by replace (lr_pos c - 1 + 1) with (lr_pos c) by lia.
Qed.

(** ** How much a coroutine has left to do *)

Definition txn_work (t : transaction) : nat := (3 * length (lock_requests t) + 1)%nat.

(** The calls it makes at most, not counting polls in vain. *)
Definition work (c : coroutine) : nat :=
  (let n := length (requests c) in
   let p := Z.to_nat (lr_pos c) in
   match c_pc c with
   | Acquiring | Committed => 3 * n + 1 - 2 * p
   | Polling => 3 * n - 2 * p
   | Releasing => p + 1
   | Spawned => 1 + list_sum (map txn_work (take 1 (c_todo c)))
   | Finished => 0
   end + list_sum (map txn_work (tail (c_todo c))))%nat.

(** The transactions it has counted, and those it has not begun. *)
Definition counted (c : coroutine) : Z :=
  txn_counter c + abort_cnt c + Z.of_nat (length (c_todo c)) - match c_pc c with Spawned | Finished => 0 | _ => 1 end.

Lemma arrive_work c :
  work (arrive c) = (3 * length (requests c) + 1 - 2 * Z.to_nat (lr_pos c) + list_sum (map txn_work (tail (c_todo c))))%nat /\
  counted (arrive c) = txn_counter c + abort_cnt c + Z.of_nat (length (c_todo c)) - 1.
Proof. unfold arrive. by destruct (lr_pos c <? size_ c). Qed.

Lemma begin_work c :
  work (begin c) = list_sum (map txn_work (c_todo c)) /\
  counted (begin c) = txn_counter c + abort_cnt c + Z.of_nat (length (c_todo c)).
Proof.
  unfold begin. destruct (c_todo c) as [|t ts] eqn:E.
  - unfold work, counted. cbn. rewrite E. cbn. split; lia.
  - set (c0 := Crt _ _ _ _ _ _ _ _). destruct (arrive_work c0) as [-> ->]. cbn. split; unfold txn_work; lia.
Qed.

Lemma release_from_work pos c : - 1 <= pos < size_ c -> c_todo c <> [] ->
  work (release_from pos c) = (Z.to_nat (pos + 1) + list_sum (map txn_work (tail (c_todo c))))%nat /\
  counted (release_from pos c) = txn_counter c + abort_cnt c + Z.of_nat (length (c_todo c)) - 1.
Proof.
  intros Hp Ht. unfold release_from. destruct (Z.leb_spec 0 pos).
  - split; [|done]. unfold work. cbn. f_equal. lia.
  - unfold finish. set (c0 := Crt _ _ _ _ _ _ _ _). destruct (begin_work c0) as [-> ->]. cbn.
    replace (Z.to_nat (pos + 1)) with 0%nat by lia. split; [done|]. destruct (c_todo c); [done|]. cbn. lia.
Qed.

Lemma resume_work c ret to : in_place c -> c_pc c <> Finished ->
  counted (resume c ret to) = counted c /\ ((work (resume c ret to) < work c)%nat \/ resume c ret to = c /\ to = false).
Proof.
  intros Hp Hf. destruct (decide (c_pc c = Spawned)) as [Hsp|Hsp].
  { unfold resume. rewrite Hsp. destruct (begin_work c) as [-> ->]. unfold work, counted. rewrite Hsp. split; [lia|]. left.
    destruct (c_todo c); cbn [tail take map]; rewrite ?list_sum_cons; cbn; lia. }
  assert (Ht : c_todo c <> []).
  { unfold in_place, size_, requests in Hp. destruct (c_todo c); [|done]. destruct (c_pc c); cbn in Hp; (done || lia || tauto). }
  assert (Ec : counted c = txn_counter c + abort_cnt c + Z.of_nat (length (c_todo c)) - 1).
  { unfold counted. by destruct (c_pc c). }
  assert (Hgr : 0 <= lr_pos c < size_ c -> counted (granted c) = counted c /\ (work (granted c) < 3 * length (requests c) - 2 * Z.to_nat (lr_pos c) + list_sum (map txn_work (tail (c_todo c))))%nat).
  { intros Hr. unfold granted. set (c0 := Crt _ _ _ _ _ _ _ _). destruct (arrive_work c0) as [-> ->].
    change (requests c0) with (requests c). change (lr_pos c0) with (lr_pos c + 1). unfold size_ in Hr. rewrite Ec. cbn. split; lia. }
  assert (Hab : 0 <= lr_pos c < size_ c -> counted (abort c) = counted c /\ (work (abort c) < 3 * length (requests c) - 2 * Z.to_nat (lr_pos c) + list_sum (map txn_work (tail (c_todo c))))%nat).
  { intros Hr. unfold abort, release_all. set (c0 := Crt _ _ _ _ _ _ _ _).
    change (size_ c0) with (size_ c). change (lr_pos c0) with (lr_pos c). rewrite (proj2 (Z.eqb_neq _ _)) by lia.
    destruct (release_from_work (lr_pos c) c0) as [-> ->]; [change (size_ c0) with (size_ c); lia|done|].
    rewrite Ec. unfold size_ in Hr. cbn. split; lia. }
  unfold resume, in_place in *. unfold work at 2. destruct (c_pc c) eqn:Hpc; [done| | | | |done].
  - destruct (ret =? 0); [destruct (Hgr Hp); split; [done|left; lia]|].
    split; [rewrite Ec; done|]. left. unfold work, size_ in *. cbn. unfold requests in *. cbn. lia.
  - destruct (ret =? 2); [by destruct (Hab Hp); auto|]. destruct (ret =? 1); [by destruct (Hgr Hp); auto|].
    destruct to; [by destruct (Hab Hp); auto|auto].
  - destruct Hp as [Hp _]. unfold release_all. rewrite (proj2 (Z.eqb_eq _ _) Hp).
    destruct (release_from_work (lr_pos c - 1) c) as [-> ->]; [unfold size_ in *; lia|done|].
    split; [done|]. left. unfold size_ in Hp. lia.
  - destruct (release_from_work (lr_pos c - 1) c) as [-> ->]; [lia|done|]. split; [done|]. left. lia.
Qed.

(** Coroutines by host, with their transactions. *)
Abbreviation programs := (list (place * list transaction)).

(** No two coroutines execute transactions of the same requester. *)
Definition apart (cs : list coroutine) : Prop :=
  forall i j ci cj k, cs !! i = Some ci -> cs !! j = Some cj -> k ∈ ids ci -> k ∈ ids cj -> i = j.

Lemma owner_ids c lock x : (lock, x) ∈ claims c -> x.2 = owner c /\ owner c ∈ ids c.
Proof.
  intros H. unfold claims in H. apply list_elem_of_fmap in H as (lr & [= -> ->] & Hl). split; [done|].
  apply elem_of_take in Hl as (n & Hn & _). unfold requests in Hn. unfold owner, ids.
  destruct (c_todo c) as [|t ts]; [done|]. by left.
Qed.

Lemma acquired_claims c y : y ∈ acquired c -> y ∈ claims c.
Proof.
  unfold acquired, claims. intros Hy. apply list_elem_of_fmap in Hy as (lr & -> & Hx). apply list_elem_of_fmap. exists lr.
  split; [done|]. apply elem_of_take in Hx as (n & Hn & Hlt). apply elem_of_take. exists n. split; [done|].
  unfold got, reach in *. destruct (c_pc c); lia.
Qed.

Lemma NoDup_concat_same {A} (ls : list (list A)) i j l1 l2 x :
  NoDup (concat ls) -> ls !! i = Some l1 -> ls !! j = Some l2 -> x ∈ l1 -> x ∈ l2 -> i = j.
Proof.
  revert i j. induction ls as [|l ls IH]; intros i j HN Hi Hj H1 H2; [done|]. cbn [concat] in HN.
  apply list.NoDup_app in HN as (_ & Hd & HN).
  assert (Hin : forall k l', ls !! k = Some l' -> x ∈ l' -> x ∈ concat ls).
  { intros k l' Hk Hx. apply list_elem_of_In, in_concat. exists l'. split; apply list_elem_of_In; [by eapply list_elem_of_lookup_2|done]. }
  destruct i as [|i], j as [|j]; cbn in Hi, Hj; simplify_eq; [done|..].
  - exfalso. by eapply Hd, Hin.
  - exfalso. by eapply Hd, Hin.
  - f_equal. by eapply IH.
Qed.

Section interface.
Context {S : Type} `{lib : Handles} (impl : Z -> RwLockImpl S) (good : Z -> Prop).
Context (laws : forall lock, good lock -> @RwLockLaws S (impl lock)).
Context (Hwithdraw : forall lock, good lock -> @impl_withdraw S (impl lock) = true).

(** A request the manager of its lock can represent. *)
Definition good_request (r : req) (lr : lock_request) : Prop :=
  good (lock_id lr) /\ is_Some (rw_of_ls (op_of_type (lock_type lr))) /\
  forall o, @impl_valid S (impl (lock_id lr)) (Acq o r) /\ @impl_valid S (impl (lock_id lr)) (Rel o r).

(** A transaction requests each lock once. *)
Definition txn_fits (host : Z) (t : transaction) : Prop :=
  NoDup (map lock_id (lock_requests t)) /\
  Forall (fun lr => txn_id lr = t_id t /\ good_request (host, t_id t) lr) (lock_requests t).

Definition fits (c : coroutine) : Prop := in_place c /\ Forall (txn_fits (c_host c)) (c_todo c).

Lemma fits_follows c c' : fits c -> follows c c' -> fits c'.
Proof using.
  intros [_ HF] [Hp Hh [l Hl]]. split; [done|]. rewrite Hl in HF. unfold c_host in *. rewrite Hh. by apply Forall_app in HF as [_ ?].
Qed.

Lemma fits_current c lr : fits c -> current c = Some lr -> txn_id lr = (owner c).2 /\ good_request (owner c) lr.
Proof using.
  intros [_ HF] Hl. unfold current, requests, owner in *. destruct (c_todo c) as [|t ts]; [done|].
  apply list.Forall_cons in HF as [[_ HF] _]. apply (Forall_lookup_1 _ _ _ _ HF Hl).
Qed.

Lemma prefix_keys n c : fits c -> NoDup (map fst (prefix_claims n c)).
Proof using.
  intros [_ HF]. unfold prefix_claims, requests. rewrite map_map. destruct (c_todo c) as [|t ts]; [rewrite take_nil; constructor|].
  apply list.Forall_cons in HF as [[HN _] _]. change (map (fun lr => (claim (owner c) lr).1)) with (map lock_id).
  rewrite <- (take_drop n (lock_requests t)), map_app in HN. by apply list.NoDup_app in HN as [? _].
Qed.

(** A coroutine claims a lock in one mode. *)
Lemma claims_fun n c lock x y : fits c -> (lock, x) ∈ prefix_claims n c -> (lock, y) ∈ prefix_claims n c -> x = y.
Proof using.
  intros Hc Hx Hy. pose proof (prefix_keys n c Hc) as HN.
  apply list_elem_of_lookup in Hx as [i Hi]. apply list_elem_of_lookup in Hy as [j Hj].
  assert (i = j).
  { apply (NoDup_lookup _ i j lock HN); change (@map (Z * (rw * req)) Z) with (@fmap list _ (Z * (rw * req)) Z);
      rewrite list_lookup_fmap; [by rewrite Hi|by rewrite Hj]. }
  subst j. congruence.
Qed.

Definition sim (s : service) (A : Z -> spec) : Prop :=
  forall lock (G : good lock), @impl_rel S (impl lock) (laws lock G) (managers s lock) (A lock) /\
    spec_wf (A lock) /\ views s lock = view_of (A lock).

Record binv (b : bench) (A : Z -> spec) : Prop := {
  bi_sim : sim (svc b) A;
  bi_fits : forall i c, crts b !! i = Some c -> fits c;
  bi_apart : apart (crts b);
  bi_claims : forall lock x, good lock ->
    x ∈ claimed (view_of (A lock)) <-> exists i c, crts b !! i = Some c /\ (lock, x) ∈ claims c;
  bi_acquired : forall i c lock x, crts b !! i = Some c -> (lock, x) ∈ acquired c -> waits lock x.2.2 ->
    x ∈ v_held (view_of (A lock));
}.

Lemma binv_update b A A' s' i c c' :
  binv b A -> crts b !! i = Some c -> follows c c' -> sim s' A' ->
  (forall lock x, good lock -> x ∈ claimed (view_of (A' lock)) <->
     x ∈ claimed (view_of (A lock)) /\ (lock, x) ∉ claims c \/ (lock, x) ∈ claims c') ->
  (forall lock x, x ∈ v_held (view_of (A lock)) -> (lock, x) ∉ claims c -> x ∈ v_held (view_of (A' lock))) ->
  (forall lock x, (lock, x) ∈ acquired c' -> waits lock x.2.2 -> x ∈ v_held (view_of (A' lock))) ->
  binv (Bench (<[i := c']> (crts b)) s') A'.
Proof using.
  intros HI Hi Hf Hs Hcl Hheld Hacq. pose proof (lookup_lt_Some _ _ _ Hi) as Hlt.
  assert (Hother : forall j cj lock x, j <> i -> crts b !! j = Some cj -> (lock, x) ∈ claims cj -> (lock, x) ∉ claims c).
  { intros j cj lock x Hne Hj Hx Hx'. apply owner_ids in Hx as [E1 H1]. apply owner_ids in Hx' as [E2 H2].
    apply Hne. apply (bi_apart _ _ HI j i cj c x.2); congruence. }
  split; cbn [crts svc].
  - done.
  - intros j cj Hj. apply list_lookup_insert_Some in Hj as [(-> & <- & _)|[_ Hj]]; [|by apply (bi_fits _ _ HI j)].
    eapply fits_follows; [|exact Hf]. by eapply (bi_fits _ _ HI).
  - intros j1 j2 c1 c2 k H1 H2 K1 K2.
    apply list_lookup_insert_Some in H1 as [(<- & <- & _)|[N1 H1]], H2 as [(<- & <- & _)|[N2 H2]]; [done|..].
    + apply (follows_ids _ _ _ Hf) in K1. by apply (bi_apart _ _ HI i j2 c c2 k).
    + apply (follows_ids _ _ _ Hf) in K2. by apply (bi_apart _ _ HI j1 i c1 c k).
    + by apply (bi_apart _ _ HI j1 j2 c1 c2 k).
  - intros lock x G. rewrite Hcl, (bi_claims _ _ HI) by done. split.
    + intros [[(j & cj & Hj & Hx) Hn]|Hx]; [|exists i, c'; by rewrite list_lookup_insert_eq].
      exists j, cj. rewrite list_lookup_insert_ne; [done|]. intros ->. by simplify_eq.
    + intros (j & cj & Hj & Hx). apply list_lookup_insert_Some in Hj as [(-> & <- & _)|[Hne Hj]]; [by right|].
      left. split; [by exists j, cj|]. by apply (Hother j cj).
  - intros j cj lock x Hj Hx Hw. apply list_lookup_insert_Some in Hj as [(-> & <- & _)|[Hne Hj]]; [by apply Hacq|].
    apply Hheld; [by apply (bi_acquired _ _ HI j cj)|]. apply (Hother j cj); [done|done|].
    by apply acquired_claims.
Qed.

Lemma serve_ok s A lock e (G : good lock) :
  sim s A -> @impl_valid S (impl lock) e -> permitted true e (view_of (A lock)) ->
  exists s', serve impl lock e s = Ok s' /\ sim s' (<[lock := (spec_step e (A lock)).1]> A).
Proof using Hwithdraw.
  intros Hs Hv HP. destruct (Hs lock G) as (HR & Hwf & Ev). pose proof HP as HP'. rewrite <- (Hwithdraw lock G) in HP'.
  destruct (@impl_rel_step S (impl lock) (laws lock G) e _ _ HR Hwf Hv HP') as (m & E & _).
  unfold serve. rewrite E. cbn [mbind result_bind]. eexists. split; [done|].
  intros l G'. cbn [managers views]. destruct (decide (l = lock)) as [->|Hne].
  - rewrite !fn_lookup_insert, Ev. split_and!; [|by eapply spec_step_wf|by eapply view_of_step].
    destruct (Hs lock G') as (HR' & _).
    destruct (@impl_rel_step S (impl lock) (laws lock G') e _ _ HR' Hwf Hv HP') as (m' & E' & HR''). congruence.
  - rewrite !fn_lookup_insert_ne by done. apply Hs.
Qed.

(** *** One call *)

Section call.
Context (b : bench (S := S)) (A : Z -> spec) (i : nat) (c : coroutine).
Context (HI : binv b A) (Hi : crts b !! i = Some c).

Lemma claimed_own lock x : (lock, x) ∈ claims c -> good lock /\ x ∈ claimed (view_of (A lock)).
Proof using HI Hi.
  intros Hx. assert (G : good lock); [|split; [done|]; apply (bi_claims _ _ HI _ _ G); by exists i, c].
  pose proof (bi_fits _ _ HI i c Hi) as [_ HF]. unfold claims, requests in Hx. apply list_elem_of_fmap in Hx as (lr & [= -> _] & Hx).
  destruct (c_todo c) as [|t ts]; [rewrite take_nil in Hx; by apply not_elem_of_nil in Hx|].
  apply list.Forall_cons in HF as [[_ HF] _]. apply elem_of_take in Hx as (n & Hn & _).
  by destruct (Forall_lookup_1 _ _ _ _ HF Hn) as [_ [? _]].
Qed.

(** What the managers know of the owner, the coroutine claims. *)
Lemma claimed_by lock x : good lock -> x ∈ claimed (view_of (A lock)) -> x.2 = owner c -> owner c ∈ ids c -> (lock, x) ∈ claims c.
Proof using HI Hi.
  intros G Hx Eo Hids. apply (bi_claims _ _ HI _ _ G) in Hx as (j & cj & Hj & Hx).
  pose proof (owner_ids _ _ _ Hx) as [E1 H1].
  assert (j = i) as -> by (apply (bi_apart _ _ HI j i cj c (owner c)); congruence). congruence.
Qed.

Lemma owner_id lr : current c = Some lr -> owner c ∈ ids c.
Proof using.
  unfold current, requests, owner, ids. destruct (c_todo c) as [|t ts]; [done|]. intros _. by left.
Qed.

Lemma request_event lr : current c = Some lr ->
  (c_host c, txn_id lr) = owner c /\ good (lock_id lr) /\ rw_of_ls (op_of_type (lock_type lr)) = Some (mode lr) /\
  forall o, @impl_valid S (impl (lock_id lr)) (Acq o (owner c)) /\ @impl_valid S (impl (lock_id lr)) (Rel o (owner c)).
Proof using HI Hi.
  intros Hl. destruct (fits_current c lr (bi_fits _ _ HI i c Hi) Hl) as (E & G & [o Ho] & Hv).
  split; [rewrite E; by unfold owner|]. split; [done|]. split; [|done]. unfold mode. by rewrite Ho.
Qed.

Lemma acquire_fresh lr : c_pc c = Acquiring -> current c = Some lr -> forall x, (lock_id lr, x) ∉ claims c.
Proof using HI Hi.
  intros Hpc Hl x Hx. pose proof (bi_fits _ _ HI i c Hi) as Hfit. destruct Hfit as [Hp _].
  destruct (resume_acquiring c lr 1 false Hp Hpc Hl) as (Hf & _ & Hsn & _).
  assert (HN : NoDup (map fst (claims c ++ [claim (owner c) lr]))).
  { rewrite <- Hsn. apply prefix_keys. eapply fits_follows; [by eapply (bi_fits _ _ HI)|done]. }
  rewrite map_app in HN. apply list.NoDup_app in HN as (_ & HN & _).
  apply (HN (lock_id lr)); [|by left]. apply list_elem_of_fmap. by exists (lock_id lr, x).
Qed.

Lemma step_acquiring lr told to : c_pc c = Acquiring -> current c = Some lr ->
  exists ret s' A', perform impl (c_host c) told (LockAcquireAsync (lock_id lr) (txn_id lr) (op_of_type (lock_type lr))) (svc b) = Ok (ret, s') /\
    binv (Bench (<[i := resume c ret to]> (crts b)) s') A'.
Proof using HI Hi Hwithdraw.
  intros Hpc Hl. destruct (request_event lr Hl) as (Eo & G & Em & Hv). pose proof (bi_fits _ _ HI i c Hi) as [Hp _].
  pose proof (acquire_fresh lr Hpc Hl) as Hfresh.
  assert (HP : permitted true (Acq (mode lr) (owner c)) (view_of (A (lock_id lr)))).
  { intros o' Hx. apply (Hfresh (o', owner c)). by apply claimed_by; [..|eapply owner_id]. }
  destruct (serve_ok (svc b) A _ _ G (bi_sim _ _ HI) (proj1 (Hv (mode lr))) HP) as (s' & Es & Hs').
  cbn [perform]. rewrite Em, Eo, Es. cbn [mbind result_bind].
  set (ret := handle (lock_id lr) (txn_id lr) (told && bool_decide ((mode lr, owner c) ∈ v_held (views s' (lock_id lr))))).
  exists ret, s', (<[lock_id lr := (spec_step (Acq (mode lr) (owner c)) (A (lock_id lr))).1]> A). split; [done|].
  destruct (resume_acquiring c lr ret to Hp Hpc Hl) as (Hf & Ha & Hc' & Ha').
  destruct (bi_sim _ _ HI _ G) as (_ & Hwf & _).
  assert (Hheld : forall l x, x ∈ v_held (view_of (A l)) ->
    x ∈ v_held (view_of ((<[lock_id lr := (spec_step (Acq (mode lr) (owner c)) (A (lock_id lr))).1]> A) l))).
  { intros l x Hx. destruct (decide (l = lock_id lr)) as [->|Hne]; [|by rewrite fn_lookup_insert_ne].
    rewrite fn_lookup_insert. by apply (held_step true). }
  apply (binv_update b A _ s' i c _ HI Hi Hf Hs'); [|by auto|].
  - intros l x Gl. rewrite Hc', elem_of_app, list_elem_of_singleton.
    pose proof (claimed_own l x) as Hown. destruct (decide ((l, x) ∈ claims c)) as [Hx|Hx];
      destruct (decide (l = lock_id lr)) as [->|Hne].
    + by apply Hfresh in Hx.
    + rewrite fn_lookup_insert_ne by done. tauto.
    + rewrite fn_lookup_insert, (claimed_acquire true) by done. unfold claim. split; [|intros [[? _]|[?|[= ->]]]; auto; done].
      intros [->|?]; [by right; right|by left].
    + rewrite fn_lookup_insert_ne by done. unfold claim. split; [tauto|]. intros [[? _]|[?|[= E _]]]; [done|done|congruence].
  - intros l x. rewrite Ha'. intros Hx Hw. assert (Hin : (l, x) ∈ claims c \/ ret = 0 /\ (l, x) = claim (owner c) lr).
    { destruct (Z.eqb_spec ret 0); [|by left]. apply elem_of_app in Hx as [?|?%list_elem_of_singleton]; auto. }
    destruct Hin as [Hin|[Er [= -> ->]]]; [apply Hheld; apply (bi_acquired _ _ HI i c); [done|by rewrite Ha|done]|].
    destruct (Hs' _ G) as (_ & _ & <-). unfold ret in Er. change (waits (lock_id lr) (owner c).2) in Hw.
    rewrite <- Eo in Hw. unfold waits in Hw. destruct told; [|done]. cbn [andb] in Er. by case_bool_decide.
Qed.

(** Nothing changes at the managers. *)
Lemma step_locally c' : follows c c' -> claims c' = claims c ->
  (forall lock x, (lock, x) ∈ acquired c' -> waits lock x.2.2 -> x ∈ v_held (view_of (A lock))) ->
  binv (Bench (<[i := c']> (crts b)) (svc b)) A.
Proof using HI Hi.
  intros Hf Hc Ha. apply (binv_update b A A (svc b) i c c' HI Hi Hf (bi_sim _ _ HI)); [|auto..].
  intros l x G. rewrite Hc. split; [|by intros [[? _]|?%claimed_own]; tauto].
  intros Hx. destruct (decide ((l, x) ∈ claims c)); tauto.
Qed.

Lemma step_polling lr told to : c_pc c = Polling -> current c = Some lr ->
  exists ret, perform impl (c_host c) told (LockReqGranted (lock_id lr) (txn_id lr)) (svc b) = Ok (ret, svc b) /\
    binv (Bench (<[i := resume c ret to]> (crts b)) (svc b)) A.
Proof using HI Hi.
  intros Hpc Hl. destruct (request_event lr Hl) as (Eo & G & _ & _). pose proof (bi_fits _ _ HI i c Hi) as Hfit.
  destruct (bi_sim _ _ HI _ G) as (_ & _ & Ev). cbn [perform]. rewrite Eo, Ev.
  set (ret := if told && (bool_decide ((Shared, owner c) ∈ v_held (view_of (A (lock_id lr)))) ||
                          bool_decide ((Excl, owner c) ∈ v_held (view_of (A (lock_id lr))))) then 1 else 0).
  exists ret. split; [done|]. destruct (resume_polling c lr ret to (proj1 Hfit) Hpc Hl) as (Hf & Hc & Hsn & Ha).
  apply step_locally; [done|done|]. intros l x Hx Hw. destruct (Ha _ Hx) as [Hin|[Er Hin]].
  { by apply (bi_acquired _ _ HI i c). }
  rewrite Hsn in Hin. apply elem_of_app in Hin as [Hin|[= -> ->]%list_elem_of_singleton]; [by apply (bi_acquired _ _ HI i c)|].
  assert (Hg : exists o, (o, owner c) ∈ v_held (view_of (A (lock_id lr)))).
  { unfold ret in Er. destruct told; [|done]. cbn [andb] in Er.
    destruct (bool_decide_reflect ((Shared, owner c) ∈ v_held (view_of (A (lock_id lr))))); [eauto|].
    destruct (bool_decide_reflect ((Excl, owner c) ∈ v_held (view_of (A (lock_id lr))))); [eauto|done]. }
  destruct Hg as [o Ho].
  assert (Hcl : (lock_id lr, (o, owner c)) ∈ claims c).
  { apply claimed_by; [done|by apply elem_of_union_l|done|by eapply owner_id]. }
  rewrite claims_prefix in *. assert (Hself : claim (owner c) lr ∈ prefix_claims (reach c) c) by (rewrite Hsn; apply elem_of_app; right; by left).
  by rewrite (claims_fun (reach c) c _ _ _ Hfit Hself Hcl).
Qed.

Lemma step_alone to : c_pc c = Spawned \/ c_pc c = Committed -> binv (Bench (<[i := resume c 0 to]> (crts b)) (svc b)) A.
Proof using HI Hi.
  intros Hpc. pose proof (proj1 (bi_fits _ _ HI i c Hi)) as Hp.
  assert (H : follows c (resume c 0 to) /\ claims (resume c 0 to) = claims c /\ acquired (resume c 0 to) = [])
    by (destruct Hpc; [by apply resume_spawned|by apply resume_committed]).
  destruct H as (Hf & Hc & Ha). apply step_locally; [done|done|]. intros l x. rewrite Ha. intros Hx. by apply not_elem_of_nil in Hx.
Qed.

Lemma step_releasing lr told to : c_pc c = Releasing -> current c = Some lr ->
  exists s' A', perform impl (c_host c) told (LockRelease (lock_id lr) (txn_id lr) (op_of_type (lock_type lr))) (svc b) = Ok (0, s') /\
    binv (Bench (<[i := resume c 0 to]> (crts b)) s') A'.
Proof using HI Hi Hwithdraw.
  intros Hpc Hl. destruct (request_event lr Hl) as (Eo & G & Em & Hv). pose proof (bi_fits _ _ HI i c Hi) as Hfit.
  destruct (resume_releasing c lr 0 to (proj1 Hfit) Hpc Hl) as (Hf & Hsn & Ha).
  assert (Hself : claim (owner c) lr ∈ claims c) by (rewrite Hsn; apply elem_of_app; right; by left).
  destruct (claimed_own _ _ Hself) as [_ Hin].
  assert (HP : permitted true (Rel (mode lr) (owner c)) (view_of (A (lock_id lr)))).
  { apply elem_of_union in Hin as [Hin|Hin]; [by left|by right]. }
  destruct (serve_ok (svc b) A _ _ G (bi_sim _ _ HI) (proj2 (Hv (mode lr))) HP) as (s' & Es & Hs').
  cbn [perform]. rewrite Em, Eo, Es. cbn [mbind result_bind].
  eexists s', _. split; [done|]. destruct (bi_sim _ _ HI _ G) as (_ & Hwf & _).
  assert (Hgone : forall x, (lock_id lr, x) ∉ claims (resume c 0 to)).
  { intros x Hx. pose proof (prefix_keys (reach c) c Hfit) as HN. rewrite <- claims_prefix, Hsn, map_app in HN.
    apply list.NoDup_app in HN as (_ & HN & _). apply (HN (lock_id lr)); [|by left].
    apply list_elem_of_fmap. by exists (lock_id lr, x). }
  apply (binv_update b A _ s' i c _ HI Hi Hf Hs').
  - intros l x Gl. rewrite Hsn, elem_of_app, list_elem_of_singleton. pose proof (claimed_own l x) as Hown.
    rewrite Hsn, elem_of_app, list_elem_of_singleton in Hown. destruct (decide (l = lock_id lr)) as [->|Hne].
    + rewrite fn_lookup_insert, (claimed_release true) by done. pose proof (Hgone x). unfold claim in *. split.
      * intros [Hx Hin']. left. split; [done|]. intros [?|[= ->]]; done.
      * intros [[? Hn]|?]; [|done]. split; [|done]. intros ->. apply Hn. by right.
    + rewrite fn_lookup_insert_ne by done. unfold claim in *. destruct (decide ((l, x) ∈ claims (resume c 0 to))); [tauto|].
      split; [|tauto]. intros Hx. left. split; [done|]. intros [?|[= ? _]]; done.
  - intros l x Hx Hn. destruct (decide (l = lock_id lr)) as [->|Hne]; [|by rewrite fn_lookup_insert_ne].
    rewrite fn_lookup_insert. apply (held_step true); [done..|]. intros ->. by apply Hn.
  - intros l x. rewrite Ha. intros Hx. by apply not_elem_of_nil in Hx.
Qed.
End call.

Lemma bench_step_inv b A l : binv b A -> exists b' A', bench_step impl l b = Ok b' /\ binv b' A'.
Proof using Hwithdraw.
  intros HI. unfold bench_step. destruct (crts b !! t_crt l) as [c|] eqn:Hi; [|by exists b, A].
  pose proof (bi_fits _ _ HI _ c Hi) as [Hp _]. unfold next_call.
  destruct (stopped (crts b) c); [by exists b, A|].
  destruct (c_pc c) eqn:Hpc; [..|by exists b, A].
  2, 3, 5: destruct (current_request c Hp) as [_ [lr Hl]]; [by rewrite Hpc..|]; rewrite Hl; cbn [mbind option_bind].
  - cbn [perform mbind result_bind]. eexists _, A. split; [done|]. apply (step_alone b A _ c HI Hi). by left.
  - destruct (step_acquiring b A _ c HI Hi lr (t_told l) (t_timeout l) Hpc Hl) as (ret & s' & A' & E & HI').
    rewrite E. cbn [mbind result_bind]. eauto.
  - destruct (step_polling b A _ c HI Hi lr (t_told l) (t_timeout l) Hpc Hl) as (ret & E & HI').
    rewrite E. cbn [mbind result_bind]. eauto.
  - destruct (step_releasing b A _ c HI Hi lr (t_told l) (t_timeout l) Hpc Hl) as (s' & A' & E & HI').
    rewrite E. cbn [mbind result_bind]. eauto.
  - cbn [perform mbind result_bind]. eexists _, A. split; [done|]. apply (step_alone b A _ c HI Hi). by right.
Qed.

Lemma bench_run_inv ls b A : binv b A -> exists b' A', bench_run impl ls b = Ok b' /\ binv b' A'.
Proof using Hwithdraw.
  revert b A. induction ls as [|l ls IH]; intros b A HI; [by exists b, A|]. cbn [bench_run].
  destruct (bench_step_inv b A l HI) as (b1 & A1 & -> & HI1). by apply (IH b1 A1).
Qed.

(** *** Runs *)

Definition bench_work (b : bench (S := S)) : nat := list_sum (map work (crts b)).

Lemma bench_step_crts l b b' : bench_step impl l b = Ok b' ->
  crts b' = crts b \/ exists c ret, crts b !! t_crt l = Some c /\ c_pc c <> Finished /\
    crts b' = <[t_crt l := resume c ret (t_timeout l)]> (crts b).
Proof using.
  unfold bench_step. destruct (crts b !! t_crt l) as [c|]; [|intros [= <-]; by left].
  destruct (stopped (crts b) c); [intros [= <-]; by left|].
  destruct (next_call c) as [cl|] eqn:En; [|intros [= <-]; by left].
  destruct (perform _ _ _ _ _) as [[ret s]|]; cbn [mbind result_bind]; [|done]. intros [= <-]. right.
  exists c, ret. split_and!; [done| |done]. intros E. unfold next_call in En. by rewrite E in En.
Qed.

(** The calls of a run that are not polls in vain. *)
Fixpoint moves (ls : list tick) (b : bench) : nat :=
  match ls with
  | [] => 0
  | l :: ls =>
      match bench_step impl l b with
      | Ok b' => ((if decide (crts b' = crts b) then 0 else 1) + moves ls b')%nat
      | Fault _ => 0
      end
  end.

Lemma step_moves l b A b' : binv b A -> bench_step impl l b = Ok b' ->
  crts b' = crts b \/ (bench_work b' < bench_work b)%nat.
Proof using.
  intros HI E. destruct (bench_step_crts _ _ _ E) as [?|(c & ret & Hi & Hf & Ec)]; [by left|].
  pose proof (proj1 (bi_fits _ _ HI _ c Hi)) as Hp. unfold bench_work. rewrite Ec.
  destruct (resume_work c ret (t_timeout l) Hp Hf) as [_ [Hw|[Hw _]]].
  - right. pose proof (list_sum_insert work _ _ _ (resume c ret (t_timeout l)) Hi). lia.
  - left. rewrite Hw. by apply list_insert_id.
Qed.

Lemma moves_bounded ls b A : binv b A -> (moves ls b <= bench_work b)%nat.
Proof using Hwithdraw.
  revert b A. induction ls as [|l ls IH]; intros b A HI; cbn [moves]; [lia|].
  destruct (bench_step_inv b A l HI) as (b' & A' & E & HI'). rewrite E. specialize (IH b' A' HI').
  destruct (step_moves l b A b' HI E) as [Hs|Hlt].
  - rewrite decide_True by done. unfold bench_work in *. rewrite <- Hs. lia.
  - case_decide; lia.
Qed.

Lemma bench_step_progress i c b A b' : binv b A -> crts b !! i = Some c -> stopped (crts b) c = false -> c_pc c <> Finished ->
  bench_step impl (Tick i false true) b = Ok b' -> (bench_work b' < bench_work b)%nat.
Proof using.
  intros HI Hi Hs Hf E. pose proof (proj1 (bi_fits _ _ HI _ c Hi)) as Hp. unfold bench_step in E. cbn [t_crt t_told t_timeout] in E.
  rewrite Hi, Hs in E. destruct (next_call_some c Hp Hf) as [cl Ecl]. rewrite Ecl in E.
  destruct (perform _ _ _ _ _) as [[ret s]|]; cbn [mbind result_bind] in E; [|done]. injection E as <-.
  destruct (resume_work c ret true Hp Hf) as [_ [Hw|[_ ?]]]; [|done].
  unfold bench_work. cbn [crts]. pose proof (list_sum_insert work _ _ _ (resume c ret true) Hi). lia.
Qed.

(** With timeouts only the end and a stopped scheduler stop a coroutine. *)
Lemma bench_stuck b A : binv b A -> (forall l b', bench_step impl l b = Ok b' -> crts b' = crts b) ->
  forall i c, crts b !! i = Some c -> c_pc c = Finished \/ stopped (crts b) c = true.
Proof using Hwithdraw.
  intros HI Hst i c Hi. destruct (stopped (crts b) c) eqn:Hs; [by right|]. left.
  destruct (decide (c_pc c = Finished)) as [|Hf]; [done|]. exfalso.
  destruct (bench_step_inv b A (Tick i false true) HI) as (b' & A' & E & _).
  pose proof (bench_step_progress i c b A b' HI Hi Hs Hf E) as Hlt. unfold bench_work in Hlt. rewrite (Hst _ _ E) in Hlt. lia.
Qed.

(** *** The benchmark *)

Definition program_ids (p : place * list transaction) : list req := map (fun t => (p_host p.1, t_id t)) p.2.

Definition programs_ok (ps : programs) : Prop :=
  Forall (fun p => Forall (txn_fits (p_host p.1)) p.2) ps /\ NoDup (concat (map program_ids ps)).

Definition coroutines (ps : programs) : list coroutine := map (fun p => start p.1 p.2) ps.

Lemma lookup_coroutines ps i c : coroutines ps !! i = Some c -> exists p, ps !! i = Some p /\ c = start p.1 p.2.
Proof using.
  unfold coroutines. change (@map (place * list transaction) coroutine) with (@fmap list _ (place * list transaction) coroutine).
  rewrite list_lookup_fmap. intros (p & Hp & ->)%fmap_Some. by exists p.
Qed.

Lemma start_facts pl txns : in_place (start pl txns) /\ claims (start pl txns) = [] /\ acquired (start pl txns) = [] /\
  c_host (start pl txns) = p_host pl /\ c_todo (start pl txns) = txns /\ counted (start pl txns) = Z.of_nat (length txns).
Proof using. split_and!; try done. unfold counted. cbn. lia. Qed.

Lemma binv_init ps : programs_ok ps -> binv (bench_init impl (coroutines ps)) (fun _ => spec_init).
Proof using.
  intros [HF HN]. split; cbn [bench_init crts svc].
  - intros lock G. split_and!; [apply impl_rel_init|apply spec_wf_init|reflexivity].
  - intros i c Hc. apply lookup_coroutines in Hc as (p & Hp & ->).
    destruct (start_facts p.1 p.2) as (? & _ & _ & Eh & Et & _). split; [done|]. rewrite Eh, Et.
    by apply (Forall_lookup_1 _ _ _ _ HF Hp).
  - intros i j ci cj k Hi Hj Ki Kj. apply lookup_coroutines in Hi as (p & Hp & ->). apply lookup_coroutines in Hj as (q & Hq & ->).
    apply (NoDup_concat_same (map program_ids ps) i j (program_ids p) (program_ids q) k HN).
    1, 2: change (@map (place * list transaction) (list req)) with (@fmap list _ (place * list transaction) (list req));
      rewrite list_lookup_fmap; first [by rewrite Hp|by rewrite Hq].
    + destruct (start_facts p.1 p.2) as (_ & _ & _ & E1 & E2 & _). unfold ids in Ki. by rewrite E1, E2 in Ki.
    + destruct (start_facts q.1 q.2) as (_ & _ & _ & E1 & E2 & _). unfold ids in Kj. by rewrite E1, E2 in Kj.
  - intros lock x G. split; [|intros (i & c & Hc & Hx)].
    + by intros [H|H]%elem_of_union; apply elem_of_empty in H.
    + apply lookup_coroutines in Hc as (p & _ & ->). destruct (start_facts p.1 p.2) as (_ & E & _). rewrite E in Hx. by apply not_elem_of_nil in Hx.
  - intros i c lock x Hc Hx. apply lookup_coroutines in Hc as (p & _ & ->).
    destruct (start_facts p.1 p.2) as (_ & _ & E & _). rewrite E in Hx. by apply not_elem_of_nil in Hx.
Qed.

(** Grants of different coroutines agree. *)
Lemma acquired_shared b A i j ci cj lock x y : binv b A -> i <> j -> crts b !! i = Some ci -> crts b !! j = Some cj ->
  (lock, x) ∈ acquired ci -> (lock, y) ∈ acquired cj -> waits lock x.2.2 -> waits lock y.2.2 ->
  x.1 = Shared /\ y.1 = Shared.
Proof using.
  intros HI Hne Hi Hj Hx Hy Wx Wy. pose proof (acquired_claims _ _ Hx) as Cx. pose proof (acquired_claims _ _ Hy) as Cy.
  assert (Hxy : x.2 <> y.2).
  { intros E. apply owner_ids in Cx as [E1 H1], Cy as [E2 H2]. apply Hne. apply (bi_apart _ _ HI i j ci cj x.2); congruence. }
  destruct (claimed_own b A i ci HI Hi _ _ Cx) as [G _]. destruct (bi_sim _ _ HI lock G) as (_ & Hwf & _).
  pose proof (bi_acquired _ _ HI i ci lock x Hi Hx Wx) as Gx. pose proof (bi_acquired _ _ HI j cj lock y Hj Hy Wy) as Gy.
  pose proof (wf_exclusive _ Hwf) as Hex. destruct x as [ox rx], y as [oy ry]. cbn [fst snd] in *. split.
  - destruct ox; [done|]. rewrite (Hex rx Gx) in Gy. apply elem_of_singleton in Gy. congruence.
  - destruct oy; [done|]. rewrite (Hex ry Gy) in Gx. apply elem_of_singleton in Gx. congruence.
Qed.

Lemma committed_acquired c : in_place c -> c_pc c = Committed -> acquired c = map (claim (owner c)) (requests c).
Proof using.
  intros Hp Hc. unfold in_place in Hp. unfold acquired, got. rewrite Hc in *. destruct Hp as [-> _]. unfold size_.
  by rewrite Nat2Z.id, firstn_all.
Qed.

(** Whatever runs, no coroutine loses count of its transactions. *)
Lemma bench_step_counted l b A b' : binv b A -> bench_step impl l b = Ok b' ->
  map counted (crts b') = map counted (crts b).
Proof using.
  intros HI E. destruct (bench_step_crts _ _ _ E) as [->|(c & ret & Hi & Hf & ->)]; [done|].
  destruct (resume_work c ret (t_timeout l) (proj1 (bi_fits _ _ HI _ c Hi)) Hf) as [Hc _].
  change (@map coroutine Z) with (@fmap list _ coroutine Z). rewrite list_fmap_insert, Hc. apply list_insert_id.
  rewrite list_lookup_fmap. by rewrite Hi.
Qed.

Lemma bench_run_counted ls b A b' : binv b A -> bench_run impl ls b = Ok b' -> map counted (crts b') = map counted (crts b).
Proof using Hwithdraw.
  revert b A. induction ls as [|l ls IH]; intros b A HI E; [by injection E as <-|]. cbn [bench_run] in E.
  destruct (bench_step_inv b A l HI) as (b1 & A1 & E1 & HI1). rewrite E1 in E. cbn [mbind result_bind] in E.
  rewrite (IH _ _ HI1 E). by apply (bench_step_counted l b A).
Qed.
End interface.

(** ** Isolation *)

(** Coroutines that know of grants at the same lock share it; one that has all
    its locks holds them; and whatever is granted or queued belongs to a
    transaction that still runs. *)
Record isolated {S : Type} (good : Z -> Prop) (b : bench (S := S)) : Prop := {
  is_shared_only : forall i j ci cj lock x y, i <> j -> crts b !! i = Some ci -> crts b !! j = Some cj ->
    (lock, x) ∈ acquired ci -> (lock, y) ∈ acquired cj -> x.1 = Shared /\ y.1 = Shared;
  is_complete : forall i c, crts b !! i = Some c -> c_pc c = Committed ->
    forall lr, lr ∈ requests c -> (mode lr, owner c) ∈ v_held (views (svc b) (lock_id lr));
  is_current : forall lock x, good lock -> x ∈ v_held (views (svc b) lock) \/ x ∈ v_pending (views (svc b) lock) ->
    exists i c, crts b !! i = Some c /\ x.2 ∈ ids c /\ c_pc c <> Finished;
}.

(** The coroutines wait for all the requests of a transaction. *)
Definition txn_waits `{lib : Handles} (t : transaction) : Prop := Forall (fun lr => waits (lock_id lr) (t_id t)) (lock_requests t).

Definition programs_wait `{lib : Handles} (ps : programs) : Prop := Forall (fun p => Forall txn_waits p.2) ps.

(** What a coroutine has left to do is the end of its trace. *)
Lemma resume_todo c ret to (P : transaction -> Prop) : Forall P (c_todo c) -> Forall P (c_todo (resume c ret to)).
Proof.
  intros HF.
  assert (Ha : forall d, c_todo (arrive d) = c_todo d) by done.
  assert (Hb : forall d, Forall P (c_todo d) -> Forall P (c_todo (begin d))).
  { intros d Hd. unfold begin. destruct (c_todo d) eqn:E; [change (Forall P (c_todo d)); by rewrite E|]. by rewrite Ha. }
  assert (Hr : forall pos d, Forall P (c_todo d) -> Forall P (c_todo (release_from pos d))).
  { intros pos d Hd. unfold release_from. destruct (0 <=? pos); [done|]. apply Hb. cbn. destruct (c_todo d); [done|]. by inversion Hd. }
  unfold resume. destruct (c_pc c); [by apply Hb| | |by apply Hr|by apply Hr|done].
  - by destruct (ret =? 0).
  - destruct (ret =? 2); [by apply Hr|]. destruct (ret =? 1); [done|]. destruct to; [by apply Hr|done].
Qed.

Lemma bench_run_todo {S : Type} `{lib : Handles} (impl : Z -> RwLockImpl S) (P : transaction -> Prop) ls b b' :
  bench_run impl ls b = Ok b' -> Forall (fun c => Forall P (c_todo c)) (crts b) -> Forall (fun c => Forall P (c_todo c)) (crts b').
Proof.
  revert b. induction ls as [|l ls IH]; intros b E HF; [by injection E as <-|]. cbn [bench_run] in E.
  destruct (bench_step impl l b) as [b1|] eqn:E1; [|done]. apply (IH b1 E).
  destruct (bench_step_crts impl _ _ _ E1) as [->|(c & ret & Hi & _ & ->)]; [done|].
  apply Forall_insert; [done|]. apply resume_todo. by apply (Forall_lookup_1 _ _ _ _ HF Hi).
Qed.

Lemma acquired_waits `{lib : Handles} c lock x : Forall txn_waits (c_todo c) -> (lock, x) ∈ acquired c -> waits lock x.2.2.
Proof.
  intros HF Hx%acquired_claims. unfold claims in Hx. apply list_elem_of_fmap in Hx as (lr & [= -> ->] & Hl).
  apply elem_of_take in Hl as (n & Hn & _). unfold requests, owner in *. destruct (c_todo c) as [|t ts]; [done|].
  apply list.Forall_cons in HF as [HF _]. exact (Forall_lookup_1 _ _ _ _ HF Hn).
Qed.

Lemma run_isolated {S : Type} `{lib : Handles} (impl : Z -> RwLockImpl S) (good : Z -> Prop)
  (laws : forall lock, good lock -> @RwLockLaws S (impl lock)) (ps : programs) (ls : list tick) :
  (forall lock, good lock -> @impl_withdraw S (impl lock) = true) -> programs_ok impl good ps -> programs_wait ps ->
  exists b, bench_run impl ls (bench_init impl (coroutines ps)) = Ok b /\ isolated good b.
Proof.
  intros Hw Hps Hwt. destruct (bench_run_inv impl good laws Hw ls _ _ (binv_init impl good laws ps Hps)) as (b & A & E & HI).
  assert (HW : forall i c lock x, crts b !! i = Some c -> (lock, x) ∈ acquired c -> waits lock x.2.2).
  { intros i c lock x Hi Hx. eapply acquired_waits; [|exact Hx].
    refine (Forall_lookup_1 _ _ _ _ (bench_run_todo impl txn_waits ls _ b E _) Hi).
    cbn [bench_init crts]. apply Forall_fmap. exact Hwt. }
  exists b. split; [done|]. split.
  - intros i j ci cj lock x y Hne Hi Hj Hx Hy. by eapply (acquired_shared impl good laws b A i j ci cj lock x y HI); eauto.
  - intros i c Hi Hc lr Hlr. pose proof (bi_fits _ _ _ _ _ HI i c Hi) as [Hp _].
    assert (Hin : claim (owner c) lr ∈ acquired c).
    { rewrite (committed_acquired c Hp Hc). apply list_elem_of_fmap. by exists lr. }
    pose proof (bi_acquired _ _ _ _ _ HI i c _ _ Hi Hin (HW i c _ _ Hi Hin)) as Hheld.
    destruct (claimed_own impl good laws b A i c HI Hi _ _ (acquired_claims _ _ Hin)) as [G _].
    by destruct (bi_sim _ _ _ _ _ HI _ G) as (_ & _ & ->).
  - intros lock x G. destruct (bi_sim _ _ _ _ _ HI _ G) as (_ & _ & ->). intros Hx%elem_of_union.
    apply (bi_claims _ _ _ _ _ HI _ _ G) in Hx as (i & c & Hi & Hx). exists i, c. split; [done|].
    pose proof (owner_ids _ _ _ Hx) as [-> ?]. split; [done|]. intros Hf. unfold claims, reach in Hx. rewrite Hf in Hx.
    by apply not_elem_of_nil in Hx.
Qed.

(** ** Facts about all coroutines *)

Lemma bench_run_app {S : Type} `{lib : Handles} (impl : Z -> RwLockImpl S) ls ls' b :
  bench_run impl (ls ++ ls') b = match bench_run impl ls b with Ok b' => bench_run impl ls' b' | Fault f => Fault f end.
Proof.
  revert b. induction ls as [|l ls IH]; intros b; [done|]. cbn [app bench_run].
  destruct (bench_step impl l b); cbn [mbind result_bind]; [apply IH|done].
Qed.

Lemma work_coroutines ps :
  list_sum (map work (coroutines ps)) = list_sum (map (fun p => (1 + list_sum (map txn_work p.2))%nat) ps).
Proof.
  induction ps as [|p ps IH]; [done|]. unfold coroutines in *. cbn [map]. rewrite !list_sum_cons, IH. f_equal.
  unfold work. cbn [start c_pc c_todo]. destruct p.2 as [|t ts]; [done|]. cbn [take tail map]. rewrite !list_sum_cons.
  change (list_sum (map txn_work (take 0 ts))) with 0%nat. lia.
Qed.

Lemma counted_coroutines ps : map counted (coroutines ps) = map (fun p => Z.of_nat (length p.2)) ps.
Proof.
  induction ps as [|p ps IH]; [done|]. unfold coroutines in *. cbn [map]. rewrite IH.
  by destruct (start_facts p.1 p.2) as (_ & _ & _ & _ & _ & ->).
Qed.

Lemma counted_finished cs : (forall i c, cs !! i = Some c -> c_pc c = Finished /\ c_todo c = []) ->
  map (fun c => txn_counter c + abort_cnt c) cs = map counted cs.
Proof.
  intros H. apply map_ext_in. intros c Hc%list_elem_of_In. apply list_elem_of_lookup in Hc as [i Hi].
  destruct (H i c Hi) as [Hp Ht]. unfold counted. rewrite Hp, Ht. cbn. lia.
Qed.

Lemma view_empty v : (forall x, x ∉ claimed v) -> v = view_init.
Proof.
  intros H. destruct v as [h p]. unfold view_init. f_equal; apply elem_of_equiv_empty_L; intros x Hx; apply (H x);
    unfold claimed; cbn; set_solver.
Qed.
