(* ===== verification/TxnBenchRuns.v ===== *)
(** * TxnBenchRuns: the benchmark on ParLock and with the TPC-C trace

    The theorems of [TxnBenchProofs] about whole runs.  The managers of the
    witnesses are the servers of ParLock ([ParRefine]), each lock on the host that
    the placement of [ParQueue] gives it. *)

From stdpp Require Import functions.
From S2P Require Import Prelude RwSpec Types LmRefine Timers TxnBench TxnBenchProofs.
From S2P Require ParQueue ParServer ParRefine.

(** ** ParLock's servers *)

Section parlock.
Context (cfg : ParQueue.parcfg).
Context (Hrf : ParQueue.PARLOCK_READER_FIRST cfg = true) (Heh : ParQueue.PARLOCK_ENQUEUE_HOLDERS cfg = false).
Context (Hshuffle : ParQueue.PARLOCK_TPCC_SHUFFLE cfg = true).

(** The build on the host that manages a lock. *)
Definition at_server (lock : Z) : ParQueue.parcfg :=
  ParQueue.ParCfg (match ParQueue.get_lock_server cfg lock with Ok h => h | Fault _ => 0 end)
    (ParQueue.PARLOCK_READER_FIRST cfg) (ParQueue.PARLOCK_ENQUEUE_HOLDERS cfg) (ParQueue.PARLOCK_TPCC_SHUFFLE cfg)
    (ParQueue.PARLOCK_ZIPF_LOAD_BALANCE cfg) (ParQueue.MAX_LOCK_NUM cfg).

Definition par_at (lock : Z) : RwLockImpl ParQueue.parlock := ParRefine.par_impl (at_server lock) lock.

Lemma at_server_setting lock : in_uw 32 lock -> ParRefine.par_setting (at_server lock) lock.
Proof using Hrf Heh Hshuffle.
  intros Hl. pose proof (Z.mod_pos_bound lock HOST_NUM ltac:(done)) as Hb. unfold HOST_NUM in Hb.
  assert (E : ParQueue.get_lock_server cfg lock = Ok (lock mod HOST_NUM + 1)) by (unfold ParQueue.get_lock_server; by rewrite Hshuffle).
  split; [done| |done|done|].
  - unfold at_server. cbn. rewrite E. unfold in_uw, HOST_NUM. lia.
  - unfold at_server. rewrite E. unfold ParQueue.get_lock_server. cbn. by rewrite Hshuffle.
Qed.

Definition par_at_laws (lock : Z) (Hl : in_uw 32 lock) : @RwLockLaws ParQueue.parlock (par_at lock) :=
  ParRefine.par_laws (at_server lock) lock (at_server_setting lock Hl).
End parlock.

(** What ParLock's [lock_acquire_async] returns: the lock and the task, whether the
    request was granted or not.  Lock 0 with task 0 makes null. *)
Definition par_handles : Handles := fun lock task _ => Z.lor (Z.shiftl lock 32) task.
#[export] Existing Instance par_handles.

Lemma par_handle_returned cfg lock task o g s h s' out :
  ParServer.lock_acquire_async cfg lock task o s = Ok (h, s', out) -> h = handle lock task g.
Proof.
  unfold ParServer.lock_acquire_async, bind. intros E.
  destruct (ParQueue.add_to_wait_queue _ _ _) as [[[[] s1] o1]|]; [|done].
  destruct (ParQueue.get_lock_server cfg lock); [|done].
  match type of E with context[match ?m s1 with _ => _ end] => destruct (m s1) as [[[[] s2] o2]|] end; [|done].
  by injection E as <-.
Qed.

Lemma par_waits lock task : in_uw 32 lock -> in_uw 32 task -> lock <> 0 \/ task <> 0 -> waits lock task.
Proof.
  intros Hl Ht Hne. unfold waits, handle, par_handles. rewrite Z.lor_eq_0_iff, Z.shiftl_eq_0_iff by done. tauto.
Qed.

(** ** Runs *)

(** C8: two-phase locking isolates transactions. Coroutines of any number of
    hosts execute transactions, no two of a host with the same number and each
    naming a lock at most once, against any lock managers that implement the
    reader/writer interface with withdrawal, through a library whose acquire
    returns null for their requests only when it granted them; ParLock's returns
    null for lock 0 and task 0 too, which the hypothesis [programs_wait]
    excludes. In every interleaving, with news of grants delayed and timeouts at
    any moment, nothing faults; what two coroutines take for granted at the same
    lock is shared; a coroutine in its think time has been granted all its
    requests; and what a manager has granted or queued is a request of a
    transaction that still runs. *)
Theorem bench_isolated {S : Type} `{lib : Handles} (impl : Z -> RwLockImpl S) (good : Z -> Prop)
  (laws : forall lock, good lock -> @RwLockLaws S (impl lock)) (ps : programs) (ls : list tick) :
  (forall lock, good lock -> @impl_withdraw S (impl lock) = true) -> programs_ok impl good ps -> programs_wait ps ->
  exists b, bench_run impl ls (bench_init impl (coroutines ps)) = Ok b /\ isolated good b.
Proof. by apply run_isolated. Qed.

(** C9: the benchmark ends, whatever the library's acquire returns. In every run
    the calls that are not polls in vain are bounded by the length of the trace;
    when no tick changes a coroutine any more, not even with a timeout, each of
    them is at its end or the scheduler of its core was stopped; and when all
    are at their end, every lock is free with an empty queue, and every
    transaction was counted as executed or as aborted. *)
Theorem bench_ends {S : Type} `{lib : Handles} (impl : Z -> RwLockImpl S) (good : Z -> Prop)
  (laws : forall lock, good lock -> @RwLockLaws S (impl lock)) (ps : programs) (ls : list tick) :
  (forall lock, good lock -> @impl_withdraw S (impl lock) = true) -> programs_ok impl good ps ->
  (moves impl ls (bench_init impl (coroutines ps)) <= list_sum (map (fun p => 1 + list_sum (map txn_work p.2)) ps))%nat /\
  exists b, bench_run impl ls (bench_init impl (coroutines ps)) = Ok b /\
    ((forall l b', bench_step impl l b = Ok b' -> crts b' = crts b) ->
       forall i c, crts b !! i = Some c -> c_pc c = Finished \/ stopped (crts b) c = true) /\
    ((forall i c, crts b !! i = Some c -> c_pc c = Finished) ->
       (forall lock, good lock -> views (svc b) lock = view_init) /\
       map (fun c => txn_counter c + abort_cnt c) (crts b) = map (fun p => Z.of_nat (length p.2)) ps).
Proof.
  intros Hw Hps. pose proof (binv_init impl good laws ps Hps) as HI0. split.
  { rewrite <- (work_coroutines ps). by apply (moves_bounded impl good laws Hw ls _ _ HI0). }
  destruct (bench_run_inv impl good laws Hw ls _ _ HI0) as (b & A & E & HI). exists b.
  split_and!; [done|by apply (bench_stuck impl good laws Hw b A)|]. intros Hfin. split.
  - intros lock G. destruct (bi_sim _ _ _ _ _ HI _ G) as (_ & _ & ->). apply view_empty. intros x Hx.
    apply (bi_claims _ _ _ _ _ HI _ _ G) in Hx as (i & c & Hi & Hx). unfold claims, reach in Hx. rewrite (Hfin i c Hi) in Hx.
    by apply not_elem_of_nil in Hx.
  - pose proof (bench_run_counted impl good laws Hw _ _ _ _ HI0 E) as Hc. cbn [bench_init crts] in Hc.
    rewrite <- (counted_coroutines ps), <- Hc.
    apply counted_finished. intros i c Hi. split; [by apply (Hfin i)|].
    pose proof (proj1 (bi_fits _ _ _ _ _ HI i c Hi)) as Hp. unfold in_place in Hp. by rewrite (Hfin i c Hi) in Hp.
Qed.

(** ** Two hosts and two locks *)

(** Host 1 writes lock 8 and reads lock 9 in one transaction; a coroutine of host 2
    does the same in the other order. *)
Definition bench_programs0 : programs :=
  [(Place 1 6 true, [Txn 3 1 [LockReq 0 2 1 3 8; LockReq 0 1 1 3 9]]);
   (Place 2 6 true, [Txn 3 1 [LockReq 0 1 1 3 9; LockReq 0 2 1 3 8]])].

(** Both get their first lock, the second host times out. *)
Definition bench_ticks0 : list tick :=
  [Tick 0 true false; Tick 0 true false; Tick 0 true false; Tick 1 true false; Tick 1 true false; Tick 1 false false;
   Tick 1 true false; Tick 1 true false; Tick 1 true true; Tick 0 true false; Tick 0 true false].

(** Both release what they have. *)
Definition bench_ticks1 : list tick :=
  bench_ticks0 ++ [Tick 1 true false; Tick 0 true false; Tick 0 true false; Tick 1 true false; Tick 0 true false].

Definition par_cfg0 : ParQueue.parcfg := ParQueue.ParCfg 1 true false true false 800.

Lemma bench_programs0_ok : programs_ok (par_at par_cfg0) (in_uw 32) bench_programs0.
Proof.
  split.
  - repeat constructor; cbn; try lia; try (by eexists); try set_solver.
  - apply (bool_decide_unpack _). vm_compute. exact I.
Qed.

Lemma bench_programs0_wait : programs_wait bench_programs0.
Proof. repeat constructor; apply par_waits; cbn; unfold in_uw; lia. Qed.

Lemma bench_isolated_witness :
  exists b, bench_run (par_at par_cfg0) bench_ticks0 (bench_init (par_at par_cfg0) (coroutines bench_programs0)) = Ok b /\
    isolated (in_uw 32) b.
Proof.
  apply (bench_isolated (par_at par_cfg0) (in_uw 32) (par_at_laws par_cfg0 eq_refl eq_refl eq_refl)); [done| |].
  - apply bench_programs0_ok.
  - apply bench_programs0_wait.
Defined.

Lemma bench_ends_witness :
  exists b, bench_run (par_at par_cfg0) bench_ticks1 (bench_init (par_at par_cfg0) (coroutines bench_programs0)) = Ok b /\
    views (svc b) 8 = view_init /\ map (fun c => txn_counter c + abort_cnt c) (crts b) = [1; 1].
Proof.
  destruct (bench_ends (par_at par_cfg0) (in_uw 32) (par_at_laws par_cfg0 eq_refl eq_refl eq_refl) bench_programs0 bench_ticks1)
    as (_ & b & E & _ & Hend); [done|apply bench_programs0_ok|].
  exists b. split; [exact E|].
  assert (Hfin : match bench_run (par_at par_cfg0) bench_ticks1 (bench_init (par_at par_cfg0) (coroutines bench_programs0)) with
                 | Ok b => bool_decide (Forall (fun c => c_pc c = Finished) (crts b))
                 | Fault _ => false
                 end = true) by (vm_compute; reflexivity).
  rewrite E in Hfin. apply bool_decide_eq_true in Hfin.
  destruct Hend as [Hv Hc]; [intros i c; by apply (Forall_lookup_1 _ _ _ _ Hfin)|].
  split; [apply Hv; unfold in_uw; lia|]. rewrite Hc. reflexivity.
Defined.

(** ** A handle that is null *)

(** On ParLock a request of task 0 for lock 0 gets a null handle, so that its
    coroutine does not wait: here host 1 has written to the lock, and a coroutine of
    host 2 goes on to its think time as if it had it too, while its request is in
    the server's queue.  [bench_programs0] with numbers other than 0 is isolated. *)
Definition null_coroutines : list coroutine :=
  [start (Place 1 6 true) [Txn 3 1 [LockReq 0 2 1 3 0]]; start (Place 2 6 true) [Txn 0 1 [LockReq 0 2 1 0 0]]].

Definition null_ticks : list tick :=
  [Tick 0 true false; Tick 0 true false; Tick 0 true false; Tick 1 true false; Tick 1 false false].

Theorem null_handle_goes_on :
  exists b, bench_run (par_at par_cfg0) null_ticks (bench_init (par_at par_cfg0) null_coroutines) = Ok b /\
    map c_pc (crts b) = [Committed; Committed] /\ (Excl, (1, 3)) ∈ v_held (views (svc b) 0) /\
    (Excl, (2, 0)) ∈ v_pending (views (svc b) 0) /\ ~ (Excl, (2, 0)) ∈ v_held (views (svc b) 0).
Proof.
  destruct (bench_run (par_at par_cfg0) null_ticks (bench_init (par_at par_cfg0) null_coroutines)) as [b|f] eqn:E.
  2:{ assert (H : match bench_run (par_at par_cfg0) null_ticks (bench_init (par_at par_cfg0) null_coroutines) with
                  | Ok _ => true | Fault _ => false end = true) by (vm_compute; reflexivity). by rewrite E in H. }
  assert (H : match bench_run (par_at par_cfg0) null_ticks (bench_init (par_at par_cfg0) null_coroutines) with
              | Ok b => bool_decide (map c_pc (crts b) = [Committed; Committed] /\ (Excl, (1, 3)) ∈ v_held (views (svc b) 0) /\
                          (Excl, (2, 0)) ∈ v_pending (views (svc b) 0) /\ ~ (Excl, (2, 0)) ∈ v_held (views (svc b) 0))
              | Fault _ => false end = true) by (vm_compute; reflexivity).
  rewrite E in H. exists b. split; [done|]. by apply bool_decide_eq_true in H.
Qed.

(** ** The scheduler stops too early *)

Lemma bench_halted {S : Type} `{lib : Handles} (impl : Z -> RwLockImpl S) b :
  Forall (fun c => stopped (crts b) c = true \/ c_pc c = Finished) (crts b) -> forall ls, bench_run impl ls b = Ok b.
Proof.
  intros HF ls. induction ls as [|l ls IH]; [done|]. cbn [bench_run].
  assert (E : bench_step impl l b = Ok b); [|by rewrite E].
  unfold bench_step. destruct (crts b !! t_crt l) as [c|] eqn:Hi; [|done].
  destruct (Forall_lookup_1 _ _ _ _ HF Hi) as [-> | Hf]; [done|]. destruct (stopped (crts b) c); [done|].
  unfold next_call. by rewrite Hf.
Qed.

(** Two transactions of one core with a coroutine each: the first has been granted
    lock 8 when the second, which is the last coroutine's, is done. *)
Definition stop_coroutines : list coroutine := spawn 1 6 2 [Txn 3 1 [LockReq 0 2 1 3 8]; Txn 8 1 [LockReq 0 2 1 8 9]].

Definition stop_ticks : list tick :=
  [Tick 0 true false; Tick 0 true false; Tick 0 false false; Tick 1 true false; Tick 1 true false; Tick 1 true false;
   Tick 1 true false; Tick 1 true false].

(** C39: the last coroutine of a core stops the scheduler when its own share of the
    trace is done, and so abandons the others. In this run on ParLock a transaction
    waits for a lock that it has been granted exclusively when the last coroutine
    ends: nothing that happens afterwards lets it go on, and the lock stays held
    for ever. *)
Theorem bench_stop_abandons :
  exists b c, bench_run (par_at par_cfg0) stop_ticks (bench_init (par_at par_cfg0) stop_coroutines) = Ok b /\
    crts b !! 0%nat = Some c /\ c_pc c = Polling /\ (Excl, (1, 3)) ∈ v_held (views (svc b) 8) /\
    forall ls, bench_run (par_at par_cfg0) ls b = Ok b.
Proof.
  destruct (bench_run (par_at par_cfg0) stop_ticks (bench_init (par_at par_cfg0) stop_coroutines)) as [b|f] eqn:E.
  2:{ assert (H : match bench_run (par_at par_cfg0) stop_ticks (bench_init (par_at par_cfg0) stop_coroutines) with
                  | Ok _ => true | Fault _ => false end = true) by (vm_compute; reflexivity). by rewrite E in H. }
  assert (H : match bench_run (par_at par_cfg0) stop_ticks (bench_init (par_at par_cfg0) stop_coroutines) with
              | Ok b => bool_decide (Forall (fun c => stopped (crts b) c = true \/ c_pc c = Finished) (crts b)) &&
                        bool_decide ((Excl, (1, 3)) ∈ v_held (views (svc b) 8)) &&
                        match crts b !! 0%nat with Some c => bool_decide (c_pc c = Polling) | None => false end
              | Fault _ => false end = true) by (vm_compute; reflexivity).
  rewrite E in H. apply andb_prop in H as [[HF%bool_decide_eq_true Hheld%bool_decide_eq_true]%andb_prop Hp].
  destruct (crts b !! 0%nat) as [c|] eqn:Ec; [|done]. apply bool_decide_eq_true in Hp. exists b, c.
  split_and!; [done..|]. by apply bench_halted.
Qed.
