(* ===== verification/TxnBenchTpcc.v ===== *)
(** * TxnBenchTpcc: from the TPC-C generator to transactions on ParLock

    The lines that the generator of [Tpcc] prints, read back by the benchmark of
    [TxnBench], are the generated transactions; distributed over the sending cores
    and their coroutines, on all machines, they satisfy what [TxnBenchProofs]
    requires of its programs, so that TPC-C on ParLock's servers is isolated. *)

From Stdlib Require Import Ascii String.
From S2P Require Import Prelude RwSpec Types LmRefine Timers TimersText TxnBench TxnBenchProofs TxnBenchRuns.
From S2P Require Tpcc TpccProofs ParQueue.

#[local] Open Scope prog_scope.

(** ** The text of a request (tpcc_lock_gen.h) *)

Definition txn_value (t : Tpcc.txn_type) : Z :=
  match t with Tpcc.NEW_ORDER => 1 | Tpcc.PAYMENT => 2 | Tpcc.ORDER_STATUS => 3 | Tpcc.DELIVERY => 4 | Tpcc.STOCK_LEVEL => 5 end.

Definition SHARED : Z := 1.
Definition EXCLUSIVE : Z := 2.

Definition type_value (m : lock_state) : Z :=
  match m with LOCK_SHARED => SHARED | LOCK_EXCL => EXCLUSIVE | _ => 0 end.

(** The line without its end; the member [task] is [LOCK]. *)
Definition GEN_OUTPUT (lr : Tpcc.LockRequest) : str :=
  fmt_lu (Tpcc.user_id lr) ++ lit "," ++ fmt_ld 0 ++ lit "," ++ fmt_ld (txn_value (Tpcc.txn lr)) ++ lit "," ++
  fmt_ld (Tpcc.obj_index lr) ++ lit "," ++ fmt_ld (type_value (Tpcc.lock_type lr)).

(** ** Reading numbers back *)

Lemma skip_0x_10 s : skip_0x 10 s = s.
Proof. destruct s as [|c [|x s]]; [done|..]; destruct c as [[] [] [] [] [] [] [] []]; reflexivity. Qed.

Lemma fmt_ld_lu n : 0 <= n -> fmt_ld n = fmt_lu n.
Proof. intros Hn. unfold fmt_ld. by rewrite (proj2 (Z.ltb_ge _ _)). Qed.

(** The first character of a number is a decimal digit. *)
Lemma fmt_lu_cons n : 0 <= n -> exists c l, fmt_lu n = c :: l /\ is_digit c /\ exists d, 0 <= d < 10 /\ c = digit d.
Proof.
  intros Hn. unfold fmt_lu. destruct (digits_cons 63 10 n []) as (c & l & E). exists c, l. split; [done|].
  assert (H10 : forall fuel m acc, 0 <= m -> Forall (fun c => exists d, 0 <= d < 10 /\ c = digit d) acc ->
    Forall (fun c => exists d, 0 <= d < 10 /\ c = digit d) (digits fuel 10 m acc)).
  { induction fuel as [|f IH]; intros m acc Hm Hacc; cbn [digits]; [done|].
    assert (Hd : Forall (fun c => exists d, 0 <= d < 10 /\ c = digit d) (digit (m mod 10) :: acc)).
    { constructor; [|done]. exists (m mod 10). split; [|done]. pose proof (Z.mod_pos_bound m 10). lia. }
    destruct (m <? 10); [done|]. apply IH; [|done]. apply Z.div_pos; lia. }
  specialize (H10 64%nat n [] Hn ltac:(constructor)). rewrite E in H10. apply list.Forall_cons in H10 as [(d & Hd & ->) _].
  split; [|by exists d]. exists d. split; [lia|done].
Qed.

Lemma scan_lu_fmt n e r : 0 <= n < 2 ^ 64 -> ends e = true -> scan_lu (fmt_lu n ++ e :: r) = Some (n, e :: r).
Proof.
  intros Hn He. unfold scan_lu, fmt_lu.
  pose proof (scan_number_digits false 10 n e r ltac:(lia) Hn He) as Hs. cbn [app] in Hs. rewrite Hs.
  cbn. by rewrite (proj2 (Z.leb_gt _ _)) by lia.
Qed.

Lemma scan_lu_end n : 0 <= n < 2 ^ 64 -> scan_lu (fmt_lu n) = Some (n, []).
Proof.
  intros Hn. destruct (fmt_lu_cons n) as (c & l & E & Hc & d & Hd & Ed); [lia|].
  assert (Hs : scan_digits 10 (fmt_lu n) 0 = (n, [])).
  { unfold fmt_lu. rewrite scan_digits_digits; [done|lia| |lia]. split; [lia|].
    apply Z.lt_le_trans with (2 ^ 64); [lia|]. apply Z.pow_le_mono_l. lia. }
  unfold scan_lu, scan_number. rewrite E in *. cbn [skip_space].
  destruct (is_digit_facts c Hc) as (Hsp & _). rewrite Hsp, (scan_sign_digit c l Hc), skip_0x_10.
  assert (Hv : digit_val c = Some d) by (rewrite Ed; apply digit_val_digit; lia).
  rewrite Hv, (proj2 (Z.ltb_lt _ _)), Hs by lia. cbn. by rewrite (proj2 (Z.leb_gt _ _)) by lia.
Qed.

Lemma skip_space_number n r : 0 <= n -> skip_space (fmt_lu n ++ r) = fmt_lu n ++ r.
Proof.
  intros Hn. destruct (fmt_lu_cons n Hn) as (c & l & -> & Hc & _). destruct (is_digit_facts c Hc) as (Hsp & _).
  cbn. by rewrite Hsp.
Qed.

Lemma next_field_fmt n r : 0 <= n < 2 ^ 64 -> next_field (lit "," ++ fmt_lu n ++ lit "," ++ r) = Some (n, lit "," ++ r).
Proof.
  intros Hn. unfold next_field, scan_comma. cbn [lit list_ascii_of_string app]. rewrite scan_char_same. cbn [mbind option_bind].
  rewrite skip_space_number by lia. by apply scan_lu_fmt.
Qed.

Lemma next_field_end n : 0 <= n < 2 ^ 64 -> next_field (lit "," ++ fmt_lu n) = Some (n, []).
Proof.
  intros Hn. unfold next_field, scan_comma. cbn [lit list_ascii_of_string app]. rewrite scan_char_same. cbn [mbind option_bind].
  pose proof (skip_space_number n [] ltac:(lia)) as Hs. rewrite app_nil_r in Hs. rewrite Hs. by apply scan_lu_end.
Qed.

(** The request the benchmark reads. *)
Definition read_request (lr : Tpcc.LockRequest) : lock_request :=
  LockReq 0 (type_value (Tpcc.lock_type lr)) (txn_value (Tpcc.txn lr)) (Tpcc.user_id lr) (Tpcc.obj_index lr).

Definition printable (lr : Tpcc.LockRequest) : Prop := in_uw 32 (Tpcc.user_id lr) /\ in_uw 32 (Tpcc.obj_index lr).

Lemma txn_value_range t : 1 <= txn_value t <= 5.
Proof. destruct t; cbn; lia. Qed.

Lemma type_value_range m : 0 <= type_value m <= 2.
Proof. destruct m; cbn; unfold SHARED, EXCLUSIVE; lia. Qed.

Lemma sscanf_output lr : printable lr -> sscanf_request (GEN_OUTPUT lr) = read_request lr.
Proof.
  intros [Hu Ho]. unfold in_uw in *. pose proof (txn_value_range (Tpcc.txn lr)). pose proof (type_value_range (Tpcc.lock_type lr)).
  unfold sscanf_request, GEN_OUTPUT. rewrite !fmt_ld_lu by lia.
  change (lit "," ++ fmt_lu 0 ++ ?x) with (","%char :: fmt_lu 0 ++ x). rewrite scan_lu_fmt by (done || lia).
  change (","%char :: fmt_lu 0 ++ ?x) with (lit "," ++ fmt_lu 0 ++ x).
  rewrite next_field_fmt, next_field_fmt, next_field_fmt, next_field_end by lia.
  unfold read_request. rewrite !uw_small by (unfold in_uw; lia). done.
Qed.

Lemma is_request_output lr : 0 <= Tpcc.user_id lr -> is_request (GEN_OUTPUT lr) = true.
Proof.
  intros Hu. unfold GEN_OUTPUT. destruct (fmt_lu_cons _ Hu) as (c & l & -> & _ & d & Hd & ->).
  assert (Hin : d ∈ seqZ 0 10) by (apply elem_of_seqZ; lia).
  assert (Hall : Forall (fun d => forall s, is_request (digit d :: s) = true) (seqZ 0 10)) by (repeat constructor).
  rewrite list.Forall_forall in Hall. by apply Hall.
Qed.

(** ** Reading the transactions back *)

Section reading.
Context (TX_CORE_NUM RX_CORE_NUM : Z) (Htx : 0 < TX_CORE_NUM) (Hrx : 0 <= RX_CORE_NUM).
Context (Hcores : TX_CORE_NUM + RX_CORE_NUM <= DPDK_LCORE_NUM).

Definition core_of (tid : Z) : Z := tid mod TX_CORE_NUM + RX_CORE_NUM.

Lemma core_of_range tid : RX_CORE_NUM <= core_of tid < RX_CORE_NUM + TX_CORE_NUM.
Proof using Htx. unfold core_of. pose proof (Z.mod_pos_bound tid TX_CORE_NUM). lia. Qed.

(** A transaction as the benchmark stores it. *)
Definition read_txn (g : Z * list Tpcc.LockRequest) : transaction :=
  Txn g.1 (match g.2 with [] => 0 | lr :: _ => txn_value (Tpcc.txn lr) end) (map read_request g.2).

Lemma push_request_last lr txns t :
  push_request lr (txns ++ [t]) = Ok (txns ++ [Txn (t_id t) (t_type t) (lock_requests t ++ [lr])]).
Proof using.
  induction txns as [|u txns IH]; [done|]. cbn [app]. destruct (txns ++ [t]) eqn:E; [by destruct txns|].
  cbn [push_request] in *. rewrite IH. done.
Qed.

(** The next line of the current transaction, and the first of another. *)
Lemma read_line_output lr t : printable lr ->
  let txns := index [] (core_of (Tpcc.user_id lr)) (txn_list t) in
  read_line TX_CORE_NUM RX_CORE_NUM (GEN_OUTPUT lr) t =
    (txns' ← push_request (read_request lr)
       (if last_txn t =? Tpcc.user_id lr then txns else txns ++ [Txn (Tpcc.user_id lr) (txn_value (Tpcc.txn lr)) []]);
     Ok (Trace (Tpcc.user_id lr) (<[core_of (Tpcc.user_id lr) := txns']> (txn_list t)))).
Proof using Htx Hcores.
  intros Hp txns. unfold read_line. pose proof (core_of_range (Tpcc.user_id lr)) as Hc.
  rewrite is_request_output by apply Hp. cbn [negb]. rewrite (proj2 (Z.eqb_neq _ _)) by lia.
  rewrite sscanf_output by done. cbn [read_request txn_id txn_type]. fold (core_of (Tpcc.user_id lr)).
  rewrite (proj2 (Z.leb_gt _ _)) by lia. done.
Qed.

Lemma read_rest tid rs txns u m :
  Forall (fun lr => printable lr /\ Tpcc.user_id lr = tid) rs -> index [] (core_of tid) m = txns ++ [u] ->
  exists m', read_lines TX_CORE_NUM RX_CORE_NUM (map GEN_OUTPUT rs) (Trace tid m) = Ok (Trace tid m') /\
    forall core, index [] core m' =
      if decide (core = core_of tid) then txns ++ [Txn (t_id u) (t_type u) (lock_requests u ++ map read_request rs)] else index [] core m.
Proof using Htx Hcores.
  revert u m. induction rs as [|lr rs IH]; intros u m HF Hm.
  - exists m. split; [done|]. intros core. rewrite app_nil_r. case_decide as Hd; [|done]. subst core. rewrite Hm. by destruct u.
  - apply list.Forall_cons in HF as [[Hp Hu] HF]. cbn [map read_lines]. rewrite (read_line_output lr _ Hp), Hu.
    cbn [last_txn txn_list]. rewrite Z.eqb_refl, Hm, push_request_last. cbn [mbind result_bind].
    destruct (IH (Txn (t_id u) (t_type u) (lock_requests u ++ [read_request lr])) (<[core_of tid := txns ++ [Txn (t_id u) (t_type u) (lock_requests u ++ [read_request lr])]]> m)) as (m' & E & Hm');
      [done|by apply index_insert|].
    exists m'. split; [done|]. intros core. rewrite Hm'. case_decide as Hd; [cbn; by rewrite <- app_assoc|by rewrite index_insert_ne].
Qed.

(** The lines of a transaction. *)
Definition group_ok (g : Z * list Tpcc.LockRequest) : Prop :=
  g.2 <> [] /\ Forall (fun lr => printable lr /\ Tpcc.user_id lr = g.1) g.2.

Lemma read_group g t : group_ok g -> last_txn t <> g.1 ->
  exists m', read_lines TX_CORE_NUM RX_CORE_NUM (map GEN_OUTPUT g.2) t = Ok (Trace g.1 m') /\
    forall core, index [] core m' = index [] core (txn_list t) ++ if decide (core = core_of g.1) then [read_txn g] else [].
Proof using Htx Hcores.
  destruct g as [tid rs], t as [last m]. unfold group_ok. cbn [fst snd last_txn txn_list]. intros [Hne HF] Hlast.
  destruct rs as [|lr rs]; [done|]. apply list.Forall_cons in HF as [[Hp Hu] HF]. cbn [map read_lines].
  rewrite (read_line_output lr _ Hp), Hu. cbn [last_txn txn_list]. rewrite (proj2 (Z.eqb_neq _ _) Hlast), push_request_last.
  cbn [mbind result_bind]. set (txns := index [] (core_of tid) m).
  destruct (read_rest tid rs txns (Txn tid (txn_value (Tpcc.txn lr)) [read_request lr])
    (<[core_of tid := txns ++ [Txn tid (txn_value (Tpcc.txn lr)) [read_request lr]]]> m)) as (m' & E & Hm'); [done|by apply index_insert|].
  exists m'. split; [exact E|]. intros core. rewrite Hm'. case_decide as Hd; [by subst core|].
  by rewrite index_insert_ne, app_nil_r.
Qed.

Lemma read_lines_app l1 l2 t :
  read_lines TX_CORE_NUM RX_CORE_NUM (l1 ++ l2) t =
    (t ← read_lines TX_CORE_NUM RX_CORE_NUM l1 t; read_lines TX_CORE_NUM RX_CORE_NUM l2 t).
Proof using.
  revert t. induction l1 as [|x l1 IH]; intros t; [done|]. cbn [app read_lines].
  destruct (read_line _ _ x t); cbn [mbind result_bind]; [apply IH|done].
Qed.

Lemma read_groups gs t : Forall group_ok gs -> NoDup (map fst gs) -> last_txn t ∉ map fst gs ->
  exists t', read_lines TX_CORE_NUM RX_CORE_NUM (map GEN_OUTPUT (concat (map snd gs))) t = Ok t' /\
    forall core, index [] core (txn_list t') =
      index [] core (txn_list t) ++ map read_txn (filterb (fun g => core_of g.1 =? core) gs).
Proof using Htx Hcores.
  revert t. induction gs as [|g gs IH]; intros t HF HN Hlast.
  - exists t. split; [done|]. intros core. by rewrite app_nil_r.
  - apply list.Forall_cons in HF as [Hg HF]. cbn [map] in HN. apply list.NoDup_cons in HN as [Hn HN].
    destruct (read_group g t Hg) as (m' & E & Hm'); [intros Eg; apply Hlast; rewrite Eg; by left|].
    destruct (IH (Trace g.1 m') HF HN Hn) as (t' & E' & Ht'). exists t'. split.
    + cbn [map concat]. by rewrite map_app, read_lines_app, E.
    + intros core. rewrite Ht'. cbn [txn_list]. rewrite Hm', <- app_assoc. f_equal. cbn [filterb].
      destruct (Z.eqb_spec (core_of g.1) core) as [<-|Hne]; [by rewrite decide_True|by rewrite decide_False].
Qed.

(** ** The coroutines of a host *)

(** The programs of the coroutines of one host, core by core. *)
Definition host_programs (host : Z) (coroutine_num : nat) (l : gmap Z (list transaction)) : programs :=
  concat (map (fun core => map (fun k => (Place host core (k =? coroutine_num - 1)%nat, every k coroutine_num (index [] core l)))
                            (seq 0 coroutine_num))
            (seqZ RX_CORE_NUM TX_CORE_NUM)).

(** They are what the cores start. *)
Lemma host_coroutines host n l :
  coroutines (host_programs host n l) = concat (map (fun core => spawn host core n (index [] core l)) (seqZ RX_CORE_NUM TX_CORE_NUM)).
Proof using.
  unfold coroutines, host_programs, spawn. rewrite concat_map, map_map. f_equal. apply map_ext. intros core. by rewrite map_map.
Qed.
End reading.

(** Every element goes to one of the coroutines. *)
Lemma every_shares {A} (n : nat) (l : list A) : (0 < n)%nat -> concat (map (fun k => every k n l) (seq 0 n)) ≡ₚ l.
Proof.
  intros Hn. destruct n as [|n]; [lia|]. induction l as [|x l IH].
  - assert (H : forall ks, concat (map (fun k => every k (Datatypes.S n) (@nil A)) ks) = []) by (induction ks; [done|cbn; done]).
    by rewrite H.
  - cbn [seq map concat every]. replace (Datatypes.S n - 1)%nat with n by lia. cbn [app]. constructor.
    transitivity (concat (map (fun k => every k (Datatypes.S n) l) (seq 0 (Datatypes.S n)))); [|exact IH].
    rewrite seq_S, map_app, concat_app. cbn [map concat Nat.add]. rewrite app_nil_r, Permutation_app_comm. f_equiv.
    by rewrite <- seq_shift, map_map.
Qed.

(** Every element goes to one of the cores. *)
Lemma filter_shares {A} (f : A -> Z) (ks : list Z) (l : list A) :
  NoDup ks -> Forall (fun x => f x ∈ ks) l -> concat (map (fun k => filterb (fun x => f x =? k) l) ks) ≡ₚ l.
Proof.
  intros HN HF. induction HF as [|x l Hx HF IH].
  - clear. induction ks; [done|]. done.
  - transitivity (x :: concat (map (fun k => filterb (fun x => f x =? k) l) ks)); [|by constructor].
    clear IH HF. apply list_elem_of_split in Hx as (k1 & k2 & ->).
    apply list.NoDup_app in HN as (_ & Hd & HN). apply list.NoDup_cons in HN as [Hx HN].
    assert (Hsame : forall ks', f x ∉ ks' -> map (fun k => filterb (fun x => f x =? k) (x :: l)) ks' = map (fun k => filterb (fun x => f x =? k) l) ks').
    { intros ks' Hn. apply map_ext_in. intros k Hk%list_elem_of_In. cbn [filterb]. rewrite (proj2 (Z.eqb_neq _ _)); [done|]. intros E. by subst k. }
    rewrite !map_app, !concat_app. cbn [map concat]. rewrite !Hsame; [|first [done|intros Hk; apply (Hd _ Hk); by left]..].
    cbn [filterb]. rewrite Z.eqb_refl. cbn [app]. symmetry. apply Permutation_middle.
Qed.

Lemma concat_map_concat {A B} (f : A -> list B) (L : list (list A)) :
  concat (map f (concat L)) = concat (map (fun l => concat (map f l)) L).
Proof. induction L as [|l L IH]; [done|]. cbn [concat map]. by rewrite map_app, concat_app, IH. Qed.

Lemma concat_perm {A B} (f g : A -> list B) (l : list A) :
  (forall x, x ∈ l -> f x ≡ₚ g x) -> concat (map f l) ≡ₚ concat (map g l).
Proof.
  intros H. induction l as [|x l IH]; [done|]. cbn [map concat]. rewrite (H x) by by left.
  rewrite IH; [done|]. intros y Hy. apply H. by right.
Qed.

(** What the cores of a host have, as a function of the trace. *)
Section host.
Context (TX_CORE_NUM RX_CORE_NUM : Z) (Htx : 0 < TX_CORE_NUM).
Context (n : nat) (Hn : (0 < n)%nat) (host : Z) (l : gmap Z (list transaction)) (gs : list (Z * list Tpcc.LockRequest)).
Context (Hl : forall core, index [] core l = map read_txn (filterb (fun g => core_of TX_CORE_NUM RX_CORE_NUM g.1 =? core) gs)).

Abbreviation host_programs := (host_programs TX_CORE_NUM RX_CORE_NUM host n l).

Lemma host_program_ids : concat (map program_ids host_programs) ≡ₚ map (fun g => (host, g.1)) gs.
Proof using Htx Hn Hl.
  unfold TxnBenchTpcc.host_programs. rewrite concat_map_concat, map_map.
  rewrite (concat_perm _ (fun core => map (fun g => (host, g.1)) (filterb (fun g => core_of TX_CORE_NUM RX_CORE_NUM g.1 =? core) gs))).
  - rewrite <- (map_map (fun core => filterb _ gs) (map (fun g => (host, g.1)))), <- concat_map.
    apply Permutation_map, filter_shares; [apply NoDup_seqZ|]. apply list.Forall_forall. intros g _. apply elem_of_seqZ.
    pose proof (core_of_range TX_CORE_NUM RX_CORE_NUM Htx g.1). lia.
  - intros core _. rewrite map_map. unfold program_ids. cbn [fst snd p_host].
    rewrite <- (map_map (fun k => every k n _) (map (fun t => (host, t_id t)))), <- concat_map, (every_shares n _ Hn), Hl, map_map.
    done.
Qed.

Lemma host_program_txns p t : p ∈ host_programs -> t ∈ p.2 -> p_host p.1 = host /\ exists g, g ∈ gs /\ t = read_txn g.
Proof using Hn Hl.
  unfold TxnBenchTpcc.host_programs. intros Hp Ht. apply list_elem_of_In, in_concat in Hp as (ps & Hps & Hp).
  apply in_map_iff in Hps as (core & <- & _). apply in_map_iff in Hp as (k & <- & Hk). split; [done|]. cbn [snd] in Ht.
  assert (Hin : t ∈ index [] core l).
  { rewrite <- (every_shares n (index [] core l) Hn). apply list_elem_of_In, in_concat. eexists. split; [|by apply list_elem_of_In].
    apply in_map_iff. by exists k. }
  rewrite Hl in Hin. apply list_elem_of_fmap in Hin as (g & -> & Hg). exists g. split; [|done]. by apply elem_of_filterb in Hg as [_ ?].
Qed.
End host.

(** ** TPC-C on ParLock *)

(** A choice for each of finitely many machines. *)
Lemma finite_choice {A} (a : A) (P : Z -> A -> Prop) (ms : list Z) :
  (forall m, m ∈ ms -> exists x, P m x) -> exists f, forall m, m ∈ ms -> P m (f m).
Proof.
  induction ms as [|m ms IH]; intros H; [exists (fun _ => a); intros m Hm; by apply not_elem_of_nil in Hm|].
  destruct IH as [f Hf]; [intros x Hx; apply H; by right|]. destruct (H m) as [x Hx]; [by left|].
  exists (fun k => if decide (k = m) then x else f k). intros k Hk. case_decide as Hd; [by subst k|].
  apply Hf. by apply elem_of_cons in Hk as [?|?].
Qed.

Section tpcc.
Context (cfg : ParQueue.parcfg).

(** A transaction of the generator fits ParLock's requests. *)
Lemma tpcc_txn_fits mid tid rs host : in_uw 32 tid -> in_uw 8 host -> TpccProofs.txn_ok mid tid rs ->
  group_ok (tid, rs) /\ txn_fits (par_at cfg) (in_uw 32) host (read_txn (tid, rs)).
Proof using.
  intros Ht Hh (Hne & HN & HF).
  assert (Hr : Forall (fun lr => Tpcc.user_id lr = tid /\ in_uw 32 (Tpcc.obj_index lr) /\
    is_Some (rw_of_ls (op_of_type (type_value (Tpcc.lock_type lr))))) rs).
  { eapply list.Forall_impl; [exact HF|]. intros lr (Hu & Hty & t & w & Hlock & Hw & _). rewrite uw_small in Hu by done.
    split; [done|]. split; [|destruct Hty as [-> | ->]; by eexists].
    unfold TpccProofs.lock_of, in_uw in *. destruct t; cbv -[Z.add Z.mul Z.le Z.lt Z.pow] in *; lia. }
  split; [split; [done|]; eapply list.Forall_impl; [exact Hr|]; intros lr (Hu & Ho & _); split; [split; [by rewrite Hu|done]|done]|].
  split; cbn [read_txn lock_requests t_id fst snd]; [by rewrite map_map|].
  apply Forall_fmap. eapply list.Forall_impl; [exact Hr|]. intros lr (Hu & Ho & Hty). cbn. split; [done|].
  split; [done|]. split; [done|]. by intros o.
Qed.

Context (Hrf : ParQueue.PARLOCK_READER_FIRST cfg = true) (Heh : ParQueue.PARLOCK_ENQUEUE_HOLDERS cfg = false).
Context (Hshuffle : ParQueue.PARLOCK_TPCC_SHUFFLE cfg = true).
Context (TX RX : Z) (Htx : 0 < TX) (Hrx : 0 <= RX) (Hcores : TX + RX <= DPDK_LCORE_NUM).

Definition machines : list Z := seqZ 1 Tpcc.MACHINE_NUM.

(** What a machine reads of its trace. *)
Lemma machine_reads m ids gs rs : TpccProofs.trace_of (m - 1) ids gs rs -> in_uw 8 m ->
  NoDup ids -> Forall (fun tid => 0 <= tid < 2 ^ 32 - 1) ids ->
  Forall (fun g => txn_fits (par_at cfg) (in_uw 32) m (read_txn g)) gs /\
  exists l, get_trace_for_lcores TX RX (map GEN_OUTPUT rs) = Ok l /\
    forall core, index [] core l = map read_txn (filterb (fun g => core_of TX RX g.1 =? core) gs).
Proof using Htx Hrx Hcores.
  intros (-> & Hids & HF) Hm HN Hr.
  assert (Hall : Forall (fun g => 0 <= g.1 < 2 ^ 32 - 1 /\ (group_ok g /\ txn_fits (par_at cfg) (in_uw 32) m (read_txn g))) gs).
  { rewrite <- Hids in Hr. apply list.Forall_forall. intros g Hg. rewrite list.Forall_forall in HF. rewrite list.Forall_forall in Hr.
    assert (Hrg : 0 <= g.1 < 2 ^ 32 - 1) by (apply Hr, list_elem_of_fmap; by exists g).
    split; [done|]. destruct g as [tid rs]. apply (tpcc_txn_fits (m - 1)); [unfold in_uw; cbn [fst] in Hrg; lia|done|by apply (HF (tid, rs))]. }
  split; [eapply list.Forall_impl; [exact Hall|]; by intros g (_ & _ & ?)|].
  destruct (read_groups TX RX Htx Hcores gs (Trace (u32 (-1)) ∅)) as (t' & E & Ht').
  - eapply list.Forall_impl; [exact Hall|]. by intros g (_ & ? & _).
  - by rewrite Hids.
  - cbn [last_txn]. intros Hin. apply list_elem_of_fmap in Hin as (g & Eg & Hg). rewrite list.Forall_forall in Hall.
    destruct (Hall g Hg) as [Hrg _]. rewrite <- Eg in Hrg. change (u32 (-1)) with (2 ^ 32 - 1) in Hrg. lia.
  - exists (txn_list t'). unfold get_trace_for_lcores. rewrite E. split; [done|]. intros core. by rewrite Ht'.
Qed.

Context (n : nat) (Hn : (0 < n)%nat).

(** The coroutines of all machines, each machine with what it read. *)
Definition cluster (lists : Z -> gmap Z (list transaction)) : programs :=
  concat (map (fun m => host_programs TX RX m n (lists m)) machines).

Lemma cluster_txns (lists : Z -> gmap Z (list transaction)) (gs : Z -> list (Z * list Tpcc.LockRequest)) p t :
  (forall m, m ∈ machines -> forall core, index [] core (lists m) = map read_txn (filterb (fun g => core_of TX RX g.1 =? core) (gs m))) ->
  p ∈ cluster lists -> t ∈ p.2 -> exists m g, m ∈ machines /\ p_host p.1 = m /\ g ∈ gs m /\ t = read_txn g.
Proof using Hn.
  intros H Hp Ht. unfold cluster in Hp. apply list_elem_of_In, in_concat in Hp as (ps & Hps & Hp).
  apply in_map_iff in Hps as (m & <- & Hm). apply list_elem_of_In in Hm, Hp.
  destruct (host_program_txns TX RX n Hn m (lists m) (gs m) (H m Hm) p t Hp Ht) as (E & g & Hg & ->). by exists m, g.
Qed.

(** A transaction whose number is not 0 waits for its locks. *)
Lemma fitting_txn_waits host t : txn_fits (par_at cfg) (in_uw 32) host t -> in_uw 32 (t_id t) -> t_id t <> 0 -> txn_waits t.
Proof using.
  intros [_ HF] Ht Hne. eapply list.Forall_impl; [exact HF|]. intros lr (_ & G & _). apply par_waits; [done|done|by right].
Qed.

Lemma cluster_waits (lists : Z -> gmap Z (list transaction)) (gs : Z -> list (Z * list Tpcc.LockRequest)) :
  (forall m, m ∈ machines -> Forall (fun g => in_uw 32 g.1 /\ g.1 <> 0) (gs m) /\
     Forall (fun g => txn_fits (par_at cfg) (in_uw 32) m (read_txn g)) (gs m) /\
     forall core, index [] core (lists m) = map read_txn (filterb (fun g => core_of TX RX g.1 =? core) (gs m))) ->
  programs_wait (cluster lists).
Proof using Hn.
  intros H. apply list.Forall_forall. intros p Hp. apply list.Forall_forall. intros t Ht.
  destruct (cluster_txns lists gs p t) as (m & g & Hm & _ & Hg & ->); [intros m Hm; apply (H m Hm)|done|done|].
  destruct (H m Hm) as (HI & HF & _). rewrite list.Forall_forall in HI, HF. destruct (HI g Hg) as [Hu Hz].
  by apply (fitting_txn_waits m); [apply HF|..].
Qed.

Lemma cluster_ok (lists : Z -> gmap Z (list transaction)) (gs : Z -> list (Z * list Tpcc.LockRequest)) :
  (forall m, m ∈ machines -> NoDup (map fst (gs m)) /\
     Forall (fun g => txn_fits (par_at cfg) (in_uw 32) m (read_txn g)) (gs m) /\
     forall core, index [] core (lists m) = map read_txn (filterb (fun g => core_of TX RX g.1 =? core) (gs m))) ->
  programs_ok (par_at cfg) (in_uw 32) (cluster lists).
Proof using Htx Hn.
  intros H. split.
  - apply list.Forall_forall. intros p Hp. apply list.Forall_forall. intros t Ht.
    destruct (cluster_txns lists gs p t) as (m & g & Hm & -> & Hg & ->); [intros m Hm; apply (H m Hm)|done|done|].
    destruct (H m Hm) as (_ & HF & _). rewrite list.Forall_forall in HF. by apply HF.
  - unfold cluster. rewrite concat_map_concat, map_map.
    rewrite (concat_perm _ (fun m => map (fun g => (m, g.1)) (gs m))).
    2:{ intros m Hm. destruct (H m Hm) as (_ & _ & Hl). by apply host_program_ids. }
    assert (HN : NoDup machines) by apply NoDup_seqZ. induction HN as [|m ms Hm HN IH]; [constructor|]. cbn [map concat].
    apply list.NoDup_app. split_and!.
    + rewrite <- (map_map fst (pair m)). destruct (H m) as [HNm _]; [by left|].
      by apply (NoDup_fmap_2 (pair m)) in HNm.
    + intros x Hx Hx'. apply list_elem_of_fmap in Hx as (g & -> & _). apply list_elem_of_In, in_concat in Hx' as (l & Hl & Hx').
      apply in_map_iff in Hl as (m' & <- & Hm'). apply in_map_iff in Hx' as (g' & [= -> _] & _). by apply Hm, list_elem_of_In.
    + apply IH. intros m' Hm'. apply H. by right.
Qed.
End tpcc.


Definition tpcc_cfg : ParQueue.parcfg := ParQueue.ParCfg 1 true false true false 800.

